(* ===== verification/_CoqProject ===== *)
-Q . S2P
Prelude.v
F64.v
F64Error.v
Json.v
Common.v
Layout.v
Bpf.v
Model.v
Engine.v
Tuner.v
Store.v
Enrich.v
Collector.v
Text.v
Workload.v
Classify.v
Procfs.v
Aggregator.v
History.v
Scheduler.v
Api.v
Kepler.v
Views.v
Controller.v
Host.v
Rapl.v
Hwmon.v
Gpu.v
Redfish.v
Agent.v
AgentProps.v
EndToEnd.v
Machine.v
Accounting.v
Sources.v
Wire.v
Server.v
Pipeline.v
Perf.v
Startup.v
Registry.v
Policy.v
Reporting.v
Fleet.v
Carbon.v
Testing.v
TestsAgent.v
TestsAggregator.v
TestsApi.v
TestsFleet.v
