(* ===== verification/Prelude.v ===== *)
(** * Keck: a verification library of its measurement, attribution and reporting

    Keck measures the power of Kubernetes nodes and attributes it to processes,
    pods, namespaces, teams and clusters.  This library models its Rust code as
    executable definitions and proves what makes it correct.

    ** The program and where it is modelled

    - keck-common, keck-agent/src/attribution/types.rs: the shared data
      (file Common), and the sizes and offsets of the C layout in which it crosses
      into the kernel (Layout).
    - keck-ebpf/src/main.rs: four kernel programs charge run time, counters,
      frequency residency and network bytes to tasks in BPF maps; the observer
      of keck-agent/src/ebpf/mod.rs drains them (Bpf).  The handlers are
      functions on the map state; what the kernel supplies is the event.  The
      drain reads and then removes entry by entry, and the kernel may run before
      each of these system calls, any of which may fail ([DrainEnv]).
    - keck-agent/src/ebpf/mod.rs (loading, attaching, dropping) and
      perf_counters.rs open hardware counters: Perf, a state monad over the
      table of open descriptors with the system calls as the record [Kernel].
    - keck-agent/src/attribution: models weigh the tasks of a core (Model), the
      engine splits measured energy over cores, tasks and processes (Engine), a
      tuner adapts the coefficients (Tuner).
    - keck-agent/src/hardware: the drivers rapl.rs (Rapl), hwmon.rs (Hwmon),
      gpu.rs (Gpu) and platform.rs (Redfish) discover and read meters over the
      files, variables and HTTP answers of a machine, the record [Host.Host].
      [Host.SourceTrait] is the PowerSource trait: its laws are what a driver
      promises, each driver is an instance, and Sources puts the discovered
      meters behind it.  collector.rs polls meters in tiers and feeds the engine
      (Collector).
    - keck-agent/src/k8s/mod.rs groups processes into containers, pods and
      namespaces (Enrich); keck-agent/src/store and output/query.rs keep and
      serve the recent history (Store).
    - keck-agent/src/main.rs: start-up and the readiness probe (Startup); the
      loop the agent really runs, reading and selecting sources, enumerating
      pods, reporting (Agent, theorems in AgentProps), over the text of /proc and
      the counters (Procfs, with the string operations of Text) and the pod
      identities of k8s/workload.rs (Workload).
    - The JSON between agent and controller: Json has values, codecs and their
      round-trip law; Wire the serialisers the agent's types derive and the
      deserialisers the controller's types derive.  The float a parser makes of a
      printed float is a parameter ([reparse]), as serde_json need not return the
      same one.  Pipeline sends the agent's request to the running controller.
    - keck-controller: reports are authenticated and validated (Api),
      aggregated (Aggregator), joined by what kepler_scraper.rs reads from
      Kepler's text exposition (Kepler), classified (Classify, application.rs),
      served as pages (Views) and gauges, and used by the scheduler extender
      (Scheduler) and the carbon tracker (Carbon).  Controller is the transition
      system of main.rs: reports, node watch, scrapes, classification and
      metrics scrapes interleave as steps under the lock.  Server has the route
      table, the server's start and [main] itself as turns of its tasks.
      EndToEnd composes an agent tick with the controller's endpoint.
    - keck-fleet: clusters are registered (Registry), checked against policies
      (Policy) and reported on daily (Reporting); Fleet is its [main], with the
      loops of the policy engine and the report generator.
    - The unit tests of the repository are booleans evaluated on these
      definitions (Testing, TestsAgent, TestsAggregator, TestsApi, TestsFleet).

    This file, Prelude, holds the machine integers, hash-map iteration, keyed
    accumulation, sorting, sums and tactics the others share; F64 holds the
    floating-point arithmetic and F64Error the bounds of its rounding errors.
    Machine, Accounting and History hold theorems that span a whole iteration or
    a whole run: AgentProps in machine arithmetic, counters over many ticks, and
    the aggregator's tables against the history of events.

    ** How code is modelled

    - Integers are [Z] with the wrap-around of release builds written out.
    - [f64] is the Standard Library's executable binary64.  The attribution
      code is written against the class [FloatOps] and instantiated both with
      [f64] (what runs) and with rationals (where exact conservation laws are
      stated without error terms).  [FloatLaws] is what
      proofs use of either; F64 proves it of the machine floats, including that
      a rounded share never exceeds what it is a share of.
    - A [HashMap] is a [gmap]; its iteration order is an arbitrary [HashIter],
      so every theorem holds for every order.
    - State under a lock, a map or a struct is a record; an operation takes and
      returns it.  Errors are [option] or [result]; a panic is [None].
    - Clocks, environment variables, files, API answers, HTTP answers, system
      calls and request bodies are arguments.  Log and error messages are kept
      as the values they print.
    - Text that is parsed (proc files, sysfs names, exposition pages, CPU lists)
      is a string, and the parsers are translated character by character.
    - Loops are folds or structural recursion, with three exceptions.  Kepler's
      label loop recurses on the length of what is left (well-founded), the
      decimal printer on a bound of the digits, and the wait for Kubernetes has
      fuel 10, which is enough (Startup proves that any more
      gives the same result).

    ** What the theorems show

    - Kernel accounting (Bpf): against an abstract scheduler, the times drained
      over any intervals never exceed the time a task ran and fall short of it by
      at most what was charged while a drain was under way, between its reads and
      its removals; a CPU is never charged more than the wall clock.
    - Attribution (Engine): machine-float shares are bounded by their core and
      socket; energy is conserved exactly over the rationals for every lawful
      model ([LawfulModel], which all three models of the source satisfy); the
      only panic is characterised from the engine's construction on.  Tuner: an
      interval without two tasks on a core changes nothing.
    - Meters: every reading of a discovered source is well typed, the two
      computations of a delta agree, and the power listed for a source is its
      own, because discovery never gives two counters one id (Sources).
      Discovery is complete for the kernel's layout (Rapl, Hwmon), keeps only
      the GPUs of the node (Gpu), and finds only readable Redfish sources, one
      per component (Redfish).
    - Start-up: the wait for Kubernetes ends; descriptors are opened in one set
      and closed again, also when start-up fails, except for those a partly failed
      attachment leaks, whose number is given (Perf, Startup); the number of CPUs
      is read back from the kernel's list; the probe, if its port is free, is
      ready exactly when a report has been accepted.
    - Agent loop: pods get no more than the node has, on both enumeration paths
      (AgentProps, exactly), and in binary64 with all its roundings for the
      report of a whole iteration (Machine); a process's CPU ticks are charged
      once over any number of iterations (Accounting); selection is the first best
      reading; reports are consistent; pod uids round-trip through cgroup paths
      without colons; the pod cache is the last listing, with the first answer
      about each owner, be it a failure.
    - Local store: rings and outbox refine the unbounded history.  Enrichment
      keeps processes and adds power up, pod by pod and namespace by namespace.  Collector: ticks, deltas and
      reconciliation.
    - Wire: what the agent posts is parsed as the report it built, but for the
      float of its quality figure, which is what the parser reads.
    - Kepler: no page makes the scraper panic; a page in the canonical layout,
      without quotes and braces in values, is read back as the sums of its labelled
      samples; after ingestion the controller knows exactly
      these and other methods' entries are untouched.
    - Controller: ingestion exactly as specified for every key; over any history
      of events the tables are its latest unsuperseded entries (History); guarded
      endpoint, and nothing written without the key in any run of main, whose
      states are those of the transition system (Server); attributed and category
      totals do not wrap; views, pages and gauges are exact in every reachable
      state; groups follow an independent definition of the criteria;
      classification partitions; the extender's refusals of nodes with power data
      are characterised; and what the agent measures is what the controller then
      knows.
    - Fleet: routing picks a minimum, team and fleet views and daily reports are
      exact, policies report exactly the violations, a registered cluster that
      falls silent is alerted about within the engine's thirty seconds and the
      delay of its round (Fleet; main itself never registers one), panics on NaN
      are characterised.  Carbon figures are energy times intensity, whatever the
      interval.
    - Unit tests: each test of the source passes on the model, but for three that
      contradict the code's documentation and are listed by the examples
      [model_tests_run], [aggregator_tests_run] and [api_tests_run].

    Bounds in statements: 2^53 uJ per socket and interval (where [u64 as f64] is
    exact; over 2500 kWh), 65536 entries and context switches together per drain
    interval (the map's capacity), sixty million nodes and a hundred million pods in the controller
    (below which validated sums cannot wrap), sums of per-process counters below
    2^64; in Machine, totals of a scan up to 2^53 (where they are exact as floats)
    and nodes below 2^48 uW (281 MW).

    ** Not modelled

    What libraries do: rendering and parsing of JSON text (serde_json), of
    metrics text (prometheus-client), HTTP (reqwest, axum), the Kubernetes
    client (kube), loading of programs (aya); and how axum answers requests it
    does not route.  The agent's Prometheus exporter, the scheduler's webhook
    server and the two servers of the fleet are stubs that only log and sleep.
    The raw system calls behind [Kernel] are its parameters.  Strings are bytes
    and white space is ASCII's (Text), where Rust's trim knows Unicode's too.
    The operator (Go) and the console plugin (TypeScript) are in other languages.

    Next: per-pod lower bounds in machine floats, and the wire format between
    clusters and the fleet once its server is written. *)

From stdpp Require Export base gmap sets list strings sorting.
From Stdlib Require Export ZArith Lia.

Open Scope Z_scope.

(** ** Machine integers

    Rust's [u8], [u32], [u64], [u128] and [i64] are [Z] with the wrap-around of
    release builds (the images of the repository are built with [--release] and
    no [overflow-checks]) written out. *)

Definition u8_mod : Z := 2 ^ 8.
Definition u32_mod : Z := 2 ^ 32.
Definition u64_mod : Z := 2 ^ 64.
Definition u128_mod : Z := 2 ^ 128.
Definition u64_max : Z := u64_mod - 1.
Definition u32_max : Z := u32_mod - 1.

Definition u8_wrap (x : Z) : Z := x mod u8_mod.
Definition u32_wrap (x : Z) : Z := x mod u32_mod.
Definition u64_wrap (x : Z) : Z := x mod u64_mod.
Definition u128_wrap (x : Z) : Z := x mod u128_mod.
(** [as i64]: the two's-complement reinterpretation. *)
Definition i64_wrap (x : Z) : Z := (x + 2 ^ 63) mod u64_mod - 2 ^ 63.

Definition u32_add (a b : Z) : Z := u32_wrap (a + b).
Definition u32_mul (a b : Z) : Z := u32_wrap (a * b).
Definition u64_add (a b : Z) : Z := u64_wrap (a + b).
Definition u64_sub (a b : Z) : Z := u64_wrap (a - b).
Definition u64_mul (a b : Z) : Z := u64_wrap (a * b).
(** [saturating_sub]. *)
Definition sat_sub (a b : Z) : Z := Z.max 0 (a - b).
(** [i64::unsigned_abs]. *)
Definition unsigned_abs (a : Z) : Z := Z.abs a.

Definition is_u8 (x : Z) : Prop := 0 <= x < u8_mod.
Definition is_u32 (x : Z) : Prop := 0 <= x < u32_mod.
Definition is_u64 (x : Z) : Prop := 0 <= x < u64_mod.

(** [iter().sum::<u64>()]. *)
Definition sum_u64 (l : list Z) : Z := foldl u64_add 0 l.
(** The mathematical sum the code means. *)
Definition sum_Z (l : list Z) : Z := foldr Z.add 0 l.

Create HintDb keck.
#[export] Hint Extern 1 (0 <= _) => lia : keck.

Lemma u64_wrap_range x : is_u64 (u64_wrap x).
Proof. apply Z.mod_pos_bound. reflexivity. Qed.
Lemma u32_wrap_range x : is_u32 (u32_wrap x).
Proof. apply Z.mod_pos_bound. reflexivity. Qed.
Lemma u64_wrap_id x : is_u64 x → u64_wrap x = x.
Proof. apply Z.mod_small. Qed.
Lemma u32_wrap_id x : is_u32 x → u32_wrap x = x.
Proof. apply Z.mod_small. Qed.
Lemma u64_add_exact a b : 0 <= a + b < u64_mod → u64_add a b = a + b.
Proof. apply Z.mod_small. Qed.
Lemma u64_add_wrap a b : u64_add (u64_wrap a) b = u64_wrap (a + b).
Proof. unfold u64_add, u64_wrap. by rewrite Zplus_mod_idemp_l. Qed.
Lemma u64_add_range a b : is_u64 (u64_add a b).
Proof. apply u64_wrap_range. Qed.
Lemma sat_sub_range a b : is_u64 a → is_u64 b → is_u64 (sat_sub a b).
Proof. unfold is_u64, sat_sub. lia. Qed.
Lemma sat_sub_exact a b : b <= a → sat_sub a b = a - b.
Proof. unfold sat_sub. lia. Qed.
Lemma sat_sub_zero a b : a <= b → sat_sub a b = 0.
Proof. unfold sat_sub. lia. Qed.

#[export] Hint Resolve u64_wrap_range u32_wrap_range u64_add_range sat_sub_range : keck.

Lemma sum_Z_cons x l : sum_Z (x :: l) = x + sum_Z l.
Proof. done. Qed.
Lemma sum_Z_app l1 l2 : sum_Z (l1 ++ l2) = sum_Z l1 + sum_Z l2.
Proof. induction l1 as [|x l1 IH]; simpl; [done|rewrite IH; lia]. Qed.
Lemma sum_Z_nonneg l : Forall (λ x, 0 <= x) l → 0 <= sum_Z l.
Proof. induction 1; simpl; lia. Qed.
Lemma sum_Z_le_elem l x : Forall (λ x, 0 <= x) l → x ∈ l → x <= sum_Z l.
Proof.
  induction 1 as [|y l Hy Hl IH]; intros Hx; [by apply not_elem_of_nil in Hx|].
  apply elem_of_cons in Hx as [->|Hx]; simpl.
  - pose proof (sum_Z_nonneg l Hl). lia.
  - specialize (IH Hx). lia.
Qed.
#[global] Instance sum_Z_perm : Proper ((≡ₚ) ==> (=)) sum_Z.
Proof. induction 1; simpl; lia. Qed.

Lemma foldl_u64_add l a : foldl u64_add (u64_wrap a) l = u64_wrap (a + sum_Z l).
Proof.
  revert a. induction l as [|x l IH]; intros a; simpl.
  { by rewrite Z.add_0_r. }
  rewrite u64_add_wrap, IH. f_equal. lia.
Qed.

(** The wrapped machine sum is the mathematical sum modulo 2^64, whatever the
    order of the additions. *)
Lemma sum_u64_wrap l : sum_u64 l = u64_wrap (sum_Z l).
Proof. unfold sum_u64. exact (foldl_u64_add l 0). Qed.
Lemma sum_u64_exact l : is_u64 (sum_Z l) → sum_u64 l = sum_Z l.
Proof. rewrite sum_u64_wrap. apply u64_wrap_id. Qed.
Lemma sum_u64_range l : is_u64 (sum_u64 l).
Proof. rewrite sum_u64_wrap. apply u64_wrap_range. Qed.
#[global] Instance sum_u64_perm : Proper ((≡ₚ) ==> (=)) sum_u64.
Proof. intros l1 l2 H. by rewrite !sum_u64_wrap, H. Qed.
#[export] Hint Resolve sum_u64_range : keck.

(** ** [HashMap] iteration

    A [HashMap] is a [gmap]; the order in which Rust iterates over it is
    unspecified, so every definition that iterates takes the order from this
    class, whose only law is that every entry is visited exactly once. *)
Class HashIter := {
  hm_iter : ∀ {K} `{Countable K} {V}, gmap K V → list (K * V);
  hm_iter_perm : ∀ {K} `{Countable K} {V} (m : gmap K V), hm_iter m ≡ₚ map_to_list m
}.

(** The witness order: the one of [map_to_list]. *)
Definition hash_iter_list : HashIter.
Proof. refine {| hm_iter := λ K _ _ V, map_to_list |}. done. Defined.

Section hash_map.
Context `{HI : HashIter}.

Definition hm_values `{Countable K} {V} (m : gmap K V) : list V := (hm_iter m).*2.
Definition hm_keys `{Countable K} {V} (m : gmap K V) : list K := (hm_iter m).*1.

Lemma hm_iter_elem `{Countable K} {V} (m : gmap K V) k v :
  (k, v) ∈ hm_iter m ↔ m !! k = Some v.
Proof. rewrite hm_iter_perm. apply elem_of_map_to_list. Qed.
Lemma hm_values_elem `{Countable K} {V} (m : gmap K V) v :
  v ∈ hm_values m ↔ ∃ k, m !! k = Some v.
Proof.
  unfold hm_values. rewrite list_elem_of_fmap. split.
  - intros [[k w] [-> Hk]]. exists k. by apply hm_iter_elem.
  - intros [k Hk]. exists (k, v). split; [done|]. by apply hm_iter_elem.
Qed.
Lemma hm_keys_elem `{Countable K} {V} (m : gmap K V) k :
  k ∈ hm_keys m ↔ is_Some (m !! k).
Proof.
  unfold hm_keys. rewrite list_elem_of_fmap. split.
  - intros [[k' w] [-> Hk]]. exists w. by apply hm_iter_elem.
  - intros [v Hk]. exists (k, v). split; [done|]. by apply hm_iter_elem.
Qed.
Lemma hm_keys_NoDup `{Countable K} {V} (m : gmap K V) : NoDup (hm_keys m).
Proof. unfold hm_keys. rewrite hm_iter_perm. apply NoDup_fst_map_to_list. Qed.
Lemma hm_values_perm `{Countable K} {V} (m : gmap K V) : hm_values m ≡ₚ (map_to_list m).*2.
Proof. unfold hm_values. by rewrite hm_iter_perm. Qed.
Lemma hm_values_insert `{Countable K} {V} (m : gmap K V) k v :
  m !! k = None → hm_values (<[k:=v]> m) ≡ₚ v :: hm_values m.
Proof. intros Hk. rewrite !hm_values_perm, map_to_list_insert by done. done. Qed.
Lemma hm_values_empty `{Countable K} {V} : hm_values (∅ : gmap K V) = [].
Proof.
  apply Permutation_nil_r. rewrite hm_values_perm. by rewrite map_to_list_empty.
Qed.
Lemma length_hm_iter `{Countable K} {V} (m : gmap K V) : length (hm_iter m) = size m.
Proof. rewrite hm_iter_perm. apply length_map_to_list. Qed.
End hash_map.

(** ** Keyed accumulation

    [*m.entry(key).or_insert(init) = step ...] over a list: the pattern behind
    every aggregation of the repository. *)
Definition hm_upd `{Countable K} {V} (k : K) (d : V) (f : V → V) (m : gmap K V) : gmap K V :=
  <[k := f (default d (m !! k))]> m.

Section group.
Context `{Countable K} {V X : Type} (key : X → K) (init : X → V) (step : X → V → V).

Definition hm_group_from (m : gmap K V) (l : list X) : gmap K V :=
  foldl (λ m x, hm_upd (key x) (init x) (step x) m) m l.
Definition hm_group (l : list X) : gmap K V := hm_group_from ∅ l.

(** What one key accumulates: the fold of [step] over its own items, in order. *)
Definition group_of (k : K) (l : list X) : list X := filter (λ x, key x = k) l.

Lemma hm_group_from_lookup m l k :
  hm_group_from m l !! k =
    match m !! k, group_of k l with
    | Some v, xs => Some (foldl (λ v x, step x v) v xs)
    | None, [] => None
    | None, x :: xs => Some (foldl (λ v x, step x v) (step x (init x)) xs)
    end.
Proof.
  revert m. induction l as [|y l IH]; intros m.
  { by cbn; destruct (m !! k). }
  change (hm_group_from m (y :: l))
    with (hm_group_from (hm_upd (key y) (init y) (step y) m) l).
  rewrite IH. unfold hm_upd, group_of. rewrite filter_cons.
  destruct (decide (key y = k)) as [<-|Hne].
  - rewrite lookup_insert_eq. by destruct (m !! key y).
  - by rewrite lookup_insert_ne by done.
Qed.

Lemma hm_group_lookup l k :
  hm_group l !! k =
    match group_of k l with
    | [] => None
    | x :: xs => Some (foldl (λ v x, step x v) (init x) (x :: xs))
    end.
Proof. unfold hm_group. rewrite hm_group_from_lookup, lookup_empty. by destruct (group_of k l). Qed.

Lemma hm_group_is_Some l k : is_Some (hm_group l !! k) ↔ ∃ x, x ∈ l ∧ key x = k.
Proof.
  rewrite hm_group_lookup. unfold group_of.
  destruct (filter (λ x, key x = k) l) as [|x xs] eqn:E.
  - split; [by intros []|]. intros (x & Hx & Hk).
    assert (x ∈ filter (λ x, key x = k) l) as Hin by (apply list_elem_of_filter; done).
    rewrite E in Hin. by apply not_elem_of_nil in Hin.
  - split; [|eauto]. intros _. exists x.
    assert (x ∈ filter (λ x, key x = k) l) as Hin by (rewrite E; left).
    apply list_elem_of_filter in Hin. naive_solver.
Qed.
End group.

(** ** Sums over maps *)
Section map_sum.
Context `{Countable K} {V : Type} (f : K → V → Z).

Definition map_sum (m : gmap K V) : Z := sum_Z ((λ kv, f kv.1 kv.2) <$> map_to_list m).

Lemma map_sum_empty : map_sum ∅ = 0.
Proof. unfold map_sum. by rewrite map_to_list_empty. Qed.
Lemma map_sum_insert_None m k v : m !! k = None → map_sum (<[k:=v]> m) = f k v + map_sum m.
Proof. intros Hk. unfold map_sum. by rewrite map_to_list_insert. Qed.
Lemma map_sum_insert m k v :
  map_sum (<[k:=v]> m) = map_sum m - from_option (f k) 0 (m !! k) + f k v.
Proof.
  destruct (m !! k) as [w|] eqn:Hk; cbn [from_option].
  - rewrite <-(insert_delete_id m k w) at 2 by done. rewrite <-insert_delete_eq.
    rewrite !map_sum_insert_None by apply lookup_delete_eq. lia.
  - rewrite map_sum_insert_None by done. lia.
Qed.
Lemma map_sum_nonneg m : (∀ k v, m !! k = Some v → 0 <= f k v) → 0 <= map_sum m.
Proof.
  intros Hf. apply sum_Z_nonneg, Forall_fmap, Forall_forall. intros [k v] Hkv.
  apply Hf. by apply elem_of_map_to_list.
Qed.
Lemma map_sum_ge m k v : (∀ k v, m !! k = Some v → 0 <= f k v) → m !! k = Some v → f k v <= map_sum m.
Proof.
  intros Hf Hk. apply sum_Z_le_elem.
  - apply Forall_fmap, Forall_forall. intros [k' v'] Hkv. apply Hf. by apply elem_of_map_to_list.
  - apply list_elem_of_fmap. exists (k, v). split; [done|]. by apply elem_of_map_to_list.
Qed.
End map_sum.

Lemma map_sum_single `{Countable K} {V} (f : V → Z) (k : K) (m : gmap K V) :
  map_sum (λ k' v, if decide (k' = k) then f v else 0) m = from_option f 0 (m !! k).
Proof.
  induction m as [|k' v m Hk IH] using map_ind; [by rewrite map_sum_empty, lookup_empty|].
  rewrite map_sum_insert_None, IH by done. destruct (decide (k' = k)) as [->|Hne].
  - rewrite lookup_insert_eq, Hk. cbn. lia.
  - rewrite lookup_insert_ne by done. lia.
Qed.

Lemma sum_Z_values `{HI : HashIter} `{Countable K} (m : gmap K Z) :
  sum_Z (hm_values m) = map_sum (λ _ v, v) m.
Proof. rewrite hm_values_perm. reflexivity. Qed.

(** Distinct keys read at most the whole map. *)
Lemma sum_lookup_le `{Countable K} (m : gmap K Z) (ks : list K) :
  (∀ k v, m !! k = Some v → 0 <= v) → NoDup ks →
  sum_Z ((λ k, default 0 (m !! k)) <$> ks) <= map_sum (λ _ v, v) m.
Proof.
  intros Hm Hnd. revert m Hm. induction Hnd as [|k ks Hk Hnd IH]; intros m Hm.
  { by apply map_sum_nonneg. }
  rewrite fmap_cons, sum_Z_cons.
  assert ((λ k, default 0 (m !! k)) <$> ks = (λ k', default 0 (delete k m !! k')) <$> ks) as ->.
  { apply list_fmap_ext. intros i k' Hk'. rewrite lookup_delete_ne; [done|].
    intros ->. apply Hk. by eapply list_elem_of_lookup_2. }
  assert (map_sum (λ _ v, v) m = default 0 (m !! k) + map_sum (λ _ v, v) (delete k m)) as ->.
  { destruct (m !! k) as [v|] eqn:E; cbn.
    - rewrite <-(insert_delete_id m k v) at 1 by done.
      rewrite map_sum_insert_None by apply lookup_delete_eq. done.
    - by rewrite delete_id. }
  apply Z.add_le_mono_l, IH. intros k' v [_ Hv]%lookup_delete_Some. eauto.
Qed.

(** ** Keyed accumulation of a u64 total

    When the wrapped additions of a grouping do not overflow, every key holds
    the sum of its own items and the map the sum of all. *)
Section group_sum.
Context `{Countable K} {V X : Type} (key : X → K) (init : X → V) (step : X → V → V).
Context (mu : V → Z) (g : X → Z).
Context (mu_init : ∀ x, mu (init x) = 0)
  (mu_step : ∀ x v, 0 <= mu v → 0 <= g x → mu v + g x < u64_mod → mu (step x v) = mu v + g x).

Lemma foldl_mu v l : 0 <= mu v → Forall (λ x, 0 <= g x) l → mu v + sum_Z (g <$> l) < u64_mod →
  mu (foldl (λ v x, step x v) v l) = mu v + sum_Z (g <$> l).
Proof.
  intros Hv Hl. revert v Hv. induction Hl as [|x l Hx Hl IH]; intros v Hv Hlt;
    [cbn in *; lia|rewrite fmap_cons, sum_Z_cons in *; cbn [foldl]].
  assert (0 <= sum_Z (g <$> l)) by (apply sum_Z_nonneg, Forall_fmap, Hl).
  assert (mu (step x v) = mu v + g x) as Hs by (apply mu_step; lia).
  rewrite IH; rewrite ?Hs; lia.
Qed.

Lemma hm_group_from_map_sum m l : (∀ k v, m !! k = Some v → 0 <= mu v) →
  Forall (λ x, 0 <= g x) l → map_sum (λ _, mu) m + sum_Z (g <$> l) < u64_mod →
  map_sum (λ _, mu) (hm_group_from key init step m l) = map_sum (λ _, mu) m + sum_Z (g <$> l).
Proof.
  intros Hm Hl. revert m Hm. induction Hl as [|x l Hx Hl IH]; intros m Hm Hlt;
    [cbn in *; lia|rewrite fmap_cons, sum_Z_cons in *; cbn [hm_group_from foldl]].
  assert (0 <= sum_Z (g <$> l)) by (apply sum_Z_nonneg, Forall_fmap, Hl).
  assert (0 <= mu (default (init x) (m !! key x)) ∧
          mu (default (init x) (m !! key x)) = from_option mu 0 (m !! key x) ∧
          from_option mu 0 (m !! key x) <= map_sum (λ _, mu) m) as (Hpos & Heq & Hle).
  { destruct (m !! key x) as [v|] eqn:E; cbn.
    - split; [eauto|]. split; [done|]. by eapply (map_sum_ge (λ _, mu)).
    - rewrite mu_init. split; [lia|]. split; [done|]. by apply map_sum_nonneg. }
  assert (map_sum (λ _, mu) (hm_upd (key x) (init x) (step x) m) = map_sum (λ _, mu) m + g x) as Hs.
  { unfold hm_upd. rewrite map_sum_insert, mu_step by lia. lia. }
  unfold hm_group_from in *. rewrite IH; rewrite ?Hs; try lia.
  intros k v Hk. unfold hm_upd in Hk. apply lookup_insert_Some in Hk as [[<- <-]|[_ Hk]]; [|eauto].
  rewrite mu_step; lia.
Qed.
Lemma hm_group_map_sum l : Forall (λ x, 0 <= g x) l → sum_Z (g <$> l) < u64_mod →
  map_sum (λ _, mu) (hm_group key init step l) = sum_Z (g <$> l).
Proof.
  intros Hl Hlt. unfold hm_group. rewrite hm_group_from_map_sum; rewrite ?map_sum_empty; done.
Qed.

Lemma sum_filter_le (P : X → Prop) `{∀ x, Decision (P x)} l : Forall (λ x, 0 <= g x) l →
  0 <= sum_Z (g <$> filter P l) <= sum_Z (g <$> l).
Proof.
  induction 1 as [|x l Hx Hl IH]; [done|]. rewrite filter_cons. case_decide; rewrite ?fmap_cons, ?sum_Z_cons in *; lia.
Qed.
Lemma hm_group_lookup_mu l k v : hm_group key init step l !! k = Some v →
  Forall (λ x, 0 <= g x) l → sum_Z (g <$> l) < u64_mod →
  mu v = sum_Z (g <$> group_of key k l).
Proof.
  rewrite hm_group_lookup. intros Hk Hl Hlt.
  pose proof (sum_filter_le (λ x, key x = k) l Hl) as Hle. fold (group_of key k l) in Hle.
  assert (Forall (λ x, 0 <= g x) (group_of key k l)) as Hg.
  { apply Forall_forall. intros x [_ Hx]%list_elem_of_filter. by eapply Forall_forall in Hl. }
  destruct (group_of key k l) as [|x xs]; [done|]. injection Hk as <-.
  change (mu (foldl (λ v x, step x v) (init x) (x :: xs)) = sum_Z (g <$> x :: xs)).
  rewrite foldl_mu; rewrite ?mu_init; try lia; done.
Qed.
End group_sum.


Lemma foldl_inv {A B} (P : A → Prop) (f : A → B → A) l a :
  P a → (∀ a b, b ∈ l → P a → P (f a b)) → P (foldl f a l).
Proof.
  revert a. induction l as [|b l IH]; intros a Ha Hf; [done|]. cbn. apply IH.
  - apply Hf; [left|done].
  - intros a' b' Hb. apply Hf. by right.
Qed.

Lemma foldl_field {X V} (step : X → V → V) (f : V → Z) (g : X → Z) v l :
  (∀ x v, f (step x v) = u64_add (f v) (g x)) →
  f (foldl (λ v x, step x v) v l) = foldl u64_add (f v) (g <$> l).
Proof.
  intros Hf. revert v. induction l as [|x l IH]; intros v; [done|]. cbn. by rewrite IH, Hf.
Qed.
Lemma foldl_const {X V B} (step : X → V → V) (f : V → B) v l :
  (∀ x v, f (step x v) = f v) → f (foldl (λ v x, step x v) v l) = f v.
Proof.
  intros Hf. revert v. induction l as [|x l IH]; intros v; [done|]. cbn. by rewrite IH, Hf.
Qed.
Lemma foldl_count {X V} (step : X → V → V) (f : V → nat) v l :
  (∀ x v, f (step x v) = S (f v)) → f (foldl (λ v x, step x v) v l) = (length l + f v)%nat.
Proof.
  intros Hf. revert v. induction l as [|x l IH]; intros v; [done|]. cbn. rewrite IH, Hf. lia.
Qed.
(** The value of a group, item by item. *)
Lemma hm_group_elem `{HI : HashIter} `{Countable K} {V X} (key : X → K) (init : X → V) (step : X → V → V) l k v :
  (k, v) ∈ hm_iter (hm_group key init step l) →
  ∃ x xs, group_of key k l = x :: xs ∧ v = foldl (λ v x, step x v) (init x) (x :: xs).
Proof.
  intros Hk%hm_iter_elem. rewrite hm_group_lookup in Hk. destruct (group_of key k l) as [|x xs]; [done|].
  injection Hk as <-. eauto.
Qed.
Lemma hm_group_values_keys `{HI : HashIter} `{Countable K} {V X} (key : X → K) (init : X → V) (step : X → V → V)
    (kv : V → K) l : (∀ x, kv (init x) = key x) → (∀ x v, kv (step x v) = kv v) →
  kv <$> hm_values (hm_group key init step l) = hm_keys (hm_group key init step l).
Proof.
  intros Hi Hs. unfold hm_values, hm_keys. rewrite <-list_fmap_compose. apply list_fmap_ext.
  intros i [k v] Hkv%list_elem_of_lookup_2. cbn. destruct (hm_group_elem _ _ _ _ _ _ Hkv) as (x & xs & Hg & ->).
  rewrite foldl_const by done. rewrite Hi.
  assert (x ∈ group_of key k l) as Hx by (rewrite Hg; left).
  by apply list_elem_of_filter in Hx as [-> _].
Qed.

Lemma sum_u64_snoc l x : sum_u64 (l ++ [x]) = u64_add (sum_u64 l) x.
Proof. unfold sum_u64. by rewrite foldl_app. Qed.

(** ** Stable sort

    [slice::sort_by], which is stable, with the comparison given as "may come
    before" ([leb a b] is [cmp a b <> Greater]). *)
Section stable_sort.
Context {A : Type} (leb : A → A → bool).

Fixpoint insert_by (x : A) (l : list A) : list A :=
  match l with
  | [] => [x]
  | y :: l' => if leb x y then x :: y :: l' else y :: insert_by x l'
  end.
Fixpoint sort_by (l : list A) : list A :=
  match l with
  | [] => []
  | x :: l' => insert_by x (sort_by l')
  end.

Lemma insert_by_perm x l : insert_by x l ≡ₚ x :: l.
Proof.
  induction l as [|y l IH]; simpl; [done|]. destruct (leb x y); [done|].
  rewrite IH. apply Permutation_swap.
Qed.
Lemma sort_by_perm l : sort_by l ≡ₚ l.
Proof. induction l as [|x l IH]; simpl; [done|]. by rewrite insert_by_perm, IH. Qed.

Context (leb_total : ∀ a b, leb a b = false → leb b a = true).

Lemma insert_by_sorted x l : Sorted leb l → Sorted leb (insert_by x l).
Proof.
  induction 1 as [|y l Hl IH Hy]; simpl; [by repeat constructor|].
  destruct (leb x y) eqn:E.
  - constructor; [by constructor|]. constructor. by rewrite E.
  - constructor; [done|]. destruct l as [|z l]; simpl.
    + constructor. by rewrite (leb_total _ _ E).
    + destruct (leb x z); constructor; [by rewrite (leb_total _ _ E)|by inversion Hy].
Qed.
Lemma sort_by_sorted l : Sorted leb (sort_by l).
Proof. induction l; simpl; [constructor|by apply insert_by_sorted]. Qed.
End stable_sort.

(** [sort_by(|a, b| key(b).cmp(&key(a)))]: largest key first. *)
Definition sort_desc {A} (key : A → Z) (l : list A) : list A := sort_by (λ a b, key b <=? key a) l.
Lemma sort_desc_sorted {A} (key : A → Z) l : Sorted (λ a b, key b <= key a) (sort_desc key l).
Proof.
  pose proof (sort_by_sorted (λ a b, key b <=? key a)) as Hs.
  ospecialize (Hs _ l); [intros a b ?%Z.leb_gt; apply Z.leb_le; lia|].
  unfold sort_desc. induction Hs as [|x l' Hl IH Hx]; constructor; [done|].
  destruct Hx as [|y l'' Hxy]; constructor. apply Is_true_eq_true in Hxy. by apply Z.leb_le.
Qed.
Lemma sort_desc_perm {A} (key : A → Z) l : sort_desc key l ≡ₚ l.
Proof. apply sort_by_perm. Qed.

(** ** Sorted lists, cut and reversed *)
Lemma StronglySorted_drop {A} (R : A → A → Prop) l n : StronglySorted R l → StronglySorted R (drop n l).
Proof. intros Hl. revert n. induction Hl; intros [|n]; try by constructor. apply IHHl. Qed.
Lemma StronglySorted_snoc {A} (R : A → A → Prop) l x :
  StronglySorted R l → Forall (λ y, R y x) l → StronglySorted R (l ++ [x]).
Proof.
  induction 1 as [|y l Hl IH Hy]; intros Hx; [by repeat constructor|]. inversion Hx; subst.
  cbn. constructor; [by apply IH|]. apply Forall_app. by split; [|constructor].
Qed.
Lemma StronglySorted_reverse {A} (R : A → A → Prop) l :
  StronglySorted R l → StronglySorted (flip R) (reverse l).
Proof.
  induction 1 as [|x l Hl IH Hx]; [constructor|]. rewrite reverse_cons. apply StronglySorted_snoc; [done|].
  by apply Forall_reverse.
Qed.

(** [iter().find(p)]. *)
Definition list_find_p {A} (p : A → bool) (l : list A) : option A :=
  snd <$> list_find (λ x, p x = true) l.

Lemma list_find_p_Some {A} (p : A → bool) l x :
  list_find_p p l = Some x → x ∈ l ∧ p x = true.
Proof.
  unfold list_find_p. intros ([i y] & Hf & ->)%fmap_Some_1; simpl.
  apply list_find_Some in Hf as (Hl & Hp & _).
  split; [by eapply list_elem_of_lookup_2|done].
Qed.
Lemma list_find_p_None {A} (p : A → bool) l :
  list_find_p p l = None ↔ ∀ x, x ∈ l → p x = false.
Proof.
  unfold list_find_p. rewrite fmap_None, list_find_None, Forall_forall.
  split; intros Hf x Hx; specialize (Hf x Hx); by destruct (p x).
Qed.

(** Finding by a unique key. *)
Lemma list_find_p_key {A} (key : A → string) k l : NoDup (key <$> l) →
  ∀ x, list_find_p (λ a, String.eqb (key a) k) l = Some x ↔ x ∈ l ∧ key x = k.
Proof.
  intros Hnd x. split.
  - intros [Hin Hk%String.eqb_eq]%list_find_p_Some. done.
  - intros [Hin Hk]. destruct (list_find_p _ l) as [y|] eqn:Hf.
    + apply list_find_p_Some in Hf as [Hin' Hk'%String.eqb_eq].
      apply list_elem_of_lookup in Hin as [i Hi], Hin' as [j Hj].
      assert (i = j) as ->; [|congruence].
      apply (NoDup_lookup _ i j k Hnd); rewrite list_lookup_fmap; [rewrite Hi|rewrite Hj]; cbn; congruence.
    + apply (proj1 (list_find_p_None _ _)) with (x := x) in Hf; [|done]. by apply String.eqb_neq in Hf.
Qed.

(** [take_while]. *)
Fixpoint take_while {A} (p : A → bool) (l : list A) : list A :=
  match l with
  | [] => []
  | x :: l' => if p x then x :: take_while p l' else []
  end.

(** A fallible computation: [Result<T, E>], or a panic. *)
Inductive result (T E : Type) : Type :=
| Ok (t : T)
| Err (e : E).
Arguments Ok {T E} _.
Arguments Err {T E} _.

(** Case analysis on every [if] and [match] scrutinee in sight. *)
Ltac case_matches :=
  repeat match goal with
  | |- context [if ?b then _ else _] => destruct b eqn:?
  | |- context [match ?x with _ => _ end] => destruct x eqn:?
  end.
