(* ===== verification/F64.v ===== *)
(** * F64: the floating-point arithmetic of the repository

    Rust's [f64] is IEEE-754 binary64 with round-to-nearest-even, modelled by
    the executable [SpecFloat] of the Standard Library at precision 53 and
    maximal exponent 1024.  The numeric core (models, engine) is written
    against the interface [FloatOps]; [f64_ops] is the machine instance and
    [Q_ops] the exact-arithmetic one, in which conservation laws are stated
    without rounding.  [FloatLaws] is what the clients rely on; both instances
    satisfy it, the machine one through the rounding lemmas of this file. *)

From S2P Require Import Prelude.
From Stdlib Require Import SpecFloat QArith Qround Lqa.

Open Scope Z_scope.

(** ** The interface *)

Class FloatOps (F : Type) := {
  f_of_Z : Z → F;          (** [n as f64] *)
  fadd : F → F → F;
  fsub : F → F → F;
  fmul : F → F → F;
  fdiv : F → F → F;
  fltb : F → F → bool;     (** [a < b] *)
  fleb : F → F → bool;     (** [a <= b] *)
  f_to_Z_sat : Z → F → Z   (** [x as uN], saturating at the given maximum *)
}.

Section derived.
Context `{FloatOps F}.

Definition fzero : F := f_of_Z 0.
Definition fone : F := f_of_Z 1.
(** A decimal literal [n / d]: both integers are exact, so the correctly
    rounded quotient is the correctly rounded literal. *)
Definition f_lit (n d : Z) : F := fdiv (f_of_Z n) (f_of_Z d).
(** [x.powi(2)]. *)
Definition fsq (x : F) : F := fmul x x.
Definition f_to_u64 (x : F) : Z := f_to_Z_sat u64_max x.
Definition f_to_u32 (x : F) : Z := f_to_Z_sat u32_max x.
(** [iter().sum::<f64>()]. *)
Definition fsum (l : list F) : F := foldl fadd fzero l.
(** [(x as f64 * ratio) as u64]: the shape of every proportional share. *)
Definition scale_u64 (x : Z) (ratio : F) : Z := f_to_u64 (fmul (f_of_Z x) ratio).
End derived.

(** The laws the clients use.  [fnn] is "never below zero" (a NaN, which no
    comparison orders, is allowed and casts to 0). *)
Class FloatLaws (F : Type) `{FloatOps F} := {
  fnn : F → Prop;
  fnn_of_Z : ∀ n, 0 <= n → fnn (f_of_Z n);
  fnn_add : ∀ x y, fnn x → fnn y → fnn (fadd x y);
  fnn_mul : ∀ x y, fnn x → fnn y → fnn (fmul x y);
  fnn_div : ∀ x y, fnn x → fnn y → fnn (fdiv x y);
  fnn_ge0 : ∀ x, fnn x → fltb x fzero = false;
  fleb_0_0 : fleb fzero fzero = true;
  (** rounding an addition never drops below either summand *)
  fadd_dom_l : ∀ s b w, fnn s → fnn b → fnn w →
    fltb s w = false → fltb (fadd s b) w = false;
  fadd_dom_r : ∀ s w, fnn s → fnn w → fltb (fadd s w) w = false;
  (** a share [E * (w / t)] with [w <= t] never exceeds [E] *)
  fshare_le : ∀ E w t, 0 <= E <= 2 ^ 53 → fnn w → fnn t → fltb t w = false →
    scale_u64 E (fdiv w t) <= E;
  f_to_Z_sat_range : ∀ mx x, 0 <= mx → 0 <= f_to_Z_sat mx x <= mx
}.

Lemma f_to_u64_range `{FloatLaws F} x : is_u64 (f_to_u64 x).
Proof.
  pose proof (f_to_Z_sat_range u64_max x ltac:(done)). unfold is_u64, f_to_u64, u64_max in *. lia.
Qed.

Lemma scale_u64_nonneg `{FloatLaws F} E (r : F) : 0 <= scale_u64 E r.
Proof. apply f_to_u64_range. Qed.

(** ** The machine instance *)

Abbreviation f64 := spec_float.

Definition prec := 53.
Definition emax := 1024.

Definition f64_of_Z (n : Z) : f64 := binary_normalize prec emax n 0 false.

(** Rust's [as uN]: NaN is 0, negative values are 0, large ones saturate,
    everything else truncates. *)
Definition f64_to_Z_sat (mx : Z) (x : f64) : Z :=
  match x with
  | S754_zero _ | S754_nan => 0
  | S754_infinity s => if s then 0 else mx
  | S754_finite s m e =>
      if s then 0
      else Z.min mx (if 0 <=? e then Z.pos m * 2 ^ e else Z.pos m / 2 ^ (- e))
  end.

#[global] Instance f64_ops : FloatOps f64 := {
  f_of_Z := f64_of_Z;
  fadd := SFadd prec emax;
  fsub := SFsub prec emax;
  fmul := SFmul prec emax;
  fdiv := SFdiv prec emax;
  fltb := SFltb;
  fleb := SFleb;
  f_to_Z_sat := f64_to_Z_sat
}.

(** [f64::max] and [f64::min] ignore a NaN operand; [f64::clamp] keeps it. *)
Definition f64_is_nan (x : f64) : bool := match x with S754_nan => true | _ => false end.
Definition f64_max (a b : f64) : f64 :=
  if f64_is_nan a then b else if f64_is_nan b then a else if SFltb a b then b else a.
Definition f64_min (a b : f64) : f64 :=
  if f64_is_nan a then b else if f64_is_nan b then a else if SFltb b a then b else a.
Definition f64_clamp (x lo hi : f64) : f64 :=
  let x := if SFltb x lo then lo else x in
  if SFltb hi x then hi else x.
Definition f64_abs (x : f64) : f64 := SFabs x.
Definition f64_sqrt (x : f64) : f64 := SFsqrt prec emax x.
Definition f64_inf : f64 := S754_infinity false.

(** ** The exact instance *)

Definition Q_to_Z_sat (mx : Z) (q : Q) : Z := Z.max 0 (Z.min mx (Qfloor q)).

Definition Q_ops : FloatOps Q := {|
  f_of_Z := inject_Z;
  fadd := Qplus;
  fsub := Qminus;
  fmul := Qmult;
  fdiv := Qdiv;
  fltb := λ a b, negb (Qle_bool b a);
  fleb := Qle_bool;
  f_to_Z_sat := Q_to_Z_sat
|}.

Example f64_third : f_to_u64 (fmul (f_of_Z 9) (f_lit 1 3)) = 3.
Proof. reflexivity. Qed.

(** ** Rounding

    [val k m e] is the value of the float [m * 2^e] in units of [2^k]. *)

Definition val (k m e : Z) : Z := m * 2 ^ (e - k).

Lemma iter_pos_nat {A} (f : A → A) p x : SpecFloat.iter_pos f p x = Nat.iter (Pos.to_nat p) f x.
Proof.
  revert x. induction p as [p IH|p IH|]; intros x; simpl SpecFloat.iter_pos.
  - rewrite !IH, <-Nat.iter_add, <-Nat.iter_succ_r. f_equal. lia.
  - rewrite !IH, <-Nat.iter_add. f_equal. lia.
  - done.
Qed.

Lemma shr_1_spec m r s : 0 <= m →
  shr_m (shr_1 (Build_shr_record m r s)) = m / 2 ∧
  (m mod 2 = 0 → r = false → s = false →
   shr_r (shr_1 (Build_shr_record m r s)) = false ∧
   shr_s (shr_1 (Build_shr_record m r s)) = false).
Proof.
  intros Hm. destruct m as [|p|p]; [|destruct p as [p|p|]|lia];
    cbn [shr_1 shr_m shr_r shr_s].
  - by split; intros; subst.
  - rewrite Pos2Z.inj_xI. split; [|intros]; Z.div_mod_to_equations; lia.
  - rewrite Pos2Z.inj_xO. split; [Z.div_mod_to_equations; lia|by intros _ -> ->].
  - by split.
Qed.

Lemma shr_iter_spec n m r s : 0 <= m →
  let R := Nat.iter n shr_1 (Build_shr_record m r s) in
  shr_m R = m / 2 ^ Z.of_nat n ∧
  (m mod 2 ^ Z.of_nat n = 0 → r = false → s = false → shr_r R = false ∧ shr_s R = false).
Proof.
  intros Hm. induction n as [|n [IH1 IH2]]; intros R'.
  { subst R'. cbn. rewrite Z.div_1_r. done. }
  set (R := Nat.iter n shr_1 _) in *.
  change R' with (shr_1 R). destruct R as [mR rR sR] eqn:ER; cbn [shr_m shr_r shr_s] in *.
  assert (0 <= mR) as HR by (rewrite IH1; apply Z.div_pos; lia).
  assert (2 ^ Z.of_nat (S n) = 2 ^ Z.of_nat n * 2) as Hpow
    by (rewrite Nat2Z.inj_succ, Z.pow_succ_r by lia; lia).
  assert (0 < 2 ^ Z.of_nat n) by lia.
  destruct (shr_1_spec mR rR sR HR) as [H1 H2].
  rewrite Hpow. split.
  - rewrite H1, IH1. rewrite Z.div_div by lia. done.
  - intros Hmod Hr Hs.
    rewrite Z.rem_mul_r in Hmod by lia.
    pose proof (Z.mod_pos_bound m (2 ^ Z.of_nat n) ltac:(lia)).
    pose proof (Z.mod_pos_bound (m / 2 ^ Z.of_nat n) 2 ltac:(lia)).
    assert (m mod 2 ^ Z.of_nat n = 0 ∧ (m / 2 ^ Z.of_nat n) mod 2 = 0) as [Ha Hb] by nia.
    destruct (IH2 Ha Hr Hs) as [-> ->]. apply H2; [by rewrite IH1|done|done].
Qed.

Lemma fexp_eq e : fexp prec emax e = Z.max (e - 53) (-1074).
Proof. reflexivity. Qed.

Lemma digits2_pos_spec p :
  2 ^ (Z.pos (digits2_pos p) - 1) <= Z.pos p < 2 ^ Z.pos (digits2_pos p).
Proof.
  induction p as [p IH|p IH|]; simpl digits2_pos; [| |done];
    rewrite Pos2Z.inj_succ, Z.pow_succ_r by lia;
    replace (Z.succ (Z.pos (digits2_pos p)) - 1) with (Z.succ (Z.pos (digits2_pos p) - 1)) by lia;
    rewrite Z.pow_succ_r by lia; lia.
Qed.

Lemma Zdigits2_spec m : 0 <= m →
  0 <= Zdigits2 m ∧ m < 2 ^ Zdigits2 m ∧ (0 < m → 0 < Zdigits2 m ∧ 2 ^ (Zdigits2 m - 1) <= m).
Proof.
  destruct m as [|p|p]; intros Hm; [by cbn|cbn [Zdigits2]|lia].
  pose proof (digits2_pos_spec p). lia.
Qed.

Lemma Zdigits2_unique m d : 0 < m → 2 ^ (d - 1) <= m < 2 ^ d → Zdigits2 m = d.
Proof.
  intros Hm [H1 H2]. destruct (Zdigits2_spec m ltac:(lia)) as (H3 & H4 & H5).
  destruct (H5 Hm) as [H6 H7].
  assert (d - 1 < Zdigits2 m) by (apply (Z.pow_lt_mono_r_iff 2); lia).
  assert (0 <= d) by (destruct (Z.le_gt_cases 0 d); [done|rewrite (Z.pow_neg_r 2 d) in H2 by lia; lia]).
  assert (Zdigits2 m - 1 < d) by (apply (Z.pow_lt_mono_r_iff 2); lia).
  lia.
Qed.

Lemma Zdigits2_le m d : 0 <= m < 2 ^ d → 0 <= d → Zdigits2 m <= d.
Proof.
  intros [H1 H2] Hd. destruct (Zdigits2_spec m H1) as (H3 & H4 & H5).
  destruct (decide (m = 0)) as [->|]; [done|].
  destruct (H5 ltac:(lia)) as [H6 H7].
  assert (Zdigits2 m - 1 < d) by (apply (Z.pow_lt_mono_r_iff 2); lia). lia.
Qed.

Lemma shr_fexp_spec m e l : 0 <= m → e <= fexp prec emax (Zdigits2 m + e) →
  let '(mrs, e') := shr_fexp prec emax m e l in
  e' = fexp prec emax (Zdigits2 m + e) ∧
  shr_m mrs = m / 2 ^ (e' - e) ∧
  (m mod 2 ^ (e' - e) = 0 → l = loc_Exact → loc_of_shr_record mrs = loc_Exact).
Proof.
  intros Hm He. unfold shr_fexp, shr.
  destruct (fexp prec emax (Zdigits2 m + e) - e) as [|p|p] eqn:En; [| |lia].
  - replace (e - e) with 0 by lia. rewrite Z.div_1_r. split; [lia|].
    split; [by destruct l as [|[]]|by intros _ ->].
  - replace (e + Z.pos p - e) with (Z.pos p) by lia. split; [lia|].
    rewrite iter_pos_nat.
    destruct (shr_record_of_loc m l) as [m0 r0 s0] eqn:El.
    assert (m0 = m) as -> by (by destruct l as [|[]]; cbn in El; simplify_eq).
    destruct (shr_iter_spec (Pos.to_nat p) m r0 s0 Hm) as [H1 H2].
    rewrite positive_nat_Z in H1, H2. split; [done|].
    intros Hmod ->. cbn in El; simplify_eq.
    destruct (H2 Hmod eq_refl eq_refl) as [H3 H4].
    unfold loc_of_shr_record. destruct (Nat.iter _ _ _). cbn in *. by subst.
Qed.

(** The float a rounded significand [m <= 2^53] at exponent [e] denotes. *)
Definition pack (s : bool) (m e : Z) : f64 :=
  if m =? 0 then S754_zero s
  else if m =? 2 ^ 53
  then if e + 1 <=? 971 then S754_finite s (2 ^ 52) (e + 1) else S754_infinity s
  else if e <=? 971 then S754_finite s (Z.to_pos m) e else S754_infinity s.

Lemma pack_round s m e : 0 <= m <= 2 ^ 53 → -1074 <= e → (e = -1074 ∨ 2 ^ 52 <= m) →
  (let '(mrs, e') := shr_fexp prec emax m e loc_Exact in
   match shr_m mrs with
   | Z0 => S754_zero s
   | Zpos p => if Z.leb e' (Z.sub emax prec) then S754_finite s p e' else S754_infinity s
   | _ => S754_nan
   end) = pack s m e.
Proof.
  intros Hm He Hn. unfold pack.
  destruct (Z.eqb_spec m 0) as [->|H0].
  { unfold shr_fexp, shr. cbn [Zdigits2]. rewrite fexp_eq.
    destruct (Z.max (0 + e - 53) (-1074) - e) eqn:E; [done|lia|done]. }
  destruct (Z.eqb_spec m (2 ^ 53)) as [->|H1].
  { assert (Zdigits2 (2 ^ 53) = 54) as Hd by done.
    pose proof (shr_fexp_spec (2 ^ 53) e loc_Exact ltac:(lia)) as Hs.
    rewrite Hd, fexp_eq in Hs. specialize (Hs ltac:(lia)).
    destruct (shr_fexp _ _ _ _ _) as [mrs e']. destruct Hs as (-> & -> & _).
    replace (Z.max (54 + e - 53) (-1074)) with (e + 1) by lia.
    replace (e + 1 - e) with 1 by lia. done. }
  destruct m as [|p|p]; [done| |lia].
  assert (Zdigits2 (Z.pos p) <= 53) as Hd by (apply Zdigits2_le; lia).
  unfold shr_fexp, shr. rewrite fexp_eq.
  change (emax - prec) with 971.
  destruct (Z.max (Zdigits2 (Z.pos p) + e - 53) (-1074) - e) eqn:E; [done|lia|done].
Qed.

(** What [binary_round_aux] computes: the significand cut at the exponent of
    the format, or the next one up when the cut lost something. *)
Lemma binary_round_aux_spec s m e l : 0 <= m → e <= fexp prec emax (Zdigits2 m + e) →
  let e2 := fexp prec emax (Zdigits2 m + e) in
  let m1 := m / 2 ^ (e2 - e) in
  ∃ m2, binary_round_aux prec emax s m e l = pack s m2 e2 ∧
    0 <= m1 < 2 ^ 53 ∧ m1 <= m2 ∧
    (m2 = m1 ∨ (m2 = m1 + 1 ∧ ¬ (m mod 2 ^ (e2 - e) = 0 ∧ l = loc_Exact))) ∧
    -1074 <= e2 ∧ (e2 = -1074 ∨ 2 ^ 52 <= m1).
Proof.
  intros Hm He e2 m1. unfold binary_round_aux.
  pose proof (shr_fexp_spec m e l Hm He) as Hs.
  destruct (shr_fexp prec emax m e l) as [mrs e']. destruct Hs as (-> & Hsm & Hloc).
  fold e2 in Hsm, Hloc |- *. fold m1 in Hsm. rewrite Hsm.
  set (m2 := round_nearest_even m1 (loc_of_shr_record mrs)).
  destruct (Zdigits2_spec m Hm) as (Hd0 & Hd1 & Hd2).
  assert (e2 = Z.max (Zdigits2 m + e - 53) (-1074)) as He2 by apply fexp_eq.
  assert (0 < 2 ^ (e2 - e)) as Hp by (apply Z.pow_pos_nonneg; lia).
  assert (0 <= m1) as Hm1 by (apply Z.div_pos; lia).
  assert (m1 < 2 ^ 53) as Hm1'.
  { apply Z.div_lt_upper_bound; [done|]. rewrite <-Z.pow_add_r by lia.
    eapply Z.lt_le_trans; [done|]. apply Z.pow_le_mono_r; lia. }
  assert (e2 = -1074 ∨ 2 ^ 52 <= m1) as Hn.
  { destruct (decide (e2 = -1074)) as [?|Hne]; [by left|right].
    destruct (decide (m = 0)) as [->|]; [cbn in He2; lia|].
    destruct (Hd2 ltac:(lia)) as [_ H3].
    apply Z.div_le_lower_bound; [done|]. rewrite <-Z.pow_add_r by lia.
    etrans; [|exact H3]. apply Z.pow_le_mono_r; lia. }
  assert (m2 = m1 ∨ (m2 = m1 + 1 ∧ loc_of_shr_record mrs ≠ loc_Exact)) as Hm2.
  { subst m2. unfold round_nearest_even.
    destruct (loc_of_shr_record mrs) as [|[]]; [by left| |by left|by right].
    destruct (Z.even m1); [by left|by right]. }
  assert (m1 <= m2 <= m1 + 1) as Hm12 by (destruct Hm2 as [?|[? _]]; lia).
  exists m2. split; [apply pack_round; lia|].
  repeat split; try lia; try done.
  destruct Hm2 as [?|[? Hl]]; [by left|right]. split; [done|]. intros [H1 H2]. by apply Hl, Hloc.
Qed.

Lemma binary_round_spec s p e :
  ∃ m0 e0, binary_round prec emax s p e = binary_round_aux prec emax s m0 e0 loc_Exact ∧
    e0 <= e ∧ m0 = Z.pos p * 2 ^ (e - e0) ∧ e0 <= fexp prec emax (Zdigits2 m0 + e0).
Proof.
  unfold binary_round, shl_align.
  set (ef := fexp prec emax (Z.pos (digits2_pos p) + e)).
  destruct (ef - e) as [|q|q] eqn:E.
  - exists (Z.pos p), e. rewrite Z.sub_diag, Z.mul_1_r. cbn [Zdigits2]. fold ef. repeat split; lia.
  - exists (Z.pos p), e. rewrite Z.sub_diag, Z.mul_1_r. cbn [Zdigits2]. fold ef. repeat split; lia.
  - exists (Z.pos (Pos.iter xO p q)), ef.
    assert (Z.pos (Pos.iter xO p q) = Z.pos p * 2 ^ Z.pos q) as Hq.
    { rewrite <-Z.shiftl_mul_pow2 by lia. simpl.
      apply (Pos.iter_swap_gen _ _ Z.pos xO (Z.mul 2)). done. }
    replace (e - ef) with (Z.pos q) by lia. split; [done|]. split; [lia|]. split; [done|].
    assert (Zdigits2 (Z.pos (Pos.iter xO p q)) = Z.pos (digits2_pos p) + Z.pos q) as ->.
    { pose proof (digits2_pos_spec p) as [H1 H2].
      assert (0 < 2 ^ Z.pos q) by lia. apply Zdigits2_unique; [lia|]. rewrite Hq.
      replace (Z.pos (digits2_pos p) + Z.pos q - 1) with (Z.pos (digits2_pos p) - 1 + Z.pos q) by lia.
      rewrite !Z.pow_add_r by lia. nia. }
    subst ef. rewrite !fexp_eq in *. lia.
Qed.

(** ** Order of canonical floats *)

Lemma bounded_spec p e : bounded prec emax p e = true ↔
  -1074 <= e <= 971 ∧ Z.pos p < 2 ^ 53 ∧ (e = -1074 ∨ 2 ^ 52 <= Z.pos p).
Proof.
  unfold bounded, canonical_mantissa.
  rewrite andb_true_iff, Z.eqb_eq, Z.leb_le, fexp_eq. change (emax - prec) with 971.
  pose proof (digits2_pos_spec p) as [H1 H2].
  set (d := Z.pos (digits2_pos p)) in *. split.
  - intros [H3 H4]. assert (d <= 53) as Hd by lia.
    assert (2 ^ d <= 2 ^ 53) by (apply Z.pow_le_mono_r; lia).
    repeat split; try lia. destruct (decide (e = -1074)) as [?|]; [by left|right].
    assert (d = 53) as -> by lia. done.
  - intros ([H3 H4] & H5 & H6). split; [|done].
    assert (d - 1 < 53) by (apply (Z.pow_lt_mono_r_iff 2); lia).
    destruct H6 as [->|H6]; [lia|].
    assert (52 < d) by (apply (Z.pow_lt_mono_r_iff 2); lia). lia.
Qed.

Lemma val_shift k k' m e : k <= k' <= e → val k m e = val k' m e * 2 ^ (k' - k).
Proof.
  intros. unfold val. rewrite <-Z.mul_assoc, <-Z.pow_add_r by lia. do 2 f_equal. lia.
Qed.
Lemma val_le_shift k k' m e m' e' : k <= k' → k' <= e → k' <= e' →
  val k m e <= val k m' e' ↔ val k' m e <= val k' m' e'.
Proof.
  intros. rewrite (val_shift k k' m e), (val_shift k k' m' e') by lia.
  assert (0 < 2 ^ (k' - k)) by (apply Z.pow_pos_nonneg; lia). nia.
Qed.

(** A canonical float at a lower exponent is below a full significand. *)
Lemma val_low k m e p eB : bounded prec emax p eB = true →
  k <= -1074 → -1074 <= e → eB < e → 2 ^ 52 <= m → val k (Z.pos p) eB < val k m e.
Proof.
  intros (HB & Hp & _)%bounded_spec Hk He HeB Hm. unfold val.
  assert (2 ^ (e - k) = 2 ^ (e - eB) * 2 ^ (eB - k)) as -> by (rewrite <-Z.pow_add_r by lia; f_equal; lia).
  assert (2 ^ 1 <= 2 ^ (e - eB)) by (apply Z.pow_le_mono_r; lia).
  assert (0 < 2 ^ (eB - k)) by (apply Z.pow_pos_nonneg; lia).
  rewrite Z.mul_assoc. apply Z.mul_lt_mono_pos_r; [done|]. nia.
Qed.

Lemma SFcompare_val p1 e1 p2 e2 : bounded prec emax p1 e1 = true → bounded prec emax p2 e2 = true →
  SFcompare (S754_finite false p1 e1) (S754_finite false p2 e2) =
  Some (val (-1074) (Z.pos p1) e1 ?= val (-1074) (Z.pos p2) e2).
Proof.
  intros H1 H2. pose proof (proj1 (bounded_spec _ _) H1) as (?&?&?).
  pose proof (proj1 (bounded_spec _ _) H2) as (?&?&?). cbn. f_equal.
  destruct (Z.compare_spec e1 e2) as [->|Hlt|Hgt]; symmetry.
  - unfold val. assert (0 < 2 ^ (e2 - -1074)) by (apply Z.pow_pos_nonneg; lia).
    rewrite <-Zmult_compare_compat_r by lia. done.
  - apply Z.compare_lt_iff, val_low; try lia; done.
  - apply Z.compare_gt_iff, val_low; try lia; done.
Qed.

Lemma SFltb_val p1 e1 p2 e2 : bounded prec emax p1 e1 = true → bounded prec emax p2 e2 = true →
  SFltb (S754_finite false p1 e1) (S754_finite false p2 e2) = false ↔
  val (-1074) (Z.pos p2) e2 <= val (-1074) (Z.pos p1) e1.
Proof.
  intros H1 H2. unfold SFltb. rewrite SFcompare_val by done.
  destruct (Z.compare_spec (val (-1074) (Z.pos p1) e1) (val (-1074) (Z.pos p2) e2)); split; intros; try done; lia.
Qed.

Lemma pack_cases m e : 0 <= m <= 2 ^ 53 → -1074 <= e → (e = -1074 ∨ 2 ^ 52 <= m) →
  (pack false m e = S754_zero false ∧ m = 0) ∨
  (∃ p' e', pack false m e = S754_finite false p' e' ∧ bounded prec emax p' e' = true ∧
     val (-1074) (Z.pos p') e' = val (-1074) m e) ∨
  (pack false m e = S754_infinity false ∧ 2 ^ 2098 <= val (-1074) m e).
Proof.
  intros Hm He Hn. unfold pack, val.
  destruct (Z.eqb_spec m 0) as [->|H0]; [by left|right].
  destruct (Z.eqb_spec m (2 ^ 53)) as [->|H1].
  - destruct (Z.leb_spec (e + 1) 971) as [Hl|Hl]; [left|right].
    + exists (2 ^ 52)%positive, (e + 1). split; [done|]. split; [apply bounded_spec; lia|].
      change (Z.pos (2 ^ 52)) with (2 ^ 52). rewrite <-!Z.pow_add_r by lia. f_equal. lia.
    + split; [done|]. rewrite <-Z.pow_add_r by lia. apply Z.pow_le_mono_r; lia.
  - destruct (Z.leb_spec e 971) as [Hl|Hl]; [left|right].
    + exists (Z.to_pos m), e. rewrite Z2Pos.id by lia. split; [done|]. split; [|done].
      apply bounded_spec. rewrite Z2Pos.id by lia. lia.
    + split; [done|]. destruct Hn as [->|Hn]; [lia|].
      assert (2 ^ 2046 <= 2 ^ (e - -1074)) by (apply Z.pow_le_mono_r; lia).
      replace (2 ^ 2098) with (2 ^ 52 * 2 ^ 2046) by (rewrite <-Z.pow_add_r; [done|lia|lia]).
      apply Z.mul_le_mono_nonneg; lia.
Qed.

Lemma val_bounded p e : bounded prec emax p e = true → 0 < val (-1074) (Z.pos p) e < 2 ^ 2098.
Proof.
  intros (H1 & H2 & _)%bounded_spec. unfold val.
  assert (0 < 2 ^ (e - -1074) <= 2 ^ 2045) as [H3 H4].
  { split; [apply Z.pow_pos_nonneg; lia|apply Z.pow_le_mono_r; lia]. }
  replace (2 ^ 2098) with (2 ^ 53 * 2 ^ 2045) by (rewrite <-Z.pow_add_r; [done|lia|lia]).
  split; [lia|]. eapply Z.lt_le_trans with (2 ^ 53 * 2 ^ (e - -1074)).
  - by apply Z.mul_lt_mono_pos_r.
  - by apply Z.mul_le_mono_nonneg_l.
Qed.

Lemma pack_le m e p eB : 0 <= m <= 2 ^ 53 → -1074 <= e → (e = -1074 ∨ 2 ^ 52 <= m) →
  bounded prec emax p eB = true → val (-1074) m e <= val (-1074) (Z.pos p) eB →
  SFltb (S754_finite false p eB) (pack false m e) = false.
Proof.
  intros Hm He Hn HB Hv. pose proof (val_bounded p eB HB).
  destruct (pack_cases m e Hm He Hn) as [[-> _]|[(p' & e' & -> & HB' & Hv')|[-> Hv']]];
    [done|apply SFltb_val; [done|done|by rewrite Hv']|lia].
Qed.
Lemma pack_ge m e p eB : 0 <= m <= 2 ^ 53 → -1074 <= e → (e = -1074 ∨ 2 ^ 52 <= m) →
  bounded prec emax p eB = true → val (-1074) (Z.pos p) eB <= val (-1074) m e →
  SFltb (pack false m e) (S754_finite false p eB) = false.
Proof.
  intros Hm He Hn HB Hv. pose proof (val_bounded p eB HB).
  destruct (pack_cases m e Hm He Hn) as [[-> ->]|[(p' & e' & -> & HB' & Hv')|[-> Hv']]];
    [unfold val in *; lia|apply SFltb_val; [done|done|by rewrite Hv']|done].
Qed.

(** No canonical float lies strictly between two neighbours of the format. *)
Lemma gap k m e p eB : bounded prec emax p eB = true → k <= -1074 → -1074 <= e →
  (e = -1074 ∨ 2 ^ 52 <= m) →
  val k m e < val k (Z.pos p) eB ↔ val k (m + 1) e <= val k (Z.pos p) eB.
Proof.
  intros HB Hk He Hn. pose proof (proj1 (bounded_spec _ _) HB) as (?&?&_).
  assert (0 < 2 ^ (e - k)) by (apply Z.pow_pos_nonneg; lia).
  destruct (Z.le_gt_cases e eB) as [Hle|Hlt].
  - unfold val. replace (2 ^ (eB - k)) with (2 ^ (eB - e) * 2 ^ (e - k))
      by (rewrite <-Z.pow_add_r by lia; f_equal; lia).
    rewrite Z.mul_assoc, <-Z.mul_lt_mono_pos_r, <-Z.mul_le_mono_pos_r by done. lia.
  - destruct Hn as [->|Hn]; [lia|].
    pose proof (val_low k m e p eB HB Hk He Hlt Hn).
    pose proof (val_low k (m + 1) e p eB HB Hk He Hlt ltac:(lia)). lia.
Qed.

Section round_bounds.
Context (m e : Z) (l : location) (p : positive) (eB k : Z).
Context (Hm : 0 <= m) (He : e <= fexp prec emax (Zdigits2 m + e)).
Context (HB : bounded prec emax p eB = true) (Hk : k <= e) (Hk' : k <= -1074).

(** Rounding never goes above a float that bounds the exact value ... *)
Lemma round_le : val k m e <= val k (Z.pos p) eB → (l ≠ loc_Exact → val k m e < val k (Z.pos p) eB) →
  SFltb (S754_finite false p eB) (binary_round_aux prec emax false m e l) = false.
Proof.
  intros Hv Hv'. destruct (binary_round_aux_spec false m e l Hm He)
    as (m2 & -> & Hm1 & Hm12 & Hc & He2 & Hn).
  set (e2 := fexp _ _ _) in *. set (m1 := m / _) in *.
  pose proof (proj1 (bounded_spec _ _) HB) as (?&?&_).
  assert (0 < 2 ^ (e2 - e)) as Hp by (apply Z.pow_pos_nonneg; lia).
  assert (0 < 2 ^ (e - k)) as Hp' by (apply Z.pow_pos_nonneg; lia).
  assert (∀ x, val k x e2 = x * 2 ^ (e2 - e) * 2 ^ (e - k)) as Hval.
  { intros x. unfold val. rewrite <-Z.mul_assoc, <-Z.pow_add_r by lia. do 2 f_equal. lia. }
  pose proof (Z.div_mod m (2 ^ (e2 - e)) ltac:(lia)) as Hdm.
  pose proof (Z.mod_pos_bound m (2 ^ (e2 - e)) Hp) as Hmod. fold m1 in Hdm.
  assert (val k m1 e2 <= val k m e) as Hlow.
  { rewrite Hval. unfold val at 1. apply Z.mul_le_mono_nonneg_r; lia. }
  apply pack_le; [lia|done|lia|done|].
  rewrite <-(val_le_shift k) by lia.
  destruct Hc as [->|[-> Hc]]; [lia|].
  apply (proj1 (gap k m1 e2 p eB HB Hk' He2 Hn)).
  destruct (decide (m mod 2 ^ (e2 - e) = 0)) as [Hz|Hz].
  - eapply Z.le_lt_trans; [done|]. apply Hv'. intros Hl. by apply Hc.
  - eapply Z.lt_le_trans; [|done]. rewrite Hval. unfold val at 1.
    apply Z.mul_lt_mono_pos_r; [done|lia].
Qed.

(** ... nor below one that the exact value dominates. *)
Lemma round_ge : val k (Z.pos p) eB <= val k m e →
  SFltb (binary_round_aux prec emax false m e l) (S754_finite false p eB) = false.
Proof.
  intros Hv. destruct (binary_round_aux_spec false m e l Hm He)
    as (m2 & -> & Hm1 & Hm12 & Hc & He2 & Hn).
  set (e2 := fexp _ _ _) in *. set (m1 := m / _) in *.
  pose proof (proj1 (bounded_spec _ _) HB) as (?&?&_).
  assert (0 < 2 ^ (e2 - e)) as Hp by (apply Z.pow_pos_nonneg; lia).
  assert (0 < 2 ^ (e - k)) as Hp' by (apply Z.pow_pos_nonneg; lia).
  assert (val k m e < val k (m1 + 1) e2) as Hup.
  { unfold val. replace (2 ^ (e2 - k)) with (2 ^ (e2 - e) * 2 ^ (e - k))
      by (rewrite <-Z.pow_add_r by lia; f_equal; lia).
    rewrite Z.mul_assoc. apply Z.mul_lt_mono_pos_r; [done|].
    pose proof (Z.div_mod m (2 ^ (e2 - e)) ltac:(lia)).
    pose proof (Z.mod_pos_bound m (2 ^ (e2 - e)) Hp). fold m1 in H1. lia. }
  apply pack_ge; [lia|done|lia|done|].
  assert (val k (Z.pos p) eB <= val k m1 e2) as Hlow.
  { pose proof (proj1 (gap k m1 e2 p eB HB Hk' He2 Hn)). lia. }
  rewrite <-(val_le_shift k) by lia.
  etrans; [done|]. unfold val. apply Z.mul_le_mono_nonneg_r; [lia|done].
Qed.
End round_bounds.

(** ** The laws of the machine instance *)

(** Canonical, and +0, positive, +infinity or NaN. *)
Definition f64_nn (x : f64) : Prop :=
  match x with
  | S754_nan => True
  | S754_zero s | S754_infinity s => s = false
  | S754_finite s p e => s = false ∧ bounded prec emax p e = true
  end.

Lemma f64_nn_inv x : f64_nn x →
  x = S754_zero false ∨ x = S754_infinity false ∨ x = S754_nan ∨
  ∃ p e, x = S754_finite false p e ∧ bounded prec emax p e = true.
Proof. destruct x; cbn; naive_solver. Qed.

(** The four shapes of a non-negative float. *)
Tactic Notation "nn_cases" hyp(H) "as" ident(p) ident(e) :=
  apply f64_nn_inv in H; destruct H as [->|[->|[->|(p & e & -> & H)]]].

Lemma pack_nn m e : 0 <= m <= 2 ^ 53 → -1074 <= e → (e = -1074 ∨ 2 ^ 52 <= m) →
  f64_nn (pack false m e).
Proof.
  intros Hm He Hn.
  by destruct (pack_cases m e Hm He Hn) as [[-> _]|[(p' & e' & -> & HB' & _)|[-> _]]].
Qed.
Lemma round_aux_nn m e l : 0 <= m → e <= fexp prec emax (Zdigits2 m + e) →
  f64_nn (binary_round_aux prec emax false m e l).
Proof.
  intros Hm He. destruct (binary_round_aux_spec false m e l Hm He)
    as (m2 & -> & Hm1 & Hm12 & Hc & He2 & Hn).
  apply pack_nn; lia.
Qed.
Lemma round_nn p e : f64_nn (binary_round prec emax false p e).
Proof.
  destruct (binary_round_spec false p e) as (m0 & e0 & -> & He & -> & Hf).
  apply round_aux_nn; [|done]. apply Z.mul_nonneg_nonneg; lia.
Qed.

Lemma f64_nn_of_Z n : 0 <= n → f64_nn (f64_of_Z n).
Proof. intros. destruct n; [done|apply round_nn|lia]. Qed.

(** The exact sum of two positive floats, and its rounding. *)
Lemma SFadd_finite p1 e1 p2 e2 :
  ∃ ps, SFadd prec emax (S754_finite false p1 e1) (S754_finite false p2 e2) =
        binary_round prec emax false ps (Z.min e1 e2) ∧
    Z.pos ps = Z.pos p1 * 2 ^ (e1 - Z.min e1 e2) + Z.pos p2 * 2 ^ (e2 - Z.min e1 e2).
Proof.
  assert (∀ p e ez, ez <= e → Z.pos (fst (shl_align p e ez)) = Z.pos p * 2 ^ (e - ez)) as Hal.
  { intros p e ez Hz. unfold shl_align. destruct (ez - e) as [|q|q] eqn:E; [|lia|].
    - replace (e - ez) with 0 by lia. cbn. lia.
    - replace (e - ez) with (Z.pos q) by lia. cbn [fst].
      rewrite <-Z.shiftl_mul_pow2 by lia. simpl.
      apply (Pos.iter_swap_gen _ _ Z.pos xO (Z.mul 2)). done. }
  exists (fst (shl_align p1 e1 (Z.min e1 e2)) + fst (shl_align p2 e2 (Z.min e1 e2)))%positive.
  split; [done|]. rewrite Pos2Z.inj_add, !Hal by lia. done.
Qed.

Lemma f64_nn_add x y : f64_nn x → f64_nn y → f64_nn (SFadd prec emax x y).
Proof.
  intros Hx Hy. nn_cases Hx as px ex; nn_cases Hy as py ey; try done.
  destruct (SFadd_finite px ex py ey) as (ps & -> & _). apply round_nn.
Qed.

Lemma prod_exp p1 e1 p2 e2 : bounded prec emax p1 e1 = true → bounded prec emax p2 e2 = true →
  e1 + e2 <= fexp prec emax (Zdigits2 (Z.pos (p1 * p2)) + (e1 + e2)).
Proof.
  intros (?&?&Hn1)%bounded_spec (?&?&Hn2)%bounded_spec. rewrite fexp_eq.
  destruct (decide (e1 = -1074 ∧ e2 = -1074)) as [[-> ->]|Hne]; [lia|].
  assert (2 ^ 52 <= Z.pos (p1 * p2)) as Hp.
  { rewrite Pos2Z.inj_mul.
    destruct (decide (e1 = -1074)) as [->|]; [assert (2 ^ 52 <= Z.pos p2) by (destruct Hn2; [by subst; destruct Hne|done])
      |assert (2 ^ 52 <= Z.pos p1) by (by destruct Hn1)]; nia. }
  generalize dependent (Z.pos (p1 * p2)). intros P HP.
  destruct (Zdigits2_spec P ltac:(lia)) as (H3 & H4 & _).
  assert (52 < Zdigits2 P) by (apply (Z.pow_lt_mono_r_iff 2); lia). lia.
Qed.

Lemma f64_nn_mul x y : f64_nn x → f64_nn y → f64_nn (SFmul prec emax x y).
Proof.
  intros Hx Hy. nn_cases Hx as px ex; nn_cases Hy as py ey; try done.
  cbn [SFmul xorb]. apply round_aux_nn; [lia|by apply prod_exp].
Qed.

(** The quotient [SFdiv] rounds: its exponent is at most the format's, and it
    is exact precisely when the division is. *)
Lemma SFdiv_finite p1 e1 p2 e2 :
  ∃ q e l, SFdiv prec emax (S754_finite false p1 e1) (S754_finite false p2 e2) =
           binary_round_aux prec emax false q e l ∧
    0 <= q ∧ e <= fexp prec emax (Zdigits2 q + e) ∧ e <= e1 - e2 ∧
    q * Z.pos p2 <= Z.pos p1 * 2 ^ (e1 - e2 - e) ∧
    (l ≠ loc_Exact → q * Z.pos p2 < Z.pos p1 * 2 ^ (e1 - e2 - e)).
Proof.
  unfold SFdiv, SFdiv_core_binary. cbn [Zdigits2].
  set (d1 := Z.pos (digits2_pos p1)). set (d2 := Z.pos (digits2_pos p2)).
  set (e := Z.min _ (e1 - e2)).
  assert (match e1 - e2 - e with 0 => Z.pos p1 | Z.pos _ => Z.shiftl (Z.pos p1) (e1 - e2 - e)
          | Z.neg _ => 0 end = Z.pos p1 * 2 ^ (e1 - e2 - e)) as ->.
  { destruct (e1 - e2 - e) eqn:E; [cbn; lia|apply Z.shiftl_mul_pow2; lia|lia]. }
  set (m' := Z.pos p1 * 2 ^ (e1 - e2 - e)).
  pose proof (Z.div_eucl_eq m' (Z.pos p2) ltac:(lia)) as Hdiv.
  pose proof (Z.mod_pos_bound m' (Z.pos p2) ltac:(lia)) as Hr0.
  unfold Z.modulo in Hr0.
  destruct (Z.div_eucl m' (Z.pos p2)) as [q r].
  assert (0 < 2 ^ (e1 - e2 - e)) as Hpw by (apply Z.pow_pos_nonneg; lia).
  assert (0 < m') by lia. assert (0 <= q) by nia.
  exists q, e, (new_location (Z.pos p2) r). split; [done|]. split; [done|].
  split; [|split; [lia|split; [lia|]]].
  - pose proof (digits2_pos_spec p1) as [H1 _]. pose proof (digits2_pos_spec p2) as [_ H2].
    fold d1 in H1. fold d2 in H2.
    destruct (Zdigits2_spec q ltac:(done)) as (Hq0 & Hq1 & _).
    assert (d1 + (e1 - e2 - e) - d2 <= Zdigits2 q) as Hd.
    { apply Z.le_ngt. intros Hlt.
      assert (m' < 2 ^ (Zdigits2 q + d2)) as Ha.
      { rewrite Z.pow_add_r by lia. nia. }
      assert (2 ^ (d1 - 1 + (e1 - e2 - e)) <= m') as Hb.
      { rewrite Z.pow_add_r by lia. apply Z.mul_le_mono_nonneg_r; lia. }
      assert (2 ^ (Zdigits2 q + d2) <= 2 ^ (d1 - 1 + (e1 - e2 - e)))
        by (apply Z.pow_le_mono_r; lia). lia. }
    rewrite fexp_eq. subst e. rewrite fexp_eq in *. lia.
  - intros Hl. assert (r ≠ 0); [|lia]. intros ->. apply Hl.
    unfold new_location, new_location_even, new_location_odd. by destruct (Z.even _).
Qed.

Lemma f64_nn_div x y : f64_nn x → f64_nn y → f64_nn (SFdiv prec emax x y).
Proof.
  intros Hx Hy. nn_cases Hx as px ex; nn_cases Hy as py ey; try done.
  destruct (SFdiv_finite px ex py ey) as (q & e & l & -> & Hq & He & _).
  by apply round_aux_nn.
Qed.

(** Comparisons of non-negative floats with zero and infinity. *)
Lemma nn_not_lt_zero x : f64_nn x → SFltb x (S754_zero false) = false.
Proof. intros Hx. by nn_cases Hx as px ex. Qed.

Lemma f64_add_ge p1 e1 p2 e2 p eB :
  bounded prec emax p1 e1 = true → bounded prec emax p2 e2 = true → bounded prec emax p eB = true →
  val (-1074) (Z.pos p) eB <= val (-1074) (Z.pos p1) e1 + val (-1074) (Z.pos p2) e2 →
  SFltb (SFadd prec emax (S754_finite false p1 e1) (S754_finite false p2 e2))
        (S754_finite false p eB) = false.
Proof.
  intros H1 H2 HB Hv.
  pose proof (proj1 (bounded_spec _ _) H1) as (?&_&_).
  pose proof (proj1 (bounded_spec _ _) H2) as (?&_&_).
  pose proof (proj1 (bounded_spec _ _) HB) as (?&_&_).
  destruct (SFadd_finite p1 e1 p2 e2) as (ps & -> & Hps).
  destruct (binary_round_spec false ps (Z.min e1 e2)) as (m0 & e0 & -> & He & Hm0 & Hf).
  apply (round_ge _ _ _ _ _ (Z.min e0 (-1074))); try done; try lia.
  set (k := Z.min e0 (-1074)).
  assert (val k m0 e0 = val k (Z.pos p1) e1 + val k (Z.pos p2) e2) as ->.
  { unfold val. rewrite Hm0, Hps, !Z.mul_add_distr_r, <-!Z.mul_assoc, <-!Z.pow_add_r by lia.
    do 3 f_equal; lia. }
  rewrite !(val_shift k (-1074)) by lia. rewrite <-Z.mul_add_distr_r.
  apply Z.mul_le_mono_nonneg_r; [|done]. apply Z.pow_nonneg. lia.
Qed.

Lemma f64_add_dom_r s w : f64_nn s → f64_nn w → SFltb (SFadd prec emax s w) w = false.
Proof.
  intros Hs Hw. nn_cases Hs as ps es; nn_cases Hw as pw ew; try done.
  - cbn. apply SFltb_val; done.
  - apply f64_add_ge; try done. pose proof (val_bounded ps es Hs). lia.
Qed.
Lemma f64_add_dom_l s b w : f64_nn s → f64_nn b → f64_nn w →
  SFltb s w = false → SFltb (SFadd prec emax s b) w = false.
Proof.
  intros Hs Hb Hw Hlt. destruct (f64_nn_inv _ Hw) as [->|[->|[->|(pw & ew & -> & Hw')]]].
  { by apply nn_not_lt_zero, f64_nn_add. }
  all: nn_cases Hs as ps es; nn_cases Hb as pb eb; try done.
  - by destruct (SFadd prec emax _ _).
  - apply f64_add_ge; try done. apply SFltb_val in Hlt; [|done|done].
    pose proof (val_bounded pb eb Hb). lia.
Qed.

Lemma round_aux_cases m e l : 0 <= m → e <= fexp prec emax (Zdigits2 m + e) →
  let r := binary_round_aux prec emax false m e l in
  r = S754_zero false ∨ r = S754_infinity false ∨
  ∃ p e, r = S754_finite false p e ∧ bounded prec emax p e = true.
Proof.
  intros Hm He. destruct (binary_round_aux_spec false m e l Hm He)
    as (m2 & -> & Hm1 & Hm12 & Hc & He2 & Hn).
  destruct (pack_cases m2 (fexp prec emax (Zdigits2 m + e))) as [[-> _]|[(p' & e' & -> & HB' & _)|[-> _]]];
    try lia; naive_solver.
Qed.

(** Below [2^53] every integer is a float, with the expected value. *)
Lemma exact_rep n : 0 < n <= 2 ^ 53 →
  ∃ p e, bounded prec emax p e = true ∧ val (-1074) (Z.pos p) e = n * 2 ^ 1074.
Proof.
  intros Hn. destruct (decide (n = 2 ^ 53)) as [->|].
  { exists (2 ^ 52)%positive, 1. split; [done|]. vm_compute. done. }
  destruct (Zdigits2_spec n ltac:(lia)) as (H1 & H2 & H3). destruct (H3 ltac:(lia)) as [H4 H5].
  pose proof (Zdigits2_le n 53 ltac:(lia) ltac:(lia)) as H6.
  set (d := Zdigits2 n) in *.
  assert (0 < 2 ^ (53 - d)) as Hp by (apply Z.pow_pos_nonneg; lia).
  exists (Z.to_pos (n * 2 ^ (53 - d))), (d - 53). unfold val. rewrite bounded_spec, Z2Pos.id by lia.
  split.
  - replace (2 ^ 53) with (2 ^ d * 2 ^ (53 - d)) by (rewrite <-Z.pow_add_r by lia; f_equal; lia).
    replace (2 ^ 52) with (2 ^ (d - 1) * 2 ^ (53 - d)) by (rewrite <-Z.pow_add_r by lia; f_equal; lia).
    split; [lia|]. split; [|right]; nia.
  - rewrite <-Z.mul_assoc, <-Z.pow_add_r by lia. do 2 f_equal. lia.
Qed.

Lemma f64_of_Z_exact n : 0 < n <= 2 ^ 53 →
  ∃ p e, f64_of_Z n = S754_finite false p e ∧ bounded prec emax p e = true ∧
    val (-1074) (Z.pos p) e = n * 2 ^ 1074.
Proof.
  intros Hn. destruct (exact_rep n Hn) as (p & e & HB & Hv).
  pose proof (proj1 (bounded_spec _ _) HB) as (?&_&_).
  destruct n as [|q|q]; [lia| |lia]. cbn [f64_of_Z binary_normalize].
  destruct (binary_round_spec false q 0) as (m0 & e0 & Heq & He & Hm0 & Hf).
  unfold f64_of_Z, binary_normalize. rewrite Heq.
  assert (0 <= m0) as Hm0' by (rewrite Hm0; apply Z.mul_nonneg_nonneg; lia).
  set (k := Z.min e0 (-1074)).
  assert (val k m0 e0 = val k (Z.pos p) e) as Heqv.
  { rewrite (val_shift k (-1074) (Z.pos p)), Hv by lia. rewrite Hm0. unfold val.
    rewrite <-!Z.mul_assoc, <-!Z.pow_add_r by lia. do 2 f_equal. lia. }
  pose proof (round_le m0 e0 loc_Exact p e k Hm0' Hf HB ltac:(lia) ltac:(lia) ltac:(lia) ltac:(done)) as H1.
  pose proof (round_ge m0 e0 loc_Exact p e k Hm0' Hf HB ltac:(lia) ltac:(lia) ltac:(lia)) as H2.
  destruct (round_aux_cases m0 e0 loc_Exact Hm0' Hf) as [Hr|[Hr|(p' & e' & Hr & HB')]];
    rewrite Hr in H1, H2 |- *; [done|done|].
  apply SFltb_val in H1; [|done|done]. apply SFltb_val in H2; [|done|done].
  exists p', e'. split; [done|]. split; [done|]. lia.
Qed.

(** A quotient [w / t] with [w <= t] is at most 1. *)
Definition at_most_one (r : f64) : Prop :=
  r = S754_nan ∨ r = S754_zero false ∨
  ∃ p e, r = S754_finite false p e ∧ bounded prec emax p e = true ∧ val (-1074) (Z.pos p) e <= 2 ^ 1074.

Lemma ratio_cancel_le q pt pw S A T W N : S * A * T = W * N → 0 < T → 0 < A → 0 < N →
  pw * W <= Z.pos pt * T → q * Z.pos pt <= pw * S → q * A <= N.
Proof.
  intros Heq HT HA HN Hlt Hx. apply (Z.mul_le_mono_pos_r _ _ (Z.pos pt * T)); [lia|].
  transitivity (pw * (S * A * T)).
  - replace (q * A * (Z.pos pt * T)) with (q * Z.pos pt * (A * T)) by lia.
    replace (pw * (S * A * T)) with (pw * S * (A * T)) by lia.
    apply Z.mul_le_mono_nonneg_r; [nia|done].
  - rewrite Heq. replace (pw * (W * N)) with (N * (pw * W)) by lia.
    apply Z.mul_le_mono_nonneg_l; [lia|done].
Qed.
Lemma ratio_cancel_lt q pt pw S A T W N : S * A * T = W * N → 0 < T → 0 < A → 0 < N →
  pw * W <= Z.pos pt * T → q * Z.pos pt < pw * S → q * A < N.
Proof.
  intros Heq HT HA HN Hlt Hx. apply (Z.mul_lt_mono_pos_r (Z.pos pt * T)); [lia|].
  apply Z.lt_le_trans with (pw * (S * A * T)).
  - replace (q * A * (Z.pos pt * T)) with (q * Z.pos pt * (A * T)) by lia.
    replace (pw * (S * A * T)) with (pw * S * (A * T)) by lia.
    apply Z.mul_lt_mono_pos_r; [nia|done].
  - rewrite Heq. replace (pw * (W * N)) with (N * (pw * W)) by lia.
    apply Z.mul_le_mono_nonneg_l; [lia|done].
Qed.

Lemma f64_div_le_one w t : f64_nn w → f64_nn t → SFltb t w = false → at_most_one (SFdiv prec emax w t).
Proof.
  intros Hw Ht. unfold at_most_one.
  nn_cases Hw as pw ew; nn_cases Ht as pt et; intros Hlt; try (by auto); try done.
  pose proof (proj1 (bounded_spec _ _) Hw) as (?&_&_).
  pose proof (proj1 (bounded_spec _ _) Ht) as (?&_&_).
  apply SFltb_val in Hlt; [|done|done].
  destruct (SFdiv_finite pw ew pt et) as (q & e & l & -> & Hq & He & Hle & H1 & H2).
  set (k := Z.min e (-1074)).
  assert (2 ^ (ew - et - e) * 2 ^ (e - k) * 2 ^ (et - -1074) = 2 ^ (ew - -1074) * 2 ^ (- k)) as Hpow
    by (rewrite <-!Z.pow_add_r by lia; f_equal; lia).
  assert (0 < 2 ^ (et - -1074) ∧ 0 < 2 ^ (e - k) ∧ 0 < 2 ^ (- k)) as (Hp1 & Hp2 & Hp3)
    by (repeat split; apply Z.pow_pos_nonneg; lia).
  assert (val k (Z.pos (2 ^ 52)) (-52) = 2 ^ (- k)) as Hone.
  { unfold val. change (Z.pos (2 ^ 52)) with (2 ^ 52). rewrite <-Z.pow_add_r by lia. f_equal. lia. }
  pose proof (round_le q e l (2 ^ 52) (-52) k Hq He ltac:(done) ltac:(lia) ltac:(lia)) as Hr.
  rewrite Hone in Hr. unfold val in Hlt, Hr at 1 2.
  ospecialize (Hr _ _).
  { by eapply ratio_cancel_le. }
  { intros Hl. by eapply ratio_cancel_lt; [..|apply H2]. }
  destruct (round_aux_cases q e l Hq He) as [Hc|[Hc|(p' & e' & Hc & HB')]];
    rewrite Hc in Hr |- *; [by auto|done|].
  right. right. exists p', e'. split; [done|]. split; [done|].
  apply SFltb_val in Hr; [|done|done]. etrans; [exact Hr|]. vm_compute. done.
Qed.

Lemma f64_to_Z_sat_le mx x E : 0 <= E → (x = S754_nan ∨ x = S754_zero false ∨
  ∃ p e, x = S754_finite false p e ∧ bounded prec emax p e = true ∧
         val (-1074) (Z.pos p) e <= E * 2 ^ 1074) → f64_to_Z_sat mx x <= E.
Proof.
  intros HE [->|[->|(p & e & -> & HB & Hv)]]; [done|done|].
  pose proof (proj1 (bounded_spec _ _) HB) as (?&_&_). unfold val in Hv. cbn [f64_to_Z_sat].
  etrans; [apply Z.le_min_r|]. destruct (Z.leb_spec 0 e).
  - replace (2 ^ (e - -1074)) with (2 ^ e * 2 ^ 1074) in Hv by (rewrite <-Z.pow_add_r by lia; f_equal; lia).
    assert (0 < 2 ^ 1074) by done. nia.
  - assert (0 < 2 ^ (- e)) by (apply Z.pow_pos_nonneg; lia).
    apply Z.div_le_upper_bound; [done|].
    replace (2 ^ 1074) with (2 ^ (- e) * 2 ^ (e - -1074)) in Hv by (rewrite <-Z.pow_add_r by lia; f_equal; lia).
    assert (0 < 2 ^ (e - -1074)) by (apply Z.pow_pos_nonneg; lia). nia.
Qed.

Lemma f64_scale_le E r : 0 <= E <= 2 ^ 53 → at_most_one r → f_to_u64 (fmul (f_of_Z E) r) <= E.
Proof.
  intros HE Hr. apply f64_to_Z_sat_le; [lia|]. cbn [fmul f_of_Z f64_ops].
  destruct (decide (E = 0)) as [->|].
  { destruct Hr as [->|[->|(p & e & -> & _)]]; cbn; auto. }
  destruct (f64_of_Z_exact E ltac:(lia)) as (pE & eE & -> & HBE & HvE).
  destruct Hr as [->|[->|(p & e & -> & HB & Hv)]]; [cbn; auto|cbn; auto|].
  pose proof (proj1 (bounded_spec _ _) HB) as (?&_&_).
  pose proof (proj1 (bounded_spec _ _) HBE) as (?&_&_).
  cbn [SFmul xorb].
  pose proof (prod_exp pE eE p e HBE HB) as Hexp.
  set (k := -4000).
  pose proof (round_le (Z.pos (pE * p)) (eE + e) loc_Exact pE eE k ltac:(lia) Hexp HBE
                ltac:(lia) ltac:(lia)) as Hle.
  ospecialize (Hle _ _); [|by intros []|].
  { unfold val. rewrite Pos2Z.inj_mul.
    replace (2 ^ (eE + e - k)) with (2 ^ (e - -1074) * 2 ^ (eE + -1074 - k))
      by (rewrite <-Z.pow_add_r by lia; f_equal; lia).
    replace (2 ^ (eE - k)) with (2 ^ 1074 * 2 ^ (eE + -1074 - k))
      by (rewrite <-Z.pow_add_r by lia; f_equal; lia).
    assert (0 < 2 ^ (eE + -1074 - k)) by (apply Z.pow_pos_nonneg; lia).
    rewrite !Z.mul_assoc. apply Z.mul_le_mono_nonneg_r; [lia|].
    rewrite <-!Z.mul_assoc. apply Z.mul_le_mono_nonneg_l; [lia|]. exact Hv. }
  destruct (round_aux_cases (Z.pos (pE * p)) (eE + e) loc_Exact ltac:(lia) Hexp)
    as [Hc|[Hc|(p' & e' & Hc & HB')]]; rewrite Hc in Hle |- *; [by auto|done|].
  right. right. exists p', e'. split; [done|]. split; [done|].
  apply SFltb_val in Hle; [|done|done]. lia.
Qed.

Lemma f64_to_Z_sat_range mx x : 0 <= mx → 0 <= f64_to_Z_sat mx x <= mx.
Proof.
  intros Hmx. destruct x as [s|s| |s p e]; cbn; try lia; [by destruct s; lia|].
  destruct s; [lia|]. assert (0 <= (if 0 <=? e then Z.pos p * 2 ^ e else Z.pos p / 2 ^ (- e))); [|lia].
  destruct (Z.leb_spec 0 e); [apply Z.mul_nonneg_nonneg; [lia|apply Z.pow_nonneg; lia]|].
  apply Z.div_pos; [lia|]. apply Z.pow_pos_nonneg; lia.
Qed.

#[global] Instance f64_laws : FloatLaws f64.
Proof.
  refine {| fnn := f64_nn |}.
  - exact f64_nn_of_Z.
  - exact f64_nn_add.
  - exact f64_nn_mul.
  - exact f64_nn_div.
  - exact nn_not_lt_zero.
  - reflexivity.
  - exact f64_add_dom_l.
  - exact f64_add_dom_r.
  - intros E w t HE Hw Ht Hlt. apply f64_scale_le; [done|]. by apply f64_div_le_one.
  - intros mx x. apply f64_to_Z_sat_range.
Defined.

(** ** The laws of the exact instance *)

#[global] Existing Instance Q_ops.

Lemma Q_fltb_false a b : fltb (F:=Q) a b = false ↔ (b <= a)%Q.
Proof. cbn. rewrite negb_false_iff. apply Qle_bool_iff. Qed.

Lemma Qle_bool_false a b : Qle_bool a b = false → (b < a)%Q.
Proof.
  intros H. destruct (Qlt_le_dec b a) as [|Hle]; [done|].
  apply Qle_bool_iff in Hle. by rewrite Hle in H.
Qed.

Lemma inject_Z_nonneg n : 0 <= n → (0 <= inject_Z n)%Q.
Proof. intros. change 0%Q with (inject_Z 0). by rewrite <-Zle_Qle. Qed.

Lemma Qdiv_nonneg a b : (0 <= a)%Q → (0 <= b)%Q → (0 <= a / b)%Q.
Proof. intros Ha Hb. apply Qmult_le_0_compat; [done|]. by apply Qinv_le_0_compat. Qed.

Lemma Qdiv_le_one w t : (0 <= w)%Q → (0 <= t)%Q → (w <= t)%Q → (w / t <= 1)%Q.
Proof.
  intros Hw Ht Hle. destruct (Qle_lt_or_eq _ _ Ht) as [Hlt|Heq].
  - apply Qle_shift_div_r; [done|]. by rewrite Qmult_1_l.
  - rewrite <-Heq. unfold Qdiv. assert (/ 0 == 0)%Q as -> by done. rewrite Qmult_0_r. done.
Qed.

Lemma Q_to_Z_sat_le mx q E : (q <= inject_Z E)%Q → 0 <= E → Q_to_Z_sat mx q <= E.
Proof.
  intros Hq HE. unfold Q_to_Z_sat. apply Qfloor_resp_le in Hq. rewrite Qfloor_Z in Hq. lia.
Qed.

#[global] Instance Q_laws : FloatLaws Q.
Proof.
  refine {| fnn := λ q, (0 <= q)%Q |}.
  - intros n Hn. by apply inject_Z_nonneg.
  - intros x y Hx Hy. cbn. lra.
  - intros x y. apply Qmult_le_0_compat.
  - apply Qdiv_nonneg.
  - intros x Hx. by apply Q_fltb_false.
  - reflexivity.
  - intros s b w Hs Hb Hw. rewrite !Q_fltb_false. cbn. lra.
  - intros s w Hs Hw. rewrite Q_fltb_false. cbn. lra.
  - intros E w t [HE _] Hw Ht Hlt. rewrite Q_fltb_false in Hlt. apply Q_to_Z_sat_le; [|done].
    cbn. pose proof (inject_Z_nonneg E HE). pose proof (Qdiv_le_one w t Hw Ht Hlt).
    pose proof (Qdiv_nonneg w t Hw Ht). nra.
  - intros mx x Hmx. cbn. unfold Q_to_Z_sat. lia.
Defined.

(** ** Exact shares

    In exact arithmetic, splitting [E] in proportion to weights that sum to the
    divisor loses less than one unit per share and never creates any. *)

Definition Qsum (l : list Q) : Q := foldr Qplus 0%Q l.

Lemma fold_Qsum l s : (foldl Qplus s l == s + Qsum l)%Q.
Proof.
  revert s. induction l as [|x l IH]; intros s; [cbn; ring|].
  cbn [foldl]. rewrite IH. change (Qsum (x :: l)) with (x + Qsum l)%Q. ring.
Qed.
Lemma fsum_Qsum (l : list Q) : (fsum l == Qsum l)%Q.
Proof. unfold fsum. change (foldl Qplus 0%Q l == Qsum l)%Q. rewrite fold_Qsum. ring. Qed.
Lemma Qsum_cons x l : Qsum (x :: l) = (x + Qsum l)%Q.
Proof. done. Qed.
Lemma Qsum_nonneg l : Forall (λ q, 0 <= q)%Q l → (0 <= Qsum l)%Q.
Proof. induction 1; [cbn; lra|]. rewrite Qsum_cons. lra. Qed.
Lemma Qsum_elem_le l w : Forall (λ q, 0 <= q)%Q l → w ∈ l → (w <= Qsum l)%Q.
Proof.
  induction 1 as [|x l Hx Hl IH]; intros Hw; [by apply not_elem_of_nil in Hw|].
  pose proof (Qsum_nonneg l Hl). rewrite Qsum_cons. apply elem_of_cons in Hw as [->|Hw]; [lra|].
  specialize (IH Hw). lra.
Qed.

Lemma Q_share_bounds E w t : 0 <= E <= u64_max → (0 <= w)%Q → (w <= t)%Q → (0 < t)%Q →
  let s := scale_u64 (F:=Q) E (w / t)%Q in
  0 <= s ∧ (inject_Z s <= inject_Z E * (w / t))%Q ∧ (inject_Z E * (w / t) < inject_Z s + 1)%Q.
Proof.
  intros HE Hw Hwt Ht. cbn zeta. unfold scale_u64, f_to_u64. cbn.
  set (q := (inject_Z E * (w / t))%Q).
  pose proof (inject_Z_nonneg E (proj1 HE)). pose proof (Qdiv_le_one w t Hw (Qlt_le_weak _ _ Ht) Hwt).
  pose proof (Qdiv_nonneg w t Hw (Qlt_le_weak _ _ Ht)).
  assert (0 <= q)%Q as Hq0 by (unfold q; nra). assert (q <= inject_Z E)%Q as HqE by (unfold q; nra).
  assert (0 <= Qfloor q <= E) as Hf.
  { split; [change 0 with (Qfloor 0); by apply Qfloor_resp_le|].
    rewrite <-(Qfloor_Z E). by apply Qfloor_resp_le. }
  unfold Q_to_Z_sat. replace (Z.max 0 (Z.min u64_max (Qfloor q))) with (Qfloor q) by lia.
  split; [lia|]. split; [apply Qfloor_le|].
  pose proof (Qlt_floor q) as Hlt. rewrite inject_Z_plus in Hlt. exact Hlt.
Qed.

Lemma Q_shares_sum E t l : 0 <= E <= u64_max → (0 < t)%Q → Forall (λ w, 0 <= w <= t)%Q l →
  let s := sum_Z ((λ w, scale_u64 (F:=Q) E (w / t)%Q) <$> l) in
  0 <= s ∧ (inject_Z s <= inject_Z E * (Qsum l / t))%Q ∧
  (inject_Z E * (Qsum l / t) <= inject_Z (s + Z.of_nat (length l)))%Q ∧
  (l ≠ [] → inject_Z E * (Qsum l / t) < inject_Z (s + Z.of_nat (length l)))%Q.
Proof.
  intros HE Ht. induction 1 as [|w l Hw Hl IH]; cbn zeta in *.
  { cbn. unfold Qdiv. rewrite Qmult_0_l, Qmult_0_r. repeat split; try lra || done. }
  destruct IH as (H0 & H1 & H2 & _). rewrite fmap_cons, sum_Z_cons.
  destruct (Q_share_bounds E w t HE (proj1 Hw) (proj2 Hw) Ht) as (Hs0 & Hs1 & Hs2).
  assert (inject_Z E * (Qsum (w :: l) / t) == inject_Z E * (w / t) + inject_Z E * (Qsum l / t))%Q as ->.
  { change (Qsum (w :: l)) with (w + Qsum l)%Q. unfold Qdiv. ring. }
  rewrite !inject_Z_plus. cbn [length]. rewrite Nat2Z.inj_succ, <-Z.add_1_r, inject_Z_plus.
  rewrite inject_Z_plus in H2. change (inject_Z 1) with 1%Q.
  repeat split; [lia|lra|lra|intros _; lra].
Qed.

(** Splitting [E] over weights whose sum is the divisor. *)
Lemma Q_split_exact E l : 0 <= E <= u64_max → Forall (λ w, 0 <= w)%Q l → (0 < Qsum l)%Q →
  ∀ t, (t == Qsum l)%Q →
  let s := sum_Z ((λ w, scale_u64 (F:=Q) E (w / t)%Q) <$> l) in
  s <= E < s + Z.of_nat (length l).
Proof.
  intros HE Hl Hpos t Ht. cbn zeta.
  destruct (Q_shares_sum E t l HE) as (H0 & H1 & _ & H3); [by rewrite Ht| |].
  { apply Forall_forall. intros w Hw. rewrite Ht. split; [by eapply Forall_forall in Hl|].
    by apply Qsum_elem_le. }
  assert (Qsum l / t == 1)%Q as Hone by (rewrite Ht; apply Qmult_inv_r; lra).
  rewrite Hone, Qmult_1_r in H1, H3. rewrite <-Zle_Qle in H1. split; [done|].
  assert (l ≠ []) as Hne by (intros ->; cbn in Hpos; lra). specialize (H3 Hne). by rewrite <-Zlt_Qlt in H3.
Qed.

(** ** Consequences for sums, in any lawful arithmetic *)

Section sums.
Context `{FL : FloatLaws F}.

Lemma fnn_fold l s : fnn s → Forall fnn l → fnn (foldl fadd s l).
Proof. intros Hs Hl. revert s Hs. induction Hl; intros s Hs; simpl; [done|]. auto using fnn_add. Qed.
Lemma fnn_sum l : Forall fnn l → fnn (fsum l).
Proof. apply fnn_fold. by apply fnn_of_Z. Qed.
Lemma fnn_sq x : fnn x → fnn (fsq x).
Proof. intros. by apply fnn_mul. Qed.
Lemma fnn_lit n d : 0 <= n → 0 <= d → fnn (f_lit n d).
Proof. intros. apply fnn_div; by apply fnn_of_Z. Qed.

Lemma fold_dom l s w : fnn s → fnn w → Forall fnn l → fltb s w = false → fltb (foldl fadd s l) w = false.
Proof.
  intros Hs Hw Hl. revert s Hs. induction Hl as [|x l Hx Hl IH]; intros s Hs Hlt; simpl; [done|].
  apply IH; [by apply fnn_add|]. by apply fadd_dom_l.
Qed.

(** The rounded sum of non-negative weights is not below any of them. *)
Lemma fsum_dom l w : Forall fnn l → w ∈ l → fltb (fsum l) w = false.
Proof.
  intros Hl Hw. unfold fsum. assert (fnn fzero) as H0 by (by apply fnn_of_Z).
  revert H0. generalize fzero. induction Hl as [|x l Hx Hl IH]; intros s Hs; [by apply not_elem_of_nil in Hw|].
  apply elem_of_cons in Hw as [->|Hw]; simpl.
  - apply fold_dom; [by apply fnn_add|done|done|by apply fadd_dom_r].
  - apply IH; [done|by apply fnn_add].
Qed.
End sums.
#[export] Hint Resolve fnn_of_Z fnn_add fnn_mul fnn_div fnn_sum fnn_sq fnn_lit : keck.

(** ** The order of the machine floats

    [SFltb] on values that are not NaN is the lexicographic order of sign class,
    exponent and mantissa, hence a strict order; NaN is below and above
    nothing. *)

Definition f64_rank (x : f64) : Z * Z * Z :=
  match x with
  | S754_infinity true => (-2, 0, 0)
  | S754_finite true m e => (-1, - e, - Z.pos m)
  | S754_zero _ | S754_nan => (0, 0, 0)
  | S754_finite false m e => (1, e, Z.pos m)
  | S754_infinity false => (2, 0, 0)
  end.
Definition rank_lt (a b : Z * Z * Z) : Prop :=
  a.1.1 < b.1.1 ∨ (a.1.1 = b.1.1 ∧ (a.1.2 < b.1.2 ∨ (a.1.2 = b.1.2 ∧ a.2 < b.2))).

Lemma SFltb_rank a b : SFltb a b = true ↔ f64_is_nan a = false ∧ f64_is_nan b = false ∧ rank_lt (f64_rank a) (f64_rank b).
Proof.
  unfold SFltb, rank_lt.
  destruct a as [[]|[]| |[] ma ea], b as [[]|[]| |[] mb eb]; cbn; try (split; [done|intros (? & ? & ?); lia || done]);
    try (split; [intros _; repeat split; lia|done]).
  - destruct (Z.compare_spec ea eb); cbn; [|split; [done|lia]|split; [lia|done]].
    change (Pos.compare_cont Eq ma mb) with (Pos.compare ma mb).
    destruct (Pos.compare_spec ma mb); cbn; split; try done; try lia. 
  - destruct (Z.compare_spec ea eb); cbn; [|split; [lia|done]|split; [done|lia]].
    change (Pos.compare_cont Eq ma mb) with (Pos.compare ma mb).
    destruct (Pos.compare_spec ma mb); cbn; split; try done; try lia.
Qed.
Lemma SFltb_irrefl a : SFltb a a = false.
Proof. apply not_true_is_false. intros (_ & _ & Hlt)%SFltb_rank. unfold rank_lt in Hlt. lia. Qed.
Lemma SFltb_asym a b : SFltb a b = true → SFltb b a = false.
Proof.
  intros (Ha & Hb & Hlt)%SFltb_rank. apply not_true_is_false. intros (_ & _ & Hlt')%SFltb_rank.
  unfold rank_lt in *. lia.
Qed.
Lemma SFltb_trans a b c : SFltb a b = true → SFltb b c = true → SFltb a c = true.
Proof.
  intros (Ha & Hb & Hlt)%SFltb_rank (_ & Hc & Hlt')%SFltb_rank. apply SFltb_rank. unfold rank_lt in *.
  repeat split; [done|done|lia].
Qed.
Lemma SFltb_neg_trans a b c : f64_is_nan b = false → SFltb a b = false → SFltb b c = false → SFltb a c = false.
Proof.
  intros Hb Hab Hbc. apply not_true_is_false. intros (Ha & Hc & Hlt)%SFltb_rank.
  apply not_true_iff_false in Hab, Hbc. rewrite SFltb_rank in Hab, Hbc. unfold rank_lt in *.
  assert (¬ rank_lt (f64_rank a) (f64_rank b)) as H1 by (intros ?; by apply Hab).
  assert (¬ rank_lt (f64_rank b) (f64_rank c)) as H2 by (intros ?; by apply Hbc).
  unfold rank_lt in *. lia.
Qed.

(** ** Ratios of machine integers are finite *)

Definition f64_finite (x : f64) : bool := match x with S754_zero _ | S754_finite _ _ _ => true | _ => false end.

Lemma f64_of_Z_between n : 0 < n <= 2 ^ 64 →
  ∃ p e, f64_of_Z n = S754_finite false p e ∧ bounded prec emax p e = true ∧
    2 ^ 1074 <= val (-1074) (Z.pos p) e <= 2 ^ 1138.
Proof.
  intros Hn. destruct n as [|q|q]; [lia| |lia]. unfold f64_of_Z, binary_normalize.
  destruct (binary_round_spec false q 0) as (m0 & e0 & -> & He & Hm0 & Hf).
  assert (0 <= m0) as Hm0' by (rewrite Hm0; apply Z.mul_nonneg_nonneg; lia).
  set (k := Z.min e0 (-1074)).
  assert (val k m0 e0 = Z.pos q * 2 ^ (- k)) as Hv.
  { rewrite Hm0. unfold val. rewrite <-Z.mul_assoc, <-Z.pow_add_r by lia. do 2 f_equal. lia. }
  assert (∀ j, -52 <= j → val k (Z.pos (2 ^ 52)) j = 2 ^ (52 + j) * 2 ^ (- k)) as Hpow.
  { intros j Hj. unfold val. change (Z.pos (2 ^ 52)) with (2 ^ 52). rewrite <-!Z.pow_add_r by lia. f_equal. lia. }
  assert (0 < 2 ^ (- k)) as Hk by (apply Z.pow_pos_nonneg; lia).
  pose proof (round_le m0 e0 loc_Exact (2 ^ 52) 12 k Hm0' Hf ltac:(done) ltac:(lia) ltac:(lia)) as H1.
  rewrite Hv, Hpow in H1 by lia. specialize (H1 ltac:(apply Z.mul_le_mono_nonneg_r; lia) ltac:(done)).
  pose proof (round_ge m0 e0 loc_Exact (2 ^ 52) (-52) k Hm0' Hf ltac:(done) ltac:(lia) ltac:(lia)) as H2.
  rewrite Hv, Hpow in H2 by lia. specialize (H2 ltac:(apply Z.mul_le_mono_nonneg_r; lia)).
  destruct (round_aux_cases m0 e0 loc_Exact Hm0' Hf) as [Hr|[Hr|(p' & e' & Hr & HB')]];
    rewrite Hr in H1, H2 |- *; [done|done|].
  apply SFltb_val in H1; [|done|done]. apply SFltb_val in H2; [|done|done].
  exists p', e'. split; [done|]. split; [done|]. split; [etrans; [|exact H2]|etrans; [exact H1|]]; by vm_compute.
Qed.

(** The quotient of two integers below [2^64] is a number. *)
Lemma f64_ratio_finite a b : 0 <= a <= 2 ^ 64 → 0 < b <= 2 ^ 64 → f64_finite (fdiv (f_of_Z a) (f_of_Z b)) = true.
Proof.
  intros Ha Hb. change (f64_finite (SFdiv prec emax (f64_of_Z a) (f64_of_Z b)) = true).
  destruct (f64_of_Z_between b Hb) as (pt & et & -> & Ht & Hvt).
  destruct (decide (a = 0)) as [->|Ha0]; [done|].
  destruct (f64_of_Z_between a ltac:(lia)) as (pw & ew & -> & Hw & Hvw).
  pose proof (proj1 (bounded_spec _ _) Hw) as (?&_&_). pose proof (proj1 (bounded_spec _ _) Ht) as (?&_&_).
  destruct (SFdiv_finite pw ew pt et) as (q & e & l & -> & Hq & He & Hle & H1 & H2).
  set (k := Z.min e (-1074)).
  assert (2 ^ (ew - et - e) * 2 ^ (e - k) * (2 ^ (et - -1074) * 2 ^ 64) = 2 ^ (ew - -1074) * (2 ^ (- k) * 2 ^ 64)) as Hpow
    by (rewrite <-!Z.pow_add_r by lia; f_equal; lia).
  assert (0 < 2 ^ (et - -1074) * 2 ^ 64 ∧ 0 < 2 ^ (e - k) ∧ 0 < 2 ^ (- k) * 2 ^ 64) as (Hp1 & Hp2 & Hp3).
  { repeat split; [apply Z.mul_pos_pos; [apply Z.pow_pos_nonneg; lia|done]|apply Z.pow_pos_nonneg; lia|].
    apply Z.mul_pos_pos; [apply Z.pow_pos_nonneg; lia|done]. }
  assert (val k (Z.pos (2 ^ 52)) 12 = 2 ^ (- k) * 2 ^ 64) as Hbig.
  { unfold val. change (Z.pos (2 ^ 52)) with (2 ^ 52). rewrite <-!Z.pow_add_r by lia. f_equal. lia. }
  assert (Z.pos pw * 2 ^ (ew - -1074) <= Z.pos pt * (2 ^ (et - -1074) * 2 ^ 64)) as Hle'.
  { unfold val in Hvt, Hvw. rewrite Z.mul_assoc. replace (2 ^ 1138) with (2 ^ 1074 * 2 ^ 64) in Hvw by (by vm_compute).
    etrans; [apply Hvw|]. apply Z.mul_le_mono_nonneg_r; [done|apply Hvt]. }
  pose proof (round_le q e l (2 ^ 52) 12 k Hq He ltac:(done) ltac:(lia) ltac:(lia)) as Hr.
  rewrite Hbig in Hr. unfold val in Hr at 1 2. ospecialize (Hr _ _).
  { by eapply ratio_cancel_le. }
  { intros Hl. by eapply ratio_cancel_lt; [..|apply H2]. }
  by destruct (round_aux_cases q e l Hq He) as [Hc|[Hc|(p' & e' & Hc & HB')]]; rewrite Hc in Hr |- *.
Qed.
