(* ===== verification/F64Error.v ===== *)
(** * F64Error: how far the machine arithmetic is from the exact one

    Upper bounds for the results of the machine's additions, products and
    quotients of non-negative numbers.  An operation rounds its exact result up
    by at most one part in 2^52, or by the smallest positive number where the
    result is subnormal.  [below k x q] carries such a bound through a
    computation: the float [x] is finite and at most the rational [q], and [q]
    is zero or at least [2^-k], so that the second kind of error is absorbed by
    the first.  From it follows that a total divided in proportion is not
    exceeded by the sum of the rounded parts ([parts_machine_le]). *)

From S2P Require Import Prelude F64.
From Stdlib Require Import SpecFloat QArith Qround Qpower Lqa.

Open Scope Z_scope.

(** ** The value of a float *)

Definition two : Q := 2#1.
Definition eps : Q := (two ^ (-52))%Q.
Definition tiny : Q := (two ^ (-1074))%Q.

(** Of a finite non-negative float; the others are of no interest here. *)
Definition f64_val (x : f64) : Q :=
  match x with S754_finite false p e => (inject_Z (Z.pos p) * two ^ e)%Q | _ => 0%Q end.
(** +0 or a canonical positive float. *)
Definition finite_nn (x : f64) : Prop :=
  match x with
  | S754_zero s => s = false
  | S754_finite s p e => s = false ∧ bounded prec emax p e = true
  | _ => False
  end.

Lemma two_pow_pos e : (0 < two ^ e)%Q.
Proof. by apply Qpower_0_lt. Qed.
Lemma two_pow_add a b : (two ^ (a + b) == two ^ a * two ^ b)%Q.
Proof. by apply Qpower_plus. Qed.
Lemma two_pow_Z n : 0 <= n → (inject_Z (2 ^ n) == two ^ n)%Q.
Proof. intros. by rewrite Zpower_Qpower. Qed.
Lemma two_pow_mono a b : a <= b → (two ^ a <= two ^ b)%Q.
Proof. intros. by apply Qpower_le_compat_l. Qed.
Lemma f64_val_nonneg x : (0 <= f64_val x)%Q.
Proof.
  destruct x as [[]|[]| |[] p e]; cbn; try lra. pose proof (two_pow_pos e).
  assert (0 < inject_Z (Z.pos p))%Q by (change 0%Q with (inject_Z 0); by rewrite <-Zlt_Qlt). nra.
Qed.
Lemma f64_val_pos p e : (0 < f64_val (S754_finite false p e))%Q.
Proof.
  cbn. pose proof (two_pow_pos e).
  assert (0 < inject_Z (Z.pos p))%Q by (change 0%Q with (inject_Z 0); by rewrite <-Zlt_Qlt). nra.
Qed.
Lemma val_Q m e : -1074 <= e → (inject_Z (val (-1074) m e) * tiny == inject_Z m * two ^ e)%Q.
Proof.
  intros He. unfold val, tiny. rewrite inject_Z_mult, two_pow_Z by lia.
  rewrite <-Qmult_assoc, <-two_pow_add. by replace (e - -1074 + -1074) with e by lia.
Qed.

(** ** One rounding *)

(** The rounding of a significand whose value is at most [q]. *)
Lemma round_err m e l q : 0 <= m → e <= fexp prec emax (Zdigits2 m + e) →
  (inject_Z m * two ^ e <= q)%Q → (q < two ^ 1000)%Q →
  let r := binary_round_aux prec emax false m e l in
  finite_nn r ∧ (f64_val r <= q * (1 + eps) + tiny)%Q.
Proof.
  intros Hm He Hq Hbig. cbn zeta.
  destruct (binary_round_aux_spec false m e l Hm He) as (m2 & -> & Hm1 & Hm12 & Hc & He2 & Hn).
  set (e2 := fexp prec emax (Zdigits2 m + e)) in *. set (m1 := m / 2 ^ (e2 - e)) in *.
  assert (inject_Z m1 * two ^ e2 <= q)%Q as Hm1q.
  { eapply Qle_trans; [|exact Hq].
    assert (m1 * 2 ^ (e2 - e) <= m) as Hd by (rewrite Z.mul_comm; apply Z.mul_div_le; apply Z.pow_pos_nonneg; lia).
    rewrite Zle_Qle, inject_Z_mult, two_pow_Z in Hd by lia.
    replace e2 with (e2 - e + e) at 1 by lia. rewrite two_pow_add, Qmult_assoc.
    apply Qmult_le_compat_r; [done|]. apply Qlt_le_weak, two_pow_pos. }
  assert (0 <= q)%Q as Hq0.
  { eapply Qle_trans; [|exact Hm1q]. apply Qmult_le_0_compat; [|apply Qlt_le_weak, two_pow_pos].
    change 0%Q with (inject_Z 0). rewrite <-Zle_Qle. lia. }
  assert (0 < eps)%Q as He52 by apply two_pow_pos. assert (0 < tiny)%Q as Ht by apply two_pow_pos.
  assert (inject_Z m2 * two ^ e2 <= q * (1 + eps) + tiny)%Q as Hm2.
  { assert (inject_Z m2 <= inject_Z m1 + 1)%Q as H1
      by (change 1%Q with (inject_Z 1); rewrite <-inject_Z_plus, <-Zle_Qle; lia).
    pose proof (two_pow_pos e2) as Hp.
    assert (inject_Z m2 * two ^ e2 <= inject_Z m1 * two ^ e2 + two ^ e2)%Q as H2 by nra.
    destruct Hn as [Hn|Hn]; [rewrite Hn in H2 at 3; fold tiny in H2; nra|].
    assert (two ^ e2 <= inject_Z m1 * two ^ e2 * eps)%Q as H3; [|nra].
    assert (1 <= inject_Z m1 * eps)%Q as H4; [|nra].
    assert (1 == inject_Z (2 ^ 52) * eps)%Q as -> by (rewrite two_pow_Z by lia; unfold eps; by rewrite <-two_pow_add).
    apply Qmult_le_compat_r; [by rewrite <-Zle_Qle|lra]. }
  destruct (pack_cases m2 e2 ltac:(lia) He2) as [[-> _]|[(p' & e' & -> & HB & Hv)|[-> Hv]]]; [lia|..].
  - split; [done|]. change (0 <= q * (1 + eps) + tiny)%Q. nra.
  - split; [done|]. pose proof (proj1 (bounded_spec _ _) HB) as (?&_&_). cbn [f64_val].
    rewrite <-(val_Q (Z.pos p') e'), Hv, val_Q by lia. done.
  - exfalso. rewrite Zle_Qle, two_pow_Z in Hv by lia.
    apply (Qmult_le_compat_r _ _ tiny) in Hv; [|apply Qlt_le_weak, two_pow_pos].
    rewrite val_Q in Hv by lia. unfold tiny at 1 in Hv. rewrite <-two_pow_add in Hv.
    assert (eps <= 1)%Q by (apply (two_pow_mono (-52) 0); lia).
    assert (tiny <= 1)%Q by (apply (two_pow_mono (-1074) 0); lia).
    assert (two ^ 1002 <= two ^ (2098 + -1074))%Q by (apply two_pow_mono; lia).
    assert (two ^ 1002 == 4 * two ^ 1000)%Q by (rewrite (two_pow_add 2 1000); reflexivity).
    assert (1 <= two ^ 1000)%Q by (apply (two_pow_mono 0 1000); lia).
    nra.
Qed.

(** ** Bounds through a computation *)

Record below (k : Z) (x : f64) (q : Q) : Prop := {
  below_finite : finite_nn x;
  below_val : (f64_val x <= q)%Q;
  below_size : (q == 0 ∨ two ^ (- k) <= q)%Q
}.
(** What one operation makes of a bound. *)
Definition grow (q : Q) : Q := (q * (1 + 2 * eps))%Q.

Lemma eps_pos : (0 < eps)%Q.
Proof. apply two_pow_pos. Qed.
Lemma grow_ge q : (0 <= q)%Q → (q <= grow q)%Q.
Proof. unfold grow. pose proof eps_pos. nra. Qed.
Lemma grow_mono a b : (a <= b)%Q → (grow a <= grow b)%Q.
Proof. unfold grow. pose proof eps_pos. nra. Qed.
#[global] Instance grow_proper : Proper (Qeq ==> Qeq) grow.
Proof. intros a b H. unfold grow. by rewrite H. Qed.
Lemma below_nonneg k x q : below k x q → (0 <= q)%Q.
Proof. intros [_ H _]. pose proof (f64_val_nonneg x). lra. Qed.
Lemma below_pos k p e q : below k (S754_finite false p e) q → (0 < q)%Q ∧ (two ^ (- k) <= q)%Q.
Proof. intros [_ Hv Hs]. pose proof (f64_val_pos p e). split; [lra|]. destruct Hs; [lra|done]. Qed.
Lemma below_zero k q : (0 <= q)%Q → (q == 0 ∨ two ^ (- k) <= q)%Q → below k (S754_zero false) q.
Proof. by constructor. Qed.
Lemma size_grow k q : (q == 0 ∨ two ^ (- k) <= q)%Q → (grow q == 0 ∨ two ^ (- k) <= grow q)%Q.
Proof.
  intros [H|H]; [left; unfold grow; rewrite H; ring|right].
  eapply Qle_trans; [exact H|]. apply grow_ge. pose proof (two_pow_pos (- k)). lra.
Qed.
Lemma below_le k x a b : below k x a → (a <= b)%Q → (b == 0 ∨ two ^ (- k) <= b)%Q → below k x b.
Proof. intros [Hf Hv _] Hab Hs. split; [done|lra|done]. Qed.
Lemma below_inv k x q : below k x q → x = S754_zero false ∨
  ∃ p e, x = S754_finite false p e ∧ bounded prec emax p e = true.
Proof. intros [Hf _ _]. destruct x as [s|s| |s p e]; cbn in Hf; [by left; subst|done|done|right; destruct Hf; subst; eauto]. Qed.

Lemma round_below m e l q k : 0 <= m → e <= fexp prec emax (Zdigits2 m + e) → k <= 1000 →
  (inject_Z m * two ^ e <= q)%Q → (two ^ (- k) <= q)%Q → (q < two ^ 1000)%Q →
  below k (binary_round_aux prec emax false m e l) (grow q).
Proof.
  intros Hm He Hk Hq Hs Hbig. destruct (round_err m e l q Hm He Hq Hbig) as [Hf Hv]. split; [done| |].
  - eapply Qle_trans; [exact Hv|]. unfold grow.
    assert (tiny <= q * eps)%Q; [|lra]. eapply Qle_trans; [|apply Qmult_le_compat_r; [exact Hs|apply Qlt_le_weak, eps_pos]].
    unfold eps. rewrite <-two_pow_add. apply two_pow_mono. lia.
  - apply size_grow. by right.
Qed.

Lemma size_mul k1 k2 a b : (a == 0 ∨ two ^ (- k1) <= a)%Q → (b == 0 ∨ two ^ (- k2) <= b)%Q →
  (a * b == 0 ∨ two ^ (- (k1 + k2)) <= a * b)%Q.
Proof.
  intros [Ha|Ha]; [left; rewrite Ha; ring|]. intros [Hb|Hb]; [left; rewrite Hb; ring|right].
  replace (- (k1 + k2)) with (- k1 + - k2) by lia. rewrite two_pow_add.
  pose proof (two_pow_pos (- k1)). pose proof (two_pow_pos (- k2)). nra.
Qed.
Lemma below_mul k1 k2 x y a b : below k1 x a → below k2 y b → k1 + k2 <= 1000 → (a * b < two ^ 1000)%Q →
  below (k1 + k2) (SFmul prec emax x y) (grow (a * b)).
Proof.
  intros Hx Hy Hk Hbig. pose proof (below_nonneg _ _ _ Hx) as Ha. pose proof (below_nonneg _ _ _ Hy) as Hb.
  pose proof (size_mul _ _ _ _ (below_size _ _ _ Hx) (below_size _ _ _ Hy)) as Hs.
  assert (0 <= a * b)%Q as Hab by nra.
  assert (below (k1 + k2) (S754_zero false) (grow (a * b))) as Hz.
  { apply below_zero; [|by apply size_grow]. eapply Qle_trans; [exact Hab|by apply grow_ge]. }
  destruct (below_inv _ _ _ Hx) as [->|(p1 & e1 & -> & HB1)]; destruct (below_inv _ _ _ Hy) as [->|(p2 & e2 & -> & HB2)];
    try exact Hz. cbn [SFmul xorb].
  destruct (below_pos _ _ _ _ Hx) as [Ha0 Ha1]. destruct (below_pos _ _ _ _ Hy) as [Hb0 Hb1].
  apply round_below; [lia|by apply prod_exp|done| |by destruct Hs; [nra|]|done].
  pose proof (below_val _ _ _ Hx) as V1. pose proof (below_val _ _ _ Hy) as V2. cbn [f64_val] in V1, V2.
  rewrite Pos2Z.inj_mul, inject_Z_mult, two_pow_add.
  pose proof (f64_val_pos p1 e1) as P1. pose proof (f64_val_pos p2 e2) as P2. cbn [f64_val] in P1, P2. nra.
Qed.

Lemma below_add k x y a b : below k x a → below k y b → k <= 1000 → (a + b < two ^ 1000)%Q →
  below k (SFadd prec emax x y) (grow (a + b)).
Proof.
  intros Hx Hy Hk Hbig. pose proof (below_nonneg _ _ _ Hx) as Ha. pose proof (below_nonneg _ _ _ Hy) as Hb.
  pose proof (two_pow_pos (- k)) as Hp.
  assert (a + b == 0 ∨ two ^ (- k) <= a + b)%Q as Hs.
  { destruct (below_size _ _ _ Hx); [|right; lra]. destruct (below_size _ _ _ Hy); [left|right]; lra. }
  assert (a + b <= grow (a + b))%Q as Hg by (apply grow_ge; lra).
  assert (∀ c z, below k z c → (c <= a + b)%Q → below k z (grow (a + b))) as Hle.
  { intros c z Hz Hc. eapply below_le; [exact Hz|lra|by apply size_grow]. }
  destruct (below_inv _ _ _ Hx) as [->|(p1 & e1 & -> & HB1)]; destruct (below_inv _ _ _ Hy) as [->|(p2 & e2 & -> & HB2)].
  - apply (Hle a); [done|lra].
  - apply (Hle b); [done|lra].
  - apply (Hle a); [done|lra].
  - destruct (SFadd_finite p1 e1 p2 e2) as (ps & -> & Hps).
    destruct (binary_round_spec false ps (Z.min e1 e2)) as (m0 & e0 & -> & He & Hm0 & Hf).
    destruct (below_pos _ _ _ _ Hx) as [Ha0 Ha1].
    apply round_below; [rewrite Hm0; apply Z.mul_nonneg_nonneg; lia|done|done| |lra|done].
    pose proof (below_val _ _ _ Hx) as V1. pose proof (below_val _ _ _ Hy) as V2. cbn [f64_val] in V1, V2.
    assert (inject_Z m0 * two ^ e0 == inject_Z (Z.pos p1) * two ^ e1 + inject_Z (Z.pos p2) * two ^ e2)%Q as ->; [|lra].
    rewrite Hm0, Hps, Z.mul_add_distr_r, <-!Z.mul_assoc, <-!Z.pow_add_r by lia.
    rewrite inject_Z_plus, !inject_Z_mult, !two_pow_Z by lia.
    rewrite Qmult_plus_distr_l, <-!Qmult_assoc, <-!two_pow_add.
    by replace (e1 - Z.min e1 e2 + (Z.min e1 e2 - e0) + e0) with e1 by lia;
       replace (e2 - Z.min e1 e2 + (Z.min e1 e2 - e0) + e0) with e2 by lia.
Qed.

Lemma inject_pos n : 0 < n → (0 < inject_Z n)%Q.
Proof. intros. change 0%Q with (inject_Z 0). by rewrite <-Zlt_Qlt. Qed.
Lemma inject_le n j : 0 <= j → n <= 2 ^ j → (inject_Z n <= two ^ j)%Q.
Proof. intros Hj Hn. rewrite <-two_pow_Z by lia. by rewrite <-Zle_Qle. Qed.

(** An integer up to 2^53 is itself. *)
Lemma f64_of_Z_val n : 0 <= n <= 2 ^ 53 → finite_nn (f64_of_Z n) ∧ (f64_val (f64_of_Z n) == inject_Z n)%Q.
Proof.
  intros Hn. destruct (decide (n = 0)) as [->|]; [done|].
  destruct (f64_of_Z_exact n ltac:(lia)) as (p & e & -> & HB & Hv). split; [done|].
  pose proof (proj1 (bounded_spec _ _) HB) as (?&_&_). cbn [f64_val]. rewrite <-val_Q, Hv by lia.
  rewrite inject_Z_mult, two_pow_Z by lia. unfold tiny. rewrite <-Qmult_assoc, <-two_pow_add. apply Qmult_1_r.
Qed.
Lemma below_of_Z n : 0 <= n <= 2 ^ 53 → below 0 (f64_of_Z n) (inject_Z n).
Proof.
  intros Hn. destruct (f64_of_Z_val n Hn) as [Hf Hv]. split; [done|by rewrite Hv; apply Qle_refl|].
  destruct (decide (n = 0)) as [->|]; [by left|right]. change (two ^ (- 0))%Q with (inject_Z 1). rewrite <-Zle_Qle. lia.
Qed.

Lemma below_div k j x a t : below k x a → 0 < t <= 2 ^ 53 → t <= 2 ^ j → 0 <= j → k + j <= 1000 → (a < two ^ 1000)%Q →
  below (k + j) (SFdiv prec emax x (f64_of_Z t)) (grow (a / inject_Z t)).
Proof.
  intros Hx Ht Htj Hj Hk Hbig. pose proof (below_nonneg _ _ _ Hx) as Ha. pose proof (inject_pos t ltac:(lia)) as Htq.
  assert (1 <= inject_Z t)%Q as Ht1 by (change 1%Q with (inject_Z 1); rewrite <-Zle_Qle; lia).
  pose proof (Qdiv_nonneg a (inject_Z t) Ha ltac:(lra)) as Hat.
  assert (a / inject_Z t * inject_Z t == a)%Q as Heq by (field; lra).
  assert (a / inject_Z t == 0 ∨ two ^ (- (k + j)) <= a / inject_Z t)%Q as Hs.
  { destruct (below_size _ _ _ Hx) as [H0|H1]; [left; rewrite H0; field; lra|right].
    apply Qle_shift_div_l; [done|]. eapply Qle_trans; [|exact H1].
    replace (- k) with (- (k + j) + j) by lia. rewrite two_pow_add.
    pose proof (inject_le t j Hj Htj). pose proof (two_pow_pos (- (k + j))). nra. }
  destruct (f64_of_Z_val t ltac:(lia)) as [_ Hvt].
  destruct (f64_of_Z_exact t ltac:(lia)) as (p2 & e2 & Hf & HB2 & _). rewrite Hf in Hvt |- *. cbn [f64_val] in Hvt.
  destruct (below_inv _ _ _ Hx) as [->|(p1 & e1 & -> & HB1)].
  { apply below_zero; [|by apply size_grow]. eapply Qle_trans; [exact Hat|by apply grow_ge]. }
  destruct (below_pos _ _ _ _ Hx) as [Ha0 Ha1].
  destruct (SFdiv_finite p1 e1 p2 e2) as (q & e & l & -> & Hq & He & Hle & H1 & _).
  apply round_below; [done|done|lia| |destruct Hs; [nra|done]|].
  - pose proof (below_val _ _ _ Hx) as V1. cbn [f64_val] in V1. apply Qle_shift_div_l; [done|].
    eapply Qle_trans; [|exact V1]. rewrite <-Hvt.
    rewrite Zle_Qle, !inject_Z_mult, two_pow_Z in H1 by lia.
    pose proof (two_pow_pos (e + e2)) as Hp. apply (Qmult_le_compat_r _ _ (two ^ (e + e2))) in H1; [|lra].
    rewrite <-(Qmult_assoc _ (two ^ (e1 - e2 - e))), <-two_pow_add in H1.
    replace (e1 - e2 - e + (e + e2)) with e1 in H1 by lia. rewrite two_pow_add in H1. nra.
  - eapply Qle_lt_trans; [|exact Hbig]. nra.
Qed.

Lemma f_to_u64_le x : finite_nn x → (inject_Z (f_to_u64 x) <= f64_val x)%Q.
Proof.
  intros Hf. destruct x as [s|s| |s p e]; cbn in Hf; [done|done|done|]. destruct Hf as [-> HB].
  pose proof (proj1 (bounded_spec _ _) HB) as (?&_&_). unfold f_to_u64. cbn [f_to_Z_sat f64_ops f64_to_Z_sat f64_val].
  pose proof (two_pow_pos e). destruct (Z.leb_spec 0 e).
  - eapply Qle_trans; [rewrite <-Zle_Qle; apply Z.le_min_r|]. rewrite inject_Z_mult, two_pow_Z by lia. apply Qle_refl.
  - eapply Qle_trans; [rewrite <-Zle_Qle; apply Z.le_min_r|].
    assert (Z.pos p / 2 ^ (- e) * 2 ^ (- e) <= Z.pos p) as Hd
      by (rewrite Z.mul_comm; apply Z.mul_div_le, Z.pow_pos_nonneg; lia).
    rewrite Zle_Qle, inject_Z_mult, two_pow_Z in Hd by lia.
    apply (Qmult_le_compat_r _ _ (two ^ e)) in Hd; [|lra].
    rewrite <-Qmult_assoc, <-two_pow_add in Hd. replace (- e + e) with 0 in Hd by lia.
    change (two ^ 0)%Q with 1%Q in Hd. lra.
Qed.

(** ** Parts of a total *)

Lemma pow_1000_big q j : 0 <= j < 1000 → (q <= two ^ j)%Q → (q < two ^ 1000)%Q.
Proof. intros Hj Hq. eapply Qle_lt_trans; [exact Hq|]. apply Qpower_lt_compat_l; [lia|done]. Qed.
(** Four operations, within nine parts in 2^52. *)
Definition slack : Q := (1 + 9 * eps)%Q.
Lemma eps_le : (eps <= 1#1000)%Q.
Proof. by vm_compute. Qed.
Lemma grow2_slack q : (0 <= q)%Q → (grow (grow q) <= q * slack)%Q.
Proof.
  intros Hq. unfold grow, slack. pose proof eps_pos. pose proof eps_le.
  assert ((1 + 2 * eps) * (1 + 2 * eps) <= 1 + 9 * eps)%Q by nra. nra.
Qed.
Lemma grow4_slack q : (0 <= q)%Q → (grow (grow (grow (grow q))) <= q * slack)%Q.
Proof.
  intros Hq. unfold grow, slack. pose proof eps_pos as H0. pose proof eps_le as H1.
  assert ((1 + 2 * eps) * (1 + 2 * eps) <= 1 + (4 + (1#10)) * eps)%Q as H2 by nra.
  assert ((1 + (4 + (1#10)) * eps) * (1 + (4 + (1#10)) * eps) <= 1 + 9 * eps)%Q as H3 by nra.
  assert ((1 + 2 * eps) * (1 + 2 * eps) * ((1 + 2 * eps) * (1 + 2 * eps)) <= 1 + 9 * eps)%Q as H4 by nra. nra.
Qed.

Lemma grow_scale c q : (c * grow q == grow (c * q))%Q.
Proof. unfold grow. ring. Qed.
Lemma grow_add a b : (grow a + grow b == grow (a + b))%Q.
Proof. unfold grow. ring. Qed.
Lemma grow_nonneg q : (0 <= q)%Q → (0 <= grow q)%Q.
Proof. intros Hq. pose proof (grow_ge q Hq). lra. Qed.
Lemma grow_le_two q : (0 <= q <= 1)%Q → (grow (grow (grow q)) <= 2)%Q.
Proof.
  intros Hq. unfold grow. pose proof eps_pos as H0. pose proof eps_le as H1.
  assert (q * (1 + 2 * eps) <= 1 + (1#100))%Q as H2 by nra.
  assert (q * (1 + 2 * eps) * (1 + 2 * eps) <= 1 + (2#10))%Q as H3 by nra. nra.
Qed.

Lemma scale_machine k E r q : 0 <= E <= 2 ^ 53 → k <= 1000 → below k r q → (q <= 2)%Q →
  (inject_Z (scale_u64 E r) <= grow (inject_Z E * q))%Q.
Proof.
  intros HE Hk Hr Hq. pose proof (below_nonneg _ _ _ Hr) as Hq0.
  assert (inject_Z E <= two ^ 53)%Q as HEq by (apply inject_le; lia).
  assert (0 <= inject_Z E)%Q as HE0 by (apply inject_Z_nonneg; lia).
  assert (inject_Z E * q < two ^ 1000)%Q as Hbig.
  { apply (pow_1000_big _ 54); [lia|]. rewrite (two_pow_add 53 1). change (two ^ 1)%Q with 2%Q.
    pose proof (two_pow_pos 53). nra. }
  pose proof (below_mul 0 k _ _ _ _ (below_of_Z E HE) Hr ltac:(lia) Hbig) as [Hf Hv _].
  eapply Qle_trans; [by apply f_to_u64_le|exact Hv].
Qed.

(** A machine ratio: one rounding above the exact one, which is at most 1. *)
Definition ratio_like (r : f64) (p : Q) : Prop := below 53 r (grow p) ∧ (0 <= p <= 1)%Q.

Lemma ratio_like_div x t : 0 <= x <= t → 0 < t <= 2 ^ 53 →
  ratio_like (fdiv (f_of_Z x) (f_of_Z t)) (inject_Z x / inject_Z t).
Proof.
  intros Hx Ht. pose proof (inject_pos t ltac:(lia)) as Htq. split; [|split].
  - apply (below_div 0 53); [apply below_of_Z; lia|lia..|]. apply (pow_1000_big _ 53); [lia|apply inject_le; lia].
  - apply Qdiv_nonneg; [apply inject_Z_nonneg; lia|lra].
  - apply Qle_shift_div_r; [done|]. rewrite Qmult_1_l, <-Zle_Qle. lia.
Qed.
Lemma ratio_like_zero : ratio_like fzero 0.
Proof. split; [|lra]. apply below_zero; [done|by left]. Qed.

(** A share by one ratio. *)
Lemma share_machine E r p : 0 <= E <= 2 ^ 53 → ratio_like r p →
  (inject_Z (scale_u64 E r) <= inject_Z E * p * slack)%Q.
Proof.
  intros HE [Hr Hp]. pose proof (inject_Z_nonneg E (proj1 HE)). pose proof (grow_le_two _ Hp) as H2.
  assert (grow p <= 2)%Q as H1.
  { pose proof (grow_nonneg _ (proj1 Hp)) as Hg. pose proof (grow_ge _ Hg).
    pose proof (grow_ge _ (grow_nonneg _ Hg)). lra. }
  eapply Qle_trans; [apply (scale_machine 53 _ _ _ HE ltac:(lia) Hr H1)|]. rewrite grow_scale. apply grow2_slack. nra.
Qed.
Lemma weighted_ratio_small c z : (0 <= c <= 1)%Q → (0 <= z <= 1)%Q → (c * grow z < two ^ 1000)%Q.
Proof.
  intros Hc Hz. apply (pow_1000_big _ 1); [lia|]. change (two ^ 1)%Q with 2%Q.
  pose proof (grow_le_two _ Hz) as H3. pose proof (grow_nonneg _ (proj1 Hz)) as Hg.
  pose proof (grow_ge _ Hg). pose proof (grow_ge _ (grow_nonneg _ Hg)). nra.
Qed.
(** A share by a mix of two ratios. *)
Lemma mix_machine E (u v r r' : f64) a b p q : 0 <= E <= 2 ^ 53 → below 2 u a → below 2 v b → (a + b == 1)%Q →
  ratio_like r p → ratio_like r' q →
  (inject_Z (scale_u64 E (fadd (fmul u r) (fmul v r'))) <= inject_Z E * (a * p + b * q) * slack)%Q.
Proof.
  intros HE Hu Hv Hab [Hr Hp] [Hr' Hq].
  pose proof (below_nonneg _ _ _ Hu) as Ha. pose proof (below_nonneg _ _ _ Hv) as Hb.
  pose proof (inject_Z_nonneg E (proj1 HE)) as HE0.
  pose proof (below_mul 2 53 _ _ _ _ Hu Hr ltac:(lia) (weighted_ratio_small a p ltac:(lra) Hp)) as H1.
  pose proof (below_mul 2 53 _ _ _ _ Hv Hr' ltac:(lia) (weighted_ratio_small b q ltac:(lra) Hq)) as H2.
  set (c := (a * p + b * q)%Q). assert (0 <= c <= 1)%Q as Hc.
  { unfold c. assert (a * p <= a * 1)%Q by (rewrite !(Qmult_comm a); apply Qmult_le_compat_r; lra).
    assert (b * q <= b * 1)%Q by (rewrite !(Qmult_comm b); apply Qmult_le_compat_r; lra).
    assert (0 <= a * p)%Q by (apply Qmult_le_0_compat; lra). assert (0 <= b * q)%Q by (apply Qmult_le_0_compat; lra). lra. }
  assert (grow (a * grow p) + grow (b * grow q) == grow (grow c))%Q as Heq
    by (rewrite !grow_scale, grow_add, grow_add; reflexivity).
  pose proof (grow_le_two _ Hc) as H4. pose proof (grow_nonneg _ (proj1 Hc)) as Hg. pose proof (grow_nonneg _ Hg) as Hgg.
  pose proof (grow_ge _ Hgg) as Hggg.
  assert (grow (a * grow p) + grow (b * grow q) < two ^ 1000)%Q as Hbig
    by (apply (pow_1000_big _ 1); [lia|]; change (two ^ 1)%Q with 2%Q; lra).
  pose proof (below_add (2 + 53) _ _ _ _ H1 H2 ltac:(lia) Hbig) as H3.
  assert (below (2 + 53) (fadd (fmul u r) (fmul v r')) (grow (grow (grow c)))) as H5.
  { eapply below_le; [apply H3|rewrite Heq; apply Qle_refl|]. rewrite <-Heq. apply (below_size _ _ _ H3). }
  eapply Qle_trans; [apply (scale_machine (2 + 53) _ _ _ HE ltac:(lia) H5 H4)|]. rewrite !grow_scale. apply grow4_slack. nra.
Qed.

(** Parts that exceed their exact share by no more than the slack do not
    exceed the total, when it is below 2^48. *)
Lemma parts_machine_le {A} (n : A → Z) (r : A → Q) E l : 0 <= E <= 2 ^ 48 →
  Forall (λ a, inject_Z (n a) <= inject_Z E * r a * slack)%Q l → (Qsum (r <$> l) <= 1)%Q → sum_Z (n <$> l) <= E.
Proof.
  intros HE Hl Hsum.
  assert (inject_Z (sum_Z (n <$> l)) <= inject_Z E * Qsum (r <$> l) * slack)%Q as Hle.
  { clear Hsum. induction Hl as [|a l Ha Hl IH]; [cbn; ring_simplify; lra|].
    rewrite !fmap_cons, sum_Z_cons, inject_Z_plus, Qsum_cons.
    rewrite Qmult_plus_distr_r, Qmult_plus_distr_l. lra. }
  pose proof eps_pos. pose proof (inject_Z_nonneg E (proj1 HE)) as HE0.
  assert (inject_Z E * eps <= 1#16)%Q as Hsm.
  { eapply Qle_trans; [apply Qmult_le_compat_r; [apply (inject_le E 48); lia|lra]|]. by vm_compute. }
  assert (inject_Z (sum_Z (n <$> l)) < inject_Z E + 1)%Q as Hlt.
  { eapply Qle_lt_trans; [exact Hle|]. apply Qle_lt_trans with (inject_Z E * slack)%Q; unfold slack; [|nra].
    apply Qmult_le_compat_r; [nra|lra]. }
  change 1%Q with (inject_Z 1) in Hlt. rewrite <-inject_Z_plus, <-Zlt_Qlt in Hlt. lia.
Qed.
