(* ===== verification/Json.v ===== *)
(** * Json: serde_json's values and the codecs serde derives

    A value is what serde_json's [Value] holds; the text it is printed to and
    parsed from is the library's, and what the trip through it does to a value is
    [reread]: everything comes back but a float, of which another one may be
    read.  A [Codec] is the pair of a [Serialize] and a
    [Deserialize] implementation, and [lawful] what makes them fit: every value
    of the domain is read back from what it is written as.  A struct is written
    as an object of its fields and read from one, ignoring fields it does not
    know (that serde would also read it from an array is left out). *)

From S2P Require Import Prelude F64.
From Stdlib Require Import SpecFloat.

Open Scope Z_scope.

Inductive JsonNumber :=
| PosInt (n : Z)
| NegInt (n : Z)
| Float (x : f64).
Inductive Value :=
| Null
| Bool (b : bool)
| Number (n : JsonNumber)
| Str (s : string)
| Array (l : list Value)
| Object (l : list (string * Value)).

(** A value printed and parsed again.  serde_json prints the shortest text of a
    float but, without its feature float_roundtrip (which keck does not enable),
    does not promise to read the same float back from it: [reparse] is the float
    it reads.  A finite one is read as a finite one. *)
Section text.
Variable reparse : f64 → f64.
Definition reread_number (n : JsonNumber) : JsonNumber :=
  match n with Float x => Float (reparse x) | _ => n end.
Fixpoint reread (v : Value) : Value :=
  match v with
  | Number n => Number (reread_number n)
  | Array l => Array (map reread l)
  | Object l => Object (map (λ kv, (kv.1, reread kv.2)) l)
  | _ => v
  end.
Definition reads_finite : Prop := ∀ x, f64_finite x = true → f64_finite (reparse x) = true.
End text.

(** [value.get(key)] *)
Definition get (key : string) (v : Value) : option Value :=
  match v with
  | Object l => snd <$> list_find_p (λ kv, String.eqb kv.1 key) l
  | _ => None
  end.
Definition as_array (v : Value) : option (list Value) := match v with Array l => Some l | _ => None end.
Definition as_str (v : Value) : option string := match v with Str s => Some s | _ => None end.
Definition as_f64 (v : Value) : option f64 :=
  match v with
  | Number (PosInt n) | Number (NegInt n) => Some (f_of_Z n)
  | Number (Float x) => Some x
  | _ => None
  end.

Lemma get_cons k k' x l : get k (Object ((k', x) :: l)) = if String.eqb k' k then Some x else get k (Object l).
Proof.
  cbn [get]. unfold list_find_p. cbn [list_find fst]. destruct (String.eqb k' k); [done|].
  cbn. by destruct (list_find _ l) as [[i y]|].
Qed.

(** ** Codecs *)

Record Codec (A : Type) := { enc : A → Value; dec : Value → option A }.
Arguments enc {A} _ _.
Arguments dec {A} _ _.
Definition lawful {A} (c : Codec A) (P : A → Prop) : Prop := ∀ a, P a → dec c (enc c a) = Some a.

(** A float that is not finite is written as null. *)
Definition json_f64 (x : f64) : Value := if f64_finite x then Number (Float x) else Null.

Definition string_codec : Codec string := {| enc := Str; dec := as_str |}.
Definition bool_codec : Codec bool := {| enc := Bool; dec := λ v, match v with Bool b => Some b | _ => None end |}.
Definition uint_codec (mx : Z) : Codec Z :=
  {| enc := λ n, Number (PosInt n);
     dec := λ v, match v with Number (PosInt n) => if n <=? mx then Some n else None | _ => None end |}.
Definition u64_codec : Codec Z := uint_codec u64_max.
Definition u32_codec : Codec Z := uint_codec u32_max.
Definition f64_codec : Codec f64 := {| enc := json_f64; dec := as_f64 |}.
Definition option_codec {A} (c : Codec A) : Codec (option A) :=
  {| enc := λ o, match o with Some a => enc c a | None => Null end;
     dec := λ v, match v with Null => Some None | _ => Some <$> dec c v end |}.
Definition list_codec {A} (c : Codec A) : Codec (list A) :=
  {| enc := λ l, Array (enc c <$> l); dec := λ v, as_array v ≫= mapM (dec c) |}.
Definition map_codec `{HI : HashIter} : Codec (gmap string string) :=
  {| enc := λ m, Object ((λ kv, (kv.1, Str kv.2)) <$> hm_iter m);
     dec := λ v, match v with
                 | Object l => foldl (λ m kv, <[kv.1 := kv.2]> m) ∅ <$> mapM (λ kv, pair kv.1 <$> as_str kv.2) l
                 | _ => None
                 end |}.

(** A struct's field: required, or with a default (which an [Option] has). *)
Definition field {A} (c : Codec A) (key : string) (v : Value) : option A := get key v ≫= dec c.
Definition field_or {A} (d : A) (c : Codec A) (key : string) (v : Value) : option A :=
  match get key v with None => Some d | Some x => dec c x end.

(** [SystemTime], in nanoseconds since the epoch; seconds are an [i64] on Linux. *)
Definition giga : Z := 1000000000.
Definition i64_max : Z := 2 ^ 63 - 1.
Definition systime_codec : Codec Z :=
  {| enc := λ t, Object [("secs_since_epoch", Number (PosInt (t / giga))); ("nanos_since_epoch", Number (PosInt (t mod giga)))];
     dec := λ v,
       secs ← field u64_codec "secs_since_epoch" v;
       nanos ← field u32_codec "nanos_since_epoch" v;
       if secs + nanos / giga <=? i64_max then Some (secs * giga + nanos) else None |}.

(** ** Laws *)

Lemma string_lawful : lawful string_codec (λ _, True).
Proof. by intros s. Qed.
Lemma bool_lawful : lawful bool_codec (λ _, True).
Proof. by intros b. Qed.
Lemma uint_lawful mx : lawful (uint_codec mx) (λ n, 0 <= n <= mx).
Proof. intros n [_ Hn%Z.leb_le]. cbn. by rewrite Hn. Qed.
Lemma u64_lawful : lawful u64_codec is_u64.
Proof. intros n Hn. apply uint_lawful. unfold is_u64, u64_max in *. lia. Qed.
Lemma u32_lawful : lawful u32_codec is_u32.
Proof. intros n Hn. apply uint_lawful. unfold is_u32, u32_max in *. lia. Qed.
Lemma f64_lawful : lawful f64_codec (λ x, f64_finite x = true).
Proof. intros x Hx. cbn. unfold json_f64. by rewrite Hx. Qed.
(** Only a codec that never writes null can be made optional. *)
Lemma option_lawful {A} (c : Codec A) P : lawful c P → (∀ a, P a → enc c a ≠ Null) →
  lawful (option_codec c) (from_option P True).
Proof.
  intros Hc Hn [a|] Ha; [|done]. cbn in *. specialize (Hn a Ha). destruct (enc c a) eqn:E; try done; by rewrite <-E, Hc.
Qed.
Lemma list_lawful {A} (c : Codec A) P : lawful c P → lawful (list_codec c) (Forall P).
Proof.
  intros Hc l Hl. cbn [list_codec enc dec as_array mbind option_bind]. rewrite mapM_fmap_Forall_Some; [done|].
  eapply Forall_impl; [exact Hl|]. apply Hc.
Qed.
Lemma insert_all_map (l : list (string * string)) (m : gmap string string) : NoDup l.*1 →
  (∀ k, k ∈ l.*1 → m !! k = None) → foldl (λ m kv, <[kv.1 := kv.2]> m) m l = list_to_map l ∪ m.
Proof.
  revert m. induction l as [|[k v] l IH]; intros m Hnd Hm; cbn [foldl fst snd].
  - cbn. by rewrite (left_id_L ∅ (∪)).
  - rewrite fmap_cons in Hnd, Hm. cbn in Hnd. apply NoDup_cons in Hnd as [Hk Hnd]. rewrite IH; [|done|].
    + cbn. rewrite <-insert_union_l, insert_union_r; [done|]. by apply not_elem_of_list_to_map.
    + intros k' Hk'. rewrite lookup_insert_ne by (by intros ->). apply Hm. by right.
Qed.
Lemma map_lawful `{HI : HashIter} : lawful map_codec (λ _, True).
Proof.
  intros m _. cbn [map_codec enc dec].
  rewrite (mapM_fmap_Forall_Some _ _ (hm_iter m)) by (apply Forall_forall; by intros [k v] _).
  cbn [fmap option_fmap option_map]. f_equal. rewrite insert_all_map.
  - rewrite (right_id_L ∅ (∪)). rewrite (list_to_map_proper _ (map_to_list m)); [apply list_to_map_to_list| |apply hm_iter_perm].
    apply hm_keys_NoDup.
  - apply hm_keys_NoDup.
  - intros k _. apply lookup_empty.
Qed.

Lemma field_cons {A} (c : Codec A) k k' x l :
  field c k (Object ((k', x) :: l)) = if String.eqb k' k then dec c x else field c k (Object l).
Proof. unfold field. rewrite get_cons. by destruct (String.eqb k' k). Qed.
Lemma field_or_cons {A} (d : A) (c : Codec A) k k' x l :
  field_or d c k (Object ((k', x) :: l)) = if String.eqb k' k then dec c x else field_or d c k (Object l).
Proof. unfold field_or. rewrite get_cons. by destruct (String.eqb k' k). Qed.
Lemma field_or_nil {A} (d : A) (c : Codec A) k : field_or d c k (Object []) = Some d.
Proof. done. Qed.

(** Read the fields of an object that is written out. *)
Ltac read_fields := repeat (rewrite ?field_cons, ?field_or_cons, ?field_or_nil; cbn [String.eqb Ascii.eqb Bool.eqb]).

Definition is_systime (t : Z) : Prop := 0 <= t ∧ t / giga <= i64_max.
Lemma systime_lawful : lawful systime_codec is_systime.
Proof.
  intros t [Ht Hs]. cbn [systime_codec enc dec]. read_fields.
  assert (is_u64 (t / giga)) as Hq.
  { split; [apply Z.div_pos; [done|reflexivity]|]. unfold i64_max, u64_mod in *. lia. }
  pose proof (Z.mod_pos_bound t giga eq_refl) as Hm.
  assert (is_u32 (t mod giga)) as Hr by (unfold is_u32, u32_mod, giga in *; lia).
  change (Number (PosInt (t / giga))) with (enc u64_codec (t / giga)).
  change (Number (PosInt (t mod giga))) with (enc u32_codec (t mod giga)).
  rewrite u64_lawful by done. rewrite u32_lawful by done. cbn [mbind option_bind].
  rewrite (Z.div_small (t mod giga)) by lia. rewrite Z.add_0_r. apply Z.leb_le in Hs. rewrite Hs.
  f_equal. pose proof (Z.div_mod t giga ltac:(done)). lia.
Qed.
