(* ===== verification/Common.v ===== *)
(** * Common: the data shared by the kernel programs and the agent

    The [repr(C)] map keys and values of keck-common/src/lib.rs, and the
    attribution result types of keck-agent/src/attribution/types.rs with their
    one operation, [total_uw].  Times are nanoseconds since an arbitrary origin
    ([Instant] and [SystemTime] alike), powers microwatts, energies
    microjoules. *)

From S2P Require Import Prelude.

Open Scope Z_scope.

(** ** keck-common *)

Record PidCpuKey := { key_cpu : Z; key_pid : Z }.
Record PidCpuTime := { time_ns : Z }.
Record CpuSchedState := {
  current_pid : Z;
  sched_start_time_ns : Z;
  start_instructions : Z;
  start_cycles : Z;
  start_cache_misses : Z
}.
Record CpuFreqKey := { freq_cpu : Z; freq_khz : Z }.
Record CpuFreqTime := { freq_time_ns : Z }.
Record CpuFreqState := { current_freq_khz : Z; freq_start_time_ns : Z }.
Record CoreCounters := {
  cc_instructions : Z;
  cc_cycles : Z;
  cc_cache_misses : Z;
  cc_cache_refs : Z
}.
Record PidCpuCounterKey := { ckey_cpu : Z; ckey_pid : Z }.
Record PidCpuCounters := {
  pc_instructions : Z;
  pc_cycles : Z;
  pc_cache_misses : Z
}.
Record PidCgroupValue := { cgroup_id : Z }.
Record PidNetBytes := { tx_bytes : Z; rx_bytes : Z }.

Definition MAX_PID_CPU_ENTRIES : Z := 65536.
Definition MAX_CPUS : Z := 1024.
Definition MAX_CPU_FREQ_ENTRIES : Z := 32768.
Definition MAX_PID_CGROUP_ENTRIES : Z := 65536.
Definition MAX_PID_NET_ENTRIES : Z := 65536.
Definition MAX_PID_HW_COUNTER_ENTRIES : Z := 65536.

#[global] Instance PidCpuKey_eq_dec : EqDecision PidCpuKey.
Proof. solve_decision. Defined.
#[global] Instance PidCpuKey_countable : Countable PidCpuKey.
Proof.
  refine (inj_countable' (λ k, (key_cpu k, key_pid k))
    (λ '(c, p), {| key_cpu := c; key_pid := p |}) _). by intros [].
Defined.
#[global] Instance CpuFreqKey_eq_dec : EqDecision CpuFreqKey.
Proof. solve_decision. Defined.
#[global] Instance CpuFreqKey_countable : Countable CpuFreqKey.
Proof.
  refine (inj_countable' (λ k, (freq_cpu k, freq_khz k))
    (λ '(c, f), {| freq_cpu := c; freq_khz := f |}) _). by intros [].
Defined.
#[global] Instance PidCpuCounterKey_eq_dec : EqDecision PidCpuCounterKey.
Proof. solve_decision. Defined.
#[global] Instance PidCpuCounterKey_countable : Countable PidCpuCounterKey.
Proof.
  refine (inj_countable' (λ k, (ckey_cpu k, ckey_pid k))
    (λ '(c, p), {| ckey_cpu := c; ckey_pid := p |}) _). by intros [].
Defined.

(** ** attribution/types.rs *)

(** Shared with keck-agent/src/hardware/mod.rs, which declares the same enums. *)
Inductive ReadingType := Measured | Estimated | Derived.
Inductive Component := Cpu | Memory | Gpu | Nic | Storage | Fan | Platform.

#[global] Instance ReadingType_eq_dec : EqDecision ReadingType.
Proof. solve_decision. Defined.
#[global] Instance Component_eq_dec : EqDecision Component.
Proof. solve_decision. Defined.
#[global] Instance Component_countable : Countable Component.
Proof.
  refine (inj_countable'
    (λ c, match c with Cpu => 0%nat | Memory => 1%nat | Gpu => 2%nat | Nic => 3%nat
          | Storage => 4%nat | Fan => 5%nat | Platform => 6%nat end)
    (λ n, match n with 0%nat => Cpu | 1%nat => Memory | 2%nat => Gpu | 3%nat => Nic
          | 4%nat => Storage | 5%nat => Fan | _ => Platform end) _). by intros [].
Defined.

Record PowerBreakdown := {
  cpu_uw : Z;
  memory_uw : Z;
  gpu_uw : Z;
  nic_uw : Z;
  storage_uw : Z
}.
(** [PowerBreakdown::default()]. *)
Definition PowerBreakdown_default : PowerBreakdown :=
  {| cpu_uw := 0; memory_uw := 0; gpu_uw := 0; nic_uw := 0; storage_uw := 0 |}.

Definition total_uw (p : PowerBreakdown) : Z :=
  u64_add (u64_add (u64_add (u64_add (cpu_uw p) (memory_uw p)) (gpu_uw p)) (nic_uw p)) (storage_uw p).

Record CoreAttribution := {
  ca_core : Z;
  ca_time_ns : Z;
  ca_avg_freq_khz : Z;
  ca_energy_uj : Z;
  ca_instructions : Z;
  ca_cycles : Z;
  ca_cache_misses : Z
}.

Inductive AttributionMethod := FullModelMethod | FrequencyWeighted | CpuTimeRatio.
#[global] Instance AttributionMethod_eq_dec : EqDecision AttributionMethod.
Proof. solve_decision. Defined.

Record ProcessPower := {
  pp_pid : Z;
  pp_comm : string;
  pp_cgroup_id : Z;
  pp_power : PowerBreakdown;
  pp_core_detail : list CoreAttribution;
  pp_method : AttributionMethod
}.
Record ContainerPower := {
  cp_container_id : string;
  cp_name : string;
  cp_cgroup_id : Z;
  cp_power : PowerBreakdown;
  cp_processes : list ProcessPower
}.
Record PodPower := {
  pod_uid : string;
  pod_name : string;
  pod_namespace : string;
  pod_pow : PowerBreakdown;
  pod_containers : list ContainerPower
}.
Record NamespacePower := {
  np_namespace : string;
  np_power : PowerBreakdown;
  np_pod_count : nat
}.
Record NodePower := {
  measured : PowerBreakdown;
  node_platform_uw : option Z;
  attributed_total_uw : Z
}.
(** [error_ratio] is the only float; its type is the arithmetic the engine
    runs in. *)
Record Reconciliation (F : Type) := {
  rec_platform_uw : option Z;
  component_sum_uw : Z;
  attributed_sum_uw : Z;
  unaccounted_uw : Z;
  error_ratio : F
}.
Arguments rec_platform_uw {F} _.
Arguments component_sum_uw {F} _.
Arguments attributed_sum_uw {F} _.
Arguments unaccounted_uw {F} _.
Arguments error_ratio {F} _.
Record AttributionSnapshot (F : Type) := {
  timestamp : Z;
  interval_ns : Z;
  node : NodePower;
  processes : list ProcessPower;
  pods : list PodPower;
  namespaces : list NamespacePower;
  idle_power : PowerBreakdown;
  reconciliation : Reconciliation F
}.
Arguments timestamp {F} _.
Arguments interval_ns {F} _.
Arguments node {F} _.
Arguments processes {F} _.
Arguments pods {F} _.
Arguments namespaces {F} _.
Arguments idle_power {F} _.
Arguments reconciliation {F} _.

Lemma total_uw_exact p :
  0 <= cpu_uw p → 0 <= memory_uw p → 0 <= gpu_uw p → 0 <= nic_uw p → 0 <= storage_uw p →
  cpu_uw p + memory_uw p + gpu_uw p + nic_uw p + storage_uw p < u64_mod →
  total_uw p = cpu_uw p + memory_uw p + gpu_uw p + nic_uw p + storage_uw p.
Proof.
  intros. unfold total_uw. change (u64_add (cpu_uw p) (memory_uw p)) with (u64_wrap (cpu_uw p + memory_uw p)).
  rewrite !u64_add_wrap. apply u64_wrap_id. unfold is_u64. lia.
Qed.
