(* ===== verification/Layout.v ===== *)
(** * Layout: the sizes of the shared types

    keck-common/src/lib.rs declares the keys and values of the BPF maps as
    [repr(C)] structs, which the kernel programs and the agent exchange as plain
    bytes.  Each struct is given by the widths of its fields in order; the C
    layout places each field at the next offset its width divides and rounds the
    size up to the widest field. *)

From S2P Require Import Prelude Common.

Open Scope Z_scope.

Inductive Prim := PU32 | PU64.
Definition width (t : Prim) : nat := match t with PU32 => 4 | PU64 => 8 end.
Definition struct_align (tys : list Prim) : nat := foldr (λ t a, Nat.max (width t) a) 1%nat tys.
(** Bytes skipped at [off] to reach a multiple of [a]. *)
Definition padding (off a : nat) : nat := ((a - off mod a) mod a)%nat.
Fixpoint fields_end (off : nat) (tys : list Prim) : nat :=
  match tys with
  | [] => off
  | t :: tys' => fields_end (off + padding off (width t) + width t) tys'
  end.
Fixpoint field_offsets (off : nat) (tys : list Prim) : list nat :=
  match tys with
  | [] => []
  | t :: tys' => let at_ := (off + padding off (width t))%nat in at_ :: field_offsets (at_ + width t) tys'
  end.
(** [mem::size_of]. *)
Definition layout_size (tys : list Prim) : nat :=
  (fields_end 0 tys + padding (fields_end 0 tys) (struct_align tys))%nat.

Class ReprC (A : Type) := { repr_fields : list Prim }.
Arguments repr_fields A {_}.
Definition size_of (A : Type) `{ReprC A} : nat := layout_size (repr_fields A).
(** No byte of the struct is padding. *)
Definition packed (A : Type) `{ReprC A} : bool := bool_decide (size_of A = foldr (λ t n, width t + n)%nat 0%nat (repr_fields A)).

#[global] Instance PidCpuKey_repr : ReprC PidCpuKey := { repr_fields := [PU32; PU32] }.
#[global] Instance PidCpuTime_repr : ReprC PidCpuTime := { repr_fields := [PU64] }.
#[global] Instance CpuSchedState_repr : ReprC CpuSchedState := { repr_fields := [PU32; PU64; PU64; PU64; PU64] }.
#[global] Instance CpuFreqKey_repr : ReprC CpuFreqKey := { repr_fields := [PU32; PU32] }.
#[global] Instance CpuFreqTime_repr : ReprC CpuFreqTime := { repr_fields := [PU64] }.
#[global] Instance CpuFreqState_repr : ReprC CpuFreqState := { repr_fields := [PU32; PU64] }.
#[global] Instance CoreCounters_repr : ReprC CoreCounters := { repr_fields := [PU64; PU64; PU64; PU64] }.
#[global] Instance PidCpuCounterKey_repr : ReprC PidCpuCounterKey := { repr_fields := [PU32; PU32] }.
#[global] Instance PidCpuCounters_repr : ReprC PidCpuCounters := { repr_fields := [PU64; PU64; PU64] }.
#[global] Instance PidCgroupValue_repr : ReprC PidCgroupValue := { repr_fields := [PU64] }.
#[global] Instance PidNetBytes_repr : ReprC PidNetBytes := { repr_fields := [PU64; PU64] }.

(** The kernel compares keys byte by byte, so a key must have no padding. *)
Example keys_packed : packed PidCpuKey = true ∧ packed CpuFreqKey = true ∧ packed PidCpuCounterKey = true.
Proof. done. Qed.
(** Values may: these two have four bytes of it. *)
Example values_padded : packed CpuSchedState = false ∧ packed CpuFreqState = false.
Proof. done. Qed.
