(* ===== verification/Bpf.v ===== *)
(** * Bpf: the kernel programs and the draining of their maps

    keck-ebpf/src/main.rs (the tracepoint and kprobe handlers, as transitions of
    the BPF maps) and the draining half of keck-agent/src/ebpf/mod.rs.  What the
    kernel supplies (time, CPU, context fields, counters, cgroup) is the event;
    the handlers are total functions on the maps.  A drain is not atomic: its
    environment says which kernel events fall before each read and each removal,
    which maps are there and which entries can be read and removed. *)

From S2P Require Import Prelude Common.

Open Scope Z_scope.

(** ** BPF maps *)

Record BpfMaps := {
  PID_CPU_TIME : gmap PidCpuKey PidCpuTime;
  CPU_SCHED_STATE : gmap Z CpuSchedState;
  CPU_FREQ_TIME : gmap CpuFreqKey CpuFreqTime;
  CPU_FREQ_STATE : gmap Z CpuFreqState;
  PID_CGROUP : gmap Z PidCgroupValue;
  PID_NET_BYTES : gmap Z PidNetBytes;
  PID_HW_COUNTERS : gmap PidCpuCounterKey PidCpuCounters;
  PMC_ENABLED : Z
}.

Definition sched_zero : CpuSchedState :=
  {| current_pid := 0; sched_start_time_ns := 0; start_instructions := 0;
     start_cycles := 0; start_cache_misses := 0 |}.
Definition freq_zero : CpuFreqState := {| current_freq_khz := 0; freq_start_time_ns := 0 |}.

(** The slot of a per-CPU array: zeroed until first written. *)
Definition sched_state (st : BpfMaps) (cpu : Z) : CpuSchedState :=
  default sched_zero (CPU_SCHED_STATE st !! cpu).
Definition freq_state (st : BpfMaps) (cpu : Z) : CpuFreqState :=
  default freq_zero (CPU_FREQ_STATE st !! cpu).

(** [HashMap::insert(.., BPF_ANY)]: a new key is refused when the map is full;
    every caller ignores the result. *)
Definition bpf_insert `{Countable K} {V} (cap : Z) (k : K) (v : V) (m : gmap K V) : gmap K V :=
  match m !! k with
  | Some _ => <[k:=v]> m
  | None => if Z.of_nat (size m) <? cap then <[k:=v]> m else m
  end.
(** [if let Some(val) = get_ptr_mut(k) { update } else { insert(fresh) }]. *)
Definition bpf_accum `{Countable K} {V} (cap : Z) (k : K) (upd : V → V) (fresh : V)
    (m : gmap K V) : gmap K V :=
  match m !! k with
  | Some v => <[k:=upd v]> m
  | None => bpf_insert cap k fresh m
  end.

(** ** Handlers

    A handler that cannot read the tracepoint's fields fails (the caller drops
    the error code). *)

(** The three hardware counters as [bpf_perf_event_read] returns them. *)
Record PerfSample := { ps_instructions : Z; ps_cycles : Z; ps_cache_misses : Z }.

Definition read_perf_counter (raw : Z) : Z := if raw <? 0 then 0 else raw.

Record SchedEvent := {
  ev_now : Z;
  ev_cpu : Z;
  ev_prev_pid : option Z;   (** [ctx.read_at(24)], [None] when the read fails *)
  ev_next_pid : option Z;   (** [ctx.read_at(56)] *)
  ev_perf_out : PerfSample; (** the counters when the outgoing task is charged *)
  ev_perf_in : PerfSample;  (** the counters when the incoming task starts *)
  ev_cgroup : Z             (** [bpf_get_current_cgroup_id] *)
}.

Definition charge_time (cpu pid elapsed : Z) (m : gmap PidCpuKey PidCpuTime)
    : gmap PidCpuKey PidCpuTime :=
  bpf_accum MAX_PID_CPU_ENTRIES {| key_cpu := cpu; key_pid := pid |}
    (λ v, {| time_ns := u64_add (time_ns v) elapsed |}) {| time_ns := elapsed |} m.

Definition charge_counters (cpu pid : Z) (s : CpuSchedState) (p : PerfSample)
    (m : gmap PidCpuCounterKey PidCpuCounters) : gmap PidCpuCounterKey PidCpuCounters :=
  let delta_instr := sat_sub (read_perf_counter (ps_instructions p)) (start_instructions s) in
  let delta_cycles := sat_sub (read_perf_counter (ps_cycles p)) (start_cycles s) in
  let delta_misses := sat_sub (read_perf_counter (ps_cache_misses p)) (start_cache_misses s) in
  if (0 <? delta_instr) || (0 <? delta_cycles) then
    bpf_accum MAX_PID_HW_COUNTER_ENTRIES {| ckey_cpu := cpu; ckey_pid := pid |}
      (λ v, {| pc_instructions := u64_add (pc_instructions v) delta_instr;
               pc_cycles := u64_add (pc_cycles v) delta_cycles;
               pc_cache_misses := u64_add (pc_cache_misses v) delta_misses |})
      {| pc_instructions := delta_instr; pc_cycles := delta_cycles; pc_cache_misses := delta_misses |} m
  else m.

Definition handle_sched_switch (ev : SchedEvent) (st : BpfMaps) : result BpfMaps unit :=
  match ev_prev_pid ev, ev_next_pid ev with
  | Some prev_pid, Some next_pid =>
      let now := ev_now ev in
      let cpu := ev_cpu ev in
      let pmc_active := negb (PMC_ENABLED st =? 0) in
      let state := sched_state st cpu in
      let elapsed := sat_sub now (sched_start_time_ns state) in
      let charge := negb (current_pid state =? 0) && negb (sched_start_time_ns state =? 0)
                    && (0 <? elapsed) in
      let state' :=
        if pmc_active then
          {| current_pid := next_pid; sched_start_time_ns := now;
             start_instructions := read_perf_counter (ps_instructions (ev_perf_in ev));
             start_cycles := read_perf_counter (ps_cycles (ev_perf_in ev));
             start_cache_misses := read_perf_counter (ps_cache_misses (ev_perf_in ev)) |}
        else
          {| current_pid := next_pid; sched_start_time_ns := now;
             start_instructions := start_instructions state;
             start_cycles := start_cycles state;
             start_cache_misses := start_cache_misses state |} in
      Ok {| PID_CPU_TIME :=
              if charge then charge_time cpu prev_pid elapsed (PID_CPU_TIME st)
              else PID_CPU_TIME st;
            CPU_SCHED_STATE := <[cpu := state']> (CPU_SCHED_STATE st);
            CPU_FREQ_TIME := CPU_FREQ_TIME st;
            CPU_FREQ_STATE := CPU_FREQ_STATE st;
            PID_CGROUP :=
              if negb (next_pid =? 0)
              then bpf_insert MAX_PID_CGROUP_ENTRIES next_pid {| cgroup_id := ev_cgroup ev |} (PID_CGROUP st)
              else PID_CGROUP st;
            PID_NET_BYTES := PID_NET_BYTES st;
            PID_HW_COUNTERS :=
              if charge && pmc_active
              then charge_counters cpu prev_pid state (ev_perf_out ev) (PID_HW_COUNTERS st)
              else PID_HW_COUNTERS st;
            PMC_ENABLED := PMC_ENABLED st |}
  | _, _ => Err tt
  end.

Record FreqEvent := {
  fe_now : Z;
  fe_exec_cpu : Z;            (** the CPU the program runs on *)
  fe_new_freq : option Z;     (** [ctx.read_at(8)] *)
  fe_cpu_id : option Z        (** [ctx.read_at(12)]: the CPU whose frequency changes *)
}.

(** The per-CPU slot is the one of the executing CPU, the key is the CPU of
    the tracepoint. *)
Definition handle_cpu_frequency (ev : FreqEvent) (st : BpfMaps) : result BpfMaps unit :=
  match fe_new_freq ev, fe_cpu_id ev with
  | Some new_freq, Some cpu_id =>
      let state := freq_state st (fe_exec_cpu ev) in
      let elapsed := sat_sub (fe_now ev) (freq_start_time_ns state) in
      let charge := negb (current_freq_khz state =? 0) && negb (freq_start_time_ns state =? 0)
                    && (0 <? elapsed) in
      Ok {| PID_CPU_TIME := PID_CPU_TIME st;
            CPU_SCHED_STATE := CPU_SCHED_STATE st;
            CPU_FREQ_TIME :=
              if charge then
                bpf_accum MAX_CPU_FREQ_ENTRIES
                  {| freq_cpu := cpu_id; freq_khz := current_freq_khz state |}
                  (λ v, {| freq_time_ns := u64_add (freq_time_ns v) elapsed |})
                  {| freq_time_ns := elapsed |} (CPU_FREQ_TIME st)
              else CPU_FREQ_TIME st;
            CPU_FREQ_STATE :=
              <[fe_exec_cpu ev := {| current_freq_khz := new_freq; freq_start_time_ns := fe_now ev |}]>
                (CPU_FREQ_STATE st);
            PID_CGROUP := PID_CGROUP st;
            PID_NET_BYTES := PID_NET_BYTES st;
            PID_HW_COUNTERS := PID_HW_COUNTERS st;
            PMC_ENABLED := PMC_ENABLED st |}
  | _, _ => Err tt
  end.

Definition with_net (st : BpfMaps) (m : gmap Z PidNetBytes) : BpfMaps :=
  {| PID_CPU_TIME := PID_CPU_TIME st; CPU_SCHED_STATE := CPU_SCHED_STATE st;
     CPU_FREQ_TIME := CPU_FREQ_TIME st; CPU_FREQ_STATE := CPU_FREQ_STATE st;
     PID_CGROUP := PID_CGROUP st; PID_NET_BYTES := m;
     PID_HW_COUNTERS := PID_HW_COUNTERS st; PMC_ENABLED := PMC_ENABLED st |}.

(** [pid] is the upper half of [bpf_get_current_pid_tgid]. *)
Definition pid_of_tgid (pid_tgid : Z) : Z := u32_wrap (Z.shiftr pid_tgid 32).

Definition tcp_sendmsg (pid_tgid : Z) (size : option Z) (st : BpfMaps) : BpfMaps :=
  let pid := pid_of_tgid pid_tgid in
  if pid =? 0 then st else
  match size with
  | None => st
  | Some size =>
      with_net st (bpf_accum MAX_PID_NET_ENTRIES pid
        (λ v, {| tx_bytes := u64_add (tx_bytes v) size; rx_bytes := rx_bytes v |})
        {| tx_bytes := size; rx_bytes := 0 |} (PID_NET_BYTES st))
  end.

Definition tcp_recvmsg (pid_tgid : Z) (ret : option Z) (st : BpfMaps) : BpfMaps :=
  let pid := pid_of_tgid pid_tgid in
  if pid =? 0 then st else
  match ret with
  | None => st
  | Some ret =>
      if ret <=? 0 then st else
      with_net st (bpf_accum MAX_PID_NET_ENTRIES pid
        (λ v, {| tx_bytes := tx_bytes v; rx_bytes := u64_add (rx_bytes v) ret |})
        {| tx_bytes := 0; rx_bytes := ret |} (PID_NET_BYTES st))
  end.

(** ** The kernel at work

    A failed handler leaves the maps alone. *)
Definition sched_step (st : BpfMaps) (ev : SchedEvent) : BpfMaps :=
  match handle_sched_switch ev st with Ok st' => st' | Err _ => st end.
Definition run_sched (st : BpfMaps) (evs : list SchedEvent) : BpfMaps := foldl sched_step st evs.

Inductive KernelEvent :=
| KSwitch (ev : SchedEvent)
| KFreq (ev : FreqEvent)
| KSend (pid_tgid : Z) (size : option Z)
| KRecv (pid_tgid : Z) (ret : option Z).
Definition kernel_step (st : BpfMaps) (ev : KernelEvent) : BpfMaps :=
  match ev with
  | KSwitch ev => sched_step st ev
  | KFreq ev => match handle_cpu_frequency ev st with Ok st' => st' | Err _ => st end
  | KSend pid_tgid size => tcp_sendmsg pid_tgid size st
  | KRecv pid_tgid ret => tcp_recvmsg pid_tgid ret st
  end.
Definition run_kernel (st : BpfMaps) (evs : list KernelEvent) : BpfMaps := foldl kernel_step st evs.

(** ** Draining (keck-agent/src/ebpf/mod.rs)

    [drain] iterates over a map, entry by entry, and then removes the keys it
    read, one by one, while the kernel programs keep running.  What happens
    around each of these calls is the environment of the drain. *)

Record EbpfSnapshot := {
  es_pid_cpu_times : list (Z * Z * Z);
  es_cpu_freq_times : list (Z * Z * Z);
  es_pid_cgroups : gmap Z Z;
  es_pid_net_bytes : gmap Z (Z * Z);
  es_pid_hw_counters : gmap (Z * Z) (Z * Z * Z)
}.

Record MapEnv (K : Type) := {
  (** the object has the map and it casts *)
  me_present : bool;
  (** the keys the iterator visits, given those in the map when it starts *)
  me_visit : list K → list K;
  (** what the kernel does before the entry of a key is read, and whether it can
      be read *)
  me_at_read : K → list KernelEvent;
  me_readable : K → bool;
  (** the same for the removal of a key *)
  me_at_remove : K → list KernelEvent;
  me_removable : K → bool
}.
Arguments me_present {K}.
Arguments me_visit {K}.
Arguments me_at_read {K}.
Arguments me_readable {K}.
Arguments me_at_remove {K}.
Arguments me_removable {K}.

Record DrainEnv := {
  de_cpu_time : MapEnv PidCpuKey;
  de_freq_time : MapEnv CpuFreqKey;
  de_cgroup : MapEnv Z;
  de_net : MapEnv Z;
  de_hw : MapEnv PidCpuCounterKey
}.

(** The maps with one of them replaced. *)
Definition with_cpu_time (m : gmap PidCpuKey PidCpuTime) (st : BpfMaps) : BpfMaps :=
  {| PID_CPU_TIME := m; CPU_SCHED_STATE := CPU_SCHED_STATE st;
     CPU_FREQ_TIME := CPU_FREQ_TIME st; CPU_FREQ_STATE := CPU_FREQ_STATE st;
     PID_CGROUP := PID_CGROUP st; PID_NET_BYTES := PID_NET_BYTES st;
     PID_HW_COUNTERS := PID_HW_COUNTERS st; PMC_ENABLED := PMC_ENABLED st |}.
Definition with_freq_time (m : gmap CpuFreqKey CpuFreqTime) (st : BpfMaps) : BpfMaps :=
  {| PID_CPU_TIME := PID_CPU_TIME st; CPU_SCHED_STATE := CPU_SCHED_STATE st;
     CPU_FREQ_TIME := m; CPU_FREQ_STATE := CPU_FREQ_STATE st;
     PID_CGROUP := PID_CGROUP st; PID_NET_BYTES := PID_NET_BYTES st;
     PID_HW_COUNTERS := PID_HW_COUNTERS st; PMC_ENABLED := PMC_ENABLED st |}.
Definition with_hw (m : gmap PidCpuCounterKey PidCpuCounters) (st : BpfMaps) : BpfMaps :=
  {| PID_CPU_TIME := PID_CPU_TIME st; CPU_SCHED_STATE := CPU_SCHED_STATE st;
     CPU_FREQ_TIME := CPU_FREQ_TIME st; CPU_FREQ_STATE := CPU_FREQ_STATE st;
     PID_CGROUP := PID_CGROUP st; PID_NET_BYTES := PID_NET_BYTES st;
     PID_HW_COUNTERS := m; PMC_ENABLED := PMC_ENABLED st |}.

Section drain.
Context `{HI : HashIter}.

Section one_map.
Context {K V : Type} `{Countable K} (get : BpfMaps → gmap K V) (put : gmap K V → BpfMaps → BpfMaps) (env : MapEnv K).

(** [for item in map.iter()]: the entries read. *)
Fixpoint read_entries (keys : list K) (st : BpfMaps) : list (K * V) * BpfMaps :=
  match keys with
  | [] => ([], st)
  | k :: keys =>
      let st1 := run_kernel st (me_at_read env k) in
      let '(items, st2) := read_entries keys st1 in
      (match get st1 !! k with
       | Some v => if me_readable env k then (k, v) :: items else items
       | None => items
       end, st2)
  end.
(** [for key in &keys_to_delete { let _ = map.remove(key); }] *)
Fixpoint remove_keys (keys : list K) (st : BpfMaps) : BpfMaps :=
  match keys with
  | [] => st
  | k :: keys =>
      let st1 := run_kernel st (me_at_remove env k) in
      remove_keys keys (if me_removable env k then put (delete k (get st1)) st1 else st1)
  end.
Definition visited (st : BpfMaps) : list K := me_visit env (hm_keys (get st)).
Definition iterate (st : BpfMaps) : list (K * V) * BpfMaps := read_entries (visited st) st.
Definition drain_map (st : BpfMaps) : list (K * V) * BpfMaps :=
  let '(items, st1) := iterate st in (items, remove_keys items.*1 st1).
End one_map.

(** [map.insert] in a loop. *)
Definition collect_map `{Countable K'} {X V'} (f : X → K' * V') (items : list X) : gmap K' V' :=
  foldl (λ m x, <[(f x).1 := (f x).2]> m) ∅ items.

(** A missing map is an error for the first three, after what was drained
    before it; the last two are then left out. *)
Definition drain (pid_pmc_active : bool) (env : DrainEnv) (st : BpfMaps) : result EbpfSnapshot string * BpfMaps :=
  if negb (me_present (de_cpu_time env)) then (Err "PID_CPU_TIME map not found", st) else
  let '(times, st1) := drain_map PID_CPU_TIME with_cpu_time (de_cpu_time env) st in
  if negb (me_present (de_freq_time env)) then (Err "CPU_FREQ_TIME map not found", st1) else
  let '(freqs, st2) := drain_map CPU_FREQ_TIME with_freq_time (de_freq_time env) st1 in
  if negb (me_present (de_cgroup env)) then (Err "PID_CGROUP map not found", st2) else
  let '(cgroups, st3) := iterate PID_CGROUP (de_cgroup env) st2 in
  let '(nets, st4) :=
    if me_present (de_net env) then drain_map PID_NET_BYTES (λ m st, with_net st m) (de_net env) st3 else ([], st3) in
  let '(hws, st5) :=
    if pid_pmc_active && me_present (de_hw env) then drain_map PID_HW_COUNTERS with_hw (de_hw env) st4 else ([], st4) in
  (Ok {| es_pid_cpu_times := (λ kv, (key_cpu kv.1, key_pid kv.1, time_ns kv.2)) <$> times;
         es_cpu_freq_times := (λ kv, (freq_cpu kv.1, freq_khz kv.1, freq_time_ns kv.2)) <$> freqs;
         es_pid_cgroups := collect_map (λ kv, (kv.1, cgroup_id kv.2)) cgroups;
         es_pid_net_bytes := collect_map (λ kv, (kv.1, (tx_bytes kv.2, rx_bytes kv.2))) nets;
         es_pid_hw_counters :=
           collect_map (λ kv, ((ckey_cpu kv.1, ckey_pid kv.1), (pc_instructions kv.2, pc_cycles kv.2, pc_cache_misses kv.2))) hws |},
   st5).

(** [cleanup_dead_pids], with [alive pid] for the existence of /proc/pid. *)
Definition cleanup_dead_pids (alive : Z → bool) (st : BpfMaps) : nat * BpfMaps :=
  let dead := filter (λ pid, alive pid = false) (hm_keys (PID_CGROUP st)) in
  (length dead,
   {| PID_CPU_TIME := PID_CPU_TIME st; CPU_SCHED_STATE := CPU_SCHED_STATE st;
      CPU_FREQ_TIME := CPU_FREQ_TIME st; CPU_FREQ_STATE := CPU_FREQ_STATE st;
      PID_CGROUP := foldl (λ m pid, delete pid m) (PID_CGROUP st) dead;
      PID_NET_BYTES := PID_NET_BYTES st; PID_HW_COUNTERS := PID_HW_COUNTERS st;
      PMC_ENABLED := PMC_ENABLED st |}).
End drain.

(** ** What the accounting means *)

Definition pid_time (st : BpfMaps) (cpu pid : Z) : Z :=
  from_option time_ns 0 (PID_CPU_TIME st !! {| key_cpu := cpu; key_pid := pid |}).
(** All the time charged to tasks of one CPU. *)
Definition cpu_busy (st : BpfMaps) (cpu : Z) : Z :=
  map_sum (λ k v, if decide (key_cpu k = cpu) then time_ns v else 0) (PID_CPU_TIME st).

Definition empty_maps (pmc : Z) : BpfMaps :=
  {| PID_CPU_TIME := ∅; CPU_SCHED_STATE := ∅; CPU_FREQ_TIME := ∅; CPU_FREQ_STATE := ∅;
     PID_CGROUP := ∅; PID_NET_BYTES := ∅; PID_HW_COUNTERS := ∅; PMC_ENABLED := pmc |}.

(** The scheduler's view: who runs on each CPU since when, and how long each
    task has run on each CPU. *)
Record SchedSpec := { spec_cur : gmap Z (Z * Z); spec_time : gmap (Z * Z) Z }.
Definition spec_step (a : SchedSpec) (cpu now next : Z) : SchedSpec :=
  {| spec_cur := <[cpu := (next, now)]> (spec_cur a);
     spec_time :=
       match spec_cur a !! cpu with
       | Some (pid, since) => hm_upd (cpu, pid) 0 (λ t, t + (now - since)) (spec_time a)
       | None => spec_time a
       end |}.
Definition spec_run (a : SchedSpec) (evs : list SchedEvent) : SchedSpec :=
  foldl (λ a ev, spec_step a (ev_cpu ev) (ev_now ev) (default 0 (ev_next_pid ev))) a evs.

(** What the kernel guarantees of a switch: the fields are readable, the
    outgoing task is the one that came in at the CPU's last switch, and time
    does not run backwards (nor starts at 0). *)
Definition switch_ok (cur : gmap Z (Z * Z)) (ev : SchedEvent) : Prop :=
  is_Some (ev_next_pid ev) ∧ 0 < ev_now ev < u64_mod ∧
  match cur !! ev_cpu ev with
  | Some (pid, since) => ev_prev_pid ev = Some pid ∧ since <= ev_now ev
  | None => is_Some (ev_prev_pid ev)
  end.
Fixpoint trace_ok (cur : gmap Z (Z * Z)) (evs : list SchedEvent) : Prop :=
  match evs with
  | [] => True
  | ev :: evs => switch_ok cur ev ∧
      trace_ok (<[ev_cpu ev := (default 0 (ev_next_pid ev), ev_now ev)]> cur) evs
  end.

(** Simulation between the maps and the scheduler's view, [base] being what
    earlier drains took out; the idle task (pid 0) is not accounted. *)
Definition sched_sim (base : Z → Z → Z) (st : BpfMaps) (a : SchedSpec) : Prop :=
  (∀ cpu, match spec_cur a !! cpu with
          | Some (pid, since) => 0 < since ∧
              current_pid (sched_state st cpu) = pid ∧ sched_start_time_ns (sched_state st cpu) = since
          | None => sched_start_time_ns (sched_state st cpu) = 0
          end) ∧
  (∀ cpu pid, pid ≠ 0 → 0 <= base cpu pid ∧ 0 <= pid_time st cpu pid ∧
     base cpu pid + pid_time st cpu pid = default 0 (spec_time a !! (cpu, pid))).

Lemma bpf_accum_lookup_eq `{Countable K} {V} cap (k : K) (u : V → V) v m :
  Z.of_nat (size m) < cap → bpf_accum cap k u v m !! k = Some (from_option u v (m !! k)).
Proof.
  intros Hc. unfold bpf_accum, bpf_insert. destruct (m !! k) eqn:E; [apply lookup_insert_eq|].
  destruct (Z.ltb_spec (Z.of_nat (size m)) cap); [|lia]. apply lookup_insert_eq.
Qed.
Lemma bpf_accum_lookup_ne `{Countable K} {V} cap (k k' : K) (u : V → V) v m :
  k ≠ k' → bpf_accum cap k u v m !! k' = m !! k'.
Proof.
  intros Hne. unfold bpf_accum, bpf_insert. case_matches; rewrite ?lookup_insert_ne by done; done.
Qed.
Lemma bpf_accum_size `{Countable K} {V} cap (k : K) (u : V → V) v m :
  (size (bpf_accum cap k u v m) <= S (size m))%nat.
Proof.
  unfold bpf_accum, bpf_insert. case_matches; try lia;
    rewrite map_size_insert; case_match; simpl; lia.
Qed.
(** A full map never grows: [bpf_accum] adds a key only below the capacity. *)
Lemma bpf_accum_cap `{Countable K} {V} cap (k : K) (u : V → V) v m :
  Z.of_nat (size m) <= cap → Z.of_nat (size (bpf_accum cap k u v m)) <= cap.
Proof.
  intros Hc. unfold bpf_accum, bpf_insert. destruct (m !! k) eqn:E.
  - by rewrite map_size_insert, E.
  - destruct (Z.ltb_spec (Z.of_nat (size m)) cap); [|done]. rewrite map_size_insert, E. lia.
Qed.

(** The scheduler's own bookkeeping: no task has run on a CPU for longer than
    the CPU's clock says. *)
Definition spec_ok (a : SchedSpec) : Prop :=
  ∀ cpu pid, 0 <= default 0 (spec_time a !! (cpu, pid)) <= from_option snd 0 (spec_cur a !! cpu).

Lemma spec_step_time a cpu now next cpu' pid' :
  default 0 (spec_time (spec_step a cpu now next) !! (cpu', pid')) =
  default 0 (spec_time a !! (cpu', pid')) +
    match spec_cur a !! cpu with
    | Some (pid, since) => if decide ((cpu, pid) = (cpu', pid')) then now - since else 0
    | None => 0
    end.
Proof.
  unfold spec_step, hm_upd. cbn [spec_time]. destruct (spec_cur a !! cpu) as [[pid since]|]; [|lia].
  case_decide as Hd; [rewrite Hd, lookup_insert_eq; cbn; lia|].
  rewrite lookup_insert_ne by done. lia.
Qed.

Lemma spec_step_ok a ev : spec_ok a → switch_ok (spec_cur a) ev →
  spec_ok (spec_step a (ev_cpu ev) (ev_now ev) (default 0 (ev_next_pid ev))).
Proof.
  intros Ha (_ & Hnow & Hcur) cpu' pid'. rewrite spec_step_time.
  specialize (Ha cpu' pid'). cbn [spec_step spec_cur].
  destruct (decide (ev_cpu ev = cpu')) as [<-|Hne].
  - rewrite lookup_insert_eq. cbn [from_option snd].
    destruct (spec_cur a !! ev_cpu ev) as [[pid since]|]; cbn in Ha; [|lia].
    destruct Hcur as [_ Hle]. case_decide; lia.
  - rewrite lookup_insert_ne by done.
    destruct (spec_cur a !! ev_cpu ev) as [[pid since]|]; [|lia].
    rewrite decide_False by naive_solver. lia.
Qed.

Lemma sched_step_state st ev prev next : ev_prev_pid ev = Some prev → ev_next_pid ev = Some next →
  current_pid (sched_state (sched_step st ev) (ev_cpu ev)) = next ∧
  sched_start_time_ns (sched_state (sched_step st ev) (ev_cpu ev)) = ev_now ev ∧
  ∀ cpu, cpu ≠ ev_cpu ev → sched_state (sched_step st ev) cpu = sched_state st cpu.
Proof.
  intros Hp Hn. unfold sched_step, handle_sched_switch, sched_state. rewrite Hp, Hn.
  cbn [CPU_SCHED_STATE]. rewrite lookup_insert_eq. cbn [default from_option].
  split; [by destruct (negb _)|]. split; [by destruct (negb _)|].
  intros cpu Hne. by rewrite lookup_insert_ne.
Qed.

Lemma sched_step_time st ev prev next cpu pid :
  ev_prev_pid ev = Some prev → ev_next_pid ev = Some next →
  Z.of_nat (size (PID_CPU_TIME st)) < MAX_PID_CPU_ENTRIES →
  let s := sched_state st (ev_cpu ev) in
  (cpu = ev_cpu ev → pid_time st cpu pid + sat_sub (ev_now ev) (sched_start_time_ns s) < u64_mod) →
  0 <= pid_time st cpu pid →
  pid_time (sched_step st ev) cpu pid =
    pid_time st cpu pid +
    (if decide (cpu = ev_cpu ev ∧ pid = prev ∧ current_pid s ≠ 0 ∧ sched_start_time_ns s ≠ 0)
     then sat_sub (ev_now ev) (sched_start_time_ns s) else 0).
Proof.
  intros Hp Hn Hsz s Hrange H0. unfold sched_step, handle_sched_switch, pid_time. rewrite Hp, Hn.
  fold s. cbn [PID_CPU_TIME]. set (el := sat_sub _ _) in *.
  assert (0 <= el) by (unfold el, sat_sub; lia).
  destruct (Z.eqb_spec (current_pid s) 0); [rewrite decide_False by naive_solver; cbn; lia|].
  destruct (Z.eqb_spec (sched_start_time_ns s) 0); [rewrite decide_False by naive_solver; cbn; lia|].
  cbn [negb andb]. destruct (Z.ltb_spec 0 el); cbn [andb]; [|case_decide; lia].
  unfold charge_time. case_decide as Hd.
  - destruct Hd as (-> & -> & _). specialize (Hrange eq_refl). rewrite bpf_accum_lookup_eq by done. unfold pid_time in *.
    destruct (PID_CPU_TIME st !! _) as [v|]; cbn in *; [rewrite u64_add_exact; lia|lia].
  - rewrite bpf_accum_lookup_ne; [lia|]. intros [=]. naive_solver.
Qed.

Lemma sched_sim_step base st a ev : sched_sim base st a → spec_ok a → switch_ok (spec_cur a) ev →
  Z.of_nat (size (PID_CPU_TIME st)) < MAX_PID_CPU_ENTRIES →
  sched_sim base (sched_step st ev)
    (spec_step a (ev_cpu ev) (ev_now ev) (default 0 (ev_next_pid ev))).
Proof.
  intros [Hcur Htime] Hok Hsw Hsz.
  pose proof Hsw as ([next Hn] & Hnow & Hprev).
  assert (is_Some (ev_prev_pid ev)) as [prev Hp]
    by (destruct (spec_cur a !! _) as [[pid since]|]; [by destruct Hprev as [-> _]|done]).
  destruct (sched_step_state st ev prev next Hp Hn) as (H1 & H2 & H3). split.
  - intros cpu. cbn [spec_step spec_cur]. destruct (decide (cpu = ev_cpu ev)) as [->|Hne].
    + rewrite lookup_insert_eq, H1, H2, Hn. cbn. lia.
    + rewrite lookup_insert_ne, H3 by done. apply Hcur.
  - intros cpu pid Hpid. destruct (Htime cpu pid Hpid) as (Hb0 & Ht0 & Ht). pose proof (Hok cpu pid) as Hb.
    specialize (Hcur (ev_cpu ev)). rewrite spec_step_time, <-Ht.
    rewrite (sched_step_time st ev prev next) by
      (try done; intros ->; unfold sat_sub; destruct (spec_cur a !! _) as [[? ?]|]; cbn in *; lia).
    destruct (spec_cur a !! ev_cpu ev) as [[pid' since]|].
    + destruct Hcur as (Hs & -> & ->), Hprev as [Hpp Hle]. rewrite Hp in Hpp. injection Hpp as ->.
      rewrite sat_sub_exact by done. repeat case_decide; naive_solver lia.
    + rewrite Hcur, decide_False by naive_solver. lia.
Qed.

Lemma sched_step_size st ev : (size (PID_CPU_TIME (sched_step st ev)) <= S (size (PID_CPU_TIME st)))%nat.
Proof.
  unfold sched_step, handle_sched_switch. destruct (ev_prev_pid ev), (ev_next_pid ev); cbn; try lia.
  case_match; [apply bpf_accum_size|lia].
Qed.

(** ** No CPU is charged more than the wall clock *)

(** The trace's clock does not run backwards; nothing else is asked of it. *)
Fixpoint clock_ok (t : Z) (evs : list SchedEvent) : Prop :=
  match evs with
  | [] => True
  | ev :: evs => t <= ev_now ev < u64_mod ∧ clock_ok (ev_now ev) evs
  end.
Definition last_time (t : Z) (evs : list SchedEvent) : Z := foldl (λ _ ev, ev_now ev) t evs.

Definition charged_ok (st : BpfMaps) : Prop :=
  ∀ k v, PID_CPU_TIME st !! k = Some v → 0 <= time_ns v.
(** Between [t0] and [t]: a CPU is charged at most up to its last switch. *)
Definition busy_inv (t0 t : Z) (st : BpfMaps) : Prop :=
  charged_ok st ∧ t0 <= t < u64_mod ∧
  ∀ cpu, let start := sched_start_time_ns (sched_state st cpu) in
    (start = 0 ∧ cpu_busy st cpu = 0) ∨ (t0 <= start <= t ∧ cpu_busy st cpu <= start - t0).

Lemma cpu_busy_ge st k v : charged_ok st → PID_CPU_TIME st !! k = Some v →
  time_ns v <= cpu_busy st (key_cpu k).
Proof.
  intros Hok Hk. unfold cpu_busy. pose proof (map_sum_ge
    (λ k' v, if decide (key_cpu k' = key_cpu k) then time_ns v else 0) (PID_CPU_TIME st) k v) as Hge.
  cbn beta in Hge. rewrite decide_True in Hge by done. apply Hge; [|done].
  intros k' v' Hk'. case_decide; [by eapply Hok|lia].
Qed.
Lemma cpu_busy_nonneg st cpu : charged_ok st → 0 <= cpu_busy st cpu.
Proof.
  intros Hok. apply map_sum_nonneg. intros k v Hk. case_decide; [by eapply Hok|lia].
Qed.

(** One charge adds at most [elapsed] to its own CPU and nothing to the others,
    whether or not the map still has room for the key. *)
Lemma charge_time_busy st cpu pid el cpu' : charged_ok st → 0 <= el →
  cpu_busy st cpu + el < u64_mod →
  let m := charge_time cpu pid el (PID_CPU_TIME st) in
  let busy := map_sum (λ k v, if decide (key_cpu k = cpu') then time_ns v else 0) m in
  (∀ k v, m !! k = Some v → 0 <= time_ns v) ∧
  (cpu' = cpu → busy <= cpu_busy st cpu + el) ∧
  (cpu' ≠ cpu → busy = cpu_busy st cpu').
Proof.
  intros Hok Hel Hlt. cbn zeta. unfold charge_time, bpf_accum, bpf_insert.
  set (k := {| key_cpu := cpu; key_pid := pid |}).
  destruct (PID_CPU_TIME st !! k) as [v|] eqn:E.
  - pose proof (cpu_busy_ge st k v Hok E) as Hge. cbn in Hge. pose proof (Hok k v E).
    rewrite (u64_add_exact (time_ns v)) by lia. rewrite map_sum_insert, E. cbn.
    split; [intros k' v' Hk'; apply lookup_insert_Some in Hk' as [[_ <-]|[_ Hk']]; [cbn; lia|by eapply Hok]|].
    unfold cpu_busy. split; intros Hc; [subst|]; case_decide; cbn; lia || done.
  - destruct (_ <? _).
    + rewrite map_sum_insert, E. cbn.
      split; [intros k' v' Hk'; apply lookup_insert_Some in Hk' as [[_ <-]|[_ Hk']]; [cbn; lia|by eapply Hok]|].
      unfold cpu_busy. split; intros Hc; [subst|]; case_decide; cbn; lia || done.
    + split; [exact Hok|]. unfold cpu_busy. split; intros; [subst; lia|done].
Qed.

Lemma busy_inv_step t0 t st ev : 0 < t0 → busy_inv t0 t st → t <= ev_now ev < u64_mod →
  busy_inv t0 (ev_now ev) (sched_step st ev).
Proof.
  intros Ht0 (Hok & Ht & Hb) Hnow. unfold sched_step.
  destruct (ev_prev_pid ev) as [prev|] eqn:Hp, (ev_next_pid ev) as [next|] eqn:Hn;
    [|unfold handle_sched_switch; rewrite Hp, ?Hn;
      split; [done|split; [lia|intros cpu; destruct (Hb cpu); [by left|right; lia]]]..].
  pose proof (sched_step_state st ev prev next Hp Hn) as (_ & H2 & H3).
  change (match handle_sched_switch ev st with Ok st' => st' | Err _ => st end) with (sched_step st ev).
  assert (charged_ok (sched_step st ev) ∧
    cpu_busy (sched_step st ev) (ev_cpu ev) <= ev_now ev - t0 ∧
    ∀ cpu, cpu ≠ ev_cpu ev → cpu_busy (sched_step st ev) cpu = cpu_busy st cpu) as (Hok' & Hb1 & Hb2).
  { specialize (Hb (ev_cpu ev)). cbn zeta in Hb. unfold sched_step, handle_sched_switch. rewrite Hp, Hn.
    set (s := sched_state st (ev_cpu ev)) in *. destruct (andb _ (0 <? _)) eqn:Hc; cycle 1.
    { split; [exact Hok|]. split; [|done]. unfold cpu_busy in *. cbn. lia. }
    apply andb_true_iff in Hc as [[_ Hs]%andb_true_iff _]. apply negb_true_iff, Z.eqb_neq in Hs.
    destruct Hb as [?|[Hs' Hb]]; [lia|]. pose proof (cpu_busy_nonneg st (ev_cpu ev) Hok).
    assert (0 <= sat_sub (ev_now ev) (sched_start_time_ns s)) by (unfold sat_sub; lia).
    assert (cpu_busy st (ev_cpu ev) + sat_sub (ev_now ev) (sched_start_time_ns s) <= ev_now ev - t0)
      by (unfold sat_sub; lia).
    pose proof (λ c, charge_time_busy st (ev_cpu ev) prev (sat_sub (ev_now ev) (sched_start_time_ns s)) c Hok) as Hch.
    split; [intros k v; cbn; apply (Hch 0); lia|]. unfold cpu_busy at 1; cbn [PID_CPU_TIME]. split.
    - etrans; [apply Hch; lia|lia].
    - intros cpu Hne. unfold cpu_busy at 1; cbn [PID_CPU_TIME]. apply Hch; lia. }
  split; [done|]. split; [lia|]. intros cpu. destruct (decide (cpu = ev_cpu ev)) as [->|Hne].
  - right. rewrite H2. lia.
  - rewrite H3, Hb2 by done. specialize (Hb cpu). cbn zeta in *. lia.
Qed.

Lemma busy_inv_run t0 t evs st : 0 < t0 → busy_inv t0 t st → clock_ok t evs →
  busy_inv t0 (last_time t evs) (run_sched st evs).
Proof.
  intros Ht0. revert t st. induction evs as [|ev evs IH]; intros t st Hinv Hc; [done|].
  destruct Hc as [Hn Hc]. cbn. apply IH; [by eapply busy_inv_step|done].
Qed.
Lemma busy_inv_empty t0 pmc : 0 < t0 < u64_mod → busy_inv t0 t0 (empty_maps pmc).
Proof.
  intros. split; [intros k v; cbn; by rewrite lookup_empty|]. split; [lia|].
  intros cpu. left. unfold sched_state, cpu_busy. cbn. by rewrite lookup_empty, map_sum_empty.
Qed.

(** ** Draining while the kernel runs *)

Definition spec_empty : SchedSpec := {| spec_cur := ∅; spec_time := ∅ |}.
(** How long a task has run on a CPU. *)
Definition ran (a : SchedSpec) (cpu pid : Z) : Z := default 0 (spec_time a !! (cpu, pid)).
(** The context switches among the kernel's events. *)
Definition switches (evs : list KernelEvent) : list SchedEvent :=
  omap (λ e, match e with KSwitch ev => Some ev | _ => None end) evs.
Lemma switches_app l l' : switches (l ++ l') = switches l ++ switches l'.
Proof. apply omap_app. Qed.
Lemma spec_run_app a evs evs' : spec_run a (evs ++ evs') = spec_run (spec_run a evs) evs'.
Proof. apply foldl_app. Qed.
Lemma run_kernel_app st evs evs' : run_kernel st (evs ++ evs') = run_kernel (run_kernel st evs) evs'.
Proof. apply foldl_app. Qed.

Lemma spec_run_ok a evs : spec_ok a → trace_ok (spec_cur a) evs → spec_ok (spec_run a evs).
Proof.
  revert a. induction evs as [|ev evs IH]; intros a Ha Htr; [done|]. destruct Htr as [Hsw Htr].
  cbn. apply IH; [by apply spec_step_ok|done].
Qed.
Lemma trace_ok_app a evs evs' : trace_ok (spec_cur a) (evs ++ evs') →
  trace_ok (spec_cur a) evs ∧ trace_ok (spec_cur (spec_run a evs)) evs'.
Proof.
  revert a. induction evs as [|ev evs IH]; intros a Htr; [done|]. destruct Htr as [Hsw Htr].
  cbn. destruct (IH (spec_step a (ev_cpu ev) (ev_now ev) (default 0 (ev_next_pid ev)))) as [H1 H2]; done.
Qed.
(** Time only grows, and only when the task is switched out. *)
Lemma spec_run_mono a evs cpu pid : trace_ok (spec_cur a) evs → ran a cpu pid <= ran (spec_run a evs) cpu pid.
Proof.
  revert a. induction evs as [|ev evs IH]; intros a Htr; [done|]. destruct Htr as [(_ & _ & Hcur) Htr]. cbn.
  etrans; [|by apply IH]. unfold ran. rewrite spec_step_time.
  destruct (spec_cur a !! ev_cpu ev) as [[p since]|]; [|lia]. destruct Hcur as [_ ?]. case_decide; lia.
Qed.
Definition switched_out (cpu pid : Z) (ev : SchedEvent) : Prop := ev_cpu ev = cpu ∧ ev_prev_pid ev = Some pid.
Lemma spec_run_quiet a evs cpu pid : trace_ok (spec_cur a) evs → Forall (λ ev, ¬ switched_out cpu pid ev) evs →
  ran (spec_run a evs) cpu pid = ran a cpu pid.
Proof.
  intros Htr Hq. revert a Htr. induction Hq as [|ev evs Hev Hq IH]; intros a Htr; [done|].
  destruct Htr as [(_ & _ & Hcur) Htr]. cbn. unfold spec_run in IH. rewrite IH by done. unfold ran. rewrite spec_step_time.
  destruct (spec_cur a !! ev_cpu ev) as [[p since]|]; [|lia]. destruct Hcur as [Hp _].
  rewrite decide_False; [lia|]. intros [= Hc ->]. by apply Hev.
Qed.

(** *** The accounting state

    The maps simulate the scheduler's view, [base] being what was taken out of
    them, and have room for the switches still to come. *)
Record accounted (base : Z → Z → Z) (st : BpfMaps) (a : SchedSpec) (rest : list SchedEvent) : Prop := {
  acc_sim : sched_sim base st a;
  acc_spec : spec_ok a;
  acc_trace : trace_ok (spec_cur a) rest;
  acc_room : Z.of_nat (size (PID_CPU_TIME st)) + Z.of_nat (length rest) <= MAX_PID_CPU_ENTRIES
}.

(** The part of the maps the accounting looks at. *)
Definition sched_eq (st st' : BpfMaps) : Prop :=
  PID_CPU_TIME st = PID_CPU_TIME st' ∧ CPU_SCHED_STATE st = CPU_SCHED_STATE st'.
#[global] Instance sched_eq_equiv : Equivalence sched_eq.
Proof. split; unfold sched_eq; [done|intros ???; naive_solver|intros ???; naive_solver congruence]. Qed.

Lemma kernel_step_other st ev : switches [ev] = [] → sched_eq (kernel_step st ev) st.
Proof.
  destruct ev as [ev|ev|p s|p r]; cbn [kernel_step]; [done|..]; intros _; unfold sched_eq.
  - unfold handle_cpu_frequency. by destruct (fe_new_freq ev), (fe_cpu_id ev).
  - unfold tcp_sendmsg. by destruct (_ =? _), s.
  - unfold tcp_recvmsg. destruct (_ =? _); [done|]. destruct r; [|done]. by destruct (_ <=? _).
Qed.
Lemma accounted_eq base st st' a rest : sched_eq st st' → accounted base st a rest → accounted base st' a rest.
Proof.
  intros [Ht Hs] [[Hc Hp] Hok Htr Hr]. unfold sched_state, pid_time in *. split; [|done|done|by rewrite <-Ht].
  unfold sched_sim, sched_state, pid_time. by rewrite <-Ht, <-Hs.
Qed.
Lemma accounted_kernel base st a evs rest : accounted base st a (switches evs ++ rest) →
  accounted base (run_kernel st evs) (spec_run a (switches evs)) rest.
Proof.
  revert st a. induction evs as [|ev evs IH]; intros st a H; [done|]. cbn [run_kernel foldl].
  destruct (decide (switches [ev] = [])) as [He|He].
  - change (ev :: evs) with ([ev] ++ evs) in *. rewrite switches_app, He in *. cbn [app] in *.
    apply IH. eapply accounted_eq; [symmetry; by apply kernel_step_other|done].
  - destruct ev as [ev| | |]; [|done..]. cbn [kernel_step switches omap list_omap app] in *. fold (switches evs) in *.
    destruct H as [Hsim Hok [Hsw Htr] Hr]. cbn [length] in Hr. pose proof (sched_step_size st ev).
    apply (IH (sched_step st ev)). split; [apply sched_sim_step; try done; lia|by apply spec_step_ok|done|lia].
Qed.
(** Taking a key out moves its time to the base. *)
Definition take_key (k : PidCpuKey) (st : BpfMaps) (base : Z → Z → Z) (cpu pid : Z) : Z :=
  base cpu pid + if decide (k = {| key_cpu := cpu; key_pid := pid |}) then pid_time st cpu pid else 0.
Lemma accounted_take base st a rest k : accounted base st a rest →
  accounted (take_key k st base) (with_cpu_time (delete k (PID_CPU_TIME st)) st) a rest.
Proof.
  intros [[Hc Hp] Hok Htr Hr]. split; [split|done|done|].
  - exact Hc.
  - intros cpu pid Hpid. specialize (Hp cpu pid Hpid). unfold take_key, pid_time in *. cbn [PID_CPU_TIME with_cpu_time].
    case_decide as Hd; [subst k; rewrite lookup_delete_eq; cbn; lia|]. rewrite lookup_delete_ne by done. lia.
  - cbn. pose proof (map_size_delete k (PID_CPU_TIME st)). destruct (PID_CPU_TIME st !! k); cbn in *; lia.
Qed.
Lemma accounted_at base st a rest cpu pid : accounted base st a rest → pid ≠ 0 →
  0 <= base cpu pid ∧ base cpu pid + pid_time st cpu pid = ran a cpu pid.
Proof. intros [[_ Hp] _ _ _] Hpid. by destruct (Hp cpu pid Hpid) as (? & _ & ?). Qed.

Section drains.
Context `{HI : HashIter}.

(** What the kernel does while a map is iterated, and while it is drained. *)
Definition iter_trace {K V} `{Countable K} (get : BpfMaps → gmap K V) (env : MapEnv K) (st : BpfMaps) : list KernelEvent :=
  visited get env st ≫= me_at_read env.
Definition map_trace {K V} `{Countable K} (get : BpfMaps → gmap K V) (env : MapEnv K) (st : BpfMaps) : list KernelEvent :=
  iter_trace get env st ++ ((iterate get env st).1.*1 ≫= me_at_remove env).

Section any_map.
Context {K V : Type} `{Countable K} (get : BpfMaps → gmap K V) (put : gmap K V → BpfMaps → BpfMaps) (env : MapEnv K).
Lemma read_entries_state keys st : (read_entries get env keys st).2 = run_kernel st (keys ≫= me_at_read env).
Proof.
  revert st. induction keys as [|k keys IH]; intros st; [done|]. cbn [read_entries mbind list_bind].
  rewrite run_kernel_app, <-IH. by destruct (read_entries get env keys _) as [items st2].
Qed.
Lemma read_entries_keys keys st : sublist (read_entries get env keys st).1.*1 keys.
Proof.
  revert st. induction keys as [|k keys IH]; intros st; [done|]. cbn [read_entries].
  specialize (IH (run_kernel st (me_at_read env k))). destruct (read_entries get env keys _) as [items st2]. cbn [fst] in *.
  destruct (get _ !! k); [|by constructor]. destruct (me_readable env k); by constructor.
Qed.
(** Draining a map other than PID_CPU_TIME. *)
Lemma remove_other keys base st a rest : (∀ m st, sched_eq (put m st) st) →
  accounted base st a (switches (keys ≫= me_at_remove env) ++ rest) →
  accounted base (remove_keys get put env keys st) (spec_run a (switches (keys ≫= me_at_remove env))) rest.
Proof.
  intros Hput. revert st a. induction keys as [|k keys IH]; intros st a Ha; [done|]. cbn [remove_keys mbind list_bind] in *.
  rewrite switches_app, <-app_assoc in Ha. apply accounted_kernel in Ha. rewrite switches_app, spec_run_app. apply IH.
  destruct (me_removable env k); [|done]. eapply accounted_eq; [symmetry; apply Hput|done].
Qed.
Lemma iterate_other base st a rest : accounted base st a (switches (iter_trace get env st) ++ rest) →
  accounted base (iterate get env st).2 (spec_run a (switches (iter_trace get env st))) rest.
Proof. unfold iterate. rewrite read_entries_state. apply accounted_kernel. Qed.
Lemma drain_other base st a rest : (∀ m st, sched_eq (put m st) st) →
  accounted base st a (switches (map_trace get env st) ++ rest) →
  accounted base (drain_map get put env st).2 (spec_run a (switches (map_trace get env st))) rest.
Proof.
  intros Hput. unfold map_trace, drain_map. rewrite switches_app, <-app_assoc, spec_run_app. intros Ha%iterate_other.
  destruct (iterate get env st) as [items st1]. by apply remove_other.
Qed.
End any_map.

(** *** Draining PID_CPU_TIME *)

Definition cpu_key (cpu pid : Z) : PidCpuKey := {| key_cpu := cpu; key_pid := pid |}.
(** What the entries read say of a task on a CPU. *)
Definition items_time (items : list (PidCpuKey * PidCpuTime)) (cpu pid : Z) : Z :=
  sum_Z ((λ kv, if decide (kv.1 = cpu_key cpu pid) then time_ns kv.2 else 0) <$> items).
Lemma items_time_absent items cpu pid : cpu_key cpu pid ∉ items.*1 → items_time items cpu pid = 0.
Proof.
  unfold items_time. induction items as [|kv items IH]; [done|]. rewrite !fmap_cons, not_elem_of_cons, sum_Z_cons.
  intros [Hne Hnot]. rewrite decide_False by congruence. rewrite IH by done. lia.
Qed.
Lemma items_time_unique items cpu pid v : NoDup items.*1 → (cpu_key cpu pid, v) ∈ items → items_time items cpu pid = time_ns v.
Proof.
  unfold items_time. induction items as [|kv items IH]; [by intros _ ?%not_elem_of_nil|]. rewrite !fmap_cons, NoDup_cons, sum_Z_cons.
  intros [Hnot Hnd] [<-|Hin]%elem_of_cons.
  - rewrite decide_True by done. pose proof (items_time_absent items cpu pid Hnot) as H0. unfold items_time in H0. cbn [snd]. lia.
  - rewrite IH by done. rewrite decide_False; [lia|]. intros Hk. apply Hnot. rewrite Hk. apply list_elem_of_fmap. by exists (cpu_key cpu pid, v).
Qed.

Variable env : MapEnv PidCpuKey.

(** Each entry read is all that was charged to its key at some moment of the
    iteration. *)
Lemma read_cpu keys base st a rest cpu pid v : pid ≠ 0 →
  accounted base st a (switches (keys ≫= me_at_read env) ++ rest) →
  (cpu_key cpu pid, v) ∈ (read_entries PID_CPU_TIME env keys st).1 →
  ran a cpu pid <= base cpu pid + time_ns v <= ran (spec_run a (switches (keys ≫= me_at_read env))) cpu pid.
Proof.
  intros Hpid. revert st a. induction keys as [|k keys IH]; intros st a Ha Hin; [by apply not_elem_of_nil in Hin|].
  cbn [read_entries mbind list_bind] in *. rewrite switches_app in *. rewrite <-app_assoc in Ha.
  pose proof (acc_trace _ _ _ _ Ha) as Ht0. apply trace_ok_app in Ht0 as [Ht0 _].
  pose proof (spec_run_mono a _ cpu pid Ht0) as Hm0.
  apply accounted_kernel in Ha. rewrite spec_run_app. pose proof (acc_trace _ _ _ _ Ha) as Ht. apply trace_ok_app in Ht as [Ht _].
  pose proof (spec_run_mono _ _ cpu pid Ht) as Hm.
  specialize (IH (run_kernel st (me_at_read env k)) _ Ha).
  destruct (read_entries PID_CPU_TIME env keys _) as [items st2]. cbn [fst] in *.
  assert ((cpu_key cpu pid, v) ∈ items ∨ PID_CPU_TIME (run_kernel st (me_at_read env k)) !! cpu_key cpu pid = Some v) as [Hi|Hk].
  { destruct (PID_CPU_TIME _ !! k) as [v'|] eqn:E; [|by left]. destruct (me_readable env k); [|by left].
    apply elem_of_cons in Hin as [[= -> ->]|Hin]; [by right|by left]. }
  - specialize (IH Hi). lia.
  - destruct (accounted_at _ _ _ _ cpu pid Ha Hpid) as [_ Hat]. unfold pid_time in Hat. unfold cpu_key in Hk.
    rewrite Hk in Hat. cbn in Hat. lia.
Qed.

(** After the removals, the base of a removed key is all that was charged to it
    at some moment of the removals; the others' is unchanged. *)
Lemma remove_cpu keys base st a rest : (∀ k, me_removable env k = true) →
  accounted base st a (switches (keys ≫= me_at_remove env) ++ rest) →
  let a' := spec_run a (switches (keys ≫= me_at_remove env)) in
  ∃ base', accounted base' (remove_keys PID_CPU_TIME with_cpu_time env keys st) a' rest ∧
    ∀ cpu pid, pid ≠ 0 →
      (cpu_key cpu pid ∈ keys → ran a cpu pid <= base' cpu pid <= ran a' cpu pid) ∧
      (cpu_key cpu pid ∉ keys → base' cpu pid = base cpu pid).
Proof.
  intros Hrm. cbn zeta. revert base st a. induction keys as [|k keys IH]; intros base st a Ha.
  { exists base. split; [done|]. intros cpu pid _. split; [by intros ?%not_elem_of_nil|done]. }
  cbn [remove_keys mbind list_bind] in *. rewrite switches_app in *. rewrite <-app_assoc in Ha. rewrite Hrm.
  pose proof (acc_trace _ _ _ _ Ha) as Ht0. apply trace_ok_app in Ht0 as [Ht0 _].
  apply accounted_kernel in Ha. rewrite spec_run_app. set (a1 := spec_run a (switches (me_at_remove env k))) in *.
  set (st1 := run_kernel st (me_at_remove env k)) in *.
  pose proof (acc_trace _ _ _ _ Ha) as Ht. apply trace_ok_app in Ht as [Ht _].
  destruct (IH _ _ _ (accounted_take _ _ _ _ k Ha)) as (base' & Ha' & Hb). exists base'. split; [done|].
  intros cpu pid Hpid. destruct (Hb cpu pid Hpid) as [Hb1 Hb2].
  pose proof (spec_run_mono a _ cpu pid Ht0) as Hm0. fold a1 in Hm0. pose proof (spec_run_mono a1 _ cpu pid Ht) as Hm1.
  destruct (accounted_at _ _ _ _ cpu pid Ha Hpid) as [_ Hat]. split.
  - intros Hin. destruct (decide (cpu_key cpu pid ∈ keys)) as [Hin'|Hin']; [specialize (Hb1 Hin'); lia|].
    apply elem_of_cons in Hin as [Hk|]; [|done]. rewrite (Hb2 Hin'). unfold take_key.
    rewrite decide_True by (by symmetry). lia.
  - rewrite not_elem_of_cons. intros [Hk Hin]. rewrite (Hb2 Hin). unfold take_key.
    rewrite decide_False by (intros ->; done). lia.
Qed.

(** What is taken out and not reported is at most what was charged meanwhile. *)
Lemma drain_cpu base st a rest : (∀ k, me_removable env k = true) → NoDup (visited PID_CPU_TIME env st) →
  accounted base st a (switches (map_trace PID_CPU_TIME env st) ++ rest) →
  let a' := spec_run a (switches (map_trace PID_CPU_TIME env st)) in
  let res := drain_map PID_CPU_TIME with_cpu_time env st in
  ∃ base', accounted base' res.2 a' rest ∧
    ∀ cpu pid, pid ≠ 0 →
      0 <= base' cpu pid - base cpu pid - items_time res.1 cpu pid <= ran a' cpu pid - ran a cpu pid.
Proof.
  intros Hrm Hnd Ha. cbn zeta. unfold map_trace, drain_map in *. rewrite switches_app in *. rewrite <-app_assoc in Ha.
  pose proof (λ cpu pid v H, read_cpu _ _ _ _ _ cpu pid v H Ha) as Hread. pose proof (acc_trace _ _ _ _ Ha) as Ht0.
  apply trace_ok_app in Ht0 as [Ht0 _]. apply iterate_other in Ha.
  pose proof (read_entries_keys PID_CPU_TIME env (visited PID_CPU_TIME env st) st) as Hsub.
  rewrite spec_run_app. fold (iterate PID_CPU_TIME env st) in Hread, Hsub.
  destruct (iterate PID_CPU_TIME env st) as [items st1] eqn:E. cbn [fst snd] in *.
  assert (NoDup items.*1) as Hndi by (by eapply sublist_NoDup).
  pose proof (acc_trace _ _ _ _ Ha) as Ht1. apply trace_ok_app in Ht1 as [Ht1 _].
  destruct (remove_cpu _ _ _ _ _ Hrm Ha) as (base' & Ha' & Hb). exists base'. split; [done|].
  intros cpu pid Hpid. destruct (Hb cpu pid Hpid) as [Hb1 Hb2].
  pose proof (spec_run_mono _ _ cpu pid Ht0). pose proof (spec_run_mono _ _ cpu pid Ht1).
  destruct (decide (cpu_key cpu pid ∈ items.*1)) as [Hin|Hin].
  - specialize (Hb1 Hin). apply list_elem_of_fmap in Hin as ([k v] & Hk & Hin). cbn in Hk. subst k.
    rewrite (items_time_unique _ _ _ v Hndi Hin). specialize (Hread cpu pid v Hpid Hin). unfold iter_trace in *. lia.
  - rewrite (Hb2 Hin), items_time_absent by done. lia.
Qed.
End drains.

(** *** Any number of drains *)

Section intervals.
Context `{HI : HashIter}.

(** An interval: what the kernel does up to the drain, and around it. *)
Record Interval := { iv_events : list KernelEvent; iv_drain : DrainEnv }.

(** What one snapshot reports for a task on a CPU. *)
Definition snap_time (s : EbpfSnapshot) (cpu pid : Z) : Z :=
  sum_Z ((λ t : Z * Z * Z, if decide ((t.1.1, t.1.2) = (cpu, pid)) then t.2 else 0)
         <$> es_pid_cpu_times s).
Definition result_time (r : result EbpfSnapshot string) (cpu pid : Z) : Z :=
  match r with Ok s => snap_time s cpu pid | Err _ => 0 end.

Section run.
Variable pmc : bool.
Definition run_interval (st : BpfMaps) (iv : Interval) : result EbpfSnapshot string * BpfMaps :=
  drain pmc (iv_drain iv) (run_kernel st (iv_events iv)).
Fixpoint run_intervals (st : BpfMaps) (ivs : list Interval) : list (result EbpfSnapshot string) * BpfMaps :=
  match ivs with
  | [] => ([], st)
  | iv :: ivs =>
      let '(s, st') := run_interval st iv in
      let '(ss, st'') := run_intervals st' ivs in
      (s :: ss, st'')
  end.

(** The context switches of an interval, in order: before the drain, while
    PID_CPU_TIME is drained (the window), and while the other maps are. *)
Definition before_drain (iv : Interval) : list SchedEvent := switches (iv_events iv).
Definition window (st : BpfMaps) (iv : Interval) : list SchedEvent :=
  switches (map_trace PID_CPU_TIME (de_cpu_time (iv_drain iv)) (run_kernel st (iv_events iv))).
Definition after_window (st : BpfMaps) (iv : Interval) : list SchedEvent :=
  let env := iv_drain iv in
  let st1 := (drain_map PID_CPU_TIME with_cpu_time (de_cpu_time env) (run_kernel st (iv_events iv))).2 in
  let st2 := (drain_map CPU_FREQ_TIME with_freq_time (de_freq_time env) st1).2 in
  let st3 := (iterate PID_CGROUP (de_cgroup env) st2).2 in
  let st4 := if me_present (de_net env) then (drain_map PID_NET_BYTES (λ m st, with_net st m) (de_net env) st3).2 else st3 in
  switches (map_trace CPU_FREQ_TIME (de_freq_time env) st1) ++
  switches (iter_trace PID_CGROUP (de_cgroup env) st2) ++
  (if me_present (de_net env) then switches (map_trace PID_NET_BYTES (de_net env) st3) else []) ++
  (if pmc && me_present (de_hw env) then switches (map_trace PID_HW_COUNTERS (de_hw env) st4) else []).
Definition interval_trace (st : BpfMaps) (iv : Interval) : list SchedEvent :=
  before_drain iv ++ window st iv ++ after_window st iv.
Fixpoint full_trace (st : BpfMaps) (ivs : list Interval) : list SchedEvent :=
  match ivs with
  | [] => []
  | iv :: ivs => interval_trace st iv ++ full_trace (run_interval st iv).2 ivs
  end.
Fixpoint windows (st : BpfMaps) (ivs : list Interval) : list SchedEvent :=
  match ivs with
  | [] => []
  | iv :: ivs => window st iv ++ windows (run_interval st iv).2 ivs
  end.
(** The time the scheduler accounts to a task within the windows. *)
Fixpoint window_time (a : SchedSpec) (st : BpfMaps) (ivs : list Interval) (cpu pid : Z) : Z :=
  match ivs with
  | [] => 0
  | iv :: ivs =>
      let a0 := spec_run a (before_drain iv) in
      ran (spec_run a0 (window st iv)) cpu pid - ran a0 cpu pid +
      window_time (spec_run a (interval_trace st iv)) (run_interval st iv).2 ivs cpu pid
  end.
(** PID_CPU_TIME has room for every key that may appear. *)
Fixpoint fits (st : BpfMaps) (ivs : list Interval) : Prop :=
  match ivs with
  | [] => True
  | iv :: ivs =>
      Z.of_nat (size (PID_CPU_TIME st)) + Z.of_nat (length (interval_trace st iv)) <= MAX_PID_CPU_ENTRIES ∧
      fits (run_interval st iv).2 ivs
  end.

(** The three maps are there, the iterator visits no key of PID_CPU_TIME twice
    (nothing is deleted while it runs) and its removals succeed. *)
Record drain_ok (env : DrainEnv) : Prop := {
  dok_cpu : me_present (de_cpu_time env) = true;
  dok_freq : me_present (de_freq_time env) = true;
  dok_cgroup : me_present (de_cgroup env) = true;
  dok_visit : ∀ l, NoDup l → NoDup (me_visit (de_cpu_time env) l);
  dok_remove : ∀ k, me_removable (de_cpu_time env) k = true
}.

Lemma snap_items times freqs cgroups nets hws cpu pid :
  snap_time {| es_pid_cpu_times := (λ kv, (key_cpu kv.1, key_pid kv.1, time_ns kv.2)) <$> times;
               es_cpu_freq_times := freqs; es_pid_cgroups := cgroups; es_pid_net_bytes := nets; es_pid_hw_counters := hws |} cpu pid =
  items_time times cpu pid.
Proof.
  unfold snap_time, items_time. cbn [es_pid_cpu_times]. rewrite <-list_fmap_compose. f_equal. apply list_fmap_ext.
  intros i [[c p] v] _. cbn. unfold cpu_key. repeat case_decide; congruence.
Qed.

(** One interval. *)
Lemma interval_accounted base st a rest iv : drain_ok (iv_drain iv) →
  accounted base st a (interval_trace st iv ++ rest) →
  let a0 := spec_run a (before_drain iv) in
  ∃ base', accounted base' (run_interval st iv).2 (spec_run a (interval_trace st iv)) rest ∧
    ∀ cpu pid, pid ≠ 0 →
      0 <= base' cpu pid - base cpu pid - result_time (run_interval st iv).1 cpu pid
        <= ran (spec_run a0 (window st iv)) cpu pid - ran a0 cpu pid.
Proof.
  intros [Hp1 Hp2 Hp3 Hv Hrm] Ha. cbn zeta. unfold interval_trace, before_drain, run_interval in *.
  rewrite <-!app_assoc in Ha. apply accounted_kernel in Ha. rewrite !spec_run_app. unfold after_window, window in *.
  set (a0 := spec_run a (switches (iv_events iv))) in *. set (st0 := run_kernel st (iv_events iv)) in *.
  set (env := iv_drain iv) in *. assert (NoDup (visited PID_CPU_TIME (de_cpu_time env) st0)) as Hnd by apply Hv, hm_keys_NoDup.
  destruct (drain_cpu _ _ _ _ _ Hrm Hnd Ha) as (base' & Ha' & Hb). exists base'. unfold drain. rewrite Hp1, Hp2, Hp3. cbn [negb].
  destruct (drain_map PID_CPU_TIME with_cpu_time (de_cpu_time env) st0) as [times st1]. cbn [fst snd] in *.
  rewrite <-!app_assoc in Ha'. apply (drain_other _ with_freq_time) in Ha'; [|by split].
  destruct (drain_map CPU_FREQ_TIME with_freq_time (de_freq_time env) st1) as [freqs st2]. cbn [fst snd] in *.
  apply iterate_other in Ha'. destruct (iterate PID_CGROUP (de_cgroup env) st2) as [cgroups st3]. cbn [fst snd] in *.
  rewrite !spec_run_app. split.
  - destruct (me_present (de_net env)).
    + apply (drain_other _ (λ m st, with_net st m)) in Ha'; [|by split].
      destruct (drain_map PID_NET_BYTES _ (de_net env) st3) as [nets st4]. cbn [fst snd] in *.
      destruct (pmc && me_present (de_hw env)); [|done].
      apply (drain_other _ with_hw) in Ha'; [|by split].
      by destruct (drain_map PID_HW_COUNTERS with_hw (de_hw env) st4) as [hws st5].
    + cbn [app] in Ha'. destruct (pmc && me_present (de_hw env)); [|done].
      apply (drain_other _ with_hw) in Ha'; [|by split].
      by destruct (drain_map PID_HW_COUNTERS with_hw (de_hw env) st3) as [hws st5].
  - intros cpu pid Hpid. specialize (Hb cpu pid Hpid).
    destruct (if me_present (de_net env) then drain_map _ _ _ _ else _) as [nets st4].
    destruct (if pmc && _ then drain_map _ _ _ _ else _) as [hws st5]. cbn [fst result_time]. by rewrite snap_items.
Qed.

Lemma intervals_accounted base st a ivs cpu pid : pid ≠ 0 → Forall (λ iv, drain_ok (iv_drain iv)) ivs →
  sched_sim base st a → spec_ok a → trace_ok (spec_cur a) (full_trace st ivs) → fits st ivs →
  let res := run_intervals st ivs in
  let total := base cpu pid + sum_Z ((λ r, result_time r cpu pid) <$> res.1) + pid_time res.2 cpu pid in
  total <= ran (spec_run a (full_trace st ivs)) cpu pid <= total + window_time a st ivs cpu pid.
Proof.
  intros Hpid Hok. cbn zeta. revert base st a. induction Hok as [|iv ivs Hiv Hok IH]; intros base st a Hsim Hspec Htr Hfit.
  { cbn. destruct Hsim as [_ Hp]. destruct (Hp cpu pid Hpid) as (_ & _ & Hp'). unfold ran. lia. }
  cbn [full_trace fits window_time run_intervals] in *. destruct Hfit as [Hroom Hfit].
  pose proof (trace_ok_app _ _ _ Htr) as [Htr1 Htr2].
  destruct (interval_accounted base st a [] iv Hiv) as (base' & Ha' & Hb).
  { rewrite app_nil_r. by split. }
  specialize (Hb cpu pid Hpid). rewrite spec_run_app.
  specialize (IH _ _ _ (acc_sim _ _ _ _ Ha') (acc_spec _ _ _ _ Ha') Htr2 Hfit).
  destruct (run_interval st iv) as [s st'] eqn:E. cbn [fst snd] in *.
  destruct (run_intervals st' ivs) as [ss st'']. cbn [fst snd] in *. rewrite fmap_cons, sum_Z_cons. lia.
Qed.

Lemma window_time_quiet a st ivs cpu pid : trace_ok (spec_cur a) (full_trace st ivs) →
  Forall (λ ev, ¬ switched_out cpu pid ev) (windows st ivs) → window_time a st ivs cpu pid = 0.
Proof.
  revert a st. induction ivs as [|iv ivs IH]; intros a st Htr Hq; [done|]. cbn [full_trace windows window_time] in *.
  apply Forall_app in Hq as [Hq1 Hq2]. apply trace_ok_app in Htr as [Htr1 Htr2].
  unfold interval_trace in Htr1. apply trace_ok_app in Htr1 as [_ Htr1]. apply trace_ok_app in Htr1 as [Htr1 _].
  rewrite (spec_run_quiet _ _ _ _ Htr1 Hq1), (IH _ _ Htr2 Hq2). lia.
Qed.
End run.

(** C8: the accounting of CPU time through concurrent drains.  Take any sequence
    of context switches the kernel can produce, some of them falling between the
    drain's reads and removals, in any order of iteration without repetition and
    with any entries unreadable, while the maps are there, removals succeed and
    PID_CPU_TIME has room: in every interval its entries and the interval's
    switches are together at most 65536.  Then for every task but the idle one and
    every CPU, the times reported by the drains and what is still in the map
    never exceed the time the task really ran there, and fall short of it by at
    most the time charged to it by switches within the drains of that map; so
    they are exact for a task that is not switched out on that CPU during such a
    drain.  Nothing is counted twice or charged to another task. *)
Theorem drained_time_accounted pmc_flag pmc ivs cpu pid : pid ≠ 0 →
  Forall (λ iv, drain_ok (iv_drain iv)) ivs →
  let st := empty_maps pmc_flag in
  trace_ok ∅ (full_trace pmc st ivs) → fits pmc st ivs →
  let res := run_intervals pmc st ivs in
  let reported := sum_Z ((λ r, result_time r cpu pid) <$> res.1) + pid_time res.2 cpu pid in
  let real := ran (spec_run spec_empty (full_trace pmc st ivs)) cpu pid in
  reported <= real <= reported + window_time pmc spec_empty st ivs cpu pid ∧
  (Forall (λ ev, ¬ switched_out cpu pid ev) (windows pmc st ivs) → reported = real).
Proof.
  intros Hpid Hok st Htr Hfit. cbn zeta.
  pose proof (intervals_accounted pmc (λ _ _, 0) st spec_empty ivs cpu pid Hpid Hok) as H.
  assert (sched_sim (λ _ _, 0) st spec_empty) as Hsim by done. assert (spec_ok spec_empty) as Hspec by done.
  specialize (H Hsim Hspec Htr Hfit). cbn beta zeta in H. split; [lia|].
  intros Hq. rewrite (window_time_quiet pmc spec_empty st ivs cpu pid Htr Hq) in H. lia.
Qed.
End intervals.

(** C25: no CPU is charged more than the wall clock.  Whatever tasks the events
    name, and even when map insertions fail for lack of room, the time charged
    to all tasks of one CPU is at most the time that passed. *)
Theorem cpu_busy_le_wall t0 pmc evs cpu : 0 < t0 < u64_mod → clock_ok t0 evs →
  0 <= cpu_busy (run_sched (empty_maps pmc) evs) cpu <= last_time t0 evs - t0.
Proof.
  intros Ht0 Hc. destruct (busy_inv_run t0 t0 evs (empty_maps pmc)) as (Hok & Hl & Hb);
    [lia|by apply busy_inv_empty|done|].
  split; [by apply cpu_busy_nonneg|]. specialize (Hb cpu). cbn zeta in Hb. lia.
Qed.

(** A task that runs on CPU 0 from 100 to 150, then again from 170 to 200,
    drained after each. *)
Definition demo_switch (cpu now prev next : Z) : SchedEvent :=
  let z := {| ps_instructions := 0; ps_cycles := 0; ps_cache_misses := 0 |} in
  {| ev_now := now; ev_cpu := cpu; ev_prev_pid := Some prev; ev_next_pid := Some next;
     ev_perf_out := z; ev_perf_in := z; ev_cgroup := 1 |}.
(** A drain nothing disturbs, and one in which the kernel switches a task while
    the keys are being removed. *)
Definition quiet_map (K : Type) : MapEnv K :=
  {| me_present := true; me_visit := id; me_at_read := λ _, []; me_readable := λ _, true; me_at_remove := λ _, [];
     me_removable := λ _, true |}.
Definition quiet_drain : DrainEnv :=
  {| de_cpu_time := quiet_map _; de_freq_time := quiet_map _; de_cgroup := quiet_map _; de_net := quiet_map _;
     de_hw := quiet_map _ |}.
Definition racing_drain (evs : list KernelEvent) : DrainEnv :=
  {| de_cpu_time := {| me_present := true; me_visit := id; me_at_read := λ _, []; me_readable := λ _, true;
                       me_at_remove := λ _, evs; me_removable := λ _, true |};
     de_freq_time := quiet_map _; de_cgroup := quiet_map _; de_net := quiet_map _; de_hw := quiet_map _ |}.
Definition demo_intervals : list Interval :=
  [{| iv_events := KSwitch <$> [demo_switch 0 100 0 7; demo_switch 0 150 7 9]; iv_drain := quiet_drain |};
   {| iv_events := KSwitch <$> [demo_switch 0 170 9 7; demo_switch 0 200 7 0]; iv_drain := quiet_drain |}].
(** Task 7 runs from 100 to 150, and on to 190 while the map is drained. *)
Definition race_intervals : list Interval :=
  [{| iv_events := KSwitch <$> [demo_switch 0 100 0 7; demo_switch 0 150 7 7];
      iv_drain := racing_drain [KSwitch (demo_switch 0 190 7 9)] |}].

#[local] Existing Instance hash_iter_list.
Definition reported (ivs : list Interval) (cpu pid : Z) : Z :=
  let res := run_intervals false (empty_maps 0) ivs in
  sum_Z ((λ r, result_time r cpu pid) <$> res.1) + pid_time res.2 cpu pid.

Lemma drain_ok_demo evs : drain_ok quiet_drain ∧ drain_ok (racing_drain evs).
Proof. split; split; done. Qed.
Lemma drained_time_accounted_witness :
  reported demo_intervals 0 7 = 80 ∧ ran (spec_run spec_empty (full_trace false (empty_maps 0) demo_intervals)) 0 7 = 80 ∧
  reported race_intervals 0 7 <= 90 <= reported race_intervals 0 7 + 40.
Proof.
  split; [vm_compute; reflexivity|]. split.
  - rewrite <-(proj2 (drained_time_accounted 0 false demo_intervals 0 7 ltac:(discriminate)
      ltac:(repeat constructor; apply (drain_ok_demo [])) ltac:(vm_compute; repeat split; eauto; discriminate)
      ltac:(vm_compute; repeat split; discriminate))).
    + vm_compute. reflexivity.
    + vm_compute. constructor.
  - apply (drained_time_accounted 0 false race_intervals 0 7 ltac:(discriminate)
      ltac:(repeat constructor; apply (drain_ok_demo [])) ltac:(vm_compute; repeat split; eauto; discriminate)
      ltac:(vm_compute; repeat split; discriminate)).
Defined.
Definition demo_trace : list SchedEvent := full_trace false (empty_maps 0) demo_intervals.
Lemma cpu_busy_le_wall_witness :
  cpu_busy (run_sched (empty_maps 0) demo_trace) 0 = 100 ∧
  0 <= cpu_busy (run_sched (empty_maps 0) demo_trace) 0 <= 200 - 100.
Proof.
  split; [reflexivity|].
  apply (cpu_busy_le_wall 100 0 demo_trace 0); vm_compute; repeat split; discriminate.
Defined.

(** The kernel programs keep running while the map is drained, and what they
    charge to a key that has been read and not yet removed is deleted unread: of
    the 90 ns the task ran, 50 are reported and 40 are gone. *)
Example drain_race_loses_time :
  reported race_intervals 0 7 = 50 ∧ ran (spec_run spec_empty (full_trace false (empty_maps 0) race_intervals)) 0 7 = 90.
Proof. split; vm_compute; reflexivity. Qed.
(** A map missing further on makes the drain fail after PID_CPU_TIME has been
    emptied: the times of the interval are lost. *)
Example failed_drain_loses_times :
  let st := run_sched (empty_maps 0) [demo_switch 0 100 0 7; demo_switch 0 150 7 9] in
  let env := {| de_cpu_time := quiet_map _;
                de_freq_time := {| me_present := false; me_visit := id; me_at_read := λ _, []; me_readable := λ _, true;
                                   me_at_remove := λ _, []; me_removable := λ _, true |};
                de_cgroup := quiet_map _; de_net := quiet_map _; de_hw := quiet_map _ |} in
  pid_time st 0 7 = 50 ∧ (drain false env st).1 = Err "CPU_FREQ_TIME map not found" ∧ pid_time (drain false env st).2 0 7 = 0.
Proof. cbn zeta. repeat split; vm_compute; reflexivity. Qed.

(** A frequency change of CPU 1 handled on CPU 0 charges CPU 1 with the
    frequency CPU 0 had. *)
Example cpu_frequency_wrong_slot :
  let st := match handle_cpu_frequency {| fe_now := 100; fe_exec_cpu := 0; fe_new_freq := Some 3000;
                                          fe_cpu_id := Some 0 |} (empty_maps 0) with
            | Ok st => st | Err _ => empty_maps 0 end in
  match handle_cpu_frequency {| fe_now := 160; fe_exec_cpu := 0; fe_new_freq := Some 800;
                                fe_cpu_id := Some 1 |} st with
  | Ok st' => CPU_FREQ_TIME st' !! {| freq_cpu := 1; freq_khz := 3000 |} = Some {| freq_time_ns := 60 |}
  | Err _ => False
  end.
Proof. reflexivity. Qed.
