(* ===== verification/Model.v ===== *)
(** * Model: how a core's energy is weighted between its tasks

    keck-agent/src/attribution/model.rs.  The trait [AttributionModel] is a
    record of its two methods; [LawfulModel] is what the engine relies on, and
    each of the three models of the source satisfies it. *)

From S2P Require Import Prelude F64 Common.

Open Scope Z_scope.

Record PidCoreObservation := {
  obs_pid : Z;
  obs_time_ns : Z;
  obs_instructions : Z;
  obs_cycles : Z;
  obs_cache_misses : Z
}.

Record PidCoreWeight (F : Type) := { w_pid : Z; raw_weight : F }.
Arguments Build_PidCoreWeight {F} _ _.
Arguments w_pid {F} _.
Arguments raw_weight {F} _.

(** The trait object [Box<dyn AttributionModel>]. *)
Record AttributionModel (F : Type) := {
  compute_weights : list PidCoreObservation → Z → list (PidCoreWeight F);
  method : AttributionMethod
}.
Arguments compute_weights {F} _ _ _.
Arguments method {F} _.

Section models.
Context `{FloatOps F}.

Definition freq_factor (avg_freq_khz : Z) : F := fsq (fdiv (f_of_Z avg_freq_khz) (f_of_Z 1000000)).

(** The body of the closure of [FullModel::compute_weights]. *)
Definition full_weight (alpha beta : F) (avg_freq_khz : Z) (obs : PidCoreObservation) : F :=
  let time_factor := f_of_Z (obs_time_ns obs) in
  let ipc := if 0 <? obs_cycles obs
             then fdiv (f_of_Z (obs_instructions obs)) (f_of_Z (obs_cycles obs)) else fzero in
  let miss_ratio := if 0 <? obs_instructions obs
                    then fdiv (f_of_Z (obs_cache_misses obs)) (f_of_Z (obs_instructions obs)) else fzero in
  let workload_factor := fadd (fadd fone (fmul alpha ipc)) (fmul beta miss_ratio) in
  fmul (fmul time_factor (freq_factor avg_freq_khz)) workload_factor.

Definition FullModel_with_coefficients (alpha beta : F) : AttributionModel F := {|
  compute_weights := λ observations avg_freq_khz,
    (λ obs, {| w_pid := obs_pid obs; raw_weight := full_weight alpha beta avg_freq_khz obs |}) <$> observations;
  method := FullModelMethod
|}.
(** α = 0.3, β = 1.5. *)
Definition FullModel : AttributionModel F := FullModel_with_coefficients (f_lit 3 10) (f_lit 3 2).

Definition FrequencyWeightedModel : AttributionModel F := {|
  compute_weights := λ observations avg_freq_khz,
    (λ obs, {| w_pid := obs_pid obs;
               raw_weight := fmul (f_of_Z (obs_time_ns obs)) (freq_factor avg_freq_khz) |}) <$> observations;
  method := FrequencyWeighted
|}.

Definition CpuTimeRatioModel : AttributionModel F := {|
  compute_weights := λ observations _,
    (λ obs, {| w_pid := obs_pid obs; raw_weight := f_of_Z (obs_time_ns obs) |}) <$> observations;
  method := CpuTimeRatio
|}.

Definition select_model (has_freq_data has_perf_counters : bool) : AttributionModel F :=
  match has_perf_counters, has_freq_data with
  | true, true => FullModel
  | false, true => FrequencyWeightedModel
  | _, _ => CpuTimeRatioModel
  end.
End models.

(** An observation read from the kernel: unsigned counters. *)
Definition obs_ok (obs : PidCoreObservation) : Prop :=
  0 <= obs_time_ns obs ∧ 0 <= obs_instructions obs ∧ 0 <= obs_cycles obs ∧ 0 <= obs_cache_misses obs.

(** ** What a model promises the engine: one weight per observation, in order,
    and no negative weight. *)
Class LawfulModel `{FloatLaws F} (m : AttributionModel F) := {
  weights_pids : ∀ observations f, w_pid <$> compute_weights m observations f = obs_pid <$> observations;
  weights_nn : ∀ observations f, Forall obs_ok observations → 0 <= f →
    Forall (λ w, fnn (raw_weight w)) (compute_weights m observations f)
}.

Section lawful.
Context `{FL : FloatLaws F}.

Lemma freq_factor_nn f : 0 <= f → fnn (freq_factor f).
Proof. intros. unfold freq_factor. auto with keck. Qed.
#[local] Hint Resolve freq_factor_nn : keck.

Lemma full_weight_nn (alpha beta : F) f o :
  fnn alpha → fnn beta → 0 <= f → obs_ok o → fnn (full_weight alpha beta f o).
Proof.
  intros Ha Hb Hf (Ht & Hi & Hc & Hm). unfold full_weight, fone, fzero.
  repeat case_match; auto 8 with keck lia.
Qed.

Lemma FullModel_lawful (alpha beta : F) :
  fnn alpha → fnn beta → LawfulModel (FullModel_with_coefficients alpha beta).
Proof.
  intros Ha Hb. split.
  - intros. cbn. by rewrite <-list_fmap_compose.
  - intros obs f Hobs Hf. cbn. apply Forall_fmap. eapply Forall_impl; [exact Hobs|].
    intros o Ho. by apply full_weight_nn.
Qed.
#[export] Instance FrequencyWeightedModel_lawful : LawfulModel (F:=F) FrequencyWeightedModel.
Proof.
  split.
  - intros. cbn. by rewrite <-list_fmap_compose.
  - intros obs f Hobs Hf. cbn. apply Forall_fmap. eapply Forall_impl; [exact Hobs|].
    intros o [Ho _]. cbn. auto with keck.
Qed.
#[export] Instance CpuTimeRatioModel_lawful : LawfulModel (F:=F) CpuTimeRatioModel.
Proof.
  split.
  - intros. cbn. by rewrite <-list_fmap_compose.
  - intros obs f Hobs _. cbn. apply Forall_fmap. eapply Forall_impl; [exact Hobs|].
    intros o [Ho _]. cbn. auto with keck.
Qed.

(** Whatever data is available, the model the agent selects is lawful. *)
#[export] Instance select_model_lawful has_freq has_counters :
  LawfulModel (F:=F) (select_model has_freq has_counters).
Proof.
  destruct has_counters, has_freq; cbn [select_model]; try apply _.
  apply FullModel_lawful; apply fnn_lit; lia.
Qed.
End lawful.

(** Hardware counters without frequency data fall back to plain CPU time. *)
Example select_counters_without_freq :
  method (select_model (F:=f64) false true) = CpuTimeRatio ∧ method (select_model (F:=f64) true false) = FrequencyWeighted.
Proof. done. Qed.
