(* ===== verification/Engine.v ===== *)
(** * Engine: splitting measured energy between processes

    keck-agent/src/attribution/engine.rs: socket energy is split over cores,
    core energy over the tasks seen on the core, DRAM energy over processes,
    and the interval's totals are reconciled.  The arithmetic is a parameter
    ([FloatOps]); the machine is the instance [f64].  A division by zero, the
    only panic of the file, is [None]. *)

From S2P Require Import Prelude F64 Common Model.
From stdpp Require Import list_numbers.
From Stdlib Require Import QArith Qround Lqa.

Open Scope Z_scope.

Record ObservationSnapshot := {
  pid_cpu_times : list (PidCpuKey * Z);
  cpu_freq_times : list (CpuFreqKey * Z);
  core_counters : list (Z * CoreCounters);
  pid_cgroups : gmap Z Z
}.

Record EnergyInput := {
  socket_energy_uj : list Z;
  dram_energy_uj : list Z;
  gpu_energy_uj : list Z;
  platform_energy_uj : option Z;
  in_interval_ns : Z
}.

Record AttributionEngine (F : Type) := {
  model : AttributionModel F;
  num_cores : Z;
  cores_per_socket : Z
}.
Arguments model {F} _.
Arguments num_cores {F} _.
Arguments cores_per_socket {F} _.

(** Microjoules over an interval, in microwatts; the product is a [u128]. *)
Definition energy_to_power (energy_uj interval_ns : Z) : Z :=
  if interval_ns =? 0 then 0
  else u64_wrap (u128_wrap (energy_uj * 1000000000) / interval_ns).

(** [first..last] on [u32]. *)
Definition u32_range (first last : Z) : list Z := seqZ first (last - first).

Definition is_empty {A} (l : list A) : bool := match l with [] => true | _ => false end.

Section engine.
Context `{HI : HashIter} `{FO : FloatOps F}.

Definition AttributionEngine_new (num_cores num_sockets : Z) : AttributionEngine F := {|
  model := select_model false false;
  num_cores := num_cores;
  cores_per_socket := if 0 <? num_sockets then num_cores / num_sockets else num_cores
|}.

(** The weighted average frequency used for a core's weight. *)
Definition split_avg_freq (obs : ObservationSnapshot) (cpu : Z) : F :=
  let freq :=
    foldl (λ (acc : F * F) ft, (fadd acc.1 (fmul ft.1 ft.2), fadd acc.2 ft.2)) (fzero, fzero)
      ((λ fkt : CpuFreqKey * Z, (f_of_Z (freq_khz fkt.1), f_of_Z fkt.2))
         <$> filter (λ fkt : CpuFreqKey * Z, freq_cpu fkt.1 = cpu) (cpu_freq_times obs)) in
  if fltb fzero freq.2 then fdiv freq.1 freq.2 else f_of_Z 1000000.

Definition core_weights (obs : ObservationSnapshot) : gmap Z F :=
  hm_group (λ kt : PidCpuKey * Z, key_cpu kt.1) (λ _, fzero)
    (λ kt w, fadd w (fmul (f_of_Z kt.2) (fsq (fdiv (split_avg_freq obs (key_cpu kt.1)) (f_of_Z 1000000)))))
    (pid_cpu_times obs).

Definition insert_all (m : gmap Z Z) (kvs : list (Z * Z)) : gmap Z Z :=
  foldl (λ m kv, <[kv.1 := kv.2]> m) m kvs.

(** What one socket's energy gives each of its cores. *)
Definition socket_shares (e : AttributionEngine F) (core_weight : gmap Z F) (socket_idx socket_energy : Z)
    : option (list (Z * Z)) :=
  let first_core := u32_mul (u32_wrap socket_idx) (cores_per_socket e) in
  let last_core := u32_add first_core (cores_per_socket e) in
  let cores := u32_range first_core last_core in
  let socket_total_weight := fsum (omap (λ c, core_weight !! c) cores) in
  if fleb socket_total_weight fzero then
    if cores_per_socket e =? 0 then None
    else Some ((λ core, (core, socket_energy / cores_per_socket e)) <$> cores)
  else
    Some ((λ core,
      let w := default fzero (core_weight !! core) in
      (core, scale_u64 socket_energy (fdiv w socket_total_weight))) <$> cores).

Fixpoint split_sockets (e : AttributionEngine F) (core_weight : gmap Z F) (socket_idx : Z)
    (sockets : list Z) (core_energies : gmap Z Z) : option (gmap Z Z) :=
  match sockets with
  | [] => Some core_energies
  | socket_energy :: sockets =>
      match socket_shares e core_weight socket_idx socket_energy with
      | None => None
      | Some shares => split_sockets e core_weight (socket_idx + 1) sockets (insert_all core_energies shares)
      end
  end.

Definition split_socket_to_cores (e : AttributionEngine F) (energy : EnergyInput)
    (obs : ObservationSnapshot) : option (gmap Z Z) :=
  split_sockets e (core_weights obs) 0 (socket_energy_uj energy) ∅.

Definition compute_core_avg_freq (obs : ObservationSnapshot) : gmap Z Z :=
  (λ wt : F * F, if fltb fzero wt.2 then f_to_u32 (fdiv wt.1 wt.2) else 1000000) <$>
    hm_group (λ kt : CpuFreqKey * Z, freq_cpu kt.1) (λ _, (fzero, fzero))
      (λ kt wt, (fadd wt.1 (fmul (f_of_Z (freq_khz kt.1)) (f_of_Z kt.2)), fadd wt.2 (f_of_Z kt.2)))
      (cpu_freq_times obs).

Definition build_core_pid_observations (obs : ObservationSnapshot) : gmap Z (gmap Z Z) :=
  hm_group (λ kt : PidCpuKey * Z, key_cpu kt.1) (λ _, ∅)
    (λ kt m, <[key_pid kt.1 := kt.2]> m) (pid_cpu_times obs).

Definition scale_counters (counters : CoreCounters) (ratio : F) : CoreCounters := {|
  cc_instructions := scale_u64 (cc_instructions counters) ratio;
  cc_cycles := scale_u64 (cc_cycles counters) ratio;
  cc_cache_misses := scale_u64 (cc_cache_misses counters) ratio;
  cc_cache_refs := scale_u64 (cc_cache_refs counters) ratio
|}.

Definition build_core_counter_map (obs : ObservationSnapshot) : gmap Z (gmap Z CoreCounters) :=
  if is_empty (core_counters obs) then ∅ else
  let core_pid_times := build_core_pid_observations obs in
  foldl (λ result (cc : Z * CoreCounters),
    match core_pid_times !! cc.1 with
    | None => result
    | Some pid_times =>
        let total_time := sum_u64 (hm_values pid_times) in
        if total_time =? 0 then result else
        hm_upd cc.1 ∅
          (λ per_pid, foldl (λ m pt, <[pt.1 := scale_counters cc.2 (fdiv (f_of_Z pt.2) (f_of_Z total_time))]> m)
             per_pid (hm_iter pid_times)) result
    end) ∅ (core_counters obs).

Definition aggregate_pid_counter (obs : ObservationSnapshot) (field : CoreCounters → Z) : gmap Z Z :=
  let core_pid_times := build_core_pid_observations obs in
  foldl (λ result (cc : Z * CoreCounters),
    match core_pid_times !! cc.1 with
    | None => result
    | Some pid_times =>
        let total_time := sum_u64 (hm_values pid_times) in
        if total_time =? 0 then result else
        let counter_total := field cc.2 in
        foldl (λ m pt, hm_upd pt.1 0
                 (λ v, u64_add v (scale_u64 counter_total (fdiv (f_of_Z pt.2) (f_of_Z total_time)))) m)
          result (hm_iter pid_times)
    end) ∅ (core_counters obs).

(** [map.iter().map(|(pid, x)| (pid, (energy * x / total) as u64)).collect()]. *)
Definition share_out (energy total : Z) (m : gmap Z Z) : gmap Z Z :=
  (λ x, scale_u64 energy (fdiv (f_of_Z x) (f_of_Z total))) <$> m.

Definition attribute_memory (energy : EnergyInput) (obs : ObservationSnapshot)
    (process_cpu_energy : gmap Z Z) : gmap Z Z :=
  let total_dram_energy := sum_u64 (dram_energy_uj energy) in
  if total_dram_energy =? 0 then ∅ else
  let fallback :=
    let total_cpu := sum_u64 (hm_values process_cpu_energy) in
    if total_cpu =? 0 then ∅ else share_out total_dram_energy total_cpu process_cpu_energy in
  if is_empty (core_counters obs) then fallback else
  let pid_cache_misses := aggregate_pid_counter obs cc_cache_misses in
  let total_misses := sum_u64 (hm_values pid_cache_misses) in
  if 0 <? total_misses then share_out total_dram_energy total_misses pid_cache_misses else fallback.

(** ** Step 5: a core's energy to its tasks *)

Definition core_observations (core : Z) (core_pid_obs : gmap Z (gmap Z Z))
    (core_counter_deltas : gmap Z (gmap Z CoreCounters)) : list PidCoreObservation :=
  match core_pid_obs !! core with
  | None => []
  | Some pid_times =>
      (λ pt : Z * Z,
        let counters := default {| cc_instructions := 0; cc_cycles := 0; cc_cache_misses := 0; cc_cache_refs := 0 |}
          (core_counter_deltas !! core ≫= λ m, m !! pt.1) in
        {| obs_pid := pt.1; obs_time_ns := pt.2; obs_instructions := cc_instructions counters;
           obs_cycles := cc_cycles counters; obs_cache_misses := cc_cache_misses counters |})
      <$> hm_iter pid_times
  end.

(** The shares of one core: pid and the detail record, whose [ca_energy_uj] is
    the share; empty on the three [continue]s. *)
Definition core_charges (m : AttributionModel F) (core core_energy_uj avg_freq : Z)
    (observations : list PidCoreObservation) : list (Z * CoreAttribution) :=
  if core_energy_uj =? 0 then [] else
  if is_empty observations then [] else
  let weights := compute_weights m observations avg_freq in
  let total_weight := fsum (raw_weight <$> weights) in
  if fleb total_weight fzero then [] else
  (λ wo : PidCoreWeight F * PidCoreObservation,
    let pid_energy := scale_u64 core_energy_uj (fdiv (raw_weight wo.1) total_weight) in
    (w_pid wo.1,
     {| ca_core := core; ca_time_ns := obs_time_ns wo.2; ca_avg_freq_khz := avg_freq;
        ca_energy_uj := pid_energy; ca_instructions := obs_instructions wo.2;
        ca_cycles := obs_cycles wo.2; ca_cache_misses := obs_cache_misses wo.2 |}))
  <$> zip weights observations.

(** [process_cpu_energy] and [process_core_detail]. *)
Record ProcessAcc := { process_cpu_energy : gmap Z Z; process_core_detail : gmap Z (list CoreAttribution) }.

Definition charge (acc : ProcessAcc) (pc : Z * CoreAttribution) : ProcessAcc := {|
  process_cpu_energy := hm_upd pc.1 0 (λ e, u64_add e (ca_energy_uj pc.2)) (process_cpu_energy acc);
  process_core_detail := hm_upd pc.1 [] (λ l, l ++ [pc.2]) (process_core_detail acc)
|}.

Definition core_step (m : AttributionModel F) (core_energies core_avg_freq : gmap Z Z)
    (core_pid_obs : gmap Z (gmap Z Z)) (core_counter_deltas : gmap Z (gmap Z CoreCounters))
    (acc : ProcessAcc) (core : Z) : ProcessAcc :=
  foldl charge acc
    (core_charges m core (default 0 (core_energies !! core)) (default 1000000 (core_avg_freq !! core))
       (core_observations core core_pid_obs core_counter_deltas)).

(** The interval's state after Step 6. *)
Record Attributed := { core_energies : gmap Z Z; acc : ProcessAcc; process_mem_energy : gmap Z Z }.

Definition attribute_energy (e : AttributionEngine F) (obs : ObservationSnapshot) (energy : EnergyInput)
    : option Attributed :=
  match split_socket_to_cores e energy obs with
  | None => None
  | Some core_energies =>
      let acc := foldl (core_step (model e) core_energies (compute_core_avg_freq obs)
                          (build_core_pid_observations obs) (build_core_counter_map obs))
                   {| process_cpu_energy := ∅; process_core_detail := ∅ |} (u32_range 0 (num_cores e)) in
      Some {| core_energies := core_energies; acc := acc;
              process_mem_energy := attribute_memory energy obs (process_cpu_energy acc) |}
  end.

(** ** Steps 7 to 9 *)

Definition build_process (obs : ObservationSnapshot) (energy : EnergyInput) (m : AttributionMethod)
    (a : Attributed) (pid : Z) : ProcessPower :=
  let cpu_energy := default 0 (process_cpu_energy (acc a) !! pid) in
  let mem_energy := default 0 (process_mem_energy a !! pid) in
  {| pp_pid := pid; pp_comm := EmptyString; pp_cgroup_id := default 0 (pid_cgroups obs !! pid);
     pp_power := {| cpu_uw := energy_to_power cpu_energy (in_interval_ns energy);
                    memory_uw := energy_to_power mem_energy (in_interval_ns energy);
                    gpu_uw := 0; nic_uw := 0; storage_uw := 0 |};
     pp_core_detail := default [] (process_core_detail (acc a) !! pid);
     pp_method := m |}.

Definition total_attributed (a : Attributed) : Z := sum_u64 (hm_values (process_cpu_energy (acc a))).
Definition total_core_energy (a : Attributed) : Z := sum_u64 (hm_values (core_energies a)).
Definition idle_energy (a : Attributed) : Z := sat_sub (total_core_energy a) (total_attributed a).
Definition component_sum (energy : EnergyInput) (a : Attributed) : Z :=
  u64_add (u64_add (total_core_energy a) (sum_u64 (dram_energy_uj energy))) (sum_u64 (gpu_energy_uj energy)).
Definition attributed_sum (a : Attributed) : Z := u64_add (total_attributed a) (idle_energy a).

Definition reconcile_platform (energy : EnergyInput) (component_sum : Z) : Z * F :=
  match platform_energy_uj energy with
  | None => (0, fzero)
  | Some platform =>
      let unaccounted := i64_wrap (i64_wrap platform - i64_wrap component_sum) in
      (unaccounted,
       if 0 <? platform then fdiv (f_of_Z (unsigned_abs unaccounted)) (f_of_Z platform) else fzero)
  end.

Definition build_snapshot (now : Z) (obs : ObservationSnapshot) (energy : EnergyInput)
    (m : AttributionMethod) (a : Attributed) : AttributionSnapshot F :=
  let power x := energy_to_power x (in_interval_ns energy) in
  let '(unaccounted, err) := reconcile_platform energy (component_sum energy a) in
  {| timestamp := now;
     interval_ns := in_interval_ns energy;
     node := {| measured := {| cpu_uw := power (total_core_energy a);
                               memory_uw := power (sum_u64 (dram_energy_uj energy));
                               gpu_uw := power (sum_u64 (gpu_energy_uj energy));
                               nic_uw := 0; storage_uw := 0 |};
                node_platform_uw := power <$> platform_energy_uj energy;
                attributed_total_uw := power (attributed_sum a) |};
     processes := build_process obs energy m a <$> hm_keys (process_cpu_energy (acc a));
     pods := []; namespaces := [];
     idle_power := {| cpu_uw := power (idle_energy a); memory_uw := 0; gpu_uw := 0; nic_uw := 0; storage_uw := 0 |};
     reconciliation := {| rec_platform_uw := power <$> platform_energy_uj energy;
                          component_sum_uw := power (component_sum energy a);
                          attributed_sum_uw := power (attributed_sum a);
                          unaccounted_uw := unaccounted;
                          error_ratio := err |} |}.

Definition attribute (e : AttributionEngine F) (now : Z) (obs : ObservationSnapshot) (energy : EnergyInput)
    : option (AttributionSnapshot F * AttributionEngine F) :=
  let has_freq := negb (is_empty (cpu_freq_times obs)) in
  let has_counters := negb (is_empty (core_counters obs)) in
  let e := {| model := select_model has_freq has_counters; num_cores := num_cores e;
              cores_per_socket := cores_per_socket e |} in
  match attribute_energy e obs energy with
  | None => None
  | Some a => Some (build_snapshot now obs energy (method (model e)) a, e)
  end.
End engine.

(** ** Well-formed inputs: what the kernel and the sensors deliver *)

Definition observed_ok (obs : ObservationSnapshot) : Prop :=
  Forall (λ kt : PidCpuKey * Z, 0 <= kt.2) (pid_cpu_times obs) ∧
  Forall (λ kt : CpuFreqKey * Z, 0 <= freq_khz kt.1 ∧ 0 <= kt.2) (cpu_freq_times obs).

(** ** Charges *)

Section charges.
Context `{HI : HashIter} `{FO : FloatOps F}.

Definition charge_energy (pc : Z * CoreAttribution) : Z := ca_energy_uj pc.2.

Lemma foldl_charge acc l :
  foldl charge acc l =
    {| process_cpu_energy := hm_group_from fst (λ _, 0) (λ pc e, u64_add e (charge_energy pc)) (process_cpu_energy acc) l;
       process_core_detail := hm_group_from fst (λ _, []) (λ pc d, d ++ [pc.2]) (process_core_detail acc) l |}.
Proof.
  revert acc. induction l as [|pc l IH]; intros acc; [by destruct acc|]. cbn [foldl]. by rewrite IH.
Qed.

(** All the charges of an interval, core by core. *)
Definition all_charges (m : AttributionModel F) (ce af : gmap Z Z) (po : gmap Z (gmap Z Z))
    (cd : gmap Z (gmap Z CoreCounters)) (cores : list Z) : list (Z * CoreAttribution) :=
  concat ((λ core, core_charges m core (default 0 (ce !! core)) (default 1000000 (af !! core))
                     (core_observations core po cd)) <$> cores).

Lemma foldl_core_step m ce af po cd acc cores :
  foldl (core_step m ce af po cd) acc cores = foldl charge acc (all_charges m ce af po cd cores).
Proof.
  revert acc. induction cores as [|core cores IH]; intros acc; [done|].
  unfold all_charges in *. cbn [foldl fmap list_fmap concat]. rewrite foldl_app. apply IH.
Qed.

Definition interval_charges (e : AttributionEngine F) (obs : ObservationSnapshot) (ce : gmap Z Z) :=
  all_charges (model e) ce (compute_core_avg_freq obs) (build_core_pid_observations obs)
    (build_core_counter_map obs) (u32_range 0 (num_cores e)).

Lemma attribute_energy_inv e obs energy a : attribute_energy e obs energy = Some a →
  split_socket_to_cores e energy obs = Some (core_energies a) ∧
  acc a = foldl charge {| process_cpu_energy := ∅; process_core_detail := ∅ |}
            (interval_charges e obs (core_energies a)) ∧
  process_mem_energy a = attribute_memory energy obs (process_cpu_energy (acc a)).
Proof.
  unfold attribute_energy. destruct (split_socket_to_cores e energy obs) as [ce|]; [|done].
  intros [= <-]. cbn. by rewrite foldl_core_step.
Qed.

Lemma foldl_sum_u64 {X} (g : X → Z) l v : foldl (λ e x, u64_add e (g x)) v l = foldl u64_add v (g <$> l).
Proof. revert v. induction l as [|x l IH]; intros v; [done|]. apply IH. Qed.
Lemma foldl_snoc_snd {X Y} (l : list (X * Y)) d : foldl (λ d pc, d ++ [pc.2]) d l = d ++ l.*2.
Proof.
  revert d. induction l as [|x l IH]; intros d; cbn; [by rewrite app_nil_r|].
  rewrite IH. by rewrite <-app_assoc.
Qed.

(** What the interval leaves for one process. *)
Lemma charged_process l pid : let acc := foldl charge {| process_cpu_energy := ∅; process_core_detail := ∅ |} l in
  is_Some (process_cpu_energy acc !! pid) →
  process_cpu_energy acc !! pid = Some (sum_u64 (charge_energy <$> group_of fst pid l)) ∧
  process_core_detail acc !! pid = Some ((group_of fst pid l).*2) ∧ group_of fst pid l ≠ [].
Proof.
  cbn zeta. rewrite foldl_charge. cbn [process_cpu_energy process_core_detail].
  change (hm_group_from ?k ?i ?s ∅ l) with (hm_group k i s l). rewrite !hm_group_lookup.
  destruct (group_of fst pid l) as [|x xs]; [by intros []|]. intros _.
  split; [|split; [|done]]; f_equal.
  - exact (foldl_sum_u64 charge_energy (x :: xs) 0).
  - exact (foldl_snoc_snd (x :: xs) []).
Qed.

Lemma group_of_elem {K X} `{EqDecision K} (key : X → K) k l x :
  x ∈ group_of key k l ↔ key x = k ∧ x ∈ l.
Proof. unfold group_of. by rewrite list_elem_of_filter. Qed.

Lemma elem_all_charges m ce af po cd cores pc : pc ∈ all_charges m ce af po cd cores →
  ∃ core, core ∈ cores ∧
    pc ∈ core_charges m core (default 0 (ce !! core)) (default 1000000 (af !! core)) (core_observations core po cd).
Proof.
  unfold all_charges. rewrite list_elem_of_In, in_concat. intros (l & Hl & Hpc).
  apply list_elem_of_In, list_elem_of_fmap in Hl as (core & -> & Hc). exists core.
  split; [done|]. by apply list_elem_of_In.
Qed.
End charges.

(** ** Observations are well formed *)

Section observations.
Context `{HI : HashIter} `{FL : FloatLaws F}.

Lemma build_core_pid_observations_nonneg obs core m pid t : observed_ok obs →
  build_core_pid_observations obs !! core = Some m → m !! pid = Some t → 0 <= t.
Proof.
  intros [Hobs _]. revert core m pid t. unfold build_core_pid_observations, hm_group, hm_group_from.
  apply (foldl_inv (λ r : gmap Z (gmap Z Z), ∀ core m pid t, r !! core = Some m → m !! pid = Some t → 0 <= t)).
  { intros ? ? ? ?. by rewrite lookup_empty. }
  intros r [k t] Hin IH core m pid t' Hm Ht'. unfold hm_upd in Hm.
  apply lookup_insert_Some in Hm as [[<- <-]|[_ Hm]]; [|by eauto].
  apply lookup_insert_Some in Ht' as [[_ <-]|[_ Ht']].
  - rewrite Forall_forall in Hobs. by apply (Hobs _ Hin).
  - cbn in Ht'. destruct (r !! key_cpu k) as [m|] eqn:E; cbn in Ht'; [by eauto|]. by rewrite lookup_empty in Ht'.
Qed.

Definition counters_ok (c : CoreCounters) : Prop :=
  0 <= cc_instructions c ∧ 0 <= cc_cycles c ∧ 0 <= cc_cache_misses c.
Lemma scale_counters_ok c (r : F) : counters_ok (scale_counters c r).
Proof. unfold scale_counters, scale_u64. repeat split; cbn; apply f_to_u64_range. Qed.

Lemma build_core_counter_map_ok obs core m pid c :
  build_core_counter_map (F:=F) obs !! core = Some m → m !! pid = Some c → counters_ok c.
Proof.
  unfold build_core_counter_map. destruct (is_empty _); [by rewrite lookup_empty|].
  revert core m pid c. 
  apply (foldl_inv (λ r : gmap Z (gmap Z CoreCounters), ∀ core m pid c, r !! core = Some m → m !! pid = Some c → counters_ok c)).
  { intros ? ? ? ?. by rewrite lookup_empty. }
  intros r [k cs] _ IH. cbn. destruct (build_core_pid_observations obs !! k) as [pt|]; [|done].
  destruct (_ =? 0); [done|]. intros core m pid c Hm. unfold hm_upd in Hm.
  apply lookup_insert_Some in Hm as [[<- <-]|[_ Hm]]; [|by eauto].
  revert pid c. apply (foldl_inv (λ m : gmap Z CoreCounters, ∀ pid c, m !! pid = Some c → counters_ok c)).
  - intros pid c. destruct (r !! k) as [m|] eqn:E; cbn; [by eauto|]. by rewrite lookup_empty.
  - intros m [p t] _ IH' pid c [[_ <-]|[_ Hc]]%lookup_insert_Some; [apply scale_counters_ok|by eauto].
Qed.

Lemma core_observations_ok obs core : observed_ok obs →
  Forall obs_ok (core_observations core (build_core_pid_observations obs) (build_core_counter_map (F:=F) obs)).
Proof.
  intros Hobs. unfold core_observations.
  destruct (build_core_pid_observations obs !! core) as [pt|] eqn:E; [|constructor].
  apply Forall_fmap, Forall_forall. intros [pid t] Hin. apply hm_iter_elem in Hin. cbn.
  pose proof (build_core_pid_observations_nonneg obs core pt pid t Hobs E Hin).
  destruct (build_core_counter_map obs !! core) as [m|] eqn:Em; [|done]. cbn.
  destruct (m !! pid) as [c|] eqn:Ec; [|done].
  pose proof (build_core_counter_map_ok _ _ _ _ _ Em Ec) as (? & ? & ?). done.
Qed.

Lemma compute_core_avg_freq_nonneg obs core : 0 <= default 1000000 (compute_core_avg_freq (F:=F) obs !! core).
Proof.
  unfold compute_core_avg_freq. rewrite lookup_fmap. destruct (_ !! core) as [[w t]|]; cbn; [|lia].
  destruct (fltb _ _); [|lia]. apply f_to_Z_sat_range. done.
Qed.
End observations.

(** ** No share exceeds what it is a share of (any lawful arithmetic) *)

Section shares.
Context `{HI : HashIter} `{FL : FloatLaws F}.

Lemma core_charges_elem (m : AttributionModel F) `{!LawfulModel m} core E f obs pc :
  pc ∈ core_charges m core E f obs →
  ∃ w o, w ∈ compute_weights m obs f ∧ o ∈ obs ∧ obs ≠ [] ∧ E ≠ 0 ∧
    fleb (fsum (raw_weight <$> compute_weights m obs f)) fzero = false ∧
    pc.1 = w_pid w ∧ ca_core pc.2 = core ∧
    ca_energy_uj pc.2 = scale_u64 E (fdiv (raw_weight w) (fsum (raw_weight <$> compute_weights m obs f))).
Proof.
  unfold core_charges. destruct (Z.eqb_spec E 0); [by intros ?%not_elem_of_nil|].
  destruct obs as [|o0 obs']; cbn [is_empty]; [by intros ?%not_elem_of_nil|]. set (obs := o0 :: obs').
  destruct (fleb _ fzero) eqn:Hle; [by intros ?%not_elem_of_nil|].
  intros ([w o] & -> & Hin)%list_elem_of_fmap. exists w, o. cbn.
  apply elem_of_zip_l in Hin as Hw. apply elem_of_zip_r in Hin. done.
Qed.

(** A task's share of a core is at most the core's energy. *)
Lemma core_charges_le (m : AttributionModel F) `{!LawfulModel m} core E f obs pc :
  0 <= E <= 2 ^ 53 → 0 <= f → Forall obs_ok obs →
  pc ∈ core_charges m core E f obs → ca_core pc.2 = core ∧ 0 <= ca_energy_uj pc.2 <= E.
Proof.
  intros HE Hf Hobs (w & o & Hw & _ & _ & _ & _ & _ & Hc & ->)%core_charges_elem; [|done].
  split; [done|]. pose proof (weights_nn obs f Hobs Hf) as Hnn.
  assert (Forall fnn (raw_weight <$> compute_weights m obs f)) as Hnn' by (by apply Forall_fmap).
  split; [apply f_to_u64_range|]. apply fshare_le; [done| |by apply fnn_sum|].
  - rewrite Forall_forall in Hnn. by apply Hnn.
  - apply fsum_dom; [done|]. apply list_elem_of_fmap. eauto.
Qed.

(** *** Core weights *)

Lemma split_avg_freq_nn obs cpu : observed_ok obs → fnn (split_avg_freq (F:=F) obs cpu).
Proof.
  intros [_ Hobs]. unfold split_avg_freq. set (l := filter _ _).
  assert (Forall (λ kt : CpuFreqKey * Z, 0 <= freq_khz kt.1 ∧ 0 <= kt.2) l) as Hl.
  { apply Forall_forall. intros x [_ Hx]%list_elem_of_filter. by eapply Forall_forall in Hobs. }
  clearbody l. cbn zeta.
  assert (∀ acc : F * F, fnn acc.1 → fnn acc.2 →
    let r := foldl (λ (acc : F * F) ft, (fadd acc.1 (fmul ft.1 ft.2), fadd acc.2 ft.2)) acc
      ((λ fkt : CpuFreqKey * Z, (f_of_Z (freq_khz fkt.1), f_of_Z fkt.2)) <$> l) in
    fnn r.1 ∧ fnn r.2) as Hfold.
  { induction Hl as [|x l Hx Hl IH]; intros a H1 H2; [done|]. cbn. destruct Hx.
    apply IH; cbn; auto with keck. }
  assert (fnn (fzero (F:=F))) as H0 by (by apply fnn_of_Z).
  destruct (Hfold (fzero, fzero) H0 H0). case_match; auto with keck.
Qed.

Lemma core_weights_nn obs cpu w : observed_ok obs → core_weights (F:=F) obs !! cpu = Some w → fnn w.
Proof.
  intros Hobs. unfold core_weights, hm_group, hm_group_from. revert cpu w.
  apply (foldl_inv (λ r : gmap Z F, ∀ cpu w, r !! cpu = Some w → fnn w)).
  { intros ? ?. by rewrite lookup_empty. }
  intros r [k t] Hin IH cpu w Hw. unfold hm_upd in Hw.
  apply lookup_insert_Some in Hw as [[<- <-]|[_ Hw]]; [|by eauto]. cbn.
  pose proof Hobs as [Ht _]. rewrite Forall_forall in Ht. specialize (Ht _ Hin). cbn in Ht.
  pose proof (split_avg_freq_nn obs (key_cpu k) Hobs).
  assert (fnn (default fzero (r !! key_cpu k))) by (destruct (r !! key_cpu k) eqn:E; cbn; [by eauto|by apply fnn_of_Z]).
  auto 7 with keck.
Qed.

(** *** Sockets *)

Lemma socket_shares_le (e : AttributionEngine F) obs i E shares core x :
  observed_ok obs → 0 <= E <= 2 ^ 53 → 0 <= cores_per_socket e →
  socket_shares e (core_weights obs) i E = Some shares → (core, x) ∈ shares → 0 <= x <= E.
Proof.
  intros Hobs HE Hcps. unfold socket_shares. set (cores := u32_range _ _). set (t := fsum _).
  assert (Forall fnn (omap (λ c, core_weights (F:=F) obs !! c) cores)) as Hnn.
  { apply Forall_forall. intros w (c & _ & Hw)%list_elem_of_omap. by eapply core_weights_nn. }
  destruct (fleb t fzero) eqn:Hle.
  - destruct (Z.eqb_spec (cores_per_socket e) 0); [done|].
    intros [= <-] (c & [= -> ->] & _)%list_elem_of_fmap. split; [apply Z.div_pos; lia|].
    apply Z.div_le_upper_bound; nia.
  - intros [= <-] (c & [= -> ->] & Hc)%list_elem_of_fmap. split; [apply f_to_u64_range|].
    assert (fnn t) by (by apply fnn_sum). destruct (core_weights obs !! c) as [w|] eqn:Ew; cbn.
    + apply fshare_le; [done|by eapply core_weights_nn|done|]. apply fsum_dom; [done|].
      apply list_elem_of_omap. eauto.
    + apply fshare_le; [done|by apply fnn_of_Z|done|by apply fnn_ge0].
Qed.

Lemma insert_all_lookup m kvs k v : insert_all m kvs !! k = Some v → m !! k = Some v ∨ (k, v) ∈ kvs.
Proof.
  revert m. induction kvs as [|[k' v'] kvs IH]; intros m; cbn; [by left|].
  intros [[[<- <-]|[_ Hm]]%lookup_insert_Some|Hin]%IH; [right; left|by left|right; by right].
Qed.

Lemma split_sockets_le (e : AttributionEngine F) obs sockets i ce ce' : observed_ok obs →
  Forall (λ E, 0 <= E <= 2 ^ 53) sockets → 0 <= cores_per_socket e →
  split_sockets e (core_weights obs) i sockets ce = Some ce' →
  ∀ core x, ce' !! core = Some x → ce !! core = Some x ∨ ∃ E, E ∈ sockets ∧ 0 <= x <= E.
Proof.
  intros Hobs Hs Hcps. revert i ce. induction Hs as [|E sockets HE Hs IH]; intros i ce; cbn.
  { intros [= <-]. eauto. }
  destruct (socket_shares e _ i E) as [shares|] eqn:Hsh; [|done].
  intros Hsp core x [Hx|(E' & HE' & Hx)]%(IH _ _ Hsp); [|right; exists E'; split; [by right|done]].
  apply insert_all_lookup in Hx as [?|Hin]; [by left|]. right. exists E. split; [left|].
  by eapply socket_shares_le.
Qed.
End shares.

Section attribute_theorems.
Context `{HI : HashIter} `{FL : FloatLaws F}.

Lemma attribute_inv e now obs energy s e' :
  attribute (F:=F) e now obs energy = Some (s, e') →
  ∃ a, attribute_energy e' obs energy = Some a ∧
    s = build_snapshot now obs energy (method (model e')) a ∧
    e' = {| model := select_model (negb (is_empty (cpu_freq_times obs))) (negb (is_empty (core_counters obs)));
            num_cores := num_cores e; cores_per_socket := cores_per_socket e |}.
Proof.
  unfold attribute. destruct (attribute_energy _ obs energy) as [a|] eqn:E; [|done].
  intros [= <- <-]. exists a. done.
Qed.

Lemma build_snapshot_processes now obs energy m a :
  processes (build_snapshot (F:=F) now obs energy m a) =
    build_process obs energy m a <$> hm_keys (process_cpu_energy (acc a)).
Proof. unfold build_snapshot. by destruct (reconcile_platform _ _). Qed.
Lemma build_snapshot_interval now obs energy m a :
  interval_ns (build_snapshot (F:=F) now obs energy m a) = in_interval_ns energy.
Proof. unfold build_snapshot. by destruct (reconcile_platform _ _). Qed.

(** A reported process and the charges behind it. *)
Lemma snapshot_process e now obs energy s e' p :
  attribute (F:=F) e now obs energy = Some (s, e') → p ∈ processes s →
  ∃ ce, split_socket_to_cores e' energy obs = Some ce ∧
    let own := group_of fst (pp_pid p) (interval_charges e' obs ce) in
    own ≠ [] ∧ pp_core_detail p = own.*2 ∧
    cpu_uw (pp_power p) = energy_to_power (sum_u64 (ca_energy_uj <$> pp_core_detail p)) (interval_ns s).
Proof.
  intros (a & Ha & -> & _)%attribute_inv. rewrite build_snapshot_processes, build_snapshot_interval.
  intros (pid & -> & Hpid)%list_elem_of_fmap. apply hm_keys_elem in Hpid.
  apply attribute_energy_inv in Ha as (Hsp & Hacc & _). exists (core_energies a). split; [done|].
  rewrite Hacc in Hpid. destruct (charged_process _ _ Hpid) as (H1 & H2 & H3).
  cbn. rewrite Hacc, H1, H2. cbn. split; [done|]. split; [done|]. by rewrite <-list_fmap_compose.
Qed.

(** C1: no process is charged more energy for its time on a core than the core
    was found to consume, and no core more than one socket's meter measured.
    It holds of the rounded machine arithmetic ([f64] is an instance), for any
    interval whose socket energies are below 2^53 uJ (over 2500 kWh). *)
Theorem attribute_share_bounded e now obs energy s e' :
  observed_ok obs → Forall (λ E, 0 <= E <= 2 ^ 53) (socket_energy_uj energy) → 0 <= cores_per_socket e →
  attribute (F:=F) e now obs energy = Some (s, e') →
  ∃ ce, split_socket_to_cores e' energy obs = Some ce ∧
    (∀ core x, ce !! core = Some x → ∃ E, E ∈ socket_energy_uj energy ∧ 0 <= x <= E) ∧
    ∀ p d, p ∈ processes s → d ∈ pp_core_detail p →
      0 <= ca_core d < num_cores e ∧ 0 <= ca_energy_uj d <= default 0 (ce !! ca_core d).
Proof.
  intros Hobs Hen Hcps Hat. pose proof Hat as (a & Ha & Hs & He')%attribute_inv.
  apply attribute_energy_inv in Ha as (Hsp & _ & _). exists (core_energies a). split; [done|].
  assert (∀ core x, core_energies a !! core = Some x → ∃ E, E ∈ socket_energy_uj energy ∧ 0 <= x <= E) as Hce.
  { intros core x Hx. unfold split_socket_to_cores in Hsp.
    assert (0 <= cores_per_socket e') by (by rewrite He').
    edestruct (split_sockets_le e' obs) as [Hem|?]; [done..| |done]. by rewrite lookup_empty in Hem. }
  split; [done|]. intros p d Hp Hd.
  destruct (snapshot_process _ _ _ _ _ _ _ Hat Hp) as (ce & Hsp' & _ & Hdet & _).
  rewrite Hsp in Hsp'. injection Hsp' as <-. rewrite Hdet in Hd.
  apply list_elem_of_fmap in Hd as ([pid d'] & -> & [_ Hin]%group_of_elem).
  apply elem_all_charges in Hin as (core & Hcore & Hin).
  assert (LawfulModel (model e')) by (rewrite He'; apply _).
  assert (0 <= default 0 (core_energies a !! core) <= 2 ^ 53) as Hb.
  { destruct (core_energies a !! core) as [x|] eqn:E; cbn; [|lia].
    destruct (Hce _ _ E) as (E' & HE' & ?). rewrite Forall_forall in Hen. specialize (Hen _ HE'). lia. }
  eapply core_charges_le in Hin as [<- ?]; [|done|done|apply compute_core_avg_freq_nonneg|by apply core_observations_ok].
  split; [|done]. cbn in Hcore. unfold u32_range in Hcore. apply elem_of_seqZ in Hcore.
  assert (num_cores e' = num_cores e) as <- by (by rewrite He'). cbn. lia.
Qed.

(** A reported process's CPU power is the energy of its per-core details
    over the interval, and a process is reported only if some core charged it;
    no process is reported twice. *)
Theorem process_power_is_detail_sum e now obs energy s e' :
  attribute (F:=F) e now obs energy = Some (s, e') →
  NoDup (pp_pid <$> processes s) ∧
  ∀ p, p ∈ processes s →
    pp_core_detail p ≠ [] ∧
    cpu_uw (pp_power p) = energy_to_power (sum_u64 (ca_energy_uj <$> pp_core_detail p)) (interval_ns s).
Proof.
  intros Hat. split.
  - apply attribute_inv in Hat as (a & _ & -> & _). rewrite build_snapshot_processes, <-list_fmap_compose.
    rewrite (list_fmap_ext _ id); [rewrite list_fmap_id; apply hm_keys_NoDup|done].
  - intros p Hp. destruct (snapshot_process _ _ _ _ _ _ _ Hat Hp) as (ce & _ & Hne & Hdet & Hpow).
    split; [|done]. rewrite Hdet. by intros ?%fmap_nil_inv.
Qed.

Lemma socket_shares_None (e : AttributionEngine F) w i E :
  socket_shares e w i E = None ↔ cores_per_socket e = 0.
Proof.
  unfold socket_shares. destruct (Z.eqb_spec (cores_per_socket e) 0) as [H0|H0].
  - rewrite H0. split; [done|]. intros _.
    assert (u32_range (u32_mul (u32_wrap i) 0) (u32_add (u32_mul (u32_wrap i) 0) 0) = []) as ->.
    { unfold u32_mul. rewrite Z.mul_0_r. reflexivity. }
    cbn [omap list_omap]. change (fsum []) with (fzero (F:=F)). by rewrite fleb_0_0.
  - split; [|done]. by destruct (fleb _ _).
Qed.

(** A call panics exactly when the engine has no core per socket and sockets are
    reported, whatever they report. *)
Lemma attribute_None e now obs energy :
  attribute (F:=F) e now obs energy = None ↔ cores_per_socket e = 0 ∧ socket_energy_uj energy ≠ [].
Proof.
  unfold attribute, attribute_energy, split_socket_to_cores.
  set (e' := Build_AttributionEngine _ _ _ _). change (cores_per_socket e) with (cores_per_socket e').
  clearbody e'. generalize (∅ : gmap Z Z) at 1. generalize 0 at 1.
  induction (socket_energy_uj energy) as [|E sockets IH]; intros i ce; cbn [split_sockets].
  { split; [done|]. by intros []. }
  pose proof (socket_shares_None e' (core_weights obs) i E) as Hn.
  destruct (socket_shares e' _ i E) as [sh|].
  - rewrite IH. split; intros [Hc ?]; [done|]. by pose proof (proj2 Hn Hc).
  - split; [|done]. intros _. split; [by apply Hn|done].
Qed.

Lemma attribute_cores e now obs energy r e' :
  attribute (F:=F) e now obs energy = Some (r, e') → cores_per_socket e' = cores_per_socket e.
Proof. unfold attribute. destruct (attribute_energy _ _ _) as [[? ?]|]; [|done]. by intros [= <- <-]. Qed.

(** The calls of [attribute] on one engine, in order: [None] once one panics. *)
Definition attribute_all (e : AttributionEngine F) (calls : list (Z * ObservationSnapshot * EnergyInput))
    : option (AttributionEngine F) :=
  foldl (λ oe '(now, obs, energy), e ← oe; snd <$> attribute e now obs energy) (Some e) calls.

Lemma attribute_all_None e calls :
  attribute_all e calls = None ↔ cores_per_socket e = 0 ∧ ∃ c, c ∈ calls ∧ socket_energy_uj c.2 ≠ [].
Proof.
  unfold attribute_all. revert e. induction calls as [|[[now obs] energy] calls IH]; intros e; cbn [foldl].
  { split; [done|]. intros (_ & c & Hc & _). by apply not_elem_of_nil in Hc. }
  assert (∀ l, foldl (λ oe '(now, obs, energy), e ← oe; snd <$> attribute (F:=F) e now obs energy) None l = None) as HN.
  { induction l as [|[[? ?] ?] l IHl]; [done|]. apply IHl. }
  change (Some e ≫= ?f) with (f e). cbn beta. destruct (attribute e now obs energy) as [[r e']|] eqn:Ha.
  - cbn [fmap option_fmap option_map snd]. rewrite IH, (attribute_cores _ _ _ _ _ _ Ha). split; intros [Hc (c & Hin & Hs)].
    + split; [done|]. exists c. by split; [right|].
    + split; [done|]. apply elem_of_cons in Hin as [->|Hin]; [|by exists c]. exfalso. cbn in Hs.
      by rewrite (proj2 (attribute_None e now obs energy) (conj Hc Hs)) in Ha.
  - cbn [fmap option_fmap option_map]. rewrite HN. split; [|done]. intros _. apply attribute_None in Ha as [Hc Hs].
    split; [done|]. exists (now, obs, energy). by split; [left|].
Qed.

(** C36: the engine's only panic.  An engine built for [cores] and [sockets] and
    given any sequence of intervals panics exactly when its cores per socket
    are zero, that is when it was built with sockets and fewer cores than
    sockets or with neither, and some interval lists a socket, even one that
    reports zero. *)
Theorem attribute_panics_iff cores sockets calls :
  0 <= cores → 0 <= sockets →
  attribute_all (AttributionEngine_new cores sockets) calls = None ↔
    (0 < sockets ∧ cores < sockets ∨ sockets = 0 ∧ cores = 0) ∧ ∃ c, c ∈ calls ∧ socket_energy_uj c.2 ≠ [].
Proof.
  intros Hc Hs. rewrite attribute_all_None. unfold AttributionEngine_new. cbn [cores_per_socket].
  assert ((if 0 <? sockets then cores / sockets else cores) = 0 ↔
    (0 < sockets ∧ cores < sockets ∨ sockets = 0 ∧ cores = 0)) as ->; [|done].
  destruct (Z.ltb_spec 0 sockets).
  - split; [|intros [[_ ?]|]; [by apply Z.div_small|lia]].
    intros ?%Z.div_small_iff; lia.
  - lia.
Qed.
End attribute_theorems.

(** ** Conservation, in exact arithmetic *)

Section conservation.
Context `{HI : HashIter}.

Lemma weights_zip `{FL : FloatLaws F} (m : AttributionModel F) `{!LawfulModel m} obs f :
  (zip (compute_weights m obs f) obs).*1 = compute_weights m obs f.
Proof.
  apply fst_zip. pose proof (weights_pids obs f) as Hp. apply (f_equal length) in Hp.
  rewrite !length_fmap in Hp. by rewrite Hp.
Qed.

(** One core: the shares of its tasks add up to the core's energy, less at most
    the fraction of a microjoule each share is rounded down by. *)
Lemma core_charges_conserve (m : AttributionModel Q) `{!LawfulModel m} core E f obs :
  0 <= E <= u64_max → 0 <= f → Forall obs_ok obs →
  let cs := core_charges m core E f obs in
  Forall (λ c, 0 <= charge_energy c) cs ∧ 0 <= sum_Z (charge_energy <$> cs) <= E ∧
  (cs ≠ [] → E < sum_Z (charge_energy <$> cs) + Z.of_nat (length cs)).
Proof.
  intros HE Hf Hobs. cbn zeta.
  assert (Forall (λ c, 0 <= charge_energy c) (core_charges m core E f obs)) as Hnn.
  { apply Forall_forall. intros c (w & o & _ & _ & _ & _ & _ & _ & _ & Hc)%core_charges_elem; [|done].
    unfold charge_energy. rewrite Hc. apply f_to_u64_range. }
  split; [done|]. assert (0 <= sum_Z (charge_energy <$> core_charges m core E f obs)) as H0
    by (by apply sum_Z_nonneg, Forall_fmap).
  revert H0 Hnn. unfold core_charges. destruct (Z.eqb_spec E 0); [cbn; intros; split; [lia|done]|].
  destruct (is_empty obs); [cbn; intros; split; [lia|done]|].
  set (ws := compute_weights m obs f). set (t := fsum _).
  destruct (fleb t fzero) eqn:Hle; [cbn; intros; split; [lia|done]|]. intros H0 _.
  assert (Forall (λ w, 0 <= w)%Q (raw_weight <$> ws)) as Hw by (apply Forall_fmap; exact (weights_nn obs f Hobs Hf)).
  assert (0 < Qsum (raw_weight <$> ws))%Q as Hpos.
  { rewrite <-fsum_Qsum. fold t. apply Qle_bool_false in Hle. exact Hle. }
  pose proof (Q_split_exact E _ HE Hw Hpos t (fsum_Qsum _)) as Hsplit. cbn zeta in Hsplit.
  rewrite <-list_fmap_compose in Hsplit.
  match goal with |- context [sum_Z (charge_energy <$> ?l)] =>
    assert (charge_energy <$> l = ((λ w, scale_u64 E (w / t)%Q) ∘ raw_weight) <$> ws) as Heq;
    [|rewrite Heq in *] end.
  { transitivity (((λ w, scale_u64 E (w / t)%Q) ∘ raw_weight) <$> (zip ws obs).*1);
      [by rewrite <-!list_fmap_compose|unfold ws; by rewrite weights_zip]. }
  split; [lia|]. intros _. rewrite !length_fmap in *. rewrite <-(length_fmap fst (zip ws obs)).
  unfold ws. rewrite (weights_zip m). fold ws. lia.
Qed.

Lemma sum_charges_le (m : AttributionModel Q) `{!LawfulModel m} ce af po cd cores :
  (∀ core, 0 <= default 0 (ce !! core) <= u64_max) → (∀ core, 0 <= default 1000000 (af !! core)) →
  (∀ core, Forall obs_ok (core_observations core po cd)) →
  Forall (λ c, 0 <= charge_energy c) (all_charges m ce af po cd cores) ∧
  sum_Z (charge_energy <$> all_charges m ce af po cd cores)
    <= sum_Z ((λ core, default 0 (ce !! core)) <$> cores).
Proof.
  intros Hce Haf Hobs. induction cores as [|core cores [IH1 IH2]]; [done|].
  unfold all_charges in *. rewrite !fmap_cons, sum_Z_cons. cbn [concat].
  rewrite fmap_app, sum_Z_app, Forall_app.
  edestruct (core_charges_conserve m core) as (H1 & H2 & _); [apply Hce|apply Haf|apply Hobs|].
  split; [done|]. lia.
Qed.

Lemma insert_all_sum m kvs : (∀ k v, m !! k = Some v → 0 <= v) → Forall (λ kv : Z * Z, 0 <= kv.2) kvs →
  (∀ k v, insert_all m kvs !! k = Some v → 0 <= v) ∧
  map_sum (λ _ v, v) (insert_all m kvs) <= map_sum (λ _ v, v) m + sum_Z (kvs.*2).
Proof.
  intros Hm Hk. revert m Hm. induction Hk as [|[k v] kvs Hv Hk IH]; intros m Hm; [cbn; split; [done|lia]|].
  assert (∀ k' v', <[k:=v]> m !! k' = Some v' → 0 <= v') as Hm'.
  { intros k' v' [[_ <-]|[_ ?]]%lookup_insert_Some; [done|eauto]. }
  destruct (IH _ Hm') as [H1 H2]. split; [done|]. rewrite fmap_cons, sum_Z_cons.
  cbn [insert_all foldl] in *. unfold insert_all in H2. rewrite map_sum_insert in H2. cbn [fst snd] in *.
  assert (0 <= from_option (λ v, v) 0 (m !! k)) by (destruct (m !! k) eqn:E; cbn; [eauto|lia]).
  lia.
Qed.

Lemma sum_omap_default (cw : gmap Z Q) cores :
  (Qsum (omap (λ c, cw !! c) cores) == Qsum ((λ c, default 0%Q (cw !! c)) <$> cores))%Q.
Proof.
  induction cores as [|c cores IH]; [reflexivity|]. rewrite fmap_cons, Qsum_cons.
  cbn [omap list_omap]. destruct (cw !! c) as [w|]; cbn [default from_option id].
  - rewrite Qsum_cons. by rewrite IH.
  - rewrite Qplus_0_l. exact IH.
Qed.

(** One socket: its cores get its energy and no more. *)
Lemma socket_shares_sum (e : AttributionEngine Q) obs i E shares :
  observed_ok obs → 0 <= E <= u64_max → is_u32 (cores_per_socket e) →
  socket_shares e (core_weights obs) i E = Some shares →
  Forall (λ kv : Z * Z, 0 <= kv.2) shares ∧ sum_Z (shares.*2) <= E.
Proof.
  intros Hobs HE Hcps. unfold socket_shares. set (cores := u32_range _ _). set (t := fsum _).
  assert (Forall fnn (omap (λ c, core_weights (F:=Q) obs !! c) cores)) as Hnn.
  { apply Forall_forall. intros w (c & _ & Hw)%list_elem_of_omap. by eapply core_weights_nn. }
  destruct (fleb t fzero) eqn:Hle.
  - destruct (Z.eqb_spec (cores_per_socket e) 0); [done|]. intros [= <-].
    assert (0 <= E / cores_per_socket e) by (apply Z.div_pos; unfold is_u32 in *; lia).
    split; [apply Forall_fmap, Forall_forall; done|]. rewrite <-list_fmap_compose.
    assert (∀ l, sum_Z ((snd ∘ λ core : Z, (core, E / cores_per_socket e)) <$> l)
                 = E / cores_per_socket e * Z.of_nat (length l)) as ->.
    { induction l as [|c l IH]; [cbn; lia|]. rewrite fmap_cons, sum_Z_cons, IH. cbn. lia. }
    assert (Z.of_nat (length cores) <= cores_per_socket e).
    { unfold cores, u32_range. rewrite length_seqZ. unfold u32_add, u32_wrap.
      pose proof (Z.mod_le (u32_mul (u32_wrap i) (cores_per_socket e) + cores_per_socket e) u32_mod).
      pose proof (u32_wrap_range (u32_wrap i * cores_per_socket e)). unfold u32_mul, is_u32, u32_wrap in *.
      assert (0 < u32_mod) by done. lia. }
    pose proof (Z.mul_div_le E (cores_per_socket e)). unfold is_u32 in *. nia.
  - intros [= <-]. split.
    + apply Forall_fmap, Forall_forall. intros c _. exact (scale_u64_nonneg E _).
    + set (ws := (λ c, default 0%Q (core_weights (F:=Q) obs !! c)) <$> cores).
      assert (t == Qsum ws)%Q as Ht by (unfold t, ws; rewrite fsum_Qsum; apply sum_omap_default).
      assert (Forall (λ w, 0 <= w)%Q ws) as Hws.
      { apply Forall_fmap, Forall_forall. intros c _. cbn. destruct (core_weights obs !! c) as [q|] eqn:Ew; cbn; [|lra].
        exact (core_weights_nn (F:=Q) obs c q Hobs Ew). }
      apply Qle_bool_false in Hle. change (fzero (F:=Q)) with 0%Q in Hle. rewrite Ht in Hle.
      pose proof (Q_split_exact E ws HE Hws Hle t Ht) as Hs. cbn zeta in Hs. destruct Hs as [Hs _].
      unfold ws in Hs. rewrite <-list_fmap_compose in Hs. rewrite <-list_fmap_compose. exact Hs.
Qed.

Lemma split_sockets_sum (e : AttributionEngine Q) obs sockets i ce ce' : observed_ok obs →
  Forall (λ E, 0 <= E <= u64_max) sockets → is_u32 (cores_per_socket e) →
  (∀ k v, ce !! k = Some v → 0 <= v) →
  split_sockets e (core_weights obs) i sockets ce = Some ce' →
  (∀ k v, ce' !! k = Some v → 0 <= v) ∧
  map_sum (λ _ v, v) ce' <= map_sum (λ _ v, v) ce + sum_Z sockets.
Proof.
  intros Hobs Hs Hcps. revert i ce. induction Hs as [|E sockets HE Hs IH]; intros i ce Hce; cbn [split_sockets].
  { intros [= <-]. cbn. split; [done|lia]. }
  destruct (socket_shares e _ i E) as [shares|] eqn:Hsh; [|done]. intros Hsp.
  apply socket_shares_sum in Hsh as [H1 H2]; [|done..].
  destruct (insert_all_sum ce shares Hce H1) as [H3 H4].
  destruct (IH _ _ H3 Hsp) as [H5 H6]. split; [done|]. rewrite sum_Z_cons. lia.
Qed.
End conservation.

Section conservation_theorems.
Context `{HI : HashIter}.

Lemma inject_Qsum l : (Qsum (inject_Z <$> l) == inject_Z (sum_Z l))%Q.
Proof.
  induction l as [|x l IH]; [reflexivity|]. rewrite fmap_cons, Qsum_cons, sum_Z_cons, inject_Z_plus.
  by rewrite IH.
Qed.
Lemma sum_u64_values m : (∀ k v, m !! k = Some v → 0 <= v) → sum_Z (hm_values (K:=Z) m) < u64_mod →
  sum_u64 (hm_values m) = map_sum (λ _ v, v) m ∧ 0 <= map_sum (λ _ v, v) m < u64_mod.
Proof.
  intros Hm Hlt. rewrite sum_Z_values in Hlt. pose proof (map_sum_nonneg (λ _ v, v) m Hm).
  rewrite sum_u64_exact; rewrite sum_Z_values; unfold is_u64; lia.
Qed.

(** Proportional sharing of [E] over a map of quantities. *)
Lemma share_out_sum E (m : gmap Z Z) : 0 <= E <= u64_max → (∀ k v, m !! k = Some v → 0 <= v) →
  sum_Z (hm_values m) < u64_mod → 0 < sum_u64 (hm_values m) →
  map_sum (λ _ v, v) (share_out (F:=Q) E (sum_u64 (hm_values m)) m) <= E
    < map_sum (λ _ v, v) (share_out (F:=Q) E (sum_u64 (hm_values m)) m) + Z.of_nat (size m).
Proof.
  intros HE Hm Hlt Hpos. destruct (sum_u64_values m Hm Hlt) as [Heq _]. rewrite Heq in *.
  pose proof (Q_split_exact E (inject_Z <$> (map_to_list m).*2)) as Hs.
  ospecialize (Hs HE _ _ (inject_Z (map_sum (λ _ v, v) m)) _).
  - apply Forall_fmap, Forall_fmap, Forall_forall. intros [k v] Hkv%elem_of_map_to_list.
    apply inject_Z_nonneg. by eapply Hm.
  - rewrite inject_Qsum. change 0%Q with (inject_Z 0). rewrite <-Zlt_Qlt. exact Hpos.
  - by rewrite inject_Qsum.
  - cbn zeta in Hs. rewrite <-!list_fmap_compose, !length_fmap, length_map_to_list in Hs.
    unfold share_out. unfold map_sum at 1 3. rewrite map_to_list_fmap, <-list_fmap_compose. exact Hs.
Qed.

Lemma aggregate_nonneg `{FL : FloatLaws F} obs field k v : aggregate_pid_counter (F:=F) obs field !! k = Some v → 0 <= v.
Proof.
  unfold aggregate_pid_counter. revert k v.
  apply (foldl_inv (λ r : gmap Z Z, ∀ k v, r !! k = Some v → 0 <= v)).
  { intros ? ?. by rewrite lookup_empty. }
  intros r [c cs] _ IH. cbn. destruct (build_core_pid_observations obs !! c) as [pt|]; [|done].
  destruct (_ =? 0); [done|].
  apply (foldl_inv (λ r : gmap Z Z, ∀ k v, r !! k = Some v → 0 <= v)); [done|].
  intros r' [p t] _ IH' k v Hk. unfold hm_upd in Hk.
  apply lookup_insert_Some in Hk as [[_ <-]|[_ Hk]]; [apply u64_add_range|by eauto].
Qed.

(** The readings of an interval fit the engine's u64 totals. *)
Record readings_ok (energy : EnergyInput) (obs : ObservationSnapshot) : Prop := {
  sockets_nonneg : Forall (λ E, 0 <= E) (socket_energy_uj energy);
  sockets_fit : sum_Z (socket_energy_uj energy) < u64_mod;
  dram_nonneg : Forall (λ E, 0 <= E) (dram_energy_uj energy);
  dram_fit : sum_Z (dram_energy_uj energy) < u64_mod;
  misses_fit : sum_Z (hm_values (aggregate_pid_counter (F:=Q) obs cc_cache_misses)) < u64_mod
}.

Lemma attributed_total (e : AttributionEngine Q) obs energy a `{!LawfulModel (model e)} :
  observed_ok obs → readings_ok energy obs → is_u32 (cores_per_socket e) →
  attribute_energy e obs energy = Some a →
  (∀ k v, process_cpu_energy (acc a) !! k = Some v → 0 <= v) ∧
  sum_Z (hm_values (process_cpu_energy (acc a))) <= sum_Z (hm_values (core_energies a))
    <= sum_Z (socket_energy_uj energy) ∧
  0 <= sum_Z (hm_values (process_cpu_energy (acc a))).
Proof.
  intros Hobs Hr Hcps (Hsp & Hacc & _)%attribute_energy_inv.
  assert (Forall (λ E, 0 <= E <= u64_max) (socket_energy_uj energy)) as Hen.
  { apply Forall_forall. intros E HE. pose proof (sum_Z_le_elem _ _ (sockets_nonneg _ _ Hr) HE).
    pose proof (sockets_fit _ _ Hr). pose proof (sockets_nonneg _ _ Hr) as Hnn.
    rewrite Forall_forall in Hnn. specialize (Hnn _ HE). unfold u64_max. lia. }
  pose proof (λ H, split_sockets_sum e obs _ 0 ∅ (core_energies a) Hobs Hen Hcps H Hsp) as Hsum0.
  ospecialize (Hsum0 _); [intros ? ?; by rewrite lookup_empty|]. destruct Hsum0 as [Hce Hle].
  rewrite map_sum_empty, Z.add_0_l in Hle. rewrite !sum_Z_values.
  destruct (sum_charges_le (model e) (core_energies a) (compute_core_avg_freq obs)
    (build_core_pid_observations obs) (build_core_counter_map obs) (u32_range 0 (num_cores e))) as [Hnn Hsum].
  { intros core. destruct (core_energies a !! core) as [x|] eqn:E; cbn; [|by unfold u64_max].
    pose proof (map_sum_ge (λ _ v, v) _ _ _ Hce E). pose proof (sockets_fit _ _ Hr).
    specialize (Hce _ _ E). unfold u64_max. cbn beta in *. lia. }
  { apply compute_core_avg_freq_nonneg. }
  { intros core. by apply core_observations_ok. }
  pose proof (sum_lookup_le (core_energies a) (u32_range 0 (num_cores e)) Hce (NoDup_seqZ _ _)) as Hlk.
  pose proof (sockets_fit _ _ Hr) as Hfit.
  assert (process_cpu_energy (acc a) = hm_group fst (λ _, 0) (λ pc e, u64_add e (charge_energy pc))
            (interval_charges e obs (core_energies a))) as Hg by (rewrite Hacc, foldl_charge; reflexivity).
  assert (map_sum (λ _ v, v) (process_cpu_energy (acc a)) =
          sum_Z (charge_energy <$> interval_charges e obs (core_energies a))) as Htot.
  { rewrite Hg. apply (hm_group_map_sum fst (λ _, 0) _ (λ v, v) charge_energy); try done.
    - intros x v ? ? ?. apply u64_add_exact. lia.
    - unfold interval_charges. lia. }
  rewrite Htot. unfold interval_charges in *. split; [|split; [lia|]].
  - intros k v Hk. rewrite Hg in Hk. eapply (hm_group_lookup_mu _ _ _ (λ v, v) charge_energy) in Hk; try done.
    + rewrite Hk. by apply (sum_filter_le charge_energy (λ x, x.1 = k)).
    + intros x v' ? ? ?. apply u64_add_exact. lia.
    + lia.
  - by apply sum_Z_nonneg, Forall_fmap.
Qed.

(** C2: energy is conserved, in exact arithmetic.  Whatever lawful model weighs
    the tasks, the energy charged to processes is at most the energy of the
    cores, which is at most what the sockets measured; idle energy is the exact
    remainder, so attributed plus idle is the cores' energy; and the DRAM energy
    given to processes is at most the DRAM energy measured. *)
Theorem attribution_conserves_energy (e : AttributionEngine Q) obs energy a `{!LawfulModel (model e)} :
  observed_ok obs → readings_ok energy obs → is_u32 (cores_per_socket e) →
  attribute_energy e obs energy = Some a →
  0 <= total_attributed a <= total_core_energy a ∧
  total_core_energy a <= sum_Z (socket_energy_uj energy) ∧
  total_attributed a + idle_energy a = total_core_energy a ∧
  attributed_sum a = total_core_energy a ∧
  sum_Z (hm_values (process_mem_energy a)) <= sum_Z (dram_energy_uj energy).
Proof.
  intros Hobs Hr Hcps Ha. destruct (attributed_total e obs energy a Hobs Hr Hcps Ha) as (Hpn & [H1 H2] & H0).
  pose proof (sockets_fit _ _ Hr).
  assert (total_attributed a = sum_Z (hm_values (process_cpu_energy (acc a)))) as ->
    by (apply sum_u64_exact; unfold is_u64; lia).
  assert (total_core_energy a = sum_Z (hm_values (core_energies a))) as Hc
    by (apply sum_u64_exact; unfold is_u64; lia).
  assert (total_attributed a = sum_Z (hm_values (process_cpu_energy (acc a)))) as Ht
    by (apply sum_u64_exact; unfold is_u64; lia).
  unfold attributed_sum, idle_energy. rewrite Hc, Ht, sat_sub_exact, u64_add_exact by lia.
  split; [lia|]. split; [lia|]. split; [lia|]. split; [lia|].
  apply attribute_energy_inv in Ha as (_ & _ & ->). rewrite sum_Z_values.
  pose proof (sum_Z_nonneg _ (dram_nonneg _ _ Hr)) as Hd0. pose proof (dram_fit _ _ Hr) as Hd1.
  unfold attribute_memory. rewrite sum_u64_exact by (unfold is_u64; lia).
  destruct (_ =? 0); [by rewrite map_sum_empty|].
  assert (map_sum (λ _ v, v) (if sum_u64 (hm_values (process_cpu_energy (acc a))) =? 0 then ∅
            else share_out (F:=Q) (sum_Z (dram_energy_uj energy)) (sum_u64 (hm_values (process_cpu_energy (acc a))))
                   (process_cpu_energy (acc a))) <= sum_Z (dram_energy_uj energy)) as Hfb.
  { destruct (Z.eqb_spec (sum_u64 (hm_values (process_cpu_energy (acc a)))) 0); [by rewrite map_sum_empty|].
    apply share_out_sum; [unfold u64_max; lia|done|lia|]. pose proof (sum_u64_range (hm_values (process_cpu_energy (acc a)))).
    unfold is_u64 in *. lia. }
  destruct (is_empty (core_counters obs)); [done|].
  destruct (Z.ltb_spec 0 (sum_u64 (hm_values (aggregate_pid_counter (F:=Q) obs cc_cache_misses)))); [|done].
  apply share_out_sum; [unfold u64_max; lia|apply aggregate_nonneg|apply (misses_fit _ _ Hr)|done].
Qed.
End conservation_theorems.

(** C38: [energy_to_power] is the exact quotient: over [interval_ns] the reported
    power accounts for the energy to within one microwatt, the 128-bit product
    never overflowing, whenever the power itself fits 64 bits. *)
Theorem energy_to_power_exact energy_uj interval_ns :
  is_u64 energy_uj → is_u64 interval_ns → energy_uj * 1000000000 < u64_mod * interval_ns →
  energy_to_power energy_uj interval_ns * interval_ns <= energy_uj * 1000000000
    < (energy_to_power energy_uj interval_ns + 1) * interval_ns.
Proof.
  intros He Hi Hlt. unfold is_u64 in *. unfold energy_to_power.
  destruct (Z.eqb_spec interval_ns 0) as [->|Hne]; [lia|].
  unfold u128_wrap. rewrite (Z.mod_small (energy_uj * 1000000000)) by (unfold u64_mod, u128_mod in *; lia).
  rewrite u64_wrap_id.
  - pose proof (Z.mul_div_le (energy_uj * 1000000000) interval_ns).
    pose proof (Z.mul_succ_div_gt (energy_uj * 1000000000) interval_ns). lia.
  - split; [apply Z.div_pos; lia|]. apply Z.div_lt_upper_bound; lia.
Qed.

(** ** Witnesses: two cores of one socket, two processes *)

#[local] Existing Instance hash_iter_list.

Definition demo_obs : ObservationSnapshot := {|
  pid_cpu_times := [({| key_cpu := 0; key_pid := 10 |}, 300); ({| key_cpu := 0; key_pid := 11 |}, 100);
                    ({| key_cpu := 1; key_pid := 10 |}, 200)];
  cpu_freq_times := [({| freq_cpu := 0; freq_khz := 2000000 |}, 400)];
  core_counters := [];
  pid_cgroups := {[10 := 5]}
|}.
Definition demo_energy : EnergyInput := {|
  socket_energy_uj := [1000]; dram_energy_uj := [90]; gpu_energy_uj := [];
  platform_energy_uj := Some 1500; in_interval_ns := 1000000000
|}.

Lemma demo_obs_ok : observed_ok demo_obs.
Proof. split; repeat constructor; cbn; lia. Qed.
Lemma demo_readings_ok : @readings_ok hash_iter_list demo_energy demo_obs.
Proof. split; cbn; repeat constructor; unfold u64_mod; lia. Qed.

Definition demo_attribute :=
  @attribute hash_iter_list f64 f64_ops (AttributionEngine_new 2 1) 0 demo_obs demo_energy.
Definition demo_processes (r : option (AttributionSnapshot f64 * AttributionEngine f64)) : list ProcessPower :=
  match r with Some (s, _) => processes s | None => [] end.
Definition demo_attributed :=
  @attribute_energy hash_iter_list Q Q_ops (AttributionEngine_new 2 1) demo_obs demo_energy.

Lemma attribute_share_bounded_witness :
  match demo_attribute with
  | Some (s, e') => ∃ ce, split_socket_to_cores e' demo_energy demo_obs = Some ce ∧
      (∀ core x, ce !! core = Some x → ∃ E, E ∈ socket_energy_uj demo_energy ∧ 0 <= x <= E) ∧
      ∀ p d, p ∈ processes s → d ∈ pp_core_detail p →
        0 <= ca_core d < 2 ∧ 0 <= ca_energy_uj d <= default 0 (ce !! ca_core d)
  | None => False
  end.
Proof.
  assert (length (demo_processes demo_attribute) = 2%nat) as Hc by (vm_compute; reflexivity).
  pose proof (@attribute_share_bounded hash_iter_list f64 f64_ops f64_laws (AttributionEngine_new 2 1) 0
    demo_obs demo_energy) as H.
  fold demo_attribute in *. revert Hc. destruct demo_attribute as [[s e']|] eqn:E; [|done]. intros _.
  refine (H s e' demo_obs_ok _ _ eq_refl); [|vm_compute; discriminate].
  apply Forall_singleton. lia.
Defined.

Lemma process_power_is_detail_sum_witness :
  match demo_attribute with
  | Some (s, _) => length (processes s) = 2%nat ∧ NoDup (pp_pid <$> processes s)
  | None => False
  end.
Proof.
  assert (length (demo_processes demo_attribute) = 2%nat) as Hc by (vm_compute; reflexivity).
  pose proof (@process_power_is_detail_sum hash_iter_list f64 f64_ops (AttributionEngine_new 2 1) 0
    demo_obs demo_energy) as H.
  fold demo_attribute in *. revert Hc. destruct demo_attribute as [[s e']|] eqn:E; [|done]. intros Hc.
  split; [exact Hc|apply (H s e' eq_refl)].
Defined.

Lemma attribution_conserves_energy_witness :
  match demo_attributed with
  | Some a => total_core_energy a = 999 ∧ total_attributed a = 999 ∧
      attributed_sum a = total_core_energy a
  | None => False
  end.
Proof.
  assert ((λ a, (total_core_energy a, total_attributed a)) <$> demo_attributed = Some (999, 999))
    as Hc by (vm_compute; reflexivity).
  pose proof (@attribution_conserves_energy hash_iter_list (AttributionEngine_new 2 1)
    demo_obs demo_energy) as H.
  fold demo_attributed in *. revert Hc. destruct demo_attributed as [a|] eqn:E; [|done]. intros [= Hc1 Hc2].
  assert (LawfulModel (model (@AttributionEngine_new Q Q_ops 2 1))) as Hm by (apply select_model_lawful).
  destruct (H a Hm demo_obs_ok demo_readings_ok) as (_ & _ & _ & Hs & _); [by cbn|reflexivity|].
  split; [exact Hc1|split; [exact Hc2|exact Hs]].
Defined.

Lemma energy_to_power_exact_witness :
  energy_to_power 1500 2000000 = 750000 ∧
  750000 * 2000000 <= 1500 * 1000000000 < (750000 + 1) * 2000000.
Proof.
  split; [reflexivity|]. apply (energy_to_power_exact 1500 2000000); vm_compute; repeat split; discriminate.
Defined.

(** Two good intervals on a machine of two cores and one socket; then the
    engine built for no core and no socket, on a socket that reports zero. *)
Lemma attribute_panics_iff_witness :
  @attribute_all hash_iter_list f64 f64_ops (AttributionEngine_new 2 1) [(0, demo_obs, demo_energy); (1, demo_obs, demo_energy)] ≠ None ∧
  @attribute_all hash_iter_list f64 f64_ops (AttributionEngine_new 0 0)
    [(0, demo_obs, {| socket_energy_uj := [0]; dram_energy_uj := []; gpu_energy_uj := [];
                      platform_energy_uj := None; in_interval_ns := 1 |})] = None.
Proof.
  split.
  - intros [Hc _]%attribute_panics_iff; [|lia|lia]. lia.
  - apply attribute_panics_iff; [lia|lia|]. split; [by right|]. eexists. split; [left|]. discriminate.
Defined.

(** The engine a 2-core machine with 4 reported sockets gets. *)
Example attribute_panics_demo :
  @attribute hash_iter_list f64 f64_ops (AttributionEngine_new 2 4) 0 demo_obs demo_energy = None.
Proof. reflexivity. Qed.

(** 500 uJ unaccounted over half a second is 1000 uW; the field holds 500. *)
Example unaccounted_is_energy :
  reconcile_platform (F:=Q) {| socket_energy_uj := []; dram_energy_uj := []; gpu_energy_uj := [];
    platform_energy_uj := Some 1500; in_interval_ns := 500000000 |} 1000 = (500, (inject_Z 500 / inject_Z 1500)%Q).
Proof. reflexivity. Qed.
