(* ===== verification/Tuner.v ===== *)
(** * Tuner: online tuning of the attribution coefficients

    keck-agent/src/attribution/tuner.rs, in machine floats.  The learning rate
    parsed from the environment is an argument; the order in which the cores of
    the hash map are visited comes from [HashIter]. *)

From S2P Require Import Prelude F64.
From Stdlib Require Import SpecFloat.

Open Scope Z_scope.

Record CoefficientTuner := {
  alpha : f64;
  beta : f64;
  learning_rate : f64;
  alpha_grad_ema : f64;
  beta_grad_ema : f64;
  ema_decay : f64;
  min_ipc_diversity : f64;
  updates : Z;
  qualifying_cores : Z;
  last_logged_alpha : f64;
  last_logged_beta : f64
}.

(** [env_rate]: KECK_TUNE_LEARNING_RATE, when set and a number. *)
Definition CoefficientTuner_new (env_rate : option f64) (a b : f64) : CoefficientTuner :=
  {| alpha := a; beta := b; learning_rate := default (f_lit 1 1000) env_rate; alpha_grad_ema := fzero;
     beta_grad_ema := fzero; ema_decay := f_lit 9 10; min_ipc_diversity := f_of_Z 2; updates := 0;
     qualifying_cores := 0; last_logged_alpha := a; last_logged_beta := b |}.

Definition current (t : CoefficientTuner) : f64 * f64 := (alpha t, beta t).

Record PidObs := { po_time_ns : Z; ipc : f64; miss_ratio : f64; po_cycles : f64 }.

Definition consistency_error (pids : list PidObs) (a b : f64) : f64 :=
  let weights := (λ p, fmul (f_of_Z (po_time_ns p))
                         (fadd (fadd fone (fmul a (ipc p))) (fmul b (miss_ratio p)))) <$> pids in
  let total_weight := fsum weights in
  if fleb total_weight fzero then fzero else
  let total_cycles := fsum (po_cycles <$> pids) in
  let epc := (λ pw : PidObs * f64, fdiv (fmul (fdiv pw.2 total_weight) total_cycles) (po_cycles pw.1))
             <$> zip pids weights in
  let n := f_of_Z (Z.of_nat (length epc)) in
  let mean := fdiv (fsum epc) n in
  if fleb mean fzero then fzero else
  let variance := fdiv (fsum ((λ e, fsq (fsub e mean)) <$> epc)) n in
  fdiv (f64_sqrt variance) mean.

(** The observation of one (cpu, pid, time), if it has cycles. *)
Definition pid_obs (pid_hw_counters : gmap (Z * Z) (Z * Z * Z)) (t : Z * Z * Z) : option (Z * PidObs) :=
  let '(cpu, pid, time_ns) := t in
  if time_ns =? 0 then None else
  let '(instr, cycles, misses) := default (0, 0, 0) (pid_hw_counters !! (cpu, pid)) in
  if cycles =? 0 then None else
  Some (cpu, {| po_time_ns := time_ns; ipc := fdiv (f_of_Z instr) (f_of_Z cycles);
                miss_ratio := if 0 <? instr then fdiv (f_of_Z misses) (f_of_Z instr) else fzero;
                po_cycles := f_of_Z cycles |}).

Definition core_pids (pid_hw_counters : gmap (Z * Z) (Z * Z * Z)) (pid_cpu_times : list (Z * Z * Z))
    : gmap Z (list PidObs) :=
  hm_group fst (λ _, []) (λ cp l, l ++ [cp.2]) (omap (pid_obs pid_hw_counters) pid_cpu_times).

(** At least two tasks whose IPCs differ by the required factor. *)
Definition qualifies (diversity : f64) (pids : list PidObs) : bool :=
  let max_ipc := foldl f64_max fzero (ipc <$> pids) in
  let min_ipc := foldl f64_min f64_inf (ipc <$> pids) in
  (2 <=? length pids)%nat && negb (fleb min_ipc fzero || fltb (fdiv max_ipc min_ipc) diversity).

(** [total_d_alpha], [total_d_beta] and [qualifying]. *)
Definition gradient_step (a b diversity : f64) (acc : f64 * f64 * Z) (cp : Z * list PidObs) : f64 * f64 * Z :=
  let '(da, db, q) := acc in
  let pids := cp.2 in
  if qualifies diversity pids then
    let eps := f_lit 1 100 in
    let err := consistency_error pids a b in
    let err_da := consistency_error pids (fadd a eps) b in
    let err_db := consistency_error pids a (fadd b eps) in
    (fadd da (fdiv (fsub err_da err) eps), fadd db (fdiv (fsub err_db err) eps), u64_add q 1)
  else acc.

Definition ALPHA_MIN : f64 := f_lit 5 100.
Definition ALPHA_MAX : f64 := f_of_Z 2.
Definition BETA_MIN : f64 := f_lit 1 100.
Definition BETA_MAX : f64 := f_of_Z 10.

Section tuner.
Context `{HI : HashIter}.

Definition apply_gradient (t : CoefficientTuner) (total_d_alpha total_d_beta : f64) (qualifying : Z) : CoefficientTuner :=
  let d_alpha := fdiv total_d_alpha (f_of_Z qualifying) in
  let d_beta := fdiv total_d_beta (f_of_Z qualifying) in
  let one_minus := fsub fone (ema_decay t) in
  let a_ema := fadd (fmul (ema_decay t) (alpha_grad_ema t)) (fmul one_minus d_alpha) in
  let b_ema := fadd (fmul (ema_decay t) (beta_grad_ema t)) (fmul one_minus d_beta) in
  let a := f64_clamp (fsub (alpha t) (fmul (learning_rate t) a_ema)) ALPHA_MIN ALPHA_MAX in
  let b := f64_clamp (fsub (beta t) (fmul (learning_rate t) b_ema)) BETA_MIN BETA_MAX in
  let alpha_change := fdiv (f64_abs (fsub a (last_logged_alpha t))) (last_logged_alpha t) in
  let beta_change := fdiv (f64_abs (fsub b (last_logged_beta t))) (last_logged_beta t) in
  let logged := fltb (f_lit 5 100) alpha_change || fltb (f_lit 5 100) beta_change in
  {| alpha := a; beta := b; learning_rate := learning_rate t; alpha_grad_ema := a_ema; beta_grad_ema := b_ema;
     ema_decay := ema_decay t; min_ipc_diversity := min_ipc_diversity t; updates := u64_add (updates t) 1;
     qualifying_cores := u64_add (qualifying_cores t) qualifying;
     last_logged_alpha := if logged then a else last_logged_alpha t;
     last_logged_beta := if logged then b else last_logged_beta t |}.

Definition update (t : CoefficientTuner) (data : gmap (Z * Z) (Z * Z * Z) * list (Z * Z * Z)) : CoefficientTuner :=
  let '(pid_hw_counters, pid_cpu_times) := data in
  if bool_decide (pid_hw_counters = ∅) || match pid_cpu_times with [] => true | _ => false end then t else
  let '(da, db, qualifying) :=
    foldl (gradient_step (alpha t) (beta t) (min_ipc_diversity t)) (fzero, fzero, 0)
      (hm_iter (core_pids pid_hw_counters pid_cpu_times)) in
  if qualifying =? 0 then t else apply_gradient t da db qualifying.

Lemma core_pids_single hw times core pids : core_pids hw times !! core = Some pids →
  (∀ t t', t ∈ times → t' ∈ times → t.1.1 = t'.1.1 → t = t') → NoDup times → (length pids <= 1)%nat.
Proof.
  unfold core_pids. rewrite hm_group_lookup. intros Hp Huniq Hnd.
  assert (length (group_of fst core (omap (pid_obs hw) times)) <= 1)%nat as Hlen.
  { clear Hp. revert Huniq. induction Hnd as [|t l Ht Hnd IH]; intros Huniq; [cbn; lia|].
    assert (length (group_of fst core (omap (pid_obs hw) l)) <= 1)%nat as IH'.
    { apply IH. intros t1 t2 H1 H2. apply Huniq; by right. }
    cbn [omap list_omap]. destruct (pid_obs hw t) as [[c o]|] eqn:Ho; [|done].
    unfold group_of in *. rewrite filter_cons. case_decide as Hc; [|done]. cbn in Hc. subst c.
    destruct (filter _ (omap (pid_obs hw) l)) as [|[c' o'] r] eqn:Hf; [cbn; lia|]. exfalso.
    assert ((c', o') ∈ filter (λ x : Z * PidObs, x.1 = core) (omap (pid_obs hw) l)) as Hin by (rewrite Hf; left).
    apply list_elem_of_filter in Hin as [Hc' (t2 & Ht2 & Ho2)%list_elem_of_omap]. cbn in Hc'. subst c'.
    assert (t.1.1 = core ∧ t2.1.1 = core) as [E1 E2].
    { unfold pid_obs in Ho, Ho2. destruct t as [[? ?] ?], t2 as [[? ?] ?]. repeat case_match; by simplify_eq. }
    rewrite (Huniq t t2) in Ht; [done|left|by right|congruence]. }
  destruct (group_of fst core (omap (pid_obs hw) times)) as [|x [|y r]]; [done| |cbn in Hlen; lia].
  injection Hp as <-. cbn. lia.
Qed.

(** No signal, no update.  When no core ran two observed tasks in the
    interval, there is nothing to compare and the tuner's state does not
    change. *)
Theorem update_needs_two_tasks t hw times : NoDup times →
  (∀ x y, x ∈ times → y ∈ times → x.1.1 = y.1.1 → x = y) → update t (hw, times) = t.
Proof.
  intros Hnd Huniq. unfold update. destruct (_ || _); [done|].
  assert (∀ l acc, (∀ cp, cp ∈ l → (length (cp.2 : list PidObs) <= 1)%nat) →
    foldl (gradient_step (alpha t) (beta t) (min_ipc_diversity t)) acc l = acc) as Hfold.
  { induction l as [|cp l IH]; intros acc Hl; [done|]. cbn [foldl].
    assert (gradient_step (alpha t) (beta t) (min_ipc_diversity t) acc cp = acc) as ->.
    { unfold gradient_step, qualifies. destruct acc as [[da db] q]. specialize (Hl cp ltac:(left)).
      destruct (Nat.leb_spec 2 (length cp.2)); [lia|done]. }
    apply IH. intros ? ?. apply Hl. by right. }
  rewrite Hfold; [done|]. intros [core pids] Hin%hm_iter_elem. by eapply core_pids_single.
Qed.
End tuner.

#[local] Existing Instance hash_iter_list.

Lemma update_needs_two_tasks_witness :
  let t := CoefficientTuner_new None (f_lit 3 10) (f_lit 3 2) in
  update t ({[(0, 7) := (500, 100, 1); (1, 8) := (10, 100, 1)]}, [(0, 7, 1000); (1, 8, 1000)]) = t.
Proof.
  cbn zeta. apply update_needs_two_tasks.
  - repeat constructor; set_solver.
  - intros x y Hx Hy. apply elem_of_cons in Hx as [->|Hx]; apply elem_of_cons in Hy as [->|Hy];
      rewrite ?list_elem_of_singleton in *; subst; done.
Defined.

(** A learning rate of NaN (which parses) poisons the coefficients for good. *)
Example nan_rate_poisons :
  let data := ({[(0, 7) := (500, 100, 1); (0, 8) := (10, 100, 1)]}, [(0, 7, 1000); (0, 8, 1000)]) in
  alpha (update (CoefficientTuner_new (Some S754_nan) (f_lit 3 10) (f_lit 3 2)) data) = S754_nan.
Proof. by vm_compute. Qed.
(** Two tasks with diverse IPCs do move the coefficients. *)
Example diverse_tasks_update :
  let data := ({[(0, 7) := (500, 100, 1); (0, 8) := (10, 100, 1)]}, [(0, 7, 1000); (0, 8, 1000)]) in
  updates (update (CoefficientTuner_new None (f_lit 3 10) (f_lit 3 2)) data) = 1.
Proof. by vm_compute. Qed.
