(* ===== verification/Store.v ===== *)
(** * Store: the agent's bounded history and its query API

    keck-agent/src/store/mod.rs (detail ring, summary ring, outbox) and
    keck-agent/src/output/query.rs (the read-only queries).  [usize] lengths are
    [nat]; the clock readings taken while pushing are arguments. *)

From S2P Require Import Prelude F64 Common.

Open Scope Z_scope.

Record PodSummary := {
  ps_timestamp : Z;
  ps_pod_uid : string;
  ps_name : string;
  ps_namespace : string;
  ps_cpu_uw : Z;
  ps_memory_uw : Z;
  ps_gpu_uw : Z;
  ps_total_uw : Z
}.

Definition PodSummary_from (now : Z) (pod : PodPower) : PodSummary := {|
  ps_timestamp := now;
  ps_pod_uid := pod_uid pod;
  ps_name := pod_name pod;
  ps_namespace := pod_namespace pod;
  ps_cpu_uw := cpu_uw (pod_pow pod);
  ps_memory_uw := memory_uw (pod_pow pod);
  ps_gpu_uw := gpu_uw (pod_pow pod);
  ps_total_uw := total_uw (pod_pow pod)
|}.

Inductive StoreProfile :=
| Minimal (detail_capacity summary_capacity : nat)
| Standard (detail_capacity summary_capacity : nat)
| Full (detail_capacity summary_capacity : nat).

Definition profile_minimal : StoreProfile := Minimal 100 5000.
Definition profile_standard : StoreProfile := Standard 500 50000.
Definition profile_full : StoreProfile := Full 2000 100000.

Definition detail_capacity (p : StoreProfile) : nat :=
  match p with Minimal d _ | Standard d _ | Full d _ => d end.
Definition summary_capacity (p : StoreProfile) : nat :=
  match p with Minimal _ s | Standard _ s | Full _ s => s end.

(** [if ring.len() >= cap { ring.pop_front(); } ring.push_back(x)]. *)
Definition push_ring {A} (cap : nat) (ring : list A) (x : A) : list A :=
  (if (cap <=? length ring)%nat then tail ring else ring) ++ [x].

Section store.
Context {F : Type}.

Record LocalStore := {
  detail_ring : list (AttributionSnapshot F);
  summary_ring : list PodSummary;
  outbox : list PodSummary;
  profile : StoreProfile
}.

Definition LocalStore_new (p : StoreProfile) : LocalStore :=
  {| detail_ring := []; summary_ring := []; outbox := []; profile := p |}.

(** [clock i] is the time at which the i-th pod's summary is taken. *)
Definition summaries_of (clock : nat → Z) (snapshot : AttributionSnapshot F) : list PodSummary :=
  imap (λ i, PodSummary_from (clock i)) (pods snapshot).

Definition push_summary (st : LocalStore) (summary : PodSummary) : LocalStore := {|
  detail_ring := detail_ring st;
  summary_ring := push_ring (summary_capacity (profile st)) (summary_ring st) summary;
  outbox := outbox st ++ [summary];
  profile := profile st
|}.

Definition push (clock : nat → Z) (snapshot : AttributionSnapshot F) (st : LocalStore) : LocalStore :=
  foldl push_summary
    {| detail_ring := push_ring (detail_capacity (profile st)) (detail_ring st) snapshot;
       summary_ring := summary_ring st; outbox := outbox st; profile := profile st |}
    (summaries_of clock snapshot).

Definition latest (st : LocalStore) : option (AttributionSnapshot F) := last (detail_ring st).

Definition pod_processes (uid : string) (s : AttributionSnapshot F) : list ProcessPower :=
  p ← filter (λ p, pod_uid p = uid) (pods s); c ← pod_containers p; cp_processes c.

Definition query_pod_processes (st : LocalStore) (uid : string) (since : Z) : list ProcessPower :=
  take_while (λ s, since <=? timestamp s) (reverse (detail_ring st)) ≫= pod_processes uid.

Definition query_namespace_pods (st : LocalStore) (namespace : string) (since : Z) : list PodSummary :=
  filter (λ s, ps_namespace s = namespace)
    (take_while (λ s, since <=? ps_timestamp s) (reverse (summary_ring st))).

Definition reconciliation_history (st : LocalStore) (count : nat) : list (Reconciliation F) :=
  reconciliation <$> take count (reverse (detail_ring st)).

Definition drain_outbox (st : LocalStore) : list PodSummary * LocalStore :=
  (outbox st, {| detail_ring := detail_ring st; summary_ring := summary_ring st;
                 outbox := []; profile := profile st |}).

Definition push_front (st : LocalStore) (s : PodSummary) : LocalStore :=
  {| detail_ring := detail_ring st; summary_ring := summary_ring st;
     outbox := s :: outbox st; profile := profile st |}.
Definition requeue (summaries : list PodSummary) (st : LocalStore) : LocalStore :=
  foldl push_front st (reverse summaries).

Definition estimated_memory (st : LocalStore) : Z :=
  let detail_est := u64_mul (Z.of_nat (length (detail_ring st))) 4096 in
  let summary_est := u64_mul (Z.of_nat (length (summary_ring st))) 128 in
  let outbox_est := u64_mul (Z.of_nat (length (outbox st))) 128 in
  u64_add (u64_add detail_est summary_est) outbox_est.
End store.
Arguments LocalStore F : clear implicits.

(** ** output/query.rs *)

Inductive QueryRequest :=
| QNodeSummary
| QPodDetail (pod_uid : string) (lookback : Z)
| QNamespacePods (namespace : string) (lookback : Z)
| QReconciliationHistory (count : nat)
| QAgentHealth.

Section query.
Context `{FO : FloatOps F}.

Record NodeSummaryResponse := {
  cpu_watts : F; memory_watts : F; gpu_watts : F; platform_watts : option F;
  idle_watts : F; ns_error_ratio : F; pod_count : nat; process_count : nat
}.
Record ProcessDetail := {
  pd_pid : Z; pd_comm : string; pd_cpu_watts : F; pd_memory_watts : F; pd_gpu_watts : F; pd_core_count : nat
}.
Record PodSummaryResponse := { psr_name : string; psr_namespace : string; psr_total_watts : F }.
Record ReconciliationEntry := { re_error_ratio : F; re_unaccounted_watts : F }.
Record AgentHealthResponse := {
  memory_bytes : Z; cpu_usage_percent : F; ebpf_map_entries : nat; uptime_secs : Z
}.
Inductive QueryResponse :=
| RNodeSummary (r : NodeSummaryResponse)
| RPodDetail (pod_uid : string) (processes : list ProcessDetail)
| RNamespacePods (namespace : string) (pods : list PodSummaryResponse)
| RReconciliationHistory (entries : list ReconciliationEntry)
| RAgentHealth (r : AgentHealthResponse)
| RError (msg : string).

(** [v as f64 / 1e6]. *)
Definition watts (uw : Z) : F := fdiv (f_of_Z uw) (f_of_Z 1000000).

(** [QueryServer::handle] at time [now]. *)
Definition handle (now : Z) (store : LocalStore F) (request : QueryRequest) : QueryResponse :=
  match request with
  | QNodeSummary =>
      match latest store with
      | None => RError "No data yet"
      | Some snapshot => RNodeSummary {|
          cpu_watts := watts (cpu_uw (measured (node snapshot)));
          memory_watts := watts (memory_uw (measured (node snapshot)));
          gpu_watts := watts (gpu_uw (measured (node snapshot)));
          platform_watts := watts <$> node_platform_uw (node snapshot);
          idle_watts := watts (total_uw (idle_power snapshot));
          ns_error_ratio := error_ratio (reconciliation snapshot);
          pod_count := length (pods snapshot);
          process_count := (length (processes snapshot)
            + length (p ← pods snapshot; c ← pod_containers p; cp_processes c))%nat |}
      end
  | QPodDetail uid lookback =>
      RPodDetail uid
        ((λ p, {| pd_pid := pp_pid p; pd_comm := pp_comm p; pd_cpu_watts := watts (cpu_uw (pp_power p));
                  pd_memory_watts := watts (memory_uw (pp_power p)); pd_gpu_watts := watts (gpu_uw (pp_power p));
                  pd_core_count := length (pp_core_detail p) |})
         <$> query_pod_processes store uid (now - lookback))
  | QNamespacePods namespace lookback =>
      RNamespacePods namespace
        ((λ p, {| psr_name := ps_name p; psr_namespace := ps_namespace p; psr_total_watts := watts (ps_total_uw p) |})
         <$> query_namespace_pods store namespace (now - lookback))
  | QReconciliationHistory count =>
      RReconciliationHistory
        ((λ r, {| re_error_ratio := error_ratio r; re_unaccounted_watts := watts (unaccounted_uw r) |})
         <$> reconciliation_history store count)
  | QAgentHealth =>
      RAgentHealth {| memory_bytes := estimated_memory store; cpu_usage_percent := fzero;
                      ebpf_map_entries := 0; uptime_secs := 0 |}
  end.
End query.

(** ** What the store promises

    Everything pushed so far and everything sent upstream so far; the rings are
    windows on the former, the outbox its undelivered tail. *)

Definition last_n {A} (n : nat) (l : list A) : list A := drop (length l - n) l.

Lemma tail_is_drop {A} (l : list A) : tail l = drop 1 l.
Proof. by destruct l. Qed.
Lemma push_ring_window {A} cap (h : list A) x :
  push_ring cap (last_n (Nat.max 1 cap) h) x = last_n (Nat.max 1 cap) (h ++ [x]).
Proof.
  unfold push_ring, last_n. rewrite length_drop, length_app. cbn [length].
  destruct (Nat.leb_spec cap (length h - (length h - Nat.max 1 cap))) as [Hle|Hgt].
  - rewrite drop_app_le by lia. f_equal. rewrite tail_is_drop, drop_drop.
    destruct (decide (length h < Nat.max 1 cap)%nat).
    + rewrite !drop_ge by lia. done.
    + f_equal. lia.
  - rewrite drop_app_le by lia. do 2 f_equal. lia.
Qed.

Section spec.
Context {F : Type}.

Inductive StoreOp :=
| OpPush (clock : nat → Z) (s : AttributionSnapshot F)
| OpSendOk                       (** drain, and the upstream send succeeds *)
| OpSendFail.                    (** drain, the send fails, requeue *)

(** The store and what the controller has received. *)
Definition store_step (sd : LocalStore F * list PodSummary) (op : StoreOp) : LocalStore F * list PodSummary :=
  match op with
  | OpPush clock s => (push clock s sd.1, sd.2)
  | OpSendOk => let '(batch, st) := drain_outbox sd.1 in (st, sd.2 ++ batch)
  | OpSendFail => let '(batch, st) := drain_outbox sd.1 in (requeue batch st, sd.2)
  end.
Definition run_store (p : StoreProfile) (ops : list StoreOp) : LocalStore F * list PodSummary :=
  foldl store_step (LocalStore_new p, []) ops.

Definition pushed (ops : list StoreOp) : list (AttributionSnapshot F) :=
  omap (λ op, match op with OpPush _ s => Some s | _ => None end) ops.
Definition pushed_summaries (ops : list StoreOp) : list PodSummary :=
  ops ≫= λ op, match op with OpPush clock s => summaries_of clock s | _ => [] end.

Lemma foldl_push_summary (st : LocalStore F) l h :
  summary_ring st = last_n (Nat.max 1 (summary_capacity (profile st))) h →
  foldl push_summary st l =
    {| detail_ring := detail_ring st;
       summary_ring := last_n (Nat.max 1 (summary_capacity (profile st))) (h ++ l);
       outbox := outbox st ++ l; profile := profile st |}.
Proof.
  revert st h. induction l as [|s l IH]; intros st h Hh; cbn [foldl].
  { rewrite !app_nil_r, <-Hh. by destruct st. }
  rewrite (IH _ (h ++ [s])); cbn; [|by rewrite Hh, push_ring_window].
  by rewrite <-!app_assoc.
Qed.

Lemma requeue_outbox (l : list PodSummary) (st : LocalStore F) :
  requeue l st = {| detail_ring := detail_ring st; summary_ring := summary_ring st;
                    outbox := l ++ outbox st; profile := profile st |}.
Proof.
  unfold requeue. induction l as [|s l IH]; [by destruct st|].
  rewrite reverse_cons, foldl_app, IH. done.
Qed.

Definition store_inv (p : StoreProfile) (ops : list StoreOp) (sd : LocalStore F * list PodSummary) : Prop :=
  profile sd.1 = p ∧
  detail_ring sd.1 = last_n (Nat.max 1 (detail_capacity p)) (pushed ops) ∧
  summary_ring sd.1 = last_n (Nat.max 1 (summary_capacity p)) (pushed_summaries ops) ∧
  sd.2 ++ outbox sd.1 = pushed_summaries ops.

Lemma store_inv_step p ops sd op : store_inv p ops sd → store_inv p (ops ++ [op]) (store_step sd op).
Proof.
  destruct sd as [st sent]. intros (Hp & Hd & Hs & Ho). cbn in *. unfold store_inv, pushed, pushed_summaries in *.
  rewrite omap_app, bind_app. cbn. rewrite app_nil_r. destruct op as [clock s| |]; cbn; rewrite ?app_nil_r.
  - unfold push. rewrite (foldl_push_summary _ _ (ops ≫= λ op, match op with OpPush clock s => summaries_of clock s | _ => [] end))
      by (cbn; by rewrite Hp). cbn. rewrite Hp, Hd, push_ring_window. repeat split.
    by rewrite app_assoc, Ho.
  - done.
  - rewrite requeue_outbox. cbn. by rewrite app_nil_r.
Qed.

Lemma store_inv_run p ops : store_inv p ops (run_store p ops).
Proof.
  unfold run_store. induction ops as [|op ops IH] using rev_ind; [done|].
  rewrite foldl_app. by apply store_inv_step.
Qed.

(** C21: the store refines the unbounded history.  After any sequence of pushes
    and successful or failed sends, the detail ring is the window of the last
    snapshots pushed (at most the profile's capacity, never fewer than one), the
    summary ring the window of the last summaries, and what was delivered
    followed by the outbox is every summary ever pushed, in order: nothing is
    lost, reordered or sent twice, however many sends fail. *)
Theorem store_refines_history p ops :
  detail_ring (run_store p ops).1 = last_n (Nat.max 1 (detail_capacity p)) (pushed ops) ∧
  summary_ring (run_store p ops).1 = last_n (Nat.max 1 (summary_capacity p)) (pushed_summaries ops) ∧
  (run_store p ops).2 ++ outbox (run_store p ops).1 = pushed_summaries ops.
Proof. destruct (store_inv_run p ops) as (_ & H1 & H2 & H3). done. Qed.

(** *** Queries *)

Lemma take_while_sorted {A} (ts : A → Z) since l :
  StronglySorted (λ a b, ts b <= ts a) l →
  take_while (λ s, since <=? ts s) l = filter (λ s, since <= ts s) l.
Proof.
  induction 1 as [|s l Hl IH Hs]; [done|]. rewrite filter_cons. cbn.
  destruct (Z.leb_spec since (ts s)).
  - rewrite decide_True by done. by rewrite IH.
  - rewrite decide_False by lia. symmetry. 
    destruct (filter (λ s, since <= ts s) l) as [|x l'] eqn:E; [done|]. exfalso.
    assert (x ∈ filter (λ s, since <= ts s) l) as [Hx Hin]%list_elem_of_filter by (rewrite E; left).
    rewrite Forall_forall in Hs. specialize (Hs _ Hin). lia.
Qed.

(** C39: a drill-down query returns the processes of the pod in every retained
    snapshot of the look-back window, newest first, and nothing else, although
    it stops scanning at the first older snapshot: the snapshots were pushed in
    time order. *)
Theorem query_pod_processes_exact p ops uid since :
  StronglySorted (λ a b : AttributionSnapshot F, timestamp a <= timestamp b) (pushed ops) →
  query_pod_processes (run_store p ops).1 uid since =
    (s ← reverse (filter (λ s, since <= timestamp s)
                    (last_n (Nat.max 1 (detail_capacity p)) (pushed ops)));
     pod_processes uid s).
Proof.
  intros Hsort. destruct (store_inv_run p ops) as (_ & Hd & _). unfold query_pod_processes. rewrite Hd.
  rewrite (take_while_sorted timestamp).
  - by rewrite filter_reverse.
  - apply (StronglySorted_reverse (λ a b, timestamp a <= timestamp b)). by apply StronglySorted_drop.
Qed.
End spec.

(** ** Witnesses *)

Definition demo_snapshot (t : Z) (uid : string) (pid : Z) : AttributionSnapshot f64 :=
  let pw := {| cpu_uw := 5; memory_uw := 1; gpu_uw := 0; nic_uw := 0; storage_uw := 0 |} in
  let pp := {| pp_pid := pid; pp_comm := "app"; pp_cgroup_id := 1; pp_power := pw; pp_core_detail := [];
               pp_method := CpuTimeRatio |} in
  {| timestamp := t; interval_ns := 1;
     node := {| measured := pw; node_platform_uw := None; attributed_total_uw := 5 |};
     processes := [];
     pods := [ {| pod_uid := uid; pod_name := "p"; pod_namespace := "ns"; pod_pow := pw;
                  pod_containers := [ {| cp_container_id := "c"; cp_name := "c"; cp_cgroup_id := 1;
                                         cp_power := pw; cp_processes := [pp] |} ] |} ];
     namespaces := []; idle_power := PowerBreakdown_default;
     reconciliation := {| rec_platform_uw := None; component_sum_uw := 0; attributed_sum_uw := 0;
                          unaccounted_uw := 0; error_ratio := fzero |} |}.
Definition demo_ops : list (@StoreOp f64) :=
  [OpPush (λ _, 10) (demo_snapshot 10 "a" 1); OpPush (λ _, 20) (demo_snapshot 20 "a" 2); OpSendFail;
   OpPush (λ _, 30) (demo_snapshot 30 "a" 3); OpSendOk].

Lemma query_pod_processes_exact_witness :
  pp_pid <$> query_pod_processes (run_store (Minimal 2 10) demo_ops).1 "a" 15 = [3; 2] ∧
  query_pod_processes (run_store (Minimal 2 10) demo_ops).1 "a" 15 =
    (s ← reverse (filter (λ s, 15 <= timestamp s) (last_n 2 (pushed demo_ops))); pod_processes "a" s).
Proof.
  split; [reflexivity|]. apply (query_pod_processes_exact (Minimal 2 10) demo_ops "a" 15).
  repeat constructor; cbn; lia.
Defined.

(** The bound of the store's documentation does not cover the outbox. *)
Example outbox_unbounded :
  let st := (run_store (Minimal 1 1) [OpPush (λ _, 1) (demo_snapshot 1 "a" 1); OpSendFail;
               OpPush (λ _, 2) (demo_snapshot 2 "b" 2); OpSendFail;
               OpPush (λ _, 3) (demo_snapshot 3 "c" 3); OpSendFail]).1 in
  length (detail_ring st) = 1%nat ∧ length (summary_ring st) = 1%nat ∧ length (outbox st) = 3%nat.
Proof. done. Qed.
