(* ===== verification/Enrich.v ===== *)
(** * Enrich: from processes to containers, pods and namespaces

    keck-agent/src/k8s/mod.rs.  The content of /proc/pid/comm is the argument
    [read_comm].  Indexing [processes[0]] and [containers[0]] is [head]; a
    missing head would be a panic, and [enrich_keeps_processes] shows there is
    none: every group has a head and every head resolves. *)

From S2P Require Import Prelude F64 Common.

Open Scope Z_scope.

Record ContainerInfo := {
  ci_container_id : string;
  ci_container_name : string;
  ci_pod_uid : string;
  ci_pod_name : string;
  ci_namespace : string
}.

Record CgroupResolver := { cgroup_map : gmap Z ContainerInfo }.
Definition CgroupResolver_new : CgroupResolver := {| cgroup_map := ∅ |}.
(** Not implemented in the source: succeeds and changes nothing. *)
Definition refresh (r : CgroupResolver) : result unit string * CgroupResolver := (Ok tt, r).
Definition resolve (r : CgroupResolver) (cgroup : Z) : option ContainerInfo := cgroup_map r !! cgroup.

Definition aggregate_power (items : list PowerBreakdown) : PowerBreakdown :=
  foldl (λ total p,
    {| cpu_uw := u64_add (cpu_uw total) (cpu_uw p); memory_uw := u64_add (memory_uw total) (memory_uw p);
       gpu_uw := u64_add (gpu_uw total) (gpu_uw p); nic_uw := u64_add (nic_uw total) (nic_uw p);
       storage_uw := u64_add (storage_uw total) (storage_uw p) |}) PowerBreakdown_default items.

(** [map.entry(key).or_default().push(x)] over a list. *)
Definition group_push `{Countable K} {X} (l : list (K * X)) : gmap K (list X) :=
  hm_group fst (λ _, []) (λ kx xs, xs ++ [kx.2]) l.

Section enrich.
Context `{HI : HashIter} {F : Type}.
Variable read_comm : Z → option string.
Variable resolver : CgroupResolver.

Definition set_comm (p : ProcessPower) : ProcessPower :=
  {| pp_pid := pp_pid p; pp_comm := default EmptyString (read_comm (pp_pid p)); pp_cgroup_id := pp_cgroup_id p;
     pp_power := pp_power p; pp_core_detail := pp_core_detail p; pp_method := pp_method p |}.

(** The first loop: processes by container id, and the uncontained ones. *)
Definition contained (p : ProcessPower) : option (string * ProcessPower) :=
  match resolve resolver (pp_cgroup_id p) with
  | Some info => Some (ci_container_id info, set_comm p)
  | None => None
  end.
Definition uncontained (p : ProcessPower) : option ProcessPower :=
  match resolve resolver (pp_cgroup_id p) with
  | Some _ => None
  | None => Some (set_comm p)
  end.

Definition build_container (cps : string * list ProcessPower) : option (string * ContainerPower) :=
  match head cps.2 with
  | None => None
  | Some p0 =>
      match resolve resolver (pp_cgroup_id p0) with
      | None => None
      | Some info =>
          Some (ci_pod_uid info,
            {| cp_container_id := cps.1; cp_name := ci_container_name info; cp_cgroup_id := pp_cgroup_id p0;
               cp_power := aggregate_power (pp_power <$> cps.2); cp_processes := cps.2 |})
      end
  end.

Definition build_pod (ucs : string * list ContainerPower) : option (string * PodPower) :=
  match head ucs.2 with
  | None => None
  | Some c0 =>
      match resolve resolver (cp_cgroup_id c0) with
      | None => None
      | Some info =>
          Some (ci_namespace info,
            {| pod_uid := ucs.1; pod_name := ci_pod_name info; pod_namespace := ci_namespace info;
               pod_pow := aggregate_power (cp_power <$> ucs.2); pod_containers := ucs.2 |})
      end
  end.

Definition build_namespace (nps : string * list PodPower) : NamespacePower :=
  {| np_namespace := nps.1; np_power := aggregate_power (pod_pow <$> nps.2); np_pod_count := length nps.2 |}.

Definition enrich (snapshot : AttributionSnapshot F) : AttributionSnapshot F :=
  let container_processes := group_push (omap contained (processes snapshot)) in
  let pod_containers := group_push (omap build_container (hm_iter container_processes)) in
  let namespace_pods := group_push (omap build_pod (hm_iter pod_containers)) in
  {| timestamp := timestamp snapshot; interval_ns := interval_ns snapshot; node := node snapshot;
     processes := omap uncontained (processes snapshot);
     pods := hm_iter namespace_pods ≫= snd;
     namespaces := build_namespace <$> hm_iter namespace_pods;
     idle_power := idle_power snapshot; reconciliation := reconciliation snapshot |}.
End enrich.

(** ** Grouping keeps every item *)

Section group_push.
Context `{HI : HashIter}.

Lemma group_push_from_perm `{Countable K} {X} (m : gmap K (list X)) (l : list (K * X)) :
  concat ((map_to_list (hm_group_from fst (λ _, []) (λ kx xs, xs ++ [kx.2]) m l)).*2) ≡ₚ
  concat ((map_to_list m).*2) ++ l.*2.
Proof.
  revert m. induction l as [|[k x] l IH]; intros m; [by rewrite app_nil_r|].
  cbn [hm_group_from foldl]. unfold hm_group_from in IH. rewrite IH. unfold hm_upd. cbn.
  destruct (m !! k) as [xs|] eqn:E; cbn.
  - rewrite <-(insert_delete_id m k xs) at 2 by done. rewrite <-insert_delete_eq.
    rewrite !map_to_list_insert by apply lookup_delete_eq. cbn. solve_Permutation.
  - rewrite map_to_list_insert by done. cbn. solve_Permutation.
Qed.
Lemma group_push_perm `{Countable K} {X} (l : list (K * X)) :
  (hm_iter (group_push l) ≫= snd) ≡ₚ l.*2.
Proof.
  transitivity (concat ((hm_iter (group_push l)).*2)).
  { induction (hm_iter (group_push l)) as [|? ? IH]; [done|]. cbn. by f_equiv. }
  rewrite hm_iter_perm. unfold group_push, hm_group. rewrite group_push_from_perm, map_to_list_empty. done.
Qed.
Lemma group_push_elem `{Countable K} {X} (l : list (K * X)) k xs :
  (k, xs) ∈ hm_iter (group_push l) → xs ≠ [] ∧ ∀ x, x ∈ xs → (k, x) ∈ l.
Proof.
  intros Hk%hm_iter_elem. unfold group_push in Hk. rewrite hm_group_lookup in Hk.
  pose proof (λ x, list_elem_of_filter (λ y : K * X, y.1 = k) l x) as Hf. unfold group_of in Hk.
  destruct (filter _ l) as [|y ys]; [done|]. injection Hk as <-.
  assert (∀ a, foldl (λ v (z : K * X), v ++ [z.2]) a (y :: ys) = a ++ (y :: ys).*2) as Hfold.
  { generalize (y :: ys) as zs. induction zs as [|z zs IH]; intros a; cbn; [by rewrite app_nil_r|].
    by rewrite IH, <-app_assoc. }
  change (foldl (λ v (z : K * X), v ++ [z.2]) [] (y :: ys) ≠ [] ∧
    ∀ x, x ∈ foldl (λ v (z : K * X), v ++ [z.2]) [] (y :: ys) → (k, x) ∈ l).
  rewrite Hfold. split; [done|]. intros x ([k' x'] & -> & Hin)%list_elem_of_fmap.
  apply Hf in Hin as [Hk' Hin]. cbn in *. by subst.
Qed.
End group_push.

(** ** Aggregation is a sum modulo 2^64 *)

Definition power_fields : list (PowerBreakdown → Z) := [cpu_uw; memory_uw; gpu_uw; nic_uw; storage_uw].

Lemma aggregate_power_field f l : f ∈ power_fields → f (aggregate_power l) = sum_u64 (f <$> l).
Proof.
  unfold aggregate_power, sum_u64, power_fields. intros Hf.
  assert (f PowerBreakdown_default = 0) as H0
    by (repeat (apply elem_of_cons in Hf as [->|Hf]; [done|]); by apply not_elem_of_nil in Hf).
  rewrite <-H0. generalize PowerBreakdown_default. clear H0.
  induction l as [|p l IH]; intros a; cbn; [done|]. rewrite IH. f_equal.
  repeat (apply elem_of_cons in Hf as [->|Hf]; [done|]); by apply not_elem_of_nil in Hf.
Qed.

Lemma sum_u64_concat {X Y} (h : X → list Y) (f : Y → Z) l :
  sum_u64 ((λ x, sum_u64 (f <$> h x)) <$> l) = sum_u64 (f <$> (l ≫= h)).
Proof.
  rewrite !sum_u64_wrap. induction l as [|x l IH]; [done|].
  cbn [mbind list_bind]. rewrite fmap_cons, sum_Z_cons, fmap_app, sum_Z_app, sum_u64_wrap.
  unfold u64_wrap in *. by rewrite Zplus_mod_idemp_l, <-Zplus_mod_idemp_r, IH, Zplus_mod_idemp_r.
Qed.

(** Groups with distinct keys whose members carry the key: selecting by a key
    gives back the group. *)
Lemma filter_bind_group {G X K} `{EqDecision K} (key : G → K) (h : G → list X) (kx : X → K) L g :
  NoDup (key <$> L) → (∀ g x, g ∈ L → x ∈ h g → kx x = key g) → g ∈ L →
  filter (λ x, kx x = key g) (L ≫= h) = h g.
Proof.
  intros Hnd Hk. assert (∀ g' k, g' ∈ L → filter (λ x, kx x = k) (h g') = if decide (key g' = k) then h g' else []) as Hone.
  { intros g' k Hg'. assert (∀ x, x ∈ h g' → kx x = key g') as Hx by eauto. clear - Hx.
    induction (h g') as [|x xs IH]; [by case_decide|]. rewrite filter_cons, IH by (intros y ?; apply Hx; by right).
    rewrite (Hx x) by left. by case_decide. }
  clear Hk. induction L as [|g' L IH]; intros Hg; [by apply not_elem_of_nil in Hg|].
  rewrite fmap_cons in Hnd. apply NoDup_cons in Hnd as [Hn Hnd]. cbn [mbind list_bind]. rewrite filter_app, Hone by left.
  apply elem_of_cons in Hg as [->|Hg].
  - rewrite decide_True by done. rewrite <-(app_nil_r (h g')) at 2. f_equal.
    assert (∀ g'', g'' ∈ L → key g'' ≠ key g') as Hne.
    { intros g'' Hin Heq. apply Hn. rewrite <-Heq. apply list_elem_of_fmap. eauto. }
    clear - Hone Hne. induction L as [|a L IH]; [done|]. cbn [mbind list_bind]. rewrite filter_app, Hone by (right; left).
    rewrite decide_False by (apply Hne; left). cbn. apply IH.
    + intros x k Hx. apply Hone. apply elem_of_cons in Hx as [->|Hx]; [left|right; by right].
    + intros x Hx. apply Hne. by right.
  - rewrite decide_False; [cbn; apply IH; [done| |done]; intros x k Hx; apply Hone; by right|].
    intros Heq. apply Hn. rewrite Heq. apply list_elem_of_fmap. eauto.
Qed.

Section enrich_theorems.
Context `{HI : HashIter} {F : Type}.
Variable read_comm : Z → option string.
Variable resolver : CgroupResolver.

#[local] Abbreviation contained := (contained read_comm resolver).
#[local] Abbreviation uncontained := (uncontained read_comm resolver).
#[local] Abbreviation set_comm := (set_comm read_comm).
#[local] Abbreviation enrich := (enrich (F:=F) read_comm resolver).

(** A builder that never skips keeps what it groups. *)
Lemma omap_keeps {X Y} (f : string * list X → option (string * Y)) (h : Y → list X) L :
  (∀ kx, kx ∈ L → ∃ ky, f kx = Some ky ∧ h ky.2 = kx.2) →
  (omap f L).*2 ≫= h = L ≫= snd.
Proof.
  induction L as [|kx L IH]; intros HL; [done|]. cbn.
  destruct (HL kx) as (ky & -> & Hh); [left|]. cbn. rewrite Hh. f_equal. apply IH.
  intros kx' Hin. apply HL. by right.
Qed.

Definition cgroup_resolves (cgroup : Z) : Prop := is_Some (resolve resolver cgroup).

Lemma contained_resolves (l : list ProcessPower) k p : (k, p) ∈ omap contained l → cgroup_resolves (pp_cgroup_id p) ∧
  ∃ info, resolve resolver (pp_cgroup_id p) = Some info ∧ ci_container_id info = k.
Proof.
  intros (q & _ & Hq)%list_elem_of_omap. unfold Enrich.contained in Hq.
  destruct (resolve resolver (pp_cgroup_id q)) as [info|] eqn:E; [|done]. injection Hq as <- <-.
  split; [by exists info|]. by exists info.
Qed.

(** Step 2: every container group builds. *)
Lemma build_container_total (l : list ProcessPower) kps : kps ∈ hm_iter (group_push (omap contained l)) →
  ∃ uc, build_container resolver kps = Some uc ∧ cp_processes uc.2 = kps.2 ∧
    cgroup_resolves (cp_cgroup_id uc.2) ∧ cp_container_id uc.2 = kps.1 ∧
    cp_power uc.2 = aggregate_power (pp_power <$> kps.2).
Proof.
  destruct kps as [k ps]. intros [Hne Hin]%group_push_elem. destruct ps as [|p ps]; [done|].
  destruct (contained_resolves l k p (Hin p ltac:(left))) as ([info Hi] & _).
  unfold build_container. cbn. rewrite Hi. eexists. split; [done|]. split; [done|]. split; [by exists info|done].
Qed.

Definition containers_of (l : list ProcessPower) :=
  omap (build_container resolver) (hm_iter (group_push (omap contained l))).

Lemma containers_of_elem l u c : (u, c) ∈ containers_of l →
  cgroup_resolves (cp_cgroup_id c) ∧ cp_power c = aggregate_power (pp_power <$> cp_processes c) ∧
  ∀ p, p ∈ cp_processes c → (cp_container_id c, p) ∈ omap contained l.
Proof.
  intros ([k ps] & Hin & Hb)%list_elem_of_omap.
  destruct (build_container_total l _ Hin) as ([u' c'] & Hb' & Hp & Hr & Hk & Hpow).
  rewrite Hb in Hb'. injection Hb' as <- <-. cbn in *. split; [done|]. split; [by rewrite Hp|].
  apply group_push_elem in Hin as [_ Hin]. intros p. rewrite Hp, Hk. apply Hin.
Qed.

(** Step 3: every pod group builds. *)
Lemma build_pod_total l ucs : ucs ∈ hm_iter (group_push (containers_of l)) →
  ∃ np, build_pod resolver ucs = Some np ∧ pod_containers np.2 = ucs.2 ∧
    pod_pow np.2 = aggregate_power (cp_power <$> ucs.2) ∧ pod_uid np.2 = ucs.1 ∧ pod_namespace np.2 = np.1.
Proof.
  destruct ucs as [u cs]. intros [Hne Hin]%group_push_elem. destruct cs as [|c cs]; [done|].
  destruct (containers_of_elem l u c (Hin c ltac:(left))) as ([info Hi] & _).
  unfold build_pod. cbn. rewrite Hi. eexists. split; [done|]. done.
Qed.

Definition pods_of (l : list ProcessPower) :=
  omap (build_pod resolver) (hm_iter (group_push (containers_of l))).

Lemma enrich_pods s : pods (enrich s) ≡ₚ (pods_of (processes s)).*2.
Proof. apply group_push_perm. Qed.

Lemma enrich_pod_processes s :
  (p ← pods (enrich s); c ← pod_containers p; cp_processes c) ≡ₚ (omap contained (processes s)).*2.
Proof.
  transitivity ((pods (enrich s) ≫= pod_containers) ≫= cp_processes).
  { induction (pods (enrich s)) as [|x xs IH]; [done|]. cbn [mbind list_bind]. by rewrite bind_app, IH. }
  rewrite enrich_pods. unfold pods_of. rewrite (omap_keeps _ pod_containers).
  2:{ intros kx Hin. destruct (build_pod_total _ _ Hin) as (np & ? & ? & _). eauto. }
  rewrite group_push_perm. unfold containers_of. rewrite (omap_keeps _ cp_processes).
  2:{ intros kx Hin. destruct (build_container_total _ _ Hin) as (uc & ? & ? & _). eauto. }
  by rewrite group_push_perm.
Qed.

(** C20: enrichment loses and duplicates no process.  The processes left
    uncontained and those under the containers of the pods are exactly the
    snapshot's, each with its command name filled in. *)
Theorem enrich_keeps_processes s :
  processes (enrich s) ++ (p ← pods (enrich s); c ← pod_containers p; cp_processes c)
    ≡ₚ set_comm <$> processes s.
Proof.
  rewrite enrich_pod_processes. cbn [processes Enrich.enrich].
  induction (processes s) as [|p l IH]; [done|]. rewrite fmap_cons, <-IH. cbn [omap list_omap].
  unfold Enrich.contained, Enrich.uncontained. destruct (resolve resolver (pp_cgroup_id p)); cbn; solve_Permutation.
Qed.

Lemma enrich_pod_inv s p : p ∈ pods (enrich s) →
  ∃ u, (u, pod_containers p) ∈ hm_iter (group_push (containers_of (processes s))) ∧
    pod_pow p = aggregate_power (cp_power <$> pod_containers p).
Proof.
  rewrite enrich_pods. intros ([n p'] & -> & Hin)%list_elem_of_fmap.
  apply list_elem_of_omap in Hin as ([u cs] & Hin & Hb).
  destruct (build_pod_total _ _ Hin) as ([n' p''] & Hb' & Hc & Hpow & _).
  rewrite Hb in Hb'. injection Hb' as <- <-. cbn in *. exists u. by rewrite Hc.
Qed.

Lemma pod_field s p f : p ∈ pods (enrich s) → f ∈ power_fields →
  f (pod_pow p) = sum_u64 (f ∘ pp_power <$> (c ← pod_containers p; cp_processes c)).
Proof.
  intros Hpod Hf. apply (enrich_pod_inv s) in Hpod as (u & Hin & ->). rewrite aggregate_power_field by done.
  rewrite <-(sum_u64_concat cp_processes (f ∘ pp_power)), <-list_fmap_compose. f_equal.
  apply list_fmap_ext. intros i c Hc%list_elem_of_lookup_2. cbn.
  apply group_push_elem in Hin as [_ Hin]. destruct (containers_of_elem _ _ _ (Hin c Hc)) as (_ & -> & _).
  rewrite aggregate_power_field by done. by rewrite <-list_fmap_compose.
Qed.

(** *** Which pod and namespace a process is counted in *)

(** A container is in one pod and a pod in one namespace. *)
Definition resolver_consistent : Prop := ∀ a b ia ib,
  resolve resolver a = Some ia → resolve resolver b = Some ib →
  (ci_container_id ia = ci_container_id ib → ci_pod_uid ia = ci_pod_uid ib) ∧
  (ci_pod_uid ia = ci_pod_uid ib → ci_namespace ia = ci_namespace ib).
(** What the resolver says of a process. *)
Definition process_pod (q : ProcessPower) : option string := ci_pod_uid <$> resolve resolver (pp_cgroup_id q).
Definition process_namespace (q : ProcessPower) : option string := ci_namespace <$> resolve resolver (pp_cgroup_id q).
Definition pod_processes (p : PodPower) : list ProcessPower := c ← pod_containers p; cp_processes c.

Lemma containers_of_head l u c : (u, c) ∈ containers_of l →
  ∃ info, resolve resolver (cp_cgroup_id c) = Some info ∧ ci_pod_uid info = u ∧ ci_container_id info = cp_container_id c.
Proof.
  intros ([k ps] & Hin & Hb)%list_elem_of_omap. apply group_push_elem in Hin as [Hne Hin]. destruct ps as [|p ps]; [done|].
  destruct (contained_resolves l k p (Hin p ltac:(left))) as (_ & info & Hi & Hk).
  unfold build_container in Hb. cbn in Hb. rewrite Hi in Hb. injection Hb as <- <-. exists info. done.
Qed.
Lemma pods_of_elem l n p : (n, p) ∈ pods_of l →
  n = pod_namespace p ∧ (pod_uid p, pod_containers p) ∈ hm_iter (group_push (containers_of l)) ∧
  ∃ c info, c ∈ pod_containers p ∧ resolve resolver (cp_cgroup_id c) = Some info ∧ ci_namespace info = pod_namespace p.
Proof.
  intros ([u cs] & Hin & Hb)%list_elem_of_omap. pose proof (group_push_elem _ _ _ Hin) as [Hne _].
  unfold build_pod in Hb. destruct cs as [|c cs]; [done|]. cbn in Hb.
  destruct (resolve resolver (cp_cgroup_id c)) as [info|] eqn:Hi; [|done]. injection Hb as <- <-. split; [done|].
  split; [done|]. exists c, info. split; [left|done].
Qed.
Lemma pods_of_processes l n p q : resolver_consistent → (n, p) ∈ pods_of l → q ∈ pod_processes p →
  process_pod q = Some (pod_uid p) ∧ process_namespace q = Some n.
Proof.
  intros Hcons (-> & Hin & c0 & i0 & Hc0 & Hi0 & Hns)%pods_of_elem (c & Hq & Hc)%list_elem_of_bind.
  apply group_push_elem in Hin as [_ Hin].
  destruct (containers_of_head _ _ _ (Hin c0 Hc0)) as (i0' & Hi0' & Hu0 & _). rewrite Hi0 in Hi0'. injection Hi0' as <-.
  destruct (containers_of_head _ _ _ (Hin c Hc)) as (ic & Hic & Hu & Hid).
  destruct (containers_of_elem _ _ _ (Hin c Hc)) as (_ & _ & Hp).
  destruct (contained_resolves _ _ _ (Hp q Hq)) as (_ & iq & Hiq & Hqid).
  assert (ci_pod_uid iq = pod_uid p) as Huq.
  { rewrite <-Hu. apply (Hcons _ _ _ _ Hiq Hic). congruence. }
  unfold process_pod, process_namespace. rewrite Hiq. cbn. split; f_equal; [done|]. rewrite <-Hns.
  apply (Hcons _ _ _ _ Hiq Hi0). congruence.
Qed.

(** The pods are listed once each, under their namespaces. *)
Lemma enrich_uids s : NoDup (pod_uid <$> pods (enrich s)).
Proof.
  rewrite enrich_pods. unfold pods_of. pose proof (hm_keys_NoDup (group_push (containers_of (processes s)))) as Hnd.
  unfold hm_keys in Hnd. assert (∀ ucs, ucs ∈ hm_iter (group_push (containers_of (processes s))) →
    ∃ np, build_pod resolver ucs = Some np ∧ pod_uid np.2 = ucs.1) as Hb.
  { intros ucs Hin. destruct (build_pod_total _ _ Hin) as (np & ? & _ & _ & ? & _). eauto. }
  revert Hnd Hb. generalize (hm_iter (group_push (containers_of (processes s)))) as L.
  intros L Hnd Hb. assert (pod_uid <$> (omap (build_pod resolver) L).*2 = L.*1) as ->; [|done].
  clear Hnd. induction L as [|ucs L IH]; [done|]. destruct (Hb ucs ltac:(left)) as (np & Hnp & Hu). cbn [omap list_omap].
  rewrite Hnp. rewrite !fmap_cons, Hu. f_equal. apply IH. intros u Hin. apply Hb. by right.
Qed.
Lemma namespace_entry s n ps : (n, ps) ∈ hm_iter (group_push (pods_of (processes s))) →
  filter (λ p, pod_namespace p = n) (pods (enrich s)) = ps.
Proof.
  intros Hin. cbn [pods Enrich.enrich].
  change ps with (n, ps).2 at 1. change n with (n, ps).1 at 1.
  refine (filter_bind_group fst snd pod_namespace _ _ _ _ Hin); [apply hm_keys_NoDup|].
  intros [n' ps'] p [_ Hps]%group_push_elem Hp. by destruct (pods_of_elem _ _ _ (Hps p Hp)) as (-> & _).
Qed.

Lemma contained_filter (l : list ProcessPower) (kf : ProcessPower → option string) k f :
  (∀ q, kf q = Some k → cgroup_resolves (pp_cgroup_id q)) → (∀ q, kf (set_comm q) = kf q) →
  sum_u64 (f ∘ pp_power <$> filter (λ q, kf q = Some k) (omap contained l).*2) =
  sum_u64 (f ∘ pp_power <$> filter (λ q, kf q = Some k) l).
Proof.
  intros Hr Hk. assert ((f ∘ pp_power <$> filter (λ q, kf q = Some k) (omap contained l).*2) =
    (f ∘ pp_power <$> filter (λ q, kf q = Some k) l)) as ->; [|done].
  induction l as [|q l IH]; [done|]. rewrite filter_cons. cbn [omap list_omap]. unfold Enrich.contained at 1.
  destruct (resolve resolver (pp_cgroup_id q)) as [info|] eqn:Hi.
  - rewrite fmap_cons, filter_cons. cbn [snd]. destruct (decide (kf q = Some k)) as [Hq|Hq].
    + rewrite decide_True by (by rewrite Hk). rewrite !fmap_cons, IH. done.
    + rewrite decide_False by (by rewrite Hk). apply IH.
  - rewrite decide_False by (intros [? Hq]%Hr; by rewrite Hi in Hq). apply IH.
Qed.

Lemma pod_by_resolver s p f : resolver_consistent → p ∈ pods (enrich s) → f ∈ power_fields →
  f (pod_pow p) = sum_u64 (f ∘ pp_power <$> filter (λ q, process_pod q = Some (pod_uid p)) (processes s)).
Proof.
  intros Hc Hp Hf. rewrite (pod_field s p f Hp Hf), <-(contained_filter (processes s) process_pod).
  - rewrite <-enrich_pod_processes. change (λ p, c ← pod_containers p; cp_processes c) with pod_processes.
    change (c ← pod_containers p; cp_processes c) with (pod_processes p).
    rewrite (filter_bind_group (λ p, Some (pod_uid p)) pod_processes process_pod); [done|..|done].
    + pose proof (enrich_uids s) as Hnd. rewrite (list_fmap_compose pod_uid Some). apply NoDup_fmap_2; [apply _|done].
    + intros p' q Hp' Hq. rewrite enrich_pods in Hp'. apply list_elem_of_fmap in Hp' as ([n p''] & -> & Hin).
      by apply (pods_of_processes _ n p'' q Hc Hin).
  - intros q. unfold process_pod, cgroup_resolves. destruct (resolve _ _); [by eexists|done].
  - done.
Qed.
Lemma namespace_by_resolver (s : AttributionSnapshot F) n ps f : resolver_consistent → (n, ps) ∈ hm_iter (group_push (pods_of (processes s))) →
  f ∈ power_fields →
  sum_u64 (f ∘ pod_pow <$> ps) = sum_u64 (f ∘ pp_power <$> filter (λ q, process_namespace q = Some n) (processes s)).
Proof.
  intros Hc Hn Hf. rewrite <-(contained_filter (processes s) process_namespace).
  - rewrite <-enrich_pod_processes. change (λ p, c ← pod_containers p; cp_processes c) with pod_processes.
    assert (pods (enrich s) ≫= pod_processes =
      hm_iter (group_push (pods_of (processes s))) ≫= (λ nps, nps.2 ≫= pod_processes)) as ->.
    { cbn [pods Enrich.enrich]. change (omap (build_pod resolver) _) with (pods_of (processes s)).
      clear Hn. induction (hm_iter _) as [|x xs IH]; [done|]. cbn [mbind list_bind]. by rewrite bind_app, IH. }
    pose proof (filter_bind_group (λ nps, Some nps.1) (λ nps : string * list PodPower, nps.2 ≫= pod_processes)
      process_namespace (hm_iter (group_push (pods_of (processes s)))) (n, ps)) as Hg. cbn [fst snd] in Hg.
    rewrite Hg; [|..|done].
    + rewrite <-sum_u64_concat. f_equal. apply list_fmap_ext. intros i p Hp%list_elem_of_lookup_2. cbn.
      apply (pod_field s); [|done]. cbn [pods Enrich.enrich]. apply list_elem_of_bind. exists (n, ps). done.
    + pose proof (NoDup_fmap_2 Some _ (hm_keys_NoDup (group_push (pods_of (processes s))))) as Hnd.
      unfold hm_keys in Hnd. by rewrite <-list_fmap_compose in Hnd.
    + intros [n' ps'] q Hin (p & Hq & Hp)%list_elem_of_bind. apply group_push_elem in Hin as [_ Hin].
      by apply (pods_of_processes _ n' p q Hc (Hin p Hp)).
  - intros q. unfold process_namespace, cgroup_resolves. destruct (resolve _ _); [by eexists|done].
  - done.
Qed.

(** C28: power adds up at every level.  For each component and modulo 2^64: a
    pod's power is the sum over the processes of its containers and a namespace's
    power is the sum over its own pods, each pod and each namespace being listed
    once and each pod's namespace being among them.  When the resolver is
    consistent (a container in one pod, a pod in one namespace), a pod's power is
    the sum over exactly the processes of the snapshot that the resolver puts in
    that pod, and a namespace's over exactly those it puts in that namespace. *)
Theorem enrich_power_adds_up s f : f ∈ power_fields →
  let s' := enrich s in
  NoDup (pod_uid <$> pods s') ∧ NoDup (np_namespace <$> namespaces s') ∧
  (∀ p, p ∈ pods s' → pod_namespace p ∈ np_namespace <$> namespaces s' ∧
     f (pod_pow p) = sum_u64 (f ∘ pp_power <$> pod_processes p)) ∧
  (∀ e, e ∈ namespaces s' →
     let ps := filter (λ p, pod_namespace p = np_namespace e) (pods s') in
     np_pod_count e = length ps ∧ f (np_power e) = sum_u64 (f ∘ pod_pow <$> ps)) ∧
  (resolver_consistent →
     (∀ p, p ∈ pods s' → f (pod_pow p) =
        sum_u64 (f ∘ pp_power <$> filter (λ q, process_pod q = Some (pod_uid p)) (processes s))) ∧
     (∀ e, e ∈ namespaces s' → f (np_power e) =
        sum_u64 (f ∘ pp_power <$> filter (λ q, process_namespace q = Some (np_namespace e)) (processes s)))).
Proof.
  intros Hf. cbn zeta. set (G := hm_iter (group_push (pods_of (processes s)))).
  assert (namespaces (enrich s) = build_namespace <$> G) as HG by done.
  assert (np_namespace <$> namespaces (enrich s) = G.*1) as Hkeys by (rewrite HG, <-list_fmap_compose; done).
  split; [apply enrich_uids|]. split; [rewrite Hkeys; apply hm_keys_NoDup|]. split; [|split].
  - intros p Hp. split; [|by apply (pod_field s)]. rewrite Hkeys.
    change (pods (enrich s)) with (G ≫= snd) in Hp. apply list_elem_of_bind in Hp as ([n ps] & Hps & Hin).
    apply list_elem_of_fmap. exists (n, ps). split; [|done]. cbn.
    apply group_push_elem in Hin as [_ Hin]. by destruct (pods_of_elem _ _ _ (Hin p Hps)) as (-> & _).
  - intros e. rewrite HG. intros ([n ps] & -> & Hin)%list_elem_of_fmap. cbn [build_namespace np_namespace np_power np_pod_count fst snd].
    rewrite (namespace_entry s n ps Hin). split; [done|]. rewrite aggregate_power_field by done. by rewrite <-list_fmap_compose.
  - intros Hc. split; [intros p Hp; by apply pod_by_resolver|].
    intros e. rewrite HG. intros ([n ps] & -> & Hin)%list_elem_of_fmap. cbn [build_namespace np_namespace np_power fst snd].
    rewrite aggregate_power_field by done. rewrite <-list_fmap_compose. by apply namespace_by_resolver.
Qed.

(** No process is reported under a container it does not belong to. *)
Theorem enrich_isolates s p c q : p ∈ pods (enrich s) → c ∈ pod_containers p → q ∈ cp_processes c →
  ∃ info, resolve resolver (pp_cgroup_id q) = Some info ∧ ci_container_id info = cp_container_id c.
Proof.
  intros Hpod Hc Hq. apply (enrich_pod_inv s) in Hpod as (u & Hin & _). apply group_push_elem in Hin as [_ Hin].
  destruct (containers_of_elem _ _ _ (Hin c Hc)) as (_ & _ & Hp).
  destruct (contained_resolves _ _ _ (Hp q Hq)) as (_ & info & Hi & Hid). eauto.
Qed.
End enrich_theorems.

(** ** Witnesses: two processes in one container, one outside *)

#[local] Existing Instance hash_iter_list.

Definition demo_resolver : CgroupResolver :=
  {| cgroup_map := {[7 := {| ci_container_id := "c1"; ci_container_name := "app"; ci_pod_uid := "u1";
                             ci_pod_name := "web"; ci_namespace := "shop" |}]} |}.
Definition demo_process (pid cgroup uw : Z) : ProcessPower :=
  {| pp_pid := pid; pp_comm := EmptyString; pp_cgroup_id := cgroup;
     pp_power := {| cpu_uw := uw; memory_uw := 1; gpu_uw := 0; nic_uw := 0; storage_uw := 0 |};
     pp_core_detail := []; pp_method := CpuTimeRatio |}.
Definition demo_raw : AttributionSnapshot f64 :=
  {| timestamp := 0; interval_ns := 1;
     node := {| measured := PowerBreakdown_default; node_platform_uw := None; attributed_total_uw := 0 |};
     processes := [demo_process 1 7 30; demo_process 2 0 50; demo_process 3 7 12];
     pods := []; namespaces := []; idle_power := PowerBreakdown_default;
     reconciliation := {| rec_platform_uw := None; component_sum_uw := 0; attributed_sum_uw := 0;
                          unaccounted_uw := 0; error_ratio := fzero |} |}.
Definition demo_enriched : AttributionSnapshot f64 := enrich (λ _, None) demo_resolver demo_raw.

Lemma demo_resolver_consistent : resolver_consistent demo_resolver.
Proof.
  intros a b ia ib. unfold resolve. cbn [demo_resolver cgroup_map].
  by intros [_ <-]%lookup_singleton_Some [_ <-]%lookup_singleton_Some.
Qed.
Lemma enrich_power_adds_up_witness :
  (cpu_uw ∘ np_power <$> namespaces demo_enriched) = [42] ∧
  Forall (λ e, cpu_uw (np_power e) = sum_u64 (cpu_uw ∘ pp_power <$>
    filter (λ q, process_namespace demo_resolver q = Some (np_namespace e)) (processes demo_raw))) (namespaces demo_enriched).
Proof.
  split; [vm_compute; reflexivity|].
  destruct (enrich_power_adds_up (λ _, None) demo_resolver demo_raw cpu_uw) as (_ & _ & _ & _ & H); [left|].
  apply Forall_forall. exact (proj2 (H demo_resolver_consistent)).
Defined.

Definition demo_in_pod : list (string * Z) :=
  p ← pods demo_enriched; c ← pod_containers p; q ← cp_processes c; [(cp_container_id c, pp_pid q)].
Lemma enrich_isolates_witness :
  demo_in_pod = [("c1", 1); ("c1", 3)] ∧
  Forall (λ p, Forall (λ c, Forall (λ q, ∃ info, resolve demo_resolver (pp_cgroup_id q) = Some info ∧
    ci_container_id info = cp_container_id c) (cp_processes c)) (pod_containers p)) (pods demo_enriched).
Proof.
  split; [vm_compute; reflexivity|].
  apply Forall_forall. intros p Hp. apply Forall_forall. intros c Hc. apply Forall_forall. intros q Hq.
  exact (enrich_isolates (λ _, None) demo_resolver demo_raw p c q Hp Hc Hq).
Defined.
