(* ===== verification/Collector.v ===== *)
(** * Collector: tiered polling of the power meters

    keck-agent/src/hardware/mod.rs (readings and the [PowerSource] trait) and
    keck-agent/src/hardware/collector.rs.  What a meter answers when it is read
    is an argument of each tick ([answer i] for the i-th source, which a tick
    reads at most once); times and durations are nanoseconds. *)

From S2P Require Import Prelude F64 Common Engine.

Open Scope Z_scope.

Inductive Granularity :=
| Node
| Socket (s : Z)
| Core (s c : Z)
| Device (d : Z).

Record PowerReading := {
  source_id : string;
  r_timestamp : Z;
  r_component : Component;
  r_granularity : Granularity;
  r_type : ReadingType;
  energy_uj : option Z;
  power_uw : option Z;
  max_energy_uj : Z
}.

Inductive SourceError :=
| Unavailable (msg : string)
| PermissionDenied (msg : string)
| Read (msg : string)
| Parse (msg : string).

(** The static half of the trait; [read] is the environment. *)
Record PowerSource := {
  src_id : string;
  src_name : string;
  src_component : Component;
  src_granularity : Granularity;
  src_reading_type : ReadingType;
  default_poll_interval : Z
}.

Record CollectorConfig := {
  fast_interval : Z;
  medium_interval : Z;
  slow_interval : Z;
  heartbeat_interval : Z
}.
Definition ms : Z := 1000000.
Definition CollectorConfig_default : CollectorConfig :=
  {| fast_interval := 100 * ms; medium_interval := 500 * ms; slow_interval := 3000 * ms;
     heartbeat_interval := 5000 * ms |}.

Inductive Tier := Fast | Medium | Slow.
#[global] Instance Tier_eq_dec : EqDecision Tier.
Proof. solve_decision. Defined.

Record RegisteredSource := {
  source : PowerSource;
  tier : Tier;
  last_reading : option PowerReading;
  prev_reading : option PowerReading
}.

Record HwReconciliation (F : Type) := {
  hr_platform_uw : option Z;
  hr_component_sum_uw : Z;
  hr_per_component : gmap Component Z;
  hr_unaccounted_uw : Z;
  hr_error_ratio : F;
  hr_timestamp : Z
}.
Arguments hr_platform_uw {F} _.
Arguments hr_component_sum_uw {F} _.
Arguments hr_per_component {F} _.
Arguments hr_unaccounted_uw {F} _.
Arguments hr_error_ratio {F} _.
Arguments hr_timestamp {F} _.

Record HardwareCollector (F : Type) := {
  sources : list RegisteredSource;
  config : CollectorConfig;
  last_heartbeat : Z;
  last_fast : Z;
  last_medium : Z;
  last_slow : Z;
  last_reconciliation : option (HwReconciliation F);
  num_sockets : Z
}.
Arguments sources {F} _.
Arguments config {F} _.
Arguments last_heartbeat {F} _.
Arguments last_fast {F} _.
Arguments last_medium {F} _.
Arguments last_slow {F} _.
Arguments last_reconciliation {F} _.
Arguments num_sockets {F} _.

Definition classify_tier (s : PowerSource) (c : CollectorConfig) : Tier :=
  let interval := default_poll_interval s in
  if interval <=? fast_interval c then Fast
  else if interval <=? medium_interval c then Medium
  else Slow.

(** [later.duration_since(earlier).as_nanos() as u64]. *)
Definition nanos_since (later earlier : Z) : Z := u64_wrap (sat_sub later earlier).

Definition compute_energy_delta (current previous : PowerReading) : Z :=
  match energy_uj current, energy_uj previous with
  | Some curr, Some prev =>
      if prev <=? curr then curr - prev
      else if 0 <? max_energy_uj current then u64_add (u64_sub (max_energy_uj current) prev) curr
      else curr
  | None, None =>
      match power_uw current, power_uw previous with
      | Some curr_pw, Some _ =>
          let interval_ns := nanos_since (r_timestamp current) (r_timestamp previous) in
          u64_wrap (u128_wrap (curr_pw * interval_ns) / 1000000000)
      | _, _ => 0
      end
  | _, _ => 0
  end.

Definition read_source (answer : result PowerReading SourceError) (reg : RegisteredSource)
    : bool * RegisteredSource :=
  match answer with
  | Ok reading => (true, {| source := source reg; tier := tier reg; last_reading := Some reading;
                            prev_reading := last_reading reg |})
  | Err _ => (false, reg)
  end.

Section collector.
Context `{HI : HashIter} `{FO : FloatOps F}.

Definition HardwareCollector_new (now : Z) (srcs : list PowerSource) (cfg : CollectorConfig) (n : Z)
    : HardwareCollector F := {|
  sources := (λ s, {| source := s; tier := classify_tier s cfg; last_reading := None; prev_reading := None |}) <$> srcs;
  config := cfg; last_heartbeat := now; last_fast := now; last_medium := now; last_slow := now;
  last_reconciliation := None; num_sockets := n
|}.

Definition with_sources (c : HardwareCollector F) (srcs : list RegisteredSource) : HardwareCollector F :=
  {| sources := srcs; config := config c; last_heartbeat := last_heartbeat c; last_fast := last_fast c;
     last_medium := last_medium c; last_slow := last_slow c; last_reconciliation := last_reconciliation c;
     num_sockets := num_sockets c |}.

Definition read_all (answer : nat → result PowerReading SourceError) (c : HardwareCollector F)
    : HardwareCollector F :=
  with_sources c (imap (λ i reg, (read_source (answer i) reg).2) (sources c)).

Definition read_tier (answer : nat → result PowerReading SourceError) (t : Tier) (c : HardwareCollector F)
    : bool * HardwareCollector F :=
  let read := imap (λ i reg, if decide (tier reg = t) then read_source (answer i) reg else (false, reg)) (sources c) in
  (existsb fst read, with_sources c (read.*2)).

(** The power a source contributes, if it has one yet. *)
Definition source_power (reg : RegisteredSource) : option (Component * Z) :=
  match last_reading reg with
  | None => None
  | Some reading =>
      match power_uw reading with
      | Some pw => Some (r_component reading, pw)
      | None =>
          match prev_reading reg with
          | Some prev =>
              let delta := compute_energy_delta reading prev in
              let interval := nanos_since (r_timestamp reading) (r_timestamp prev) in
              Some (r_component reading,
                    if 0 <? interval then u64_wrap (u128_wrap (delta * 1000000000) / interval) else 0)
          | None => None
          end
      end
  end.

Definition reconcile_step (acc : gmap Component Z * option Z) (reg : RegisteredSource)
    : gmap Component Z * option Z :=
  match source_power reg with
  | None => acc
  | Some (c, power) =>
      if decide (c = Platform) then (acc.1, Some power)
      else (hm_upd c 0 (λ v, u64_add v power) acc.1, acc.2)
  end.

Definition reconcile (now : Z) (c : HardwareCollector F) : HardwareCollector F :=
  let '(per_component, platform_uw) := foldl reconcile_step (∅, None) (sources c) in
  let component_sum := sum_u64 (hm_values per_component) in
  let '(unaccounted, err) :=
    match platform_uw with
    | Some platform =>
        let unaccounted := i64_wrap (i64_wrap platform - i64_wrap component_sum) in
        (unaccounted, if 0 <? platform then fdiv (f_of_Z (unsigned_abs unaccounted)) (f_of_Z platform) else fzero)
    | None => (0, fzero)
    end in
  {| sources := sources c; config := config c; last_heartbeat := last_heartbeat c; last_fast := last_fast c;
     last_medium := last_medium c; last_slow := last_slow c;
     last_reconciliation := Some {| hr_platform_uw := platform_uw; hr_component_sum_uw := component_sum;
       hr_per_component := per_component; hr_unaccounted_uw := unaccounted; hr_error_ratio := err;
       hr_timestamp := now |};
     num_sockets := num_sockets c |}.

Definition with_times (c : HardwareCollector F) (hb f m s : Z) : HardwareCollector F :=
  {| sources := sources c; config := config c; last_heartbeat := hb; last_fast := f; last_medium := m;
     last_slow := s; last_reconciliation := last_reconciliation c; num_sockets := num_sockets c |}.

(** [tick] at [now]; the reconciliation of a heartbeat reads the clock again. *)
Definition tick (now now' : Z) (answer : nat → result PowerReading SourceError) (c : HardwareCollector F)
    : bool * HardwareCollector F :=
  if heartbeat_interval (config c) <=? sat_sub now (last_heartbeat c) then
    (true, with_times (reconcile now' (read_all answer c)) now now now now)
  else
    let '(any1, c) :=
      if fast_interval (config c) <=? sat_sub now (last_fast c) then
        let '(b, c) := read_tier answer Fast c in
        (b, with_times c (last_heartbeat c) now (last_medium c) (last_slow c))
      else (false, c) in
    let '(any2, c) :=
      if medium_interval (config c) <=? sat_sub now (last_medium c) then
        let '(b, c) := read_tier answer Medium c in
        (any1 || b, with_times c (last_heartbeat c) (last_fast c) now (last_slow c))
      else (any1, c) in
    if slow_interval (config c) <=? sat_sub now (last_slow c) then
      let '(b, c) := read_tier answer Slow c in
      (any2 || b, with_times c (last_heartbeat c) (last_fast c) (last_medium c) now)
    else (any2, c).

Definition energy_step (e : EnergyInput) (reg : RegisteredSource) : EnergyInput :=
  match last_reading reg, prev_reading reg with
  | Some current, Some previous =>
      let delta := compute_energy_delta current previous in
      if delta =? 0 then e else
      match r_component current, r_granularity current with
      | Cpu, Socket s =>
          {| socket_energy_uj := <[Z.to_nat s := delta]> (socket_energy_uj e); dram_energy_uj := dram_energy_uj e;
             gpu_energy_uj := gpu_energy_uj e; platform_energy_uj := platform_energy_uj e;
             in_interval_ns := in_interval_ns e |}
      | Memory, Socket s =>
          {| socket_energy_uj := socket_energy_uj e; dram_energy_uj := <[Z.to_nat s := delta]> (dram_energy_uj e);
             gpu_energy_uj := gpu_energy_uj e; platform_energy_uj := platform_energy_uj e;
             in_interval_ns := in_interval_ns e |}
      | Gpu, _ =>
          {| socket_energy_uj := socket_energy_uj e; dram_energy_uj := dram_energy_uj e;
             gpu_energy_uj := gpu_energy_uj e ++ [delta]; platform_energy_uj := platform_energy_uj e;
             in_interval_ns := in_interval_ns e |}
      | Platform, _ =>
          {| socket_energy_uj := socket_energy_uj e; dram_energy_uj := dram_energy_uj e;
             gpu_energy_uj := gpu_energy_uj e; platform_energy_uj := Some delta;
             in_interval_ns := in_interval_ns e |}
      | _, _ => e
      end
  | _, _ => e
  end.

(** The list update does nothing out of range, as the source's guard. *)
Definition energy_input (c : HardwareCollector F) (interval_ns : Z) : EnergyInput :=
  foldl energy_step
    {| socket_energy_uj := replicate (Z.to_nat (num_sockets c)) 0;
       dram_energy_uj := replicate (Z.to_nat (num_sockets c)) 0;
       gpu_energy_uj := []; platform_energy_uj := None; in_interval_ns := interval_ns |}
    (sources c).
End collector.

(** ** Energy deltas *)

(** Counter wrap-around is undone.  If a meter's counter is the true energy
    modulo its range, and less than one full range passes between two reads, the
    delta is exactly the energy used. *)
Theorem compute_energy_delta_exact cur prev T0 T1 :
  0 < max_energy_uj cur < u64_mod → 0 <= T0 → T0 <= T1 < T0 + max_energy_uj cur →
  energy_uj cur = Some (T1 mod max_energy_uj cur) → energy_uj prev = Some (T0 mod max_energy_uj cur) →
  compute_energy_delta cur prev = T1 - T0.
Proof.
  intros HM H0 H1 Hc Hp. unfold compute_energy_delta. rewrite Hc, Hp. set (M := max_energy_uj cur) in *.
  pose proof (Z.mod_pos_bound T1 M ltac:(lia)). pose proof (Z.mod_pos_bound T0 M ltac:(lia)).
  assert (T1 - T0 = T1 mod M - T0 mod M ∨ T1 - T0 = T1 mod M - T0 mod M + M) as Heq.
  { pose proof (Z.div_mod T1 M ltac:(lia)). pose proof (Z.div_mod T0 M ltac:(lia)).
    assert (T1 / M = T0 / M ∨ T1 / M = T0 / M + 1) as [Hd|Hd] by nia; rewrite Hd in *; [left|right]; lia. }
  destruct (Z.leb_spec (T0 mod M) (T1 mod M)); [lia|].
  destruct (Z.ltb_spec 0 M); [|lia].
  unfold u64_sub. rewrite u64_wrap_id by (unfold is_u64; lia). rewrite u64_add_exact by lia. lia.
Qed.

(** A power-only meter is integrated: the delta is the current power times
    the time since the previous reading, rounded down to a microjoule. *)
Theorem compute_energy_delta_power cur prev pw pw' :
  energy_uj cur = None → energy_uj prev = None → power_uw cur = Some pw → power_uw prev = Some pw' →
  is_u64 pw → 0 <= r_timestamp cur - r_timestamp prev < u64_mod →
  pw * (r_timestamp cur - r_timestamp prev) < u64_mod * 1000000000 →
  let d := compute_energy_delta cur prev in
  d * 1000000000 <= pw * (r_timestamp cur - r_timestamp prev) < (d + 1) * 1000000000.
Proof.
  intros H1 H2 H3 H4 Hpw Ht Hb. unfold compute_energy_delta, nanos_since. rewrite H1, H2, H3, H4.
  rewrite sat_sub_exact by lia. set (t := r_timestamp cur - r_timestamp prev) in *. unfold is_u64 in *.
  rewrite (u64_wrap_id t) by done. unfold u128_wrap.
  rewrite (Z.mod_small (pw * t)) by (split; [nia|unfold u128_mod, u64_mod in *; nia]).
  assert (0 <= pw * t) by nia. generalize dependent (pw * t). intros x Hx Hx0.
  assert (0 <= x / 1000000000 < u64_mod) by (split; [apply Z.div_pos; lia|apply Z.div_lt_upper_bound; lia]).
  rewrite u64_wrap_id by done. cbn zeta. pose proof (Z.mul_div_le x 1000000000).
  pose proof (Z.mul_succ_div_gt x 1000000000). lia.
Qed.

Section tick_theorems.
Context `{HI : HashIter} `{FO : FloatOps F}.

Definition tier_interval (cfg : CollectorConfig) (t : Tier) : Z :=
  match t with Fast => fast_interval cfg | Medium => medium_interval cfg | Slow => slow_interval cfg end.
Definition last_of (c : HardwareCollector F) (t : Tier) : Z :=
  match t with Fast => last_fast c | Medium => last_medium c | Slow => last_slow c end.
(** Whether a tick at [now] is to read the sources of a tier. *)
Definition due (now : Z) (c : HardwareCollector F) (t : Tier) : bool :=
  (heartbeat_interval (config c) <=? sat_sub now (last_heartbeat c))
  || (tier_interval (config c) t <=? sat_sub now (last_of c t)).

Lemma imap_imap {A B C} (f : nat → A → B) (g : nat → B → C) l :
  imap g (imap f l) = imap (λ i x, g i (f i x)) l.
Proof.
  apply list_eq. intros i. rewrite !list_lookup_imap. by destruct (l !! i).
Qed.

Definition read_if (b : bool) (answer : result PowerReading SourceError) (reg : RegisteredSource) : RegisteredSource :=
  if b then (read_source answer reg).2 else reg.
Lemma read_source_tier a reg : tier (read_source a reg).2 = tier reg.
Proof. by destruct a. Qed.

Lemma read_if_tier b a reg : tier (read_if b a reg) = tier reg.
Proof. destruct b; [apply read_source_tier|done]. Qed.
Lemma read_tier_sources answer t (c : HardwareCollector F) :
  sources (read_tier answer t c).2 = imap (λ i reg, read_if (bool_decide (tier reg = t)) (answer i) reg) (sources c).
Proof.
  unfold read_tier. cbn. rewrite fmap_imap. apply imap_ext. intros i reg _. cbn. unfold read_if.
  case_decide; [by rewrite bool_decide_true|by rewrite bool_decide_false].
Qed.
Lemma imap_id_if (l : list RegisteredSource) answer :
  imap (λ i reg, read_if false (answer i) reg) l = l.
Proof. apply list_eq. intros i. rewrite list_lookup_imap. by destruct (l !! i). Qed.

Lemma tick_stage (b : bool) answer t (c : HardwareCollector F) (upd : HardwareCollector F → HardwareCollector F) :
  (∀ c, sources (upd c) = sources c) →
  sources (if b then upd (read_tier answer t c).2 else c) =
    imap (λ i reg, read_if (b && bool_decide (tier reg = t)) (answer i) reg) (sources c).
Proof.
  intros Hu. destruct b; cbn [andb]; [|by rewrite imap_id_if]. by rewrite Hu, read_tier_sources.
Qed.

Definition set_last (t : Tier) (now : Z) (c : HardwareCollector F) : HardwareCollector F :=
  match t with
  | Fast => with_times c (last_heartbeat c) now (last_medium c) (last_slow c)
  | Medium => with_times c (last_heartbeat c) (last_fast c) now (last_slow c)
  | Slow => with_times c (last_heartbeat c) (last_fast c) (last_medium c) now
  end.
(** One tier's turn in a tick that is not a heartbeat. *)
Definition tier_turn (now : Z) answer (t : Tier) (c : HardwareCollector F) : HardwareCollector F :=
  if tier_interval (config c) t <=? sat_sub now (last_of c t)
  then set_last t now (read_tier answer t c).2 else c.

Lemma tick_no_heartbeat now now' answer (c : HardwareCollector F) :
  (heartbeat_interval (config c) <=? sat_sub now (last_heartbeat c)) = false →
  (tick now now' answer c).2 =
    tier_turn now answer Slow (tier_turn now answer Medium (tier_turn now answer Fast c)).
Proof.
  intros Hh. unfold tick. rewrite Hh. unfold tier_turn, set_last. cbn [tier_interval last_of].
  destruct (fast_interval (config c) <=? _); cbn;
  match goal with |- context [medium_interval ?a <=? ?b] => destruct (medium_interval a <=? b) end; cbn;
  match goal with |- context [slow_interval ?a <=? ?b] => destruct (slow_interval a <=? b) end; done.
Qed.
Lemma tier_turn_config now answer t c : config (tier_turn now answer t c) = config c.
Proof. unfold tier_turn. case_match; [by destruct t|done]. Qed.
Lemma tier_turn_last now answer t t' c :
  last_of (tier_turn now answer t c) t' =
    if decide (t = t') then (if tier_interval (config c) t <=? sat_sub now (last_of c t) then now else last_of c t)
    else last_of c t'.
Proof. unfold tier_turn. repeat case_match; destruct t, t'; cbn; congruence || done. Qed.
Lemma tier_turn_heartbeat now answer t c : last_heartbeat (tier_turn now answer t c) = last_heartbeat c.
Proof. unfold tier_turn. case_match; [by destruct t|done]. Qed.
Lemma tier_turn_sources now answer t c :
  sources (tier_turn now answer t c) =
    imap (λ i reg, read_if ((tier_interval (config c) t <=? sat_sub now (last_of c t))
                            && bool_decide (tier reg = t)) (answer i) reg) (sources c).
Proof. apply tick_stage. by destruct t. Qed.

(** A tick reads exactly the sources that are due.  On a heartbeat that is
    all of them, otherwise those whose tier's interval has passed; each is read
    once and every other source is left as it was. *)
Theorem tick_reads_due now now' answer (c : HardwareCollector F) :
  sources (tick now now' answer c).2 =
    imap (λ i reg, read_if (due now c (tier reg)) (answer i) reg) (sources c).
Proof.
  destruct (heartbeat_interval (config c) <=? sat_sub now (last_heartbeat c)) eqn:Hh.
  - unfold tick. rewrite Hh. cbn. unfold reconcile. destruct (foldl _ _ _) as [pc pl].
    destruct pl; cbn; apply imap_ext; intros i reg _; unfold due; by rewrite Hh.
  - rewrite tick_no_heartbeat by done. rewrite tier_turn_sources, tier_turn_sources, tier_turn_sources, !imap_imap.
    rewrite !tier_turn_config, !tier_turn_last. cbn [decide]. apply imap_ext. intros i reg _.
    unfold due. rewrite Hh. cbn [orb]. rewrite !read_if_tier.
    destruct (tier reg) eqn:Ht; cbn; rewrite ?andb_true_r, ?andb_false_r; done.
Qed.

(** After a tick no tier is overdue: each was last read less than its
    interval ago, whatever happened before. *)
Theorem tick_leaves_none_due now now' answer (c : HardwareCollector F) t :
  0 < heartbeat_interval (config c) → 0 < tier_interval (config c) t →
  due now (tick now now' answer c).2 t = false.
Proof.
  intros Hhb Hti. assert (sat_sub now now = 0) as Hz by (unfold sat_sub; lia).
  destruct (heartbeat_interval (config c) <=? sat_sub now (last_heartbeat c)) eqn:Hh.
  - unfold tick. rewrite Hh. cbn. unfold reconcile. destruct (foldl _ _ _) as [pc pl].
    unfold due. destruct pl; destruct t; cbn in *; rewrite Hz; apply orb_false_iff; split; by apply Z.leb_gt.
  - rewrite tick_no_heartbeat by done. unfold due. rewrite !tier_turn_config, !tier_turn_heartbeat, Hh.
    cbn [orb]. rewrite !tier_turn_last, !tier_turn_config.
    destruct t; cbn; repeat case_match; try (rewrite Hz; by apply Z.leb_gt); done.
Qed.
End tick_theorems.

(** ** Reconciliation *)

Section reconcile_theorems.
Context `{HI : HashIter} `{FO : FloatOps F}.

(** The component readings of a collector, and its platform reading (the last
    one wins). *)
Definition component_powers (regs : list RegisteredSource) : list (Component * Z) :=
  filter (λ cp : Component * Z, cp.1 ≠ Platform) (omap source_power regs).
Definition platform_power (regs : list RegisteredSource) : option Z :=
  snd <$> last (filter (λ cp : Component * Z, cp.1 = Platform) (omap source_power regs)).

Lemma foldl_reconcile regs acc :
  foldl reconcile_step acc regs =
    (hm_group_from fst (λ _, 0) (λ cp v, u64_add v cp.2) acc.1 (component_powers regs),
     match platform_power regs with Some p => Some p | None => acc.2 end).
Proof.
  revert acc. induction regs as [|reg regs IH]; intros acc; [by destruct acc|]. cbn [foldl]. rewrite IH.
  unfold component_powers, platform_power, reconcile_step. cbn [omap list_omap].
  destruct (source_power reg) as [[c p]|]; [|done]. rewrite !filter_cons. cbn [fst].
  repeat case_decide; try done; cbn [fst snd].
  rewrite last_cons. by destruct (last _) as [[]|].
Qed.

Lemma reconcile_result now (c : HardwareCollector F) : ∃ r,
  last_reconciliation (reconcile now c) = Some r ∧
  hr_platform_uw r = platform_power (sources c) ∧
  hr_per_component r = hm_group fst (λ _, 0) (λ cp v, u64_add v cp.2) (component_powers (sources c)) ∧
  hr_component_sum_uw r = sum_u64 (hm_values (hr_per_component r)) ∧
  hr_unaccounted_uw r =
    match hr_platform_uw r with
    | Some p => i64_wrap (i64_wrap p - i64_wrap (hr_component_sum_uw r))
    | None => 0
    end.
Proof.
  unfold reconcile. rewrite foldl_reconcile. cbn [fst snd].
  destruct (platform_power (sources c)) as [p|]; cbn; eexists; (split; [done|]); by cbn.
Qed.

Lemma i64_wrap_id x : - 2 ^ 63 <= x < 2 ^ 63 → i64_wrap x = x.
Proof. intros. unfold i64_wrap, u64_mod. rewrite Z.mod_small; lia. Qed.

(** C31: reconciliation balances.  The component sum is the sum of all
    non-platform powers, each component's entry the sum over its own sources,
    and components plus the unaccounted rest is the platform's power. *)
Theorem reconcile_balances now (c : HardwareCollector F) :
  Forall (λ cp : Component * Z, 0 <= cp.2) (omap source_power (sources c)) →
  sum_Z ((component_powers (sources c)).*2) < 2 ^ 63 →
  (∀ p, platform_power (sources c) = Some p → p < 2 ^ 63) →
  ∃ r, last_reconciliation (reconcile now c) = Some r ∧
    hr_component_sum_uw r = sum_Z ((component_powers (sources c)).*2) ∧
    (∀ comp v, hr_per_component r !! comp = Some v →
       v = sum_Z ((filter (λ cp, cp.1 = comp) (component_powers (sources c))).*2)) ∧
    (∀ p, hr_platform_uw r = Some p → hr_component_sum_uw r + hr_unaccounted_uw r = p).
Proof.
  intros Hnn Hlt Hpl. destruct (reconcile_result now c) as (r & Hr & Hp & Hm & Hs & Hu).
  exists r. split; [done|].
  assert (Forall (λ cp : Component * Z, 0 <= cp.2) (component_powers (sources c))) as Hcp.
  { apply Forall_forall. intros x [_ Hx]%list_elem_of_filter. by eapply Forall_forall in Hnn. }
  assert (0 <= sum_Z (component_powers (sources c)).*2) by (by apply sum_Z_nonneg, Forall_fmap).
  assert (2 ^ 63 < u64_mod) by done.
  assert (∀ (x : Component * Z) v, 0 <= v → 0 <= x.2 → v + x.2 < u64_mod → u64_add v x.2 = v + x.2) as Hst
    by (intros; apply u64_add_exact; lia).
  assert (hr_component_sum_uw r = sum_Z (component_powers (sources c)).*2) as Hsum.
  { rewrite Hs, Hm. rewrite sum_u64_exact; rewrite sum_Z_values;
      rewrite (hm_group_map_sum fst (λ _, 0) _ (λ v, v) snd); unfold is_u64; try done; lia. }
  split; [done|]. split.
  - intros comp v Hv. rewrite Hm in Hv.
    eapply (hm_group_lookup_mu fst (λ _, 0) _ (λ v, v) snd) in Hv; [done..|lia].
  - intros p Hp'. rewrite Hu, Hp', Hsum. rewrite Hp in Hp'. specialize (Hpl p Hp').
    assert (0 <= p).
    { unfold platform_power in Hp'. apply fmap_Some in Hp' as ([c' p'] & Hl & ->).
      apply last_Some_elem_of, list_elem_of_filter in Hl as [_ Hl].
      rewrite Forall_forall in Hnn. by apply (Hnn _ Hl). }
    rewrite (i64_wrap_id p), (i64_wrap_id (sum_Z _)), i64_wrap_id by lia. lia.
Qed.

(** ** The engine's input *)

Definition socket_delta (comp : Component) (s : nat) (reg : RegisteredSource) : option Z :=
  match last_reading reg, prev_reading reg with
  | Some cur, Some prev =>
      let d := compute_energy_delta cur prev in
      if d =? 0 then None else
      match r_granularity cur with
      | Socket s' => if decide (r_component cur = comp ∧ Z.to_nat s' = s) then Some d else None
      | _ => None
      end
  | _, _ => None
  end.

Lemma foldl_energy_step regs e s :
  (s < length (socket_energy_uj e))%nat → (s < length (dram_energy_uj e))%nat →
  let e' := foldl energy_step e regs in
  length (socket_energy_uj e') = length (socket_energy_uj e) ∧
  length (dram_energy_uj e') = length (dram_energy_uj e) ∧
  socket_energy_uj e' !!! s = default (socket_energy_uj e !!! s) (last (omap (socket_delta Cpu s) regs)) ∧
  dram_energy_uj e' !!! s = default (dram_energy_uj e !!! s) (last (omap (socket_delta Memory s) regs)).
Proof.
  revert e. induction regs as [|reg regs IH]; intros e Hs Hd; [done|]. cbn [foldl omap list_omap].
  assert (length (socket_energy_uj (energy_step e reg)) = length (socket_energy_uj e) ∧
    length (dram_energy_uj (energy_step e reg)) = length (dram_energy_uj e) ∧
    socket_energy_uj (energy_step e reg) !!! s = default (socket_energy_uj e !!! s) (socket_delta Cpu s reg) ∧
    dram_energy_uj (energy_step e reg) !!! s = default (dram_energy_uj e !!! s) (socket_delta Memory s reg))
    as (H1 & H2 & H3 & H4).
  { unfold energy_step, socket_delta. destruct (last_reading reg) as [cur|], (prev_reading reg) as [prev|]; try done.
    destruct (_ =? 0); [done|].
    destruct (r_component cur), (r_granularity cur) as [|s'| |]; cbn; rewrite ?length_insert;
      repeat split; repeat case_decide as Hc; try done; try naive_solver; cbn;
      first [destruct Hc as [_ <-]; by rewrite list_lookup_total_insert_eq
            |by rewrite list_lookup_total_insert_ne by naive_solver]. }
  destruct (IH (energy_step e reg)) as (I1 & I2 & I3 & I4); [congruence..|].
  cbn zeta in *. rewrite I1, I2, I3, I4, H3, H4. split; [done|]. split; [done|].
  destruct (socket_delta Cpu s reg), (socket_delta Memory s reg); cbn [mbind]; rewrite ?last_cons;
    split; repeat (destruct (last _)); done.
Qed.

(** What the engine is fed.  There is one CPU and one DRAM entry per socket,
    and socket [s]'s is the energy delta of its meter (of the last one with a
    non-zero delta, were there several), or 0 if it has none. *)
Theorem energy_input_exact (c : HardwareCollector F) t s : Z.of_nat s < num_sockets c →
  let e := energy_input c t in
  length (socket_energy_uj e) = Z.to_nat (num_sockets c) ∧
  length (dram_energy_uj e) = Z.to_nat (num_sockets c) ∧
  socket_energy_uj e !!! s = default 0 (last (omap (socket_delta Cpu s) (sources c))) ∧
  dram_energy_uj e !!! s = default 0 (last (omap (socket_delta Memory s) (sources c))).
Proof.
  intros Hs. cbn zeta. unfold energy_input.
  match goal with |- context [foldl energy_step ?e0 _] => destruct (foldl_energy_step (sources c) e0 s) as (H1 & H2 & H3 & H4) end.
  1,2: cbn; rewrite length_replicate; lia.
  cbn zeta in *. rewrite H1, H2, H3, H4. cbn. rewrite length_replicate, lookup_total_replicate_2 by lia. done.
Qed.
End reconcile_theorems.

(** ** Witnesses *)

#[local] Existing Instance hash_iter_list.

Definition demo_reading (comp : Component) (g : Granularity) (t : Z) (e p : option Z) (mx : Z) : PowerReading :=
  {| source_id := "m"; r_timestamp := t; r_component := comp; r_granularity := g; r_type := Measured;
     energy_uj := e; power_uw := p; max_energy_uj := mx |}.
Definition demo_reg (cur prev : PowerReading) : RegisteredSource :=
  {| source := {| src_id := "m"; src_name := "m"; src_component := r_component cur;
                  src_granularity := r_granularity cur; src_reading_type := Measured;
                  default_poll_interval := 100 * ms |};
     tier := Fast; last_reading := Some cur; prev_reading := Some prev |}.
(** A socket whose counter wrapped at 1000, a GPU at 40 uW, a PSU at 100 uW. *)
Definition demo_collector : HardwareCollector f64 :=
  {| sources := [demo_reg (demo_reading Cpu (Socket 0) 2000000000 (Some 20) None 1000)
                          (demo_reading Cpu (Socket 0) 1000000000 (Some 990) None 1000);
                 demo_reg (demo_reading Gpu (Device 0) 2000000000 None (Some 40) 0)
                          (demo_reading Gpu (Device 0) 1000000000 None (Some 44) 0);
                 demo_reg (demo_reading Platform Node 2000000000 None (Some 100) 0)
                          (demo_reading Platform Node 1000000000 None (Some 90) 0)];
     config := CollectorConfig_default; last_heartbeat := 0; last_fast := 0; last_medium := 0; last_slow := 0;
     last_reconciliation := None; num_sockets := 1 |}.

Lemma compute_energy_delta_exact_witness :
  let cur := demo_reading Cpu (Socket 0) 2 (Some 20) None 1000 in
  let prev := demo_reading Cpu (Socket 0) 1 (Some 990) None 1000 in
  compute_energy_delta cur prev = 3020 - 2990.
Proof.
  cbn zeta. apply (compute_energy_delta_exact _ _ 2990 3020); vm_compute; repeat split; congruence.
Defined.
Lemma compute_energy_delta_power_witness :
  let cur := demo_reading Gpu (Device 0) 2000000000 None (Some 40) 0 in
  let prev := demo_reading Gpu (Device 0) 500000000 None (Some 44) 0 in
  let d := compute_energy_delta cur prev in
  d = 60 ∧ d * 1000000000 <= 40 * (2000000000 - 500000000) < (d + 1) * 1000000000.
Proof.
  cbn zeta. split; [reflexivity|].
  apply (compute_energy_delta_power (demo_reading Gpu (Device 0) 2000000000 None (Some 40) 0)
    (demo_reading Gpu (Device 0) 500000000 None (Some 44) 0) 40 44); vm_compute; repeat split; congruence.
Defined.
Lemma tick_leaves_none_due_witness :
  due 600000000 demo_collector Fast = true ∧
  due 600000000 (tick 600000000 600000001 (λ _, Err (Unavailable "off")) demo_collector).2 Fast = false.
Proof. split; [reflexivity|]. apply tick_leaves_none_due; reflexivity. Defined.
Lemma reconcile_balances_witness : ∃ r,
  last_reconciliation (reconcile 3 demo_collector) = Some r ∧ hr_component_sum_uw r = 70 ∧
  (∀ p, hr_platform_uw r = Some p → hr_component_sum_uw r + hr_unaccounted_uw r = p).
Proof.
  destruct (reconcile_balances 3 demo_collector) as (r & Hr & Hs & _ & Hp).
  - vm_compute. repeat constructor; congruence.
  - reflexivity.
  - intros p [= <-]. reflexivity.
  - exists r. split; [exact Hr|]. split; [rewrite Hs; reflexivity|exact Hp].
Defined.
Lemma energy_input_exact_witness :
  socket_energy_uj (energy_input demo_collector 1000000000) !!! 0%nat = 30.
Proof.
  destruct (energy_input_exact demo_collector 1000000000 0) as (_ & _ & Hs & _); [reflexivity|].
  rewrite Hs. reflexivity.
Defined.

(** gpu.rs polls every 3 s: the slow tier, not the medium one. *)
Example gpu_is_slow :
  classify_tier {| src_id := "gpu"; src_name := "gpu"; src_component := Gpu; src_granularity := Device 0;
                   src_reading_type := Measured; default_poll_interval := 3000 * ms |} CollectorConfig_default = Slow.
Proof. reflexivity. Qed.
