(* ===== verification/Text.v ===== *)
(** * Text: the string operations of the standard library the agent uses

    Rust's [str] methods on the text of kernel files, labels and metrics.  A
    [string] is its bytes; the texts in question are ASCII, so that bytes and
    characters coincide ([is_whitespace] beyond ASCII is not modelled). *)

From S2P Require Import Prelude F64.
From Stdlib Require Import Ascii SpecFloat.

Open Scope Z_scope.

Definition code (c : ascii) : Z := Z.of_nat (nat_of_ascii c).
Definition is_ascii_digit (c : ascii) : bool := (48 <=? code c) && (code c <=? 57).
Definition is_ascii_alpha (c : ascii) : bool :=
  ((65 <=? code c) && (code c <=? 90)) || ((97 <=? code c) && (code c <=? 122)).
Definition is_ascii_alphanumeric (c : ascii) : bool := is_ascii_digit c || is_ascii_alpha c.
Definition is_whitespace (c : ascii) : bool := (code c =? 32) || ((9 <=? code c) && (code c <=? 13)).

Definition newline : ascii := ascii_of_nat 10.
Definition carriage_return : ascii := ascii_of_nat 13.
Definition quote : ascii := ascii_of_nat 34.
Definition quoted_eq : string := String "="%char (String quote EmptyString).

Fixpoint str_all (p : ascii → bool) (s : string) : bool :=
  match s with
  | EmptyString => true
  | String c s' => p c && str_all p s'
  end.
Fixpoint str_take_while (p : ascii → bool) (s : string) : string :=
  match s with
  | EmptyString => EmptyString
  | String c s' => if p c then String c (str_take_while p s') else EmptyString
  end.
Fixpoint str_map (f : ascii → ascii) (s : string) : string :=
  match s with
  | EmptyString => EmptyString
  | String c s' => String (f c) (str_map f s')
  end.
(** [&s[n..]] *)
Fixpoint str_from (n : nat) (s : string) : string :=
  match n, s with
  | O, _ => s
  | S n', String _ s' => str_from n' s'
  | S _, EmptyString => EmptyString
  end.
(** [s.split(c)], one part more than there are separators. *)
Fixpoint str_split (c : ascii) (s : string) : list string :=
  match s with
  | EmptyString => [EmptyString]
  | String a s' =>
      if Ascii.eqb a c then EmptyString :: str_split c s'
      else match str_split c s' with
           | [] => [String a EmptyString]
           | p :: ps => String a p :: ps
           end
  end.

(** [s.find(pat)] and the text after that occurrence. *)
Fixpoint after_find (pat s : string) : option string :=
  if String.prefix pat s then Some (str_from (String.length pat) s)
  else match s with
       | EmptyString => None
       | String _ s' => after_find pat s'
       end.
(** [&s[..s.find(c)?]]: the text before the first [c]. *)
Fixpoint before_char (c : ascii) (s : string) : option string :=
  match s with
  | EmptyString => None
  | String a s' => if Ascii.eqb a c then Some EmptyString else String a <$> before_char c s'
  end.
(** [s.rsplit(c).next()]: the text after the last [c], or all of it. *)
Definition rsplit_last (c : ascii) (s : string) : string := default EmptyString (last (str_split c s)).
(** [s.rsplit_once(c)], its second half. *)
Definition rsplit_once_snd (c : ascii) (s : string) : option string :=
  match str_split c s with
  | [] | [_] => None
  | ps => last ps
  end.

(** [s.find(c)]: the index of the first [c]. *)
Fixpoint find_char (c : ascii) (s : string) : option nat :=
  match s with
  | EmptyString => None
  | String a s' => if Ascii.eqb a c then Some 0%nat else S <$> find_char c s'
  end.
(** [&s[..n]] *)
Fixpoint str_to (n : nat) (s : string) : string :=
  match n, s with
  | S n', String a s' => String a (str_to n' s')
  | _, _ => EmptyString
  end.
(** [&s[a..b]], which panics unless the range is one of the string's. *)
Definition str_slice (a b : nat) (s : string) : option string :=
  if (a <=? b)%nat && (b <=? String.length s)%nat then Some (str_from a (str_to b s)) else None.
(** [s.trim_start_matches(c)]. *)
Fixpoint trim_start_matches (c : ascii) (s : string) : string :=
  match s with
  | String a s' => if Ascii.eqb a c then trim_start_matches c s' else s
  | EmptyString => EmptyString
  end.

(** [s.strip_suffix(suf)]. *)
Fixpoint strip_suffix (suf s : string) : option string :=
  if String.eqb s suf then Some EmptyString
  else match s with
       | EmptyString => None
       | String c s' => String c <$> strip_suffix suf s'
       end.

Definition str_nonempty (s : string) : bool := negb (String.eqb s EmptyString).

(** [s.split_whitespace()]. *)
Fixpoint words_acc (cur s : string) : list string :=
  match s with
  | EmptyString => if str_nonempty cur then [cur] else []
  | String c s' =>
      if is_whitespace c then (if str_nonempty cur then [cur] else []) ++ words_acc EmptyString s'
      else words_acc (String.append cur (String c EmptyString)) s'
  end.
Definition split_whitespace (s : string) : list string := words_acc EmptyString s.

(** [s.trim()]. *)
Fixpoint trim_start (s : string) : string :=
  match s with
  | String c s' => if is_whitespace c then trim_start s' else s
  | EmptyString => EmptyString
  end.
Fixpoint trim_end (s : string) : string :=
  match s with
  | EmptyString => EmptyString
  | String c s' =>
      match trim_end s' with
      | EmptyString => if is_whitespace c then EmptyString else String c EmptyString
      | t => String c t
      end
  end.
Definition trim (s : string) : string := trim_end (trim_start s).

(** [s.lines()]: split at newlines, an empty last part dropped; a carriage
    return before a newline is removed, one at the end of an unterminated last
    line stays. *)
Definition strip_cr (s : string) : string := default s (strip_suffix (String carriage_return EmptyString) s).
Definition str_lines (s : string) : list string :=
  let ps := str_split newline s in
  (strip_cr <$> removelast ps) ++
  match last ps with Some EmptyString | None => [] | Some l => [l] end.

(** [s.parse::<uN>()] with maximum [mx]: digits after an optional plus sign. *)
Definition digit_val (c : ascii) : Z := code c - 48.
Fixpoint digits_val (acc : Z) (s : string) : Z :=
  match s with
  | EmptyString => acc
  | String c s' => digits_val (10 * acc + digit_val c) s'
  end.
Definition parse_uint (mx : Z) (s : string) : option Z :=
  let body := match s with String "+"%char s' => s' | _ => s end in
  if str_nonempty body && str_all is_ascii_digit body && (digits_val 0 body <=? mx)
  then Some (digits_val 0 body) else None.
Definition parse_u64 : string → option Z := parse_uint u64_max.
Definition parse_u32 : string → option Z := parse_uint u32_max.

(** [s.parse::<f64>()]: an optional sign, then [inf], [infinity] or [nan] in any
    case, or digits with an optional point and an optional decimal exponent.
    The quotient of the two integers is rounded once, to the nearest float. *)
Definition f64_of_ratio (neg : bool) (n d : Z) : f64 :=
  match n with
  | Z.pos _ => let '(q, e, l) := SFdiv_core_binary prec emax n 0 d 0 in binary_round_aux prec emax neg q e l
  | _ => S754_zero neg
  end.
Definition to_lower (c : ascii) : ascii :=
  if (65 <=? code c) && (code c <=? 90) then ascii_of_nat (Z.to_nat (code c + 32)) else c.
Definition f64_of_decimal (neg : bool) (m e : Z) : f64 :=
  if 0 <=? e then f64_of_ratio neg (m * 10 ^ e) 1 else f64_of_ratio neg m (10 ^ (- e)).
(** An exponent: a sign and at least one digit. *)
Definition parse_exponent (s : string) : option Z :=
  let '(sign, ds) := match s with
                     | String "-"%char s' => (-1, s')
                     | String "+"%char s' => (1, s')
                     | _ => (1, s)
                     end in
  if str_nonempty ds && str_all is_ascii_digit ds then Some (sign * digits_val 0 ds) else None.
Definition parse_f64 (s : string) : option f64 :=
  let '(neg, body) := match s with
                      | String "-"%char s' => (true, s')
                      | String "+"%char s' => (false, s')
                      | _ => (false, s)
                      end in
  let low := str_map to_lower body in
  if String.eqb low "inf" || String.eqb low "infinity" then Some (S754_infinity neg)
  else if String.eqb low "nan" then Some S754_nan
  else
    let whole := str_take_while is_ascii_digit low in
    let rest := str_from (String.length whole) low in
    let '(frac, rest) := match rest with
                         | String "."%char r =>
                             let f := str_take_while is_ascii_digit r in (f, str_from (String.length f) r)
                         | _ => (EmptyString, rest)
                         end in
    let digits := String.append whole frac in
    if negb (str_nonempty digits) then None else
    let scale := - Z.of_nat (String.length frac) in
    match rest with
    | EmptyString => Some (f64_of_decimal neg (digits_val 0 digits) scale)
    | String "e"%char r =>
        (λ e, f64_of_decimal neg (digits_val 0 digits) (scale + e)) <$> parse_exponent r
    | _ => None
    end.

Example lines_example : str_lines (String.append "a" (String carriage_return (String newline "b c"))) = ["a"; "b c"] ∧
  str_lines (String "a" (String newline (String "b" (String carriage_return EmptyString)))) =
    ["a"; String "b" (String carriage_return EmptyString)].
Proof. split; reflexivity. Qed.
Example words_example : split_whitespace "  1234 kB	x " = ["1234"; "kB"; "x"].
Proof. reflexivity. Qed.
Example parse_example : parse_u64 "+42" = Some 42 ∧ parse_u64 "4 2" = None ∧ parse_u32 "4294967296" = None.
Proof. done. Qed.
Example parse_f64_example : parse_f64 "49.157" = Some (f_lit 49157 1000) ∧ parse_f64 "1e3" = Some (f_of_Z 1000) ∧
  parse_f64 "." = None ∧ parse_f64 "-0.5" = Some (SFopp (f_lit 1 2)).
Proof. by vm_compute. Qed.

(** ** Facts on strings *)

Lemma str_all_app p a b : str_all p (String.append a b) = str_all p a && str_all p b.
Proof. induction a as [|c a IH]; [done|]. simpl. rewrite IH. by destruct (p c). Qed.
Lemma str_all_impl (p q : ascii → bool) s : (∀ c, p c = true → q c = true) → str_all p s = true → str_all q s = true.
Proof.
  intros Hpq. induction s as [|c s IH]; [done|]. cbn. intros [H1 H2]%andb_prop. by rewrite Hpq, IH.
Qed.
Lemma str_split_none c s : str_all (λ a, negb (Ascii.eqb a c)) s = true → str_split c s = [s].
Proof.
  induction s as [|a s IH]; [done|]. cbn. intros [H1 H2]%andb_prop. apply negb_true_iff in H1.
  by rewrite H1, IH.
Qed.
Lemma str_split_snoc c s : str_all (λ a, negb (Ascii.eqb a c)) s = true →
  str_split c (String.append s (String c EmptyString)) = [s; EmptyString].
Proof.
  induction s as [|a s IH]; simpl; [by rewrite Ascii.eqb_refl|]. intros [H1 H2]%andb_prop.
  apply negb_true_iff in H1. by rewrite H1, IH.
Qed.
Lemma str_split_ne c s : str_split c s ≠ [].
Proof. destruct s as [|a s]; cbn; [done|]. destruct (Ascii.eqb a c); [done|]. by destruct (str_split c s). Qed.
Lemma str_split_app c x y : str_split c (String.append x (String c y)) = str_split c x ++ str_split c y.
Proof.
  induction x as [|a x IH]; simpl; [by rewrite Ascii.eqb_refl|]. rewrite IH.
  destruct (Ascii.eqb a c); [done|]. pose proof (str_split_ne c x). by destruct (str_split c x).
Qed.
Lemma rsplit_last_app c x y : str_all (λ a, negb (Ascii.eqb a c)) y = true →
  rsplit_last c (String.append x (String c y)) = y.
Proof. intros Hy. unfold rsplit_last. by rewrite str_split_app, (str_split_none c y Hy), last_snoc. Qed.

Lemma strip_suffix_none s c : str_all (λ a, negb (Ascii.eqb a c)) s = true →
  strip_suffix (String c EmptyString) s = None.
Proof.
  induction s as [|a s IH]; [done|]. cbn [str_all]. intros [H1 H2]%andb_prop.
  apply negb_true_iff, Ascii.eqb_neq in H1. cbn [strip_suffix].
  destruct (String.eqb_spec (String a s) (String c EmptyString)) as [Heq|_]; [congruence|].
  by rewrite (IH H2).
Qed.

Definition line_char (c : ascii) : bool := negb (Ascii.eqb c newline || Ascii.eqb c carriage_return).
(** A single line, as the kernel ends it. *)
Lemma str_lines_one s : str_all line_char s = true →
  str_lines (String.append s (String newline EmptyString)) = [s].
Proof.
  intros Hs. unfold str_lines. rewrite str_split_snoc.
  - cbn. unfold strip_cr. rewrite strip_suffix_none; [done|]. eapply str_all_impl; [|exact Hs].
    intros c. unfold line_char. by destruct (Ascii.eqb c newline), (Ascii.eqb c carriage_return).
  - eapply str_all_impl; [|exact Hs]. intros c. unfold line_char. by destruct (Ascii.eqb c newline).
Qed.

Lemma prefix_cons a b s t : String.prefix (String a s) (String b t) = Ascii.eqb a b && String.prefix s t.
Proof. cbn. destruct (ascii_dec a b) as [->|Hne]; [by rewrite Ascii.eqb_refl|]. by apply Ascii.eqb_neq in Hne as ->. Qed.
Lemma append_cons a s t : String.append (String a s) t = String a (String.append s t).
Proof. done. Qed.
Lemma append_nil t : String.append EmptyString t = t.
Proof. done. Qed.
Lemma prefix_nil s : String.prefix EmptyString s = true.
Proof. by destruct s. Qed.

Lemma take_while_app p a c s : str_all p a = true → p c = false →
  str_take_while p (String.append a (String c s)) = a.
Proof.
  intros Ha Hc. induction a as [|x a IH]; simpl; [by rewrite Hc|].
  cbn in Ha. apply andb_prop in Ha as [-> Ha]. by rewrite IH.
Qed.
Lemma length_str_map f s : String.length (str_map f s) = String.length s.
Proof. induction s as [|c s IH]; [done|]. cbn. by rewrite IH. Qed.

Lemma append_assoc a b c : String.append (String.append a b) c = String.append a (String.append b c).
Proof. induction a as [|x a IH]; [done|]. rewrite ?append_cons. cbn. by rewrite IH. Qed.
Lemma append_nil_r a : String.append a EmptyString = a.
Proof. induction a as [|x a IH]; [done|]. rewrite ?append_cons. cbn. by rewrite IH. Qed.
Lemma length_append a b : String.length (String.append a b) = (String.length a + String.length b)%nat.
Proof. induction a as [|x a IH]; [done|]. rewrite ?append_cons. cbn. by rewrite IH. Qed.
Lemma str_from_app a b : str_from (String.length a) (String.append a b) = b.
Proof. by induction a. Qed.
Lemma str_from_S_app c a b : str_from (S (String.length a)) (String.append a (String c b)) = b.
Proof. induction a as [|x a IH]; [done|]. rewrite append_cons. exact IH. Qed.
Lemma str_to_app a b : str_to (String.length a) (String.append a b) = a.
Proof. induction a as [|x a IH]; [by destruct b|]. rewrite append_cons. cbn. by rewrite IH. Qed.
Lemma length_str_from n s : String.length (str_from n s) = (String.length s - n)%nat.
Proof. revert s. induction n as [|n IH]; intros [|a s]; [done..|]. cbn. apply IH. Qed.

(** A character that does not occur in [a]. *)
Notation free_of c := (str_all (λ a, negb (Ascii.eqb a c))).
Lemma find_char_app c a b : free_of c a = true → find_char c (String.append a (String c b)) = Some (String.length a).
Proof.
  induction a as [|x a IH]; intros Ha; rewrite ?append_cons, ?append_nil; cbn; [by rewrite Ascii.eqb_refl|].
  cbn in Ha. apply andb_prop in Ha as [Hx Ha]. apply negb_true_iff in Hx. by rewrite Hx, IH.
Qed.
Lemma str_slice_app a c b t :
  str_slice (S (String.length a)) (String.length (String.append a (String c b)))
    (String.append (String.append a (String c b)) t) = Some b.
Proof.
  unfold str_slice. rewrite str_to_app, str_from_S_app, !length_append. cbn [String.length].
  destruct (Nat.leb_spec (S (String.length a)) (String.length a + S (String.length b))); [|lia].
  by destruct (Nat.leb_spec (String.length a + S (String.length b))
    (String.length a + S (String.length b) + String.length t)); [|lia].
Qed.
Lemma find_char_Some c s n : find_char c s = Some n → ∃ a b, s = String.append a (String c b) ∧
  String.length a = n ∧ free_of c a = true.
Proof.
  revert n. induction s as [|x s IH]; intros n; [done|]. cbn. destruct (Ascii.eqb_spec x c) as [->|Hne].
  - intros [= <-]. by exists EmptyString, s.
  - intros (m & Hm & ->)%fmap_Some. destruct (IH m Hm) as (a & b & -> & <- & Ha). exists (String x a), b.
    split; [done|]. split; [done|]. cbn. apply Ascii.eqb_neq in Hne. by rewrite Hne.
Qed.
Lemma find_char_free c s : find_char c s = None ↔ free_of c s = true.
Proof.
  induction s as [|x s IH]; [done|]. cbn. destruct (Ascii.eqb x c); [done|]. cbn. rewrite <-IH. by destruct (find_char c s).
Qed.
Lemma prefix_append p s : String.prefix p (String.append p s) = true.
Proof. induction p as [|a p IH]; [by destruct s|]. rewrite append_cons, prefix_cons, Ascii.eqb_refl. exact IH. Qed.
Lemma prefix_Some p s : String.prefix p s = true → ∃ t, s = String.append p t.
Proof.
  revert s. induction p as [|a p IH]; intros s Hp; [by exists s|]. destruct s as [|b s]; [done|].
  rewrite prefix_cons in Hp. apply andb_prop in Hp as [->%Ascii.eqb_eq Hp]. destruct (IH s Hp) as [t ->]. by exists t.
Qed.
(** A prefix that ends in a character absent from both names decides their
    equality. *)
Lemma prefix_name c p n s : free_of c p = true → free_of c n = true →
  String.prefix (String.append p (String c EmptyString)) (String.append n (String c s)) = String.eqb p n.
Proof.
  revert n. induction p as [|a p IH]; intros [|b n] Hp Hn; cbn [str_all] in Hp, Hn.
  - rewrite !append_nil, prefix_cons, Ascii.eqb_refl. by destruct s.
  - rewrite append_nil, append_cons, prefix_cons. apply andb_prop in Hn as [Hb _].
    apply negb_true_iff in Hb. by rewrite Ascii.eqb_sym, Hb.
  - rewrite append_nil, append_cons, prefix_cons. apply andb_prop in Hp as [Ha _].
    apply negb_true_iff in Ha. by rewrite Ha.
  - apply andb_prop in Hp as [_ Hp], Hn as [_ Hn]. rewrite !append_cons, prefix_cons, IH by done. cbn.
    by destruct (Ascii.eqb a b).
Qed.
Lemma append_cancel_l a b c : String.append a b = String.append a c → b = c.
Proof. induction a as [|x a IH]; [done|]. rewrite !append_cons. intros [= H]. by apply IH. Qed.
(** Two texts that begin with names free of [c] and go on with [c] have the
    same name. *)
Lemma split_name_inj c n n' s s' : free_of c n = true → free_of c n' = true →
  String.append n (String c s) = String.append n' (String c s') → n = n' ∧ s = s'.
Proof.
  revert n'. induction n as [|x n IH]; intros [|y n'] Hn Hn'; rewrite ?append_nil, ?append_cons;
    cbn [str_all] in *; intros H; [by injection H as ->|injection H as -> H2..].
  - by rewrite Ascii.eqb_refl in Hn'.
  - by rewrite Ascii.eqb_refl in Hn.
  - apply andb_prop in Hn as [_ Hn], Hn' as [_ Hn']. by destruct (IH n' Hn Hn' H2) as [-> ->].
Qed.
Lemma append_cancel_r a b c : String.append a c = String.append b c → a = b.
Proof.
  intros H. assert (String.length a = String.length b) as Hl.
  { apply (f_equal String.length) in H. rewrite !length_append in H. lia. }
  revert b H Hl. induction a as [|x a IH]; intros [|y b] H Hl; try done. rewrite !append_cons in H. injection H as -> H.
  f_equal. apply IH; [done|]. by injection Hl.
Qed.

Lemma take_while_all p s : str_all p (str_take_while p s) = true.
Proof. induction s as [|c s IH]; [done|]. cbn. destruct (p c) eqn:E; [|done]. cbn. by rewrite E. Qed.
Lemma take_while_split p s : s = String.append (str_take_while p s) (str_from (String.length (str_take_while p s)) s).
Proof. induction s as [|c s IH]; [done|]. cbn. destruct (p c); [|done]. rewrite append_cons. f_equal. exact IH. Qed.
Lemma digits_free_space s : str_all is_ascii_digit s = true → free_of " "%char s = true.
Proof. apply str_all_impl. by intros [[] [] [] [] [] [] [] []]. Qed.
Lemma lower_space s : free_of " "%char (str_map to_lower s) = free_of " "%char s.
Proof.
  induction s as [|c s IH]; [done|]. cbn [str_map str_all]. rewrite IH. f_equal. by destruct c as [[] [] [] [] [] [] [] []].
Qed.
Lemma parse_exponent_no_space s e : parse_exponent s = Some e → free_of " "%char s = true.
Proof.
  unfold parse_exponent. set (p := match s with String "-"%char s' => _ | _ => _ end).
  assert (s = p.2 ∨ ∃ c, s = String c p.2 ∧ c ≠ " "%char) as H.
  { subst p. destruct s as [|c s]; [by left|]. destruct c as [[] [] [] [] [] [] [] []]; cbn; eauto. }
  destruct p as [sg ds]. cbn in H. destruct (str_nonempty ds && str_all is_ascii_digit ds) eqn:E; [|done]. intros _.
  apply andb_prop in E as [_ Hd%digits_free_space]. destruct H as [->|(c & -> & Hc)]; [done|].
  cbn. apply Ascii.eqb_neq in Hc. by rewrite Hc.
Qed.
(** The rest of a number after its whole part has no space either. *)
Lemma parse_f64_body_no_space low :
  (let whole := str_take_while is_ascii_digit low in
   let rest := str_from (String.length whole) low in
   let '(frac, rest) := match rest with
                        | String "."%char r =>
                            let f := str_take_while is_ascii_digit r in (f, str_from (String.length f) r)
                        | _ => (EmptyString, rest)
                        end in
   rest = EmptyString ∨ ∃ r, rest = String "e"%char r ∧ is_Some (parse_exponent r)) → free_of " "%char low = true.
Proof.
  cbn zeta. rewrite (take_while_split is_ascii_digit low) at 3. rewrite str_all_app.
  rewrite (digits_free_space _ (take_while_all _ _)). cbn [andb]. generalize (str_from (String.length (str_take_while is_ascii_digit low)) low).
  clear low. intros rest.
  assert (∀ r, r = EmptyString ∨ (∃ r', r = String "e"%char r' ∧ is_Some (parse_exponent r')) → free_of " "%char r = true) as Hend.
  { intros r [->|(r' & -> & e & He)]; [done|]. cbn. by apply parse_exponent_no_space in He. }
  destruct rest as [|c r]; [done|].
  destruct (Ascii.eqb_spec c "."%char) as [->|Hc].
  - intros H%Hend. cbn. rewrite (take_while_split is_ascii_digit r), str_all_app, H.
    by rewrite (digits_free_space _ (take_while_all _ _)).
  - destruct c as [[] [] [] [] [] [] [] []]; try exact (Hend _); done.
Qed.
(** A number has no space in it. *)
Lemma parse_f64_no_space s x : parse_f64 s = Some x → free_of " "%char s = true.
Proof.
  unfold parse_f64. set (p := match s with String "-"%char s' => _ | _ => _ end).
  assert (s = p.2 ∨ ∃ c, s = String c p.2 ∧ c ≠ " "%char) as H.
  { subst p. destruct s as [|c s]; [by left|]. destruct c as [[] [] [] [] [] [] [] []]; cbn; eauto. }
  destruct p as [neg body]. cbn [snd] in H. intros Hx. assert (free_of " "%char body = true) as Hb.
  { rewrite <-lower_space. revert Hx. set (low := str_map to_lower body). clearbody low.
    destruct (String.eqb_spec low "inf") as [->|_]; [done|]. destruct (String.eqb_spec low "infinity") as [->|_]; [done|].
    cbn [orb]. destruct (String.eqb_spec low "nan") as [->|_]; [done|]. cbn zeta. intros Hx.
    apply parse_f64_body_no_space. cbn zeta. revert Hx.
    destruct (match str_from _ low with String "."%char r => _ | _ => _ end) as [frac rest].
    destruct (negb _); [done|]. destruct rest as [|c r]; [by left|]. intros Hx. right.
    destruct c as [[] [] [] [] [] [] [] []]; try discriminate Hx. exists r. split; [done|].
    destruct (parse_exponent r); [by eexists|discriminate Hx]. }
  destruct H as [->|(c & -> & Hc)]; [done|]. cbn. apply Ascii.eqb_neq in Hc. by rewrite Hc.
Qed.

Lemma trim_end_app a b : str_nonempty b = true → trim_end b = b → trim_end (String.append a b) = String.append a b.
Proof.
  intros Hb He. induction a as [|c a IH]; [done|]. rewrite append_cons. cbn [trim_end]. rewrite IH.
  destruct a as [|d a]; [|done]. rewrite append_nil. by destruct b.
Qed.
