(* ===== verification/Workload.v ===== *)
(** * Workload: the identity of the pods of a node

    keck-agent/src/k8s/workload.rs, and from keck-agent/src/main.rs the pod cache
    with the resolution of owners.  The Kubernetes API is an argument of each
    refresh: the pods the list call returns then, and for a ReplicaSet or Job the
    owner references a get call returns then ([None]: the call failed). *)

From S2P Require Import Prelude F64 Text.
From Stdlib Require Import Ascii.

Open Scope Z_scope.

Inductive WorkloadCategory := WPlatform | WOperator | WApplication.
Definition category_str (c : WorkloadCategory) : string :=
  match c with
  | WPlatform => "platform"
  | WOperator => "operator"
  | WApplication => "application"
  end.

Record PodIdentity := {
  id_name : string;
  id_namespace : string;
  id_workload_uid : string;
  id_workload_name : string;
  id_workload_kind : string;
  id_workload_category : WorkloadCategory;
  id_labels : gmap string string
}.

Definition DEFAULT_CAPTURED_LABELS : list string :=
  ["app.kubernetes.io/name"; "app.kubernetes.io/part-of"; "app.kubernetes.io/component";
   "argocd.argoproj.io/instance"; "olm.owner"].
Definition DEFAULT_CAPTURED_PREFIXES : list string := ["operators.coreos.com/"].

(** One entry of the configuration: exact label, or prefix of labels. *)
Definition parse_entry (entry : string) : string + string :=
  match strip_suffix "/*" entry with
  | Some prefix => inr (String.append prefix "/")
  | None => inl entry
  end.
Definition parse_label_config (raw : string) : list string * list string :=
  foldl (λ (acc : list string * list string) entry,
           match parse_entry entry with
           | inr p => (acc.1, acc.2 ++ [p])
           | inl l => (acc.1 ++ [l], acc.2)
           end) ([], [])
    (filter (λ s, str_nonempty s = true) (trim <$> str_split ","%char raw)).

(** The label settings the agent starts with: KECK_CAPTURED_LABELS, or the
    defaults when it is unset or empty. *)
Definition label_settings (env : option string) : list string * list string :=
  let raw := default EmptyString env in
  if String.eqb raw EmptyString then (DEFAULT_CAPTURED_LABELS, DEFAULT_CAPTURED_PREFIXES)
  else parse_label_config raw.

Definition OLM_INFRA_NAMESPACES : list string := ["openshift-operator-lifecycle-manager"; "openshift-marketplace"].

Record OwnerReference := {
  owner_uid : string;
  owner_kind : string;
  owner_name : string;
  owner_controller : option bool
}.
Record OwnerMapping := { om_uid : string; om_name : string; om_kind : string }.
Definition OwnerCache := gmap string OwnerMapping.

Definition select_controller_owner (owner_refs : list OwnerReference) : option OwnerReference :=
  match list_find_p (λ o, bool_decide (owner_controller o = Some true)) owner_refs with
  | Some o => Some o
  | None => head owner_refs
  end.

(** A pod as the API returns it. *)
Record K8sPod := {
  meta_uid : option string;
  meta_name : option string;
  meta_namespace : option string;
  meta_labels : option (gmap string string);
  meta_owner_references : option (list OwnerReference)
}.

(** [discover_operator_namespaces]: the namespaces of the Subscriptions listed;
    none when the call fails. *)
Definition discover_operator_namespaces (subs : option (list (option string))) : gset string :=
  match subs with
  | Some l => list_to_set (omap id l)
  | None => ∅
  end.

Section workload.
Context `{HI : HashIter}.

Definition capture_labels (pod_labels : gmap string string) (exact_keys prefix_keys : list string)
    : gmap string string :=
  let captured := foldl (λ m key, match pod_labels !! key with Some v => <[key := v]> m | None => m end)
                    ∅ exact_keys in
  foldl (λ m prefix,
           foldl (λ m (kv : string * string), if String.prefix prefix kv.1 then <[kv.1 := kv.2]> m else m)
             m (hm_iter pod_labels)) captured prefix_keys.

Definition classify_category (namespace : string) (labels : gmap string string) (operator_namespaces : gset string)
    : WorkloadCategory :=
  if decide (namespace ∈ operator_namespaces) then WOperator
  else if decide (namespace ∈ OLM_INFRA_NAMESPACES) then WOperator
  else if existsb (λ k, String.prefix "operators.coreos.com/" k) (hm_keys labels) then WOperator
  else if String.prefix "openshift-" namespace || String.prefix "kube-" namespace
          || String.eqb namespace "kube-system" then WPlatform
  else WApplication.

(** The owner references of a ReplicaSet or Job: kind, namespace, name. *)
Variable get_owners : string → string → string → option (list OwnerReference).

Definition resolve_intermediate_owner (namespace name kind : string) : option OwnerMapping :=
  if String.eqb kind "ReplicaSet" || String.eqb kind "Job" then
    match get_owners kind namespace name with
    | None => None
    | Some refs =>
        (λ o, {| om_uid := owner_uid o; om_name := owner_name o; om_kind := owner_kind o |})
          <$> select_controller_owner refs
    end
  else None.

Definition resolve_owner (pod_uid pod_name namespace : string) (owner_refs : list OwnerReference)
    (owner_cache : OwnerCache) : (string * string * string) * OwnerCache :=
  match select_controller_owner owner_refs with
  | None => ((pod_uid, pod_name, "Pod"), owner_cache)
  | Some o =>
      if String.eqb (owner_kind o) "ReplicaSet" || String.eqb (owner_kind o) "Job" then
        match owner_cache !! owner_uid o with
        | Some cached => ((om_uid cached, om_name cached, om_kind cached), owner_cache)
        | None =>
            let mapping := default {| om_uid := owner_uid o; om_name := owner_name o; om_kind := owner_kind o |}
                             (resolve_intermediate_owner namespace (owner_name o) (owner_kind o)) in
            ((om_uid mapping, om_name mapping, om_kind mapping), <[owner_uid o := mapping]> owner_cache)
        end
      else ((owner_uid o, owner_name o, owner_kind o), owner_cache)
  end.

Definition cache_pod (exact_labels prefix_labels : list string) (operator_namespaces : gset string)
    (acc : gmap string PodIdentity * OwnerCache) (pod : K8sPod) : gmap string PodIdentity * OwnerCache :=
  let '(cache, owner_cache) := acc in
  match meta_uid pod with
  | None => acc
  | Some uid =>
      let name := default EmptyString (meta_name pod) in
      let namespace := default EmptyString (meta_namespace pod) in
      let pod_labels := default ∅ (meta_labels pod) in
      let '((wl_uid, wl_name, wl_kind), owner_cache') :=
        resolve_owner uid name namespace (default [] (meta_owner_references pod)) owner_cache in
      (<[uid := {| id_name := name; id_namespace := namespace; id_workload_uid := wl_uid;
                   id_workload_name := wl_name; id_workload_kind := wl_kind;
                   id_workload_category := classify_category namespace pod_labels operator_namespaces;
                   id_labels := capture_labels pod_labels exact_labels prefix_labels |}]> cache,
       owner_cache')
  end.

(** [pod_list] is what the list call returned; a failure leaves both caches. *)
Definition refresh_pod_cache (pod_list : option (list K8sPod)) (exact_labels prefix_labels : list string)
    (operator_namespaces : gset string) (cache : gmap string PodIdentity) (owner_cache : OwnerCache)
    : gmap string PodIdentity * OwnerCache :=
  match pod_list with
  | None => (cache, owner_cache)
  | Some pods => foldl (cache_pod exact_labels prefix_labels operator_namespaces) (∅, owner_cache) pods
  end.

(** ** Labels *)

(** A label the configuration asks for. *)
Definition wanted (exact_keys prefix_keys : list string) (k : string) : Prop :=
  k ∈ exact_keys ∨ ∃ p, p ∈ prefix_keys ∧ String.prefix p k = true.

(** [m] holds the entries of [labels] whose key satisfies [P]. *)
Definition captures (labels : gmap string string) (P : string → Prop) (m : gmap string string) : Prop :=
  ∀ k v, m !! k = Some v ↔ P k ∧ labels !! k = Some v.

Lemma captures_at labels P m k v : captures labels P m → m !! k = Some v ↔ P k ∧ labels !! k = Some v.
Proof. intros Hm. apply Hm. Qed.
Lemma captures_ext labels P Q m : (∀ k, P k ↔ Q k) → captures labels P m → captures labels Q m.
Proof. intros HPQ Hm k v. rewrite (captures_at _ _ _ _ _ Hm). by rewrite HPQ. Qed.
Lemma captures_insert labels P m k v : captures labels P m → labels !! k = Some v →
  captures labels (λ k', P k' ∨ k' = k) (<[k := v]> m).
Proof.
  intros Hm Hk k' v'. rewrite lookup_insert_Some, (captures_at _ _ _ _ _ Hm). destruct (decide (k = k')); naive_solver.
Qed.

Lemma captures_exact labels P keys m : captures labels P m →
  captures labels (λ k, P k ∨ k ∈ keys)
    (foldl (λ m key, match labels !! key with Some v => <[key := v]> m | None => m end) m keys).
Proof.
  revert P m. induction keys as [|key keys IH]; intros P m Hm; cbn [foldl].
  { eapply captures_ext; [|done]. intros k. rewrite elem_of_nil. naive_solver. }
  destruct (labels !! key) as [v|] eqn:Hk.
  - eapply captures_ext; [|apply IH, captures_insert; done]. intros k. cbn. rewrite elem_of_cons. naive_solver.
  - intros k v. rewrite (captures_at _ _ _ _ _ (IH P m Hm)), elem_of_cons. naive_solver.
Qed.
Lemma captures_prefix labels P prefix l m : captures labels P m → (∀ kv, kv ∈ l → labels !! kv.1 = Some kv.2) →
  captures labels (λ k, P k ∨ (k ∈ l.*1 ∧ String.prefix prefix k = true))
    (foldl (λ m (kv : string * string), if String.prefix prefix kv.1 then <[kv.1 := kv.2]> m else m) m l).
Proof.
  revert P m. induction l as [|[k0 v0] l IH]; intros P m Hm Hl; cbn [foldl fst snd].
  { eapply captures_ext; [|done]. intros k. cbn. rewrite elem_of_nil. naive_solver. }
  assert (∀ kv, kv ∈ l → labels !! kv.1 = Some kv.2) as Hl' by (intros kv ?; apply Hl; by right).
  assert (labels !! k0 = Some v0) as H0 by (apply (Hl (k0, v0)); left).
  destruct (String.prefix prefix k0) eqn:Hp.
  - eapply captures_ext; [|apply (IH _ _ (captures_insert _ _ _ _ _ Hm H0) Hl')].
    intros k. cbn. rewrite elem_of_cons. naive_solver.
  - eapply captures_ext; [|apply (IH _ _ Hm Hl')]. intros k. cbn. rewrite elem_of_cons. naive_solver congruence.
Qed.

Lemma captures_prefixes labels prefixes P m : captures labels P m →
  captures labels (λ k, P k ∨ ∃ p, p ∈ prefixes ∧ String.prefix p k = true)
    (foldl (λ m prefix, foldl (λ m (kv : string * string),
       if String.prefix prefix kv.1 then <[kv.1 := kv.2]> m else m) m (hm_iter labels)) m prefixes).
Proof.
  revert P m. induction prefixes as [|p ps IH]; intros P m Hm; cbn [foldl].
  { eapply captures_ext; [|done]. intros k'. setoid_rewrite elem_of_nil. naive_solver. }
  pose proof (captures_prefix _ _ p (hm_iter labels) _ Hm) as Hp.
  ospecialize (Hp _); [intros [k' v'] Hkv; by apply hm_iter_elem|].
  intros k' v'. rewrite (captures_at _ _ _ _ _ (IH _ _ Hp)). setoid_rewrite elem_of_cons.
  pose proof (hm_keys_elem labels k') as Hk. unfold hm_keys in Hk. rewrite Hk. naive_solver.
Qed.

(** Exactly the configured labels are captured: a pod's label is kept, with
    its value, if and only if it is listed exactly or starts with a listed
    prefix. *)
Theorem capture_labels_exact pod_labels exact_keys prefix_keys k v :
  capture_labels pod_labels exact_keys prefix_keys !! k = Some v ↔
    wanted exact_keys prefix_keys k ∧ pod_labels !! k = Some v.
Proof.
  pose proof (captures_exact pod_labels (λ _, False) exact_keys ∅) as Hex.
  ospecialize (Hex _); [intros k' v'; rewrite lookup_empty; naive_solver|].
  rewrite (captures_at _ _ _ _ _ (captures_prefixes _ prefix_keys _ _ Hex)). unfold wanted. naive_solver.
Qed.

End workload.

(** ** Owners

    What a refresh asks and is told: the answers of the API at that time, and the
    operator namespaces known to the agent. *)
Record Refresh := {
  rf_get_owners : string → string → string → option (list OwnerReference);
  rf_listing : option (list K8sPod);
  rf_operators : gset string
}.

Section owners.
Context `{HI : HashIter} (exact_labels prefix_labels : list string).

(** A sequence of refreshes, from empty caches. *)
Definition refresh_step (st : gmap string PodIdentity * OwnerCache) (r : Refresh) : gmap string PodIdentity * OwnerCache :=
  refresh_pod_cache (rf_get_owners r) (rf_listing r) exact_labels prefix_labels (rf_operators r) st.1 st.2.
Definition run_refreshes (rs : list Refresh) : gmap string PodIdentity * OwnerCache := foldl refresh_step (∅, ∅) rs.

(** *** The specification

    A pod whose controller is a ReplicaSet or Job is a sighting of that object;
    its owner, as the API tells it in that refresh, is the object's own controller,
    or the object itself when the lookup fails or names none. *)
Definition intermediate (kind : string) : bool := String.eqb kind "ReplicaSet" || String.eqb kind "Job".
Definition self_owner (o : OwnerReference) : OwnerMapping :=
  {| om_uid := owner_uid o; om_name := owner_name o; om_kind := owner_kind o |}.
Definition pod_controller (pod : K8sPod) : option OwnerReference :=
  select_controller_owner (default [] (meta_owner_references pod)).
Definition sighting (r : Refresh) (pod : K8sPod) : option (string * OwnerMapping) :=
  _ ← meta_uid pod; o ← pod_controller pod;
  if intermediate (owner_kind o) then
    Some (owner_uid o, default (self_owner o)
      (resolve_intermediate_owner (rf_get_owners r) (default EmptyString (meta_namespace pod)) (owner_name o) (owner_kind o)))
  else None.
Definition sightings (r : Refresh) : list (string * OwnerMapping) := omap (sighting r) (default [] (rf_listing r)).
Definition first_answer (h : list (string * OwnerMapping)) (uid : string) : option OwnerMapping :=
  snd <$> list_find_p (λ um, String.eqb um.1 uid) h.

(** The workload of a pod, given what is known of ReplicaSets and Jobs: that
    knowledge, else its controller, else the pod itself. *)
Definition workload_of (answers : string → option OwnerMapping) (uid : string) (pod : K8sPod) : OwnerMapping :=
  match pod_controller pod with
  | None => {| om_uid := uid; om_name := default EmptyString (meta_name pod); om_kind := "Pod" |}
  | Some o => if intermediate (owner_kind o) then default (self_owner o) (answers (owner_uid o)) else self_owner o
  end.
Definition identity_of (answers : string → option OwnerMapping) (operators : gset string) (uid : string) (pod : K8sPod)
    : PodIdentity :=
  let namespace := default EmptyString (meta_namespace pod) in
  let w := workload_of answers uid pod in
  {| id_name := default EmptyString (meta_name pod); id_namespace := namespace; id_workload_uid := om_uid w;
     id_workload_name := om_name w; id_workload_kind := om_kind w;
     id_workload_category := classify_category namespace (default ∅ (meta_labels pod)) operators;
     id_labels := capture_labels (default ∅ (meta_labels pod)) exact_labels prefix_labels |}.
(** The entry of a listing for a uid: the last pod carrying it. *)
Definition listed (answers : string → option OwnerMapping) (operators : gset string) (uid : string) (pods : list K8sPod)
    : option PodIdentity :=
  identity_of answers operators uid <$> last (filter (λ p, meta_uid p = Some uid) pods).

(** *** The caches implement it *)

Lemma first_answer_cons u m t u' :
  first_answer ((u, m) :: t) u' = if decide (u = u') then Some m else first_answer t u'.
Proof.
  unfold first_answer, list_find_p. cbn. destruct (String.eqb_spec u u') as [->|Hne]; [by rewrite !decide_True|].
  rewrite !decide_False by done. by destruct (list_find _ t) as [[i x]|].
Qed.
Lemma first_answer_app h t u :
  first_answer (h ++ t) u = match first_answer h u with Some m => Some m | None => first_answer t u end.
Proof. induction h as [|[v m] h IH]; [done|]. cbn [app]. rewrite !first_answer_cons, IH. by case_decide. Qed.
Lemma first_answer_single u m u' : first_answer [(u, m)] u' = if decide (u = u') then Some m else None.
Proof. by rewrite first_answer_cons. Qed.

(** One pod: the cache of owners grows by its sighting, and the workload is what
    the grown cache says. *)
Lemma resolve_owner_spec r uid pod h (oc : OwnerCache) : meta_uid pod = Some uid → (∀ u, oc !! u = first_answer h u) →
  let h' := h ++ match sighting r pod with Some s => [s] | None => [] end in
  let res := resolve_owner (rf_get_owners r) uid (default EmptyString (meta_name pod))
               (default EmptyString (meta_namespace pod)) (default [] (meta_owner_references pod)) oc in
  let w := workload_of (first_answer h') uid pod in
  res.1 = (om_uid w, om_name w, om_kind w) ∧ ∀ u, res.2 !! u = first_answer h' u.
Proof.
  intros Hu Hoc. cbn zeta. unfold resolve_owner, workload_of, sighting, pod_controller. rewrite Hu. cbn [mbind option_bind].
  destruct (select_controller_owner _) as [o|]; cbn [mbind option_bind]; [|rewrite app_nil_r; done].
  fold (intermediate (owner_kind o)). destruct (intermediate (owner_kind o)); [|rewrite app_nil_r; done].
  rewrite Hoc, first_answer_app, first_answer_single, decide_True by done.
  destruct (first_answer h (owner_uid o)) as [m|] eqn:Hm.
  - split; [done|]. intros u. cbn [snd]. rewrite Hoc, first_answer_app, first_answer_single.
    destruct (first_answer h u) eqn:E; [done|]. rewrite decide_False; [done|]. intros <-. congruence.
  - split; [done|]. intros u. cbn [snd]. rewrite first_answer_app, first_answer_single.
    unfold OwnerCache. rewrite lookup_insert. case_decide as Hd; [subst; by rewrite Hm|].
    rewrite Hoc. by destruct (first_answer h u).
Qed.

(** Workloads do not change when more is learnt. *)
Lemma workload_of_grows r uid pod h t : meta_uid pod = Some uid →
  let h' := h ++ match sighting r pod with Some s => [s] | None => [] end in
  workload_of (first_answer (h' ++ t)) uid pod = workload_of (first_answer h') uid pod.
Proof.
  intros Hu. cbn zeta. unfold workload_of, sighting. rewrite Hu. cbn [mbind option_bind].
  destruct (pod_controller pod) as [o|]; cbn [mbind option_bind]; [|done].
  destruct (intermediate (owner_kind o)); [|done].
  rewrite (first_answer_app (h ++ _)), first_answer_app, first_answer_single, decide_True by done.
  by destruct (first_answer h (owner_uid o)).
Qed.

Lemma cache_pods_spec r pods cache h (oc : OwnerCache) t : (∀ u, oc !! u = first_answer h u) →
  let h' := h ++ omap (sighting r) pods in
  let res := foldl (cache_pod (rf_get_owners r) exact_labels prefix_labels (rf_operators r)) (cache, oc) pods in
  (∀ u, res.2 !! u = first_answer h' u) ∧
  ∀ uid, res.1 !! uid = match listed (first_answer (h' ++ t)) (rf_operators r) uid pods with
                        | Some i => Some i | None => cache !! uid end.
Proof.
  revert cache h oc. induction pods as [|pod pods IH]; intros cache h oc Hoc; [by rewrite app_nil_r|].
  cbn zeta. cbn [foldl]. unfold cache_pod at 2 4. cbn [omap list_omap].
  destruct (meta_uid pod) as [uid0|] eqn:Hu.
  - destruct (resolve_owner_spec r uid0 pod h oc Hu Hoc) as [H1 H2].
    pose proof (workload_of_grows r uid0 pod h (omap (sighting r) pods ++ t) Hu) as Hg. cbn zeta in Hg.
    set (h1 := h ++ match sighting r pod with Some s => [s] | None => [] end) in *.
    assert (h ++ match sighting r pod with Some y => y :: omap (sighting r) pods | None => omap (sighting r) pods end =
      h1 ++ omap (sighting r) pods) as -> by (unfold h1; destruct (sighting r pod); by rewrite <-app_assoc).
    destruct (resolve_owner _ _ _ _ _ oc) as [[[a b] c] oc']. cbn in H1, H2. injection H1 as -> -> ->.
    match goal with |- context [foldl _ (?cc, oc') pods] => destruct (IH cc h1 oc' H2) as [H3 H4] end.
    split; [done|]. intros uid. rewrite H4. unfold listed. rewrite filter_cons.
    destruct (decide (meta_uid pod = Some uid)) as [Huid|Huid].
    + assert (uid0 = uid) as -> by congruence. rewrite last_cons. destruct (last _); [done|]. cbn.
      rewrite lookup_insert_eq. unfold identity_of. rewrite <-app_assoc, Hg. done.
    + destruct (last _); [done|]. cbn. rewrite lookup_insert_ne; [done|congruence].
  - assert (sighting r pod = None) as -> by (unfold sighting; by rewrite Hu).
    destruct (IH cache h oc Hoc) as [H3 H4]. split; [done|]. intros uid. rewrite H4.
    unfold listed. rewrite filter_cons, decide_False by (rewrite Hu; done). done.
Qed.

(** C29: the pod cache, after any sequence of successful and failed refreshes, is
    the last successful listing: every pod of it with its labels, its category and
    its workload.  The owner of a ReplicaSet or Job is the one the API named in
    the first refresh in which one of its pods was listed, and the object itself
    when that one lookup failed: every lookup of every refresh may succeed or
    fail and only the first counts. *)
Theorem pod_cache_exact rs uid :
  let known := first_answer (rs ≫= sightings) in
  (run_refreshes rs).1 !! uid =
    (r ← last (filter (λ r, is_Some (rf_listing r)) rs); pods ← rf_listing r; listed known (rf_operators r) uid pods) ∧
  (run_refreshes rs).2 !! uid = known uid.
Proof.
  cbn zeta. unfold run_refreshes.
  assert (∀ (st : gmap string PodIdentity * OwnerCache) h, (∀ u, st.2 !! u = first_answer h u) →
    (∀ u, (foldl refresh_step st rs).2 !! u = first_answer (h ++ (rs ≫= sightings)) u) ∧
    (foldl refresh_step st rs).1 !! uid =
      match last (filter (λ r, is_Some (rf_listing r)) rs) with
      | Some r => pods ← rf_listing r; listed (first_answer (h ++ (rs ≫= sightings))) (rf_operators r) uid pods
      | None => st.1 !! uid
      end) as Hgen.
  { induction rs as [|r rs IH]; intros st h Hst; [by rewrite app_nil_r|]. cbn [foldl mbind list_bind].
    rewrite filter_cons. unfold refresh_step at 2 4, refresh_pod_cache, sightings at 1 3.
    destruct (rf_listing r) as [pods|] eqn:Hl.
    - destruct (cache_pods_spec r pods ∅ h st.2 (rs ≫= sightings) Hst) as [H1 H2].
      destruct (IH _ _ H1) as [H3 H4]. cbn [default from_option id]. rewrite app_assoc. split; [done|].
      rewrite H4, decide_True by (by eexists). rewrite last_cons. destruct (last _); [done|].
      rewrite Hl. cbn [mbind option_bind]. rewrite H2, lookup_empty. by destruct (listed _ _ uid pods).
    - destruct (IH (st.1, st.2) h Hst) as [H3 H4]. split; [done|].
      rewrite H4, decide_False by (by intros []). done. }
  destruct (Hgen (∅, ∅) []) as [H1 H2]; [intros u; apply lookup_empty|]. cbn [app] in H1, H2. split; [|apply H1].
  rewrite H2. destruct (last _); [done|]. apply lookup_empty.
Qed.

(** When the answers about an object never differ, what a refresh would be told
    afresh is what the caches hold: remembering owners then changes nothing. *)
Lemma stable_answers rs r u m : (∀ u m m', (u, m) ∈ rs ≫= sightings → (u, m') ∈ rs ≫= sightings → m = m') →
  r ∈ rs → (u, m) ∈ sightings r → first_answer (rs ≫= sightings) u = Some m.
Proof.
  intros Hst Hr Hin. assert ((u, m) ∈ rs ≫= sightings) as Hm by (apply list_elem_of_bind; eauto).
  unfold first_answer. destruct (list_find_p _ _) as [[u' m']|] eqn:E.
  - apply list_find_p_Some in E as [Hin' Heq%String.eqb_eq]. cbn in Heq. subst u'. cbn. f_equal. by eapply Hst.
  - apply (proj1 (list_find_p_None _ _)) with (x := (u, m)) in E; [|done]. cbn in E. by rewrite String.eqb_refl in E.
Qed.
End owners.

(** ** Examples *)

#[local] Existing Instance hash_iter_list.

Definition demo_get_owners (kind ns name : string) : option (list OwnerReference) :=
  if String.eqb name "web-5d" then
    Some [{| owner_uid := "u-web"; owner_kind := "Deployment"; owner_name := "web"; owner_controller := Some true |}]
  else None.
Definition demo_k8s_pod (uid : string) : K8sPod :=
  {| meta_uid := Some uid; meta_name := Some uid; meta_namespace := Some "shop";
     meta_labels := Some {[ "olm.owner" := "x"; "secret" := "y" ]};
     meta_owner_references :=
       Some [{| owner_uid := "u-rs"; owner_kind := "ReplicaSet"; owner_name := "web-5d"; owner_controller := None |}] |}.
Definition demo_refresh (answers : bool) (listing : option (list K8sPod)) : Refresh :=
  {| rf_get_owners := if answers then demo_get_owners else λ _ _ _, None; rf_listing := listing; rf_operators := ∅ |}.
Definition demo_workload (rs : list Refresh) (uid : string) : option (string * string) :=
  (λ i, (id_workload_kind i, id_workload_name i)) <$> (run_refreshes ["olm.owner"] [] rs).1 !! uid.

(** The Deployment is found, and a failed listing leaves the cache. *)
Example deployment_found :
  demo_workload [demo_refresh true (Some [demo_k8s_pod "a"]); demo_refresh true (Some [demo_k8s_pod "b"]);
                 demo_refresh true None] "b" = Some ("Deployment", "web").
Proof. by vm_compute. Qed.
(** A single failed lookup is remembered for good: the pods of the Deployment,
    later ones included, stay labelled with the ReplicaSet. *)
Example failed_lookup_remembered :
  demo_workload [demo_refresh false (Some [demo_k8s_pod "a"]); demo_refresh true (Some [demo_k8s_pod "b"]);
                 demo_refresh true (Some [demo_k8s_pod "b"; demo_k8s_pod "c"])] "c" = Some ("ReplicaSet", "web-5d").
Proof. by vm_compute. Qed.
