(* ===== verification/Classify.v ===== *)
(** * Classify: which namespaces are platform, operator or application

    keck-controller/src/application.rs.  The objects the Kubernetes API returns
    (ClusterOperators with their related objects, OLM Subscriptions) are the
    arguments of the discovery functions; an API error is the empty list. *)

From S2P Require Import Prelude.
From Stdlib Require Import Ascii.

Open Scope Z_scope.

Record ApplicationDef := {
  app_name : string;
  app_namespaces : list string;
  label_selectors : list (gmap string string)
}.

Record ClassificationData := {
  co_namespaces : gmap string string;
  operator_namespaces : gset string;
  app_defs : list ApplicationDef
}.
Definition ClassificationData_default : ClassificationData :=
  {| co_namespaces := ∅; operator_namespaces := ∅; app_defs := [] |}.

Definition classify (cls : ClassificationData) (namespace : string) : string * option string :=
  match co_namespaces cls !! namespace with
  | Some co_name => ("platform", Some co_name)
  | None => if decide (namespace ∈ operator_namespaces cls) then ("operator", None) else ("application", None)
  end.

(** [str::contains] and [str::replace('-', _)]. *)
Fixpoint str_contains (s sub : string) : bool :=
  String.prefix sub s ||
  match s with
  | EmptyString => false
  | String _ s' => str_contains s' sub
  end.
Fixpoint replace_dash (s : string) : string :=
  match s with
  | EmptyString => EmptyString
  | String c s' => String (if Ascii.eqb c "-"%char then "_"%char else c) (replace_dash s')
  end.

(** A ClusterOperator as the API returns it: name, and resource and name of each
    related object. *)
Record ClusterOperator := {
  co_meta_name : option string;
  co_related : list (option string * option string)
}.

Definition discover_related (co_name : string) (ns_to_co : gmap string string)
    (obj : option string * option string) : gmap string string :=
  if negb (String.eqb (default EmptyString obj.1) "namespaces") then ns_to_co else
  match obj.2 with
  | None => ns_to_co
  | Some ns =>
      if (String.eqb ns "openshift-config") || (String.eqb ns "openshift-config-managed") then ns_to_co else
      let dominated := str_contains ns co_name || str_contains ns (replace_dash co_name) in
      match ns_to_co !! ns with
      | None => <[ns := co_name]> ns_to_co
      | Some existing =>
          if dominated && negb (str_contains ns existing) then <[ns := co_name]> ns_to_co else ns_to_co
      end
  end.

Definition discover_co_namespaces (operators : list ClusterOperator) : gmap string string :=
  foldl (λ m co, foldl (discover_related (default EmptyString (co_meta_name co))) m (co_related co)) ∅ operators.

(** Subscriptions by their optional namespace. *)
Definition discover_subscription_namespaces (subs : list (option string)) : gset string :=
  list_to_set (omap id subs).

(** One turn of the watch loop: the data it publishes. *)
Definition watch_classification (operators : list ClusterOperator) (subs : list (option string))
    : ClassificationData :=
  let co := discover_co_namespaces operators in
  {| co_namespaces := co;
     operator_namespaces := filter (λ ns, co !! ns = None) (discover_subscription_namespaces subs);
     app_defs := [] |}.

(** ** Discovery finds exactly the namespaces the operators list *)

Definition excluded (ns : string) : Prop := ns = "openshift-config" ∨ ns = "openshift-config-managed".
(** [co] names [ns] as one of its namespaces. *)
Definition owns (co : ClusterOperator) (ns : string) : Prop := (Some "namespaces", Some ns) ∈ co_related co.

Lemma discover_related_lookup co_name m obj ns :
  let added := obj = (Some "namespaces", Some ns) ∧ ¬ excluded ns in
  (∀ co, discover_related co_name m obj !! ns = Some co → m !! ns = Some co ∨ (co = co_name ∧ added)) ∧
  (is_Some (m !! ns) ∨ added → is_Some (discover_related co_name m obj !! ns)).
Proof.
  destruct obj as [res name]. unfold discover_related, excluded. cbn [fst snd].
  destruct (String.eqb_spec (default EmptyString res) "namespaces") as [Hr|Hr]; cbn [negb].
  2:{ split; [by left|]. intros [?|[[= -> ->] _]]; done. }
  destruct res as [res|]; [|done]. cbn in Hr. subst res.
  destruct name as [n|]; [|split; [by left|]; intros [?|[[=] _]]; done].
  destruct (orb _ _) eqn:Hex.
  { split; [by left|]. intros [?|[[= ->] Hne]]; [done|]. destruct Hne.
    apply orb_true_iff in Hex as [Hx%String.eqb_eq|Hx%String.eqb_eq]; auto. }
  apply orb_false_iff in Hex as [H1%String.eqb_neq H2%String.eqb_neq].
  destruct (decide (n = ns)) as [->|Hne].
  - destruct (m !! ns) as [ex|] eqn:E.
    + case_match; rewrite ?lookup_insert_eq; naive_solver.
    + rewrite lookup_insert_eq. naive_solver.
  - repeat case_match; rewrite ?lookup_insert_ne by done; naive_solver.
Qed.

Lemma discover_operators_lookup operators m0 ns :
  let m := foldl (λ m co, foldl (discover_related (default EmptyString (co_meta_name co))) m (co_related co)) m0 operators in
  (∀ name, m !! ns = Some name → m0 !! ns = Some name ∨
     (¬ excluded ns ∧ ∃ co, co ∈ operators ∧ owns co ns ∧ name = default EmptyString (co_meta_name co))) ∧
  (is_Some (m0 !! ns) ∨ (¬ excluded ns ∧ ∃ co, co ∈ operators ∧ owns co ns) → is_Some (m !! ns)).
Proof.
  cbn zeta. revert m0. induction operators as [|co operators IH]; intros m0; cbn [foldl].
  { split; [by left|]. intros [?|(_ & ? & Hin & _)]; [done|by apply not_elem_of_nil in Hin]. }
  set (nm := default EmptyString (co_meta_name co)).
  assert ((∀ name, foldl (discover_related nm) m0 (co_related co) !! ns = Some name →
             m0 !! ns = Some name ∨ (name = nm ∧ ¬ excluded ns ∧ owns co ns)) ∧
          (is_Some (m0 !! ns) ∨ (¬ excluded ns ∧ owns co ns) →
             is_Some (foldl (discover_related nm) m0 (co_related co) !! ns))) as [Ha Hb].
  { unfold owns. clear IH. generalize (co_related co) as objs. intros objs. revert m0.
    induction objs as [|obj objs IH]; intros m0; cbn [foldl].
    { split; [by left|]. intros [?|[_ Hin]]; [done|by apply not_elem_of_nil in Hin]. }
    destruct (discover_related_lookup nm m0 obj ns) as [H1 H2]. destruct (IH (discover_related nm m0 obj)) as [H3 H4].
    split.
    - intros name [Hn|(-> & Hex & Hin)]%H3; [|right; split; [done|]; split; [done|by right]].
      apply H1 in Hn as [?|(-> & -> & Hex)]; [by left|]. right. split; [done|]. split; [done|left].
    - intros [Hs|[Hex [<-|Hin]%elem_of_cons]]; apply H4; [left; auto|left; auto|right; done]. }
  destruct (IH (foldl (discover_related nm) m0 (co_related co))) as [Hc Hd]. split.
  - intros name [Hn|(Hex & co' & Hin & Ho & ->)]%Hc; [|right; split; [done|]; exists co'; split; [by right|done]].
    apply Ha in Hn as [?|(-> & Hex & Ho)]; [by left|]. right. split; [done|]. exists co. split; [left|done].
  - intros [Hs|(Hex & co' & [->|Hin]%elem_of_cons & Ho)]; apply Hd; [left; auto|left; auto|right; eauto].
Qed.

