(* ===== verification/Procfs.v ===== *)
(** * Procfs: what the agent reads of a process, and of a core's counters

    The readers of /proc/pid files and of the cgroup path in
    keck-agent/src/main.rs, on the text of the files, and the counter deltas of
    keck-agent/src/perf_counters.rs.  A file that cannot be read is [None]. *)

From S2P Require Import Prelude F64 Classify Text.
From Stdlib Require Import Ascii.

Open Scope Z_scope.

(** The files of one /proc/pid directory. *)
Record ProcFiles := {
  pf_status : option string;
  pf_stat : option string;
  pf_smaps_rollup : option string;
  pf_statm : option string;
  pf_io : option string;
  pf_cgroup : option string
}.

Record ProcStat := { st_cpu_ticks : Z; st_minflt : Z; st_majflt : Z }.

(** [fields[i].parse().ok()] *)
Definition field_u64 (fields : list string) (i : nat) : option Z := fields !! i ≫= parse_u64.

Definition read_proc_stat (f : ProcFiles) : option ProcStat :=
  content ← pf_stat f;
  after_comm ← rsplit_once_snd ")"%char content;
  let fields := split_whitespace after_comm in
  if (length fields <? 13)%nat then None else
  minflt ← field_u64 fields 7;
  majflt ← field_u64 fields 9;
  utime ← field_u64 fields 11;
  stime ← field_u64 fields 12;
  Some {| st_cpu_ticks := u64_add utime stime; st_minflt := minflt; st_majflt := majflt |}.

Definition read_cpu_ticks (f : ProcFiles) : option Z := st_cpu_ticks <$> read_proc_stat f.

Definition read_pss_kb (f : ProcFiles) : option Z :=
  content ← pf_smaps_rollup f;
  line ← list_find_p (λ l, String.prefix "Pss:" l) (str_lines content);
  field_u64 (split_whitespace line) 1.

Definition read_rss_pages (f : ProcFiles) : option Z :=
  content ← pf_statm f;
  let fields := split_whitespace content in
  if (length fields <? 2)%nat then None else field_u64 fields 1.

Definition read_io_bytes (f : ProcFiles) : option Z :=
  content ← pf_io f;
  Some (foldl (λ total line,
          if String.prefix "read_bytes:" line || String.prefix "write_bytes:" line then
            match field_u64 (split_whitespace line) 1 with
            | Some val => u64_add total val
            | None => total
            end
          else total) 0 (str_lines content)).

(** PSS in kB, or four times the resident pages when there is none. *)
Definition pss_or_rss (f : ProcFiles) : Z :=
  match read_pss_kb f with
  | Some kb => kb
  | None => u64_mul (default 0 (read_rss_pages f)) 4
  end.

(** A thread of another process: its Tgid line names someone else. *)
Definition is_thread (pid_str : string) (f : ProcFiles) : bool :=
  match pf_status f with
  | None => false
  | Some status =>
      match list_find_p (λ l, String.prefix "Tgid:" l) (str_lines status) with
      | None => false
      | Some line => negb (String.eqb (default EmptyString (split_whitespace line !! 1%nat)) pid_str)
      end
  end.

Definition uid_char (c : ascii) : bool := is_ascii_alphanumeric c || Ascii.eqb c "_"%char || Ascii.eqb c "-"%char.
Definition underscore_to_dash (c : ascii) : ascii := if Ascii.eqb c "_"%char then "-"%char else c.

Definition line_pod_uid (line : string) : option string :=
  after ← after_find "-pod" (rsplit_last ":"%char line);
  let uid := str_take_while uid_char after in
  if (8 <=? String.length uid)%nat then Some (str_map underscore_to_dash uid) else None.
Fixpoint first_some {A B} (f : A → option B) (l : list A) : option B :=
  match l with
  | [] => None
  | x :: l' => match f x with Some y => Some y | None => first_some f l' end
  end.
Definition extract_pod_uid (cgroup_content : string) : option string :=
  first_some line_pod_uid (str_lines cgroup_content).

(** The pod of a process. *)
Definition pod_of_files (f : ProcFiles) : option string := pf_cgroup f ≫= extract_pod_uid.

(** ** Hardware counters *)

Record CoreCounterDeltas := { cd_core_id : Z; cd_instructions : Z; cd_cycles : Z; cd_cache_misses : Z }.
Record CoreSnapshot := { sn_instructions : Z; sn_cycles : Z; sn_cache_misses : Z }.
Record HwCounterReader := { hw_cores : list Z; hw_prev : list CoreSnapshot }.

(** The counters of each core as read now ([None]: the read failed). *)
Definition core_snapshot (read : Z → option Z * option Z * option Z) (core : Z) : CoreSnapshot :=
  let '(i, c, m) := read core in
  {| sn_instructions := default 0 i; sn_cycles := default 0 c; sn_cache_misses := default 0 m |}.
Definition HwCounterReader_new (num_cores : nat) : HwCounterReader :=
  let cores := Z.of_nat <$> seq 0 num_cores in
  {| hw_cores := cores;
     hw_prev := (λ _, {| sn_instructions := 0; sn_cycles := 0; sn_cache_misses := 0 |}) <$> cores |}.
Definition read_deltas (read : Z → option Z * option Z * option Z) (r : HwCounterReader)
    : list CoreCounterDeltas * HwCounterReader :=
  let now := core_snapshot read <$> hw_cores r in
  ((λ cpn : Z * (CoreSnapshot * CoreSnapshot),
      let '(core, (prev, cur)) := cpn in
      {| cd_core_id := core;
         cd_instructions := sat_sub (sn_instructions cur) (sn_instructions prev);
         cd_cycles := sat_sub (sn_cycles cur) (sn_cycles prev);
         cd_cache_misses := sat_sub (sn_cache_misses cur) (sn_cache_misses prev) |})
   <$> zip (hw_cores r) (zip (hw_prev r) now),
   {| hw_cores := hw_cores r; hw_prev := now |}).

(** A failed read counts as zero, and the next delta is the whole counter. *)
Example failed_read_spikes :
  let ok n := λ _ : Z, (Some n, Some n, Some n) in
  let r0 := (read_deltas (ok 1000) (HwCounterReader_new 1)).2 in
  let r1 := (read_deltas (λ _, (None, None, None)) r0).2 in
  (cd_cycles <$> (read_deltas (ok 1010) r0).1 = [10]) ∧ (cd_cycles <$> (read_deltas (ok 1020) r1).1 = [1020]).
Proof. done. Qed.

(** ** Reading back what the kernel writes *)

Example stat_example :
  read_cpu_ticks {| pf_status := None; pf_stat := Some "7 (a) b) S 1 7 7 0 -1 4 100 5 3 1 40 2 0 0 20"; pf_smaps_rollup := None;
                    pf_statm := None; pf_io := None; pf_cgroup := None |} = Some 42.
Proof. reflexivity. Qed.

(** Characters of a cgroup path. *)
Definition path_char (c : ascii) : bool :=
  negb (Ascii.eqb c ":"%char || Ascii.eqb c newline || Ascii.eqb c carriage_return).
(** Characters of a pod uid: hexadecimal groups joined by dashes. *)
Definition pod_uid_char (c : ascii) : bool := is_ascii_alphanumeric c || Ascii.eqb c "-"%char.
(** The escape of systemd slice names. *)
Definition dash_to_underscore (c : ascii) : ascii := if Ascii.eqb c "-"%char then "_"%char else c.

(** The marker cannot overlap itself, so the first one is the one we wrote. *)
Lemma after_find_pod pre s : str_contains pre "-pod" = false →
  after_find "-pod" (String.append pre (String.append "-pod" s)) = Some s.
Proof.
  induction pre as [|a pre IH]; intros Hpre; [by destruct s|].
  cbn [str_contains] in Hpre. apply orb_false_iff in Hpre as [Hp Hc]. specialize (IH Hc).
  change (String.append (String a pre) ?x) with (String a (String.append pre x)).
  cbn [after_find]. destruct (String.prefix "-pod" (String a (String.append pre (String.append "-pod" s)))) eqn:E;
    [exfalso|exact IH].
  destruct pre as [|b [|c [|d pre]]]; rewrite ?append_cons, ?append_nil in E; rewrite ?append_cons, !prefix_cons in E;
    rewrite ?prefix_cons, ?prefix_nil in Hp; rewrite ?prefix_nil in E; rewrite ?Hp in E; try done;
    repeat (let H := fresh in apply andb_prop in E as [H E]; try discriminate H).
Qed.

Lemma escape_chars uid : str_all pod_uid_char uid = true →
  str_all uid_char (str_map dash_to_underscore uid) = true ∧
  str_map underscore_to_dash (str_map dash_to_underscore uid) = uid.
Proof.
  induction uid as [|c uid IH]; [done|]. cbn. intros [Hc Hu]%andb_prop. destruct (IH Hu) as [-> ->].
  unfold uid_char, underscore_to_dash, dash_to_underscore, pod_uid_char in *.
  destruct (Ascii.eqb_spec c "-"%char) as [->|Hd]; [done|]. rewrite orb_false_r in Hc. rewrite Hc. split; [done|].
  destruct (Ascii.eqb_spec c "_"%char) as [->|]; done.
Qed.

Lemma path_char_line c : path_char c = true → line_char c = true.
Proof. unfold path_char, line_char. by destruct (Ascii.eqb c ":"%char). Qed.
Lemma path_char_colon c : path_char c = true → negb (Ascii.eqb c ":"%char) = true.
Proof. unfold path_char. by destruct (Ascii.eqb c ":"%char). Qed.
Lemma uid_char_path c : uid_char c = true → path_char c = true.
Proof.
  unfold path_char. destruct (Ascii.eqb_spec c ":"%char) as [->|]; [done|].
  destruct (Ascii.eqb_spec c newline) as [->|]; [done|]. by destruct (Ascii.eqb_spec c carriage_return) as [->|].
Qed.

(** The cgroup file of a container of pod [uid]: the slice name carries the uid
    with its dashes escaped. *)
Definition cgroup_file (pre uid rest : string) : string :=
  String.append "0::" (String.append (String.append pre (String.append "-pod"
    (String.append (str_map dash_to_underscore uid) (String "."%char rest)))) (String newline EmptyString)).

(** C30: the uid of a pod survives the trip through its cgroup path.  From a
    single-line cgroup file whose path has no colon and no earlier "-pod", the
    agent reads back the very uid, of eight or more letters, digits and dashes,
    that the kubelet escaped into the name of the pod's slice, whatever else the
    slices above it and the scopes below it are called. *)
Theorem extract_pod_uid_roundtrip pre uid rest :
  str_all path_char pre = true → str_contains pre "-pod" = false →
  str_all pod_uid_char uid = true → (8 <= String.length uid)%nat → str_all path_char rest = true →
  extract_pod_uid (cgroup_file pre uid rest) = Some uid.
Proof.
  intros Hpre Hpod Huid Hlen Hrest. destruct (escape_chars uid Huid) as [Hesc Hback].
  unfold cgroup_file. set (body := String.append (str_map dash_to_underscore uid) (String "."%char rest)).
  set (path := String.append pre (String.append "-pod" body)).
  assert (str_all path_char path = true) as Hpath.
  { unfold path, body. rewrite !str_all_app, Hpre. cbn [andb]. rewrite (str_all_impl _ _ _ uid_char_path Hesc).
    cbn [str_all]. by rewrite Hrest. }
  change (String.append "0::" (String.append path (String newline EmptyString)))
    with (String.append (String.append "0:" (String ":"%char path)) (String newline EmptyString)).
  unfold extract_pod_uid. rewrite str_lines_one by exact (str_all_impl _ _ _ path_char_line Hpath).
  cbn [first_some]. unfold line_pod_uid.
  rewrite rsplit_last_app by exact (str_all_impl _ _ _ path_char_colon Hpath).
  unfold path. rewrite after_find_pod by done. cbn [mbind option_bind]. unfold body.
  rewrite take_while_app by done. rewrite length_str_map, Hback.
  by destruct (Nat.leb_spec 8 (String.length uid)); [|lia].
Qed.

Lemma extract_pod_uid_roundtrip_witness :
  extract_pod_uid (cgroup_file "/kubepods.slice/kubepods-burstable.slice/kubepods-burstable"
    "3f2a6c1e-9b7d-4e0f-8a55-0123456789ab" "slice/crio-77.scope") = Some "3f2a6c1e-9b7d-4e0f-8a55-0123456789ab".
Proof. apply extract_pod_uid_roundtrip; [reflexivity|reflexivity|reflexivity|cbn; lia|reflexivity]. Defined.

(** A colon in the path, as containerd's systemd driver can write it, hides the
    uid: the line is cut at its last colon. *)
Example colon_in_path_hides_uid :
  extract_pod_uid (cgroup_file "/kubepods.slice/kubepods" "3f2a6c1e-9b7d-4e0f-8a55-0123456789ab"
    "slice:cri-containerd:77aa") = None.
Proof. reflexivity. Qed.
