(* ===== verification/Aggregator.v ===== *)
(** * Aggregator: the controller's cluster-wide view

    keck-controller/src/aggregator/mod.rs.  The state is the record behind the
    controller's [RwLock]; each operation is the body run under the lock, with
    the clock readings it takes as arguments ([Instant] and [SystemTime] in
    nanoseconds). *)

From S2P Require Import Prelude F64 Classify.

Open Scope Z_scope.

Record PodPowerReport := {
  pr_node_name : string;
  pr_pod_uid : string;
  pr_pod_name : string;
  pr_namespace : string;
  pr_cpu_uw : Z;
  pr_memory_uw : Z;
  pr_gpu_uw : Z;
  pr_storage_uw : Z;
  pr_io_uw : Z;
  pr_total_uw : Z;
  pr_timestamp : Z;
  pr_workload_uid : string;
  pr_workload_name : string;
  pr_workload_kind : string;
  pr_workload_category : string;
  pr_labels : gmap string string;
  pr_metering_method : string
}.

Record SourceStatus := {
  ss_name : string;
  ss_node_name : string;
  ss_component : string;
  ss_reading_type : string;
  ss_available : bool;
  ss_selected : bool;
  ss_power_uw : Z
}.

Record NodePowerReport := {
  nr_node_name : string;
  nr_cpu_uw : Z;
  nr_memory_uw : Z;
  nr_gpu_uw : Z;
  nr_platform_uw : option Z;
  nr_psu_output_uw : option Z;
  nr_idle_uw : Z;
  nr_error_ratio : f64;
  nr_pod_count : Z;
  nr_process_count : Z;
  nr_timestamp : Z;
  nr_cpu_source : string;
  nr_memory_source : string;
  nr_cpu_reading_type : string;
  nr_sources : list SourceStatus;
  nr_metering_method : string
}.

Record AgentReport := { ar_node : NodePowerReport; ar_pods : list PodPowerReport }.

Record PodState := { ps_report : PodPowerReport; ps_received_at : Z }.
Record NodeState := { ns_report : NodePowerReport; ns_received_at : Z }.

Record NsPower := {
  nsp_namespace : string;
  nsp_cpu_uw : Z;
  nsp_memory_uw : Z;
  nsp_gpu_uw : Z;
  nsp_storage_uw : Z;
  nsp_io_uw : Z;
  nsp_total_uw : Z;
  nsp_pod_count : nat
}.
Record ClusterPower := {
  cl_cpu_uw : Z;
  cl_memory_uw : Z;
  cl_gpu_uw : Z;
  cl_platform_uw : Z;
  cl_psu_output_uw : Z;
  cl_psu_loss_uw : Z;
  cl_idle_uw : Z;
  cl_total_attributed_uw : Z;
  cl_node_count : nat;
  cl_pod_count : nat;
  cl_avg_error_ratio : f64
}.
Record NodeSummary := {
  sum_node_name : string;
  sum_cpu_uw : Z;
  sum_memory_uw : Z;
  sum_gpu_uw : Z;
  sum_platform_uw : option Z;
  sum_psu_output_uw : option Z;
  sum_idle_uw : Z;
  sum_error_ratio : f64;
  sum_pod_count : Z;
  sum_headroom_uw : option Z;
  sum_cpu_source : string;
  sum_cpu_reading_type : string;
  sum_metering_method : string;
  sum_last_seen : Z;
  sum_last_seen_secs_ago : Z
}.

Inductive GroupBy :=
| GWorkload
| GLabel (label_key : string)
| GNamespace
| GApplication.

Definition GroupBy_parse (raw : string) : GroupBy :=
  if String.eqb raw "namespace" then GNamespace
  else if String.eqb raw "workload" then GWorkload
  else if String.eqb raw "application" then GApplication
  else if String.prefix "label:" raw then GLabel (String.substring 6 (String.length raw - 6) raw)
  else GApplication.

Record PodPowerSummary := {
  pps_pod_uid : string;
  pps_pod_name : string;
  pps_cpu_uw : Z;
  pps_memory_uw : Z;
  pps_gpu_uw : Z;
  pps_total_uw : Z
}.
Record GroupPower := {
  gp_group_key : string;
  gp_group_name : string;
  gp_group_kind : string;
  gp_namespace : string;
  gp_category : string;
  gp_cpu_uw : Z;
  gp_memory_uw : Z;
  gp_gpu_uw : Z;
  gp_storage_uw : Z;
  gp_io_uw : Z;
  gp_total_uw : Z;
  gp_pod_count : nat;
  gp_pods : list PodPowerSummary
}.

Record ClusterAggregator := {
  pods : gmap (string * string) PodState;
  nodes : gmap (string * string) NodeState;
  staleness_threshold : Z;
  history : gmap string (list (Z * Z));
  history_retention : Z
}.

Definition sec : Z := 1000000000.
Definition ClusterAggregator_new : ClusterAggregator :=
  {| pods := ∅; nodes := ∅; staleness_threshold := 60 * sec; history := ∅; history_retention := 3600 * sec |}.

(** ** Writing *)

Definition str_empty (s : string) : bool := String.eqb s EmptyString.

(** The slot a report goes to: "keck" unless it says otherwise. *)
Definition report_method (node : NodePowerReport) : string :=
  if str_empty (nr_metering_method node) then "keck" else nr_metering_method node.

Definition with_method (method : string) (pod : PodPowerReport) : PodPowerReport :=
  if str_empty (pr_metering_method pod) then
    {| pr_node_name := pr_node_name pod; pr_pod_uid := pr_pod_uid pod; pr_pod_name := pr_pod_name pod;
       pr_namespace := pr_namespace pod; pr_cpu_uw := pr_cpu_uw pod; pr_memory_uw := pr_memory_uw pod;
       pr_gpu_uw := pr_gpu_uw pod; pr_storage_uw := pr_storage_uw pod; pr_io_uw := pr_io_uw pod;
       pr_total_uw := pr_total_uw pod; pr_timestamp := pr_timestamp pod; pr_workload_uid := pr_workload_uid pod;
       pr_workload_name := pr_workload_name pod; pr_workload_kind := pr_workload_kind pod;
       pr_workload_category := pr_workload_category pod; pr_labels := pr_labels pod;
       pr_metering_method := method |}
  else pod.

(** [pods.retain] of [ingest]. *)
Definition evicted_by (method node_name : string) (reported_uids : list string)
    (kv : (string * string) * PodState) : Prop :=
  kv.1.2 = method ∧ pr_node_name (ps_report kv.2) = node_name ∧ kv.1.1 ∉ reported_uids.
#[global] Instance evicted_by_dec m n u kv : Decision (evicted_by m n u kv).
Proof. unfold evicted_by. apply _. Defined.

Definition insert_pod (now : Z) (method : string) (ph : gmap (string * string) PodState * gmap string (list (Z * Z)))
    (pod : PodPowerReport) : gmap (string * string) PodState * gmap string (list (Z * Z)) :=
  (<[(pr_pod_uid pod, method) := {| ps_report := with_method method pod; ps_received_at := now |}]> ph.1,
   hm_upd (pr_namespace pod) [] (λ h, h ++ [(pr_timestamp pod, pr_total_uw pod)]) ph.2).

Definition evict_stale (now : Z) (ag : ClusterAggregator) : ClusterAggregator :=
  let threshold := now - staleness_threshold ag in
  {| pods := filter (λ kv : (string * string) * PodState, threshold < ps_received_at kv.2) (pods ag);
     nodes := filter (λ kv : (string * string) * NodeState, threshold < ns_received_at kv.2) (nodes ag);
     staleness_threshold := staleness_threshold ag; history := history ag;
     history_retention := history_retention ag |}.

Definition trim_history (system_now : Z) (ag : ClusterAggregator) : ClusterAggregator :=
  let cutoff := system_now - history_retention ag in
  {| pods := pods ag; nodes := nodes ag; staleness_threshold := staleness_threshold ag;
     history := filter (λ kv : string * list (Z * Z), kv.2 ≠ [])
                  (filter (λ tv : Z * Z, cutoff <= tv.1) <$> history ag);
     history_retention := history_retention ag |}.

(** [ingest]: received at [now], evicting at [now_evict], trimming at
    [system_now]. *)
Definition ingest (now now_evict system_now : Z) (report : AgentReport) (ag : ClusterAggregator) : ClusterAggregator :=
  let node_name := nr_node_name (ar_node report) in
  let method := report_method (ar_node report) in
  let nodes' := <[(node_name, method) := {| ns_report := ar_node report; ns_received_at := now |}]> (nodes ag) in
  let reported_uids := pr_pod_uid <$> ar_pods report in
  let kept := filter (λ kv, ¬ evicted_by method node_name reported_uids kv) (pods ag) in
  let '(pods', history') := foldl (insert_pod now method) (kept, history ag) (ar_pods report) in
  trim_history system_now (evict_stale now_evict
    {| pods := pods'; nodes := nodes'; staleness_threshold := staleness_threshold ag; history := history';
       history_retention := history_retention ag |}).

Definition evict_removed_nodes (live_node_names : list string) (ag : ClusterAggregator) : ClusterAggregator :=
  {| pods := filter (λ kv : (string * string) * PodState, pr_node_name (ps_report kv.2) ∈ live_node_names) (pods ag);
     nodes := filter (λ kv : (string * string) * NodeState, kv.1.1 ∈ live_node_names) (nodes ag);
     staleness_threshold := staleness_threshold ag; history := history ag;
     history_retention := history_retention ag |}.

(** ** Reading *)

Definition matches_method (report_method : string) (flt : option string) : bool :=
  let m := default "keck" flt in
  let rm := if str_empty report_method then "keck" else report_method in
  String.eqb rm m.

Section queries.
Context `{HI : HashIter}.

Definition node_reports (method : option string) (ag : ClusterAggregator) : list NodeState :=
  filter (λ s, matches_method (nr_metering_method (ns_report s)) method = true) (hm_values (nodes ag)).
Definition all_pods_filtered (method : option string) (ag : ClusterAggregator) : list PodPowerReport :=
  ps_report <$> filter (λ s, matches_method (pr_metering_method (ps_report s)) method = true) (hm_values (pods ag)).
Definition all_pods (ag : ClusterAggregator) : list PodPowerReport := ps_report <$> hm_values (pods ag).

(** The loop's eight accumulators. *)
Record ClusterAcc := {
  a_cpu : Z; a_memory : Z; a_gpu : Z; a_platform : Z; a_psu : Z; a_idle : Z; a_error : f64; a_count : nat
}.
Definition cluster_step (a : ClusterAcc) (s : NodeState) : ClusterAcc :=
  let r := ns_report s in
  {| a_cpu := u64_add (a_cpu a) (nr_cpu_uw r); a_memory := u64_add (a_memory a) (nr_memory_uw r);
     a_gpu := u64_add (a_gpu a) (nr_gpu_uw r); a_platform := u64_add (a_platform a) (default 0 (nr_platform_uw r));
     a_psu := u64_add (a_psu a) (default 0 (nr_psu_output_uw r)); a_idle := u64_add (a_idle a) (nr_idle_uw r);
     a_error := fadd (a_error a) (nr_error_ratio r); a_count := S (a_count a) |}.

Definition cluster_power (method : option string) (ag : ClusterAggregator) : ClusterPower :=
  let a := foldl cluster_step
    {| a_cpu := 0; a_memory := 0; a_gpu := 0; a_platform := 0; a_psu := 0; a_idle := 0; a_error := fzero; a_count := 0 |}
    (node_reports method ag) in
  {| cl_cpu_uw := a_cpu a; cl_memory_uw := a_memory a; cl_gpu_uw := a_gpu a; cl_platform_uw := a_platform a;
     cl_psu_output_uw := a_psu a; cl_psu_loss_uw := sat_sub (a_platform a) (a_psu a); cl_idle_uw := a_idle a;
     cl_total_attributed_uw := u64_add (u64_add (a_cpu a) (a_memory a)) (a_gpu a);
     cl_node_count := a_count a; cl_pod_count := length (all_pods_filtered method ag);
     cl_avg_error_ratio := if (0 <? a_count a)%nat then fdiv (a_error a) (f_of_Z (Z.of_nat (a_count a))) else fzero |}.

Definition ns_zero (ns : string) : NsPower :=
  {| nsp_namespace := ns; nsp_cpu_uw := 0; nsp_memory_uw := 0; nsp_gpu_uw := 0; nsp_storage_uw := 0;
     nsp_io_uw := 0; nsp_total_uw := 0; nsp_pod_count := 0 |}.
Definition ns_add (r : PodPowerReport) (e : NsPower) : NsPower :=
  {| nsp_namespace := nsp_namespace e; nsp_cpu_uw := u64_add (nsp_cpu_uw e) (pr_cpu_uw r);
     nsp_memory_uw := u64_add (nsp_memory_uw e) (pr_memory_uw r); nsp_gpu_uw := u64_add (nsp_gpu_uw e) (pr_gpu_uw r);
     nsp_storage_uw := u64_add (nsp_storage_uw e) (pr_storage_uw r); nsp_io_uw := u64_add (nsp_io_uw e) (pr_io_uw r);
     nsp_total_uw := u64_add (nsp_total_uw e) (pr_total_uw r); nsp_pod_count := S (nsp_pod_count e) |}.

Definition namespace_power (method : option string) (ag : ClusterAggregator) : list NsPower :=
  sort_desc nsp_total_uw
    (hm_values (hm_group pr_namespace (λ r, ns_zero (pr_namespace r)) ns_add (all_pods_filtered method ag))).

Definition pods_in_namespace (namespace : string) (method : option string) (ag : ClusterAggregator) : list PodPowerReport :=
  filter (λ r, pr_namespace r = namespace) (all_pods_filtered method ag).

Definition node_summary_of (now : Z) (s : NodeState) : NodeSummary :=
  let r := ns_report s in
  let used := u64_add (u64_add (nr_cpu_uw r) (nr_memory_uw r)) (nr_gpu_uw r) in
  {| sum_node_name := nr_node_name r; sum_cpu_uw := nr_cpu_uw r; sum_memory_uw := nr_memory_uw r;
     sum_gpu_uw := nr_gpu_uw r; sum_platform_uw := nr_platform_uw r; sum_psu_output_uw := nr_psu_output_uw r;
     sum_idle_uw := nr_idle_uw r; sum_error_ratio := nr_error_ratio r; sum_pod_count := nr_pod_count r;
     sum_headroom_uw := (λ p, sat_sub p used) <$> nr_platform_uw r; sum_cpu_source := nr_cpu_source r;
     sum_cpu_reading_type := nr_cpu_reading_type r; sum_metering_method := nr_metering_method r;
     sum_last_seen := ns_received_at s; sum_last_seen_secs_ago := sat_sub now (ns_received_at s) / sec |}.
Definition node_summaries (now : Z) (method : option string) (ag : ClusterAggregator) : list NodeSummary :=
  node_summary_of now <$> node_reports method ag.
Definition node_summary (now : Z) (node_name : string) (ag : ClusterAggregator) : option NodeSummary :=
  list_find_p (λ n, String.eqb (sum_node_name n) node_name) (node_summaries now None ag).

Definition pod_power (pod_uid : string) (ag : ClusterAggregator) : option PodPowerReport :=
  (λ kv : (string * string) * PodState, ps_report kv.2)
    <$> list_find_p (λ kv : (string * string) * PodState, String.eqb kv.1.1 pod_uid) (hm_iter (pods ag)).

Definition namespace_history (namespace : string) (since : Z) (ag : ClusterAggregator) : list (Z * Z) :=
  match history ag !! namespace with
  | Some h => filter (λ tv : Z * Z, since <= tv.1) h
  | None => []
  end.

Definition node_count (ag : ClusterAggregator) : nat := size (nodes ag).

(** [find(keck).or_else(first)]. *)
Definition source_node (ag : ClusterAggregator) : option NodeState :=
  match list_find_p (λ s, matches_method (nr_metering_method (ns_report s)) (Some "keck")) (hm_values (nodes ag)) with
  | Some s => Some s
  | None => head (hm_values (nodes ag))
  end.
Definition cpu_source_info (ag : ClusterAggregator) : string * string :=
  default ("unknown", "none")
    ((λ s, (nr_cpu_source (ns_report s), nr_cpu_reading_type (ns_report s))) <$> source_node ag).
Definition memory_source_info (ag : ClusterAggregator) : string :=
  default "unknown" ((λ s, nr_memory_source (ns_report s)) <$> source_node ag).

Definition available_methods (ag : ClusterAggregator) : list string :=
  merge_sort String.le (elements (list_to_set (snd <$> hm_keys (nodes ag)) : gset string)).

Definition all_sources (ag : ClusterAggregator) : list SourceStatus :=
  node_reports (Some "keck") ag ≫= λ s, nr_sources (ns_report s).

(** *** [group_power] *)

Definition selector_matches (labels selector : gmap string string) : bool :=
  negb (bool_decide (selector = ∅)) &&
  forallb (λ kv : string * string, bool_decide (labels !! kv.1 = Some kv.2)) (hm_iter selector).

Definition matched_app (cls : ClassificationData) (r : PodPowerReport) : option string :=
  match co_namespaces cls !! pr_namespace r with
  | Some co => Some co
  | None =>
      app_name <$> list_find_p (λ app,
        bool_decide (pr_namespace r ∈ app_namespaces app)
        || existsb (selector_matches (pr_labels r)) (label_selectors app)) (app_defs cls)
  end.

Definition pod_or_workload (r : PodPowerReport) : string * string * string :=
  if str_empty (pr_workload_uid r) then (pr_pod_uid r, pr_pod_name r, "Pod")
  else (pr_workload_uid r, pr_workload_name r, pr_workload_kind r).

(** Key, name and kind of the group of a pod; [None] is [continue]. *)
Definition group_key_of (group_by : GroupBy) (cls : ClassificationData) (r : PodPowerReport)
    : option (string * string * string) :=
  match group_by with
  | GWorkload => Some (pod_or_workload r)
  | GLabel label_key => (λ val, (val, val, label_key)) <$> pr_labels r !! label_key
  | GNamespace => Some (pr_namespace r, pr_namespace r, "Namespace")
  | GApplication =>
      match (classify cls (pr_namespace r)).2 with
      | Some co => Some (String.append "co:" co, co, "ClusterOperator")
      | None =>
          match matched_app cls r with
          | Some app_name => Some (String.append "app:" app_name, app_name, "KeckApplication")
          | None =>
              match pr_labels r !! "app.kubernetes.io/part-of" with
              | Some part_of => Some (String.append "auto:" part_of, part_of, "auto-detected")
              | None => Some (pod_or_workload r)
              end
          end
      end
  end.

Definition pod_summary (r : PodPowerReport) : PodPowerSummary :=
  {| pps_pod_uid := pr_pod_uid r; pps_pod_name := pr_pod_name r; pps_cpu_uw := pr_cpu_uw r;
     pps_memory_uw := pr_memory_uw r; pps_gpu_uw := pr_gpu_uw r; pps_total_uw := pr_total_uw r |}.

(** A pod that takes part in the grouping, with its category and group. *)
Definition grouped (group_by : GroupBy) (category : option string) (cls : ClassificationData) (r : PodPowerReport)
    : option (PodPowerReport * string * (string * string * string)) :=
  let pod_category := (classify cls (pr_namespace r)).1 in
  if match category with Some cat => negb (String.eqb pod_category cat) | None => false end then None
  else (λ k, (r, pod_category, k)) <$> group_key_of group_by cls r.

Definition group_zero (g : PodPowerReport * string * (string * string * string)) : GroupPower :=
  let '(r, cat, (key, name, kind)) := g in
  {| gp_group_key := key; gp_group_name := name; gp_group_kind := kind; gp_namespace := pr_namespace r;
     gp_category := cat; gp_cpu_uw := 0; gp_memory_uw := 0; gp_gpu_uw := 0; gp_storage_uw := 0; gp_io_uw := 0;
     gp_total_uw := 0; gp_pod_count := 0; gp_pods := [] |}.
Definition group_add (g : PodPowerReport * string * (string * string * string)) (e : GroupPower) : GroupPower :=
  let r := g.1.1 in
  {| gp_group_key := gp_group_key e; gp_group_name := gp_group_name e; gp_group_kind := gp_group_kind e;
     gp_namespace := if String.eqb (gp_namespace e) (pr_namespace r) then gp_namespace e else EmptyString;
     gp_category := gp_category e;
     gp_cpu_uw := u64_add (gp_cpu_uw e) (pr_cpu_uw r); gp_memory_uw := u64_add (gp_memory_uw e) (pr_memory_uw r);
     gp_gpu_uw := u64_add (gp_gpu_uw e) (pr_gpu_uw r); gp_storage_uw := u64_add (gp_storage_uw e) (pr_storage_uw r);
     gp_io_uw := u64_add (gp_io_uw e) (pr_io_uw r); gp_total_uw := u64_add (gp_total_uw e) (pr_total_uw r);
     gp_pod_count := S (gp_pod_count e); gp_pods := gp_pods e ++ [pod_summary r] |}.

Definition group_power (group_by : GroupBy) (category : option string) (cls : ClassificationData)
    (ag : ClusterAggregator) : list GroupPower :=
  sort_desc gp_total_uw
    (hm_values (hm_group (λ g, g.2.1.1) group_zero group_add
                  (omap (grouped group_by category cls) (all_pods ag)))).
End queries.

(** ** Ingestion *)

Definition last_report (uid : string) (l : list PodPowerReport) : option PodPowerReport :=
  last (filter (λ p, pr_pod_uid p = uid) l).

Lemma foldl_insert_pod_pods now method l ph uid m :
  (foldl (insert_pod now method) ph l).1 !! (uid, m) =
    match (if decide (m = method) then last_report uid l else None) with
    | Some p => Some {| ps_report := with_method method p; ps_received_at := now |}
    | None => ph.1 !! (uid, m)
    end.
Proof.
  revert ph. induction l as [|p l IH]; intros ph; [by case_decide|]. cbn [foldl]. rewrite IH.
  unfold last_report. rewrite filter_cons. unfold insert_pod. cbn [fst].
  destruct (decide (m = method)) as [->|Hm].
  - destruct (decide (pr_pod_uid p = uid)) as [<-|Hu].
    + rewrite last_cons. destruct (last _) as [q|]; [done|]. by rewrite lookup_insert_eq.
    + destruct (last _) as [q|]; [done|]. by rewrite lookup_insert_ne by congruence.
  - by rewrite lookup_insert_ne by congruence.
Qed.

Lemma last_report_None uid l : last_report uid l = None ↔ uid ∉ pr_pod_uid <$> l.
Proof.
  unfold last_report. rewrite last_None, list_elem_of_fmap. split.
  - intros Hf (p & -> & Hin). assert (p ∈ filter (λ q, pr_pod_uid q = pr_pod_uid p) l) as Hp
      by (by apply list_elem_of_filter). rewrite Hf in Hp. by apply not_elem_of_nil in Hp.
  - intros Hn. destruct (filter _ l) as [|p l'] eqn:E; [done|]. exfalso. apply Hn.
    assert (p ∈ filter (λ q, pr_pod_uid q = uid) l) as [<- Hp]%list_elem_of_filter by (rewrite E; left). eauto.
Qed.
Lemma last_report_Some uid l p : last_report uid l = Some p → pr_pod_uid p = uid ∧ p ∈ l.
Proof. unfold last_report. intros Hl%last_Some_elem_of. by apply list_elem_of_filter in Hl. Qed.

Definition fresh_at (ag : ClusterAggregator) (now received : Z) : Prop := now - staleness_threshold ag < received.

Lemma ingest_fields now ne sn report ag :
  let method := report_method (ar_node report) in
  let node_name := nr_node_name (ar_node report) in
  let kept := filter (λ kv, ¬ evicted_by method node_name (pr_pod_uid <$> ar_pods report) kv) (pods ag) in
  let ph := foldl (insert_pod now method) (kept, history ag) (ar_pods report) in
  pods (ingest now ne sn report ag) =
    filter (λ kv : (string * string) * PodState, ne - staleness_threshold ag < ps_received_at kv.2) ph.1 ∧
  nodes (ingest now ne sn report ag) =
    filter (λ kv : (string * string) * NodeState, ne - staleness_threshold ag < ns_received_at kv.2)
      (<[(node_name, method) := {| ns_report := ar_node report; ns_received_at := now |}]> (nodes ag)) ∧
  history (ingest now ne sn report ag) =
    filter (λ kv : string * list (Z * Z), kv.2 ≠ [])
      (filter (λ tv : Z * Z, sn - history_retention ag <= tv.1) <$> ph.2) ∧
  staleness_threshold (ingest now ne sn report ag) = staleness_threshold ag ∧
  history_retention (ingest now ne sn report ag) = history_retention ag.
Proof. cbn zeta. unfold ingest. destruct (foldl _ _ _) as [p h]. done. Qed.

Lemma map_filter_lookup_if `{Countable K} {V} (P : K * V → Prop) `{∀ x, Decision (P x)} (m : gmap K V) k :
  filter P m !! k = match m !! k with Some v => if decide (P (k, v)) then Some v else None | None => None end.
Proof.
  destruct (m !! k) as [v|] eqn:E.
  - case_decide; [by apply map_lookup_filter_Some_2|].
    apply map_lookup_filter_None_2. right. intros v' Hv'. by simplify_eq.
  - apply map_lookup_filter_None_2. by left.
Qed.

Lemma ingest_pods_lookup now ne sn report ag uid m :
  now <= ne < now + staleness_threshold ag →
  let method := report_method (ar_node report) in
  pods (ingest now ne sn report ag) !! (uid, m) =
    match (if decide (m = method) then last_report uid (ar_pods report) else None) with
    | Some p => Some {| ps_report := with_method method p; ps_received_at := now |}
    | None =>
        match pods ag !! (uid, m) with
        | Some st =>
            if decide ((m = method ∧ pr_node_name (ps_report st) = nr_node_name (ar_node report))
                       ∨ ps_received_at st <= ne - staleness_threshold ag)
            then None else Some st
        | None => None
        end
    end.
Proof.
  intros Ht. cbn zeta. destruct (ingest_fields now ne sn report ag) as (-> & _).
  rewrite map_filter_lookup_if, foldl_insert_pod_pods. cbn [fst snd].
  destruct (if decide (m = report_method (ar_node report)) then _ else None) as [p|] eqn:Hl.
  { cbn. rewrite decide_True by lia. done. }
  rewrite map_filter_lookup_if. destruct (pods ag !! (uid, m)) as [st|]; [|done]. unfold evicted_by. cbn.
  assert (m = report_method (ar_node report) → uid ∉ pr_pod_uid <$> ar_pods report) as Hn.
  { intros ->. rewrite decide_True in Hl by done. by apply last_report_None. }
  repeat case_decide; try done; try naive_solver lia.
Qed.

(** Ingestion, completely.  A report replaces its node's pods in its own
    metering slot by exactly the pods it names (the last entry per uid), leaves
    every other node's and every other method's pods alone, and drops what is
    older than the staleness threshold; nothing else changes. *)
Theorem ingest_pods_exact now ne sn report ag uid m :
  now <= ne < now + staleness_threshold ag →
  let method := report_method (ar_node report) in
  pods (ingest now ne sn report ag) !! (uid, m) =
    match (if decide (m = method) then last_report uid (ar_pods report) else None) with
    | Some p => Some {| ps_report := with_method method p; ps_received_at := now |}
    | None =>
        match pods ag !! (uid, m) with
        | Some st =>
            if decide ((m = method ∧ pr_node_name (ps_report st) = nr_node_name (ar_node report))
                       ∨ ps_received_at st <= ne - staleness_threshold ag)
            then None else Some st
        | None => None
        end
    end.
Proof. apply ingest_pods_lookup. Qed.

Lemma ingest_nodes_lookup now ne sn report ag k :
  now <= ne < now + staleness_threshold ag →
  nodes (ingest now ne sn report ag) !! k =
    if decide (k = (nr_node_name (ar_node report), report_method (ar_node report)))
    then Some {| ns_report := ar_node report; ns_received_at := now |}
    else match nodes ag !! k with
         | Some st => if decide (ns_received_at st <= ne - staleness_threshold ag) then None else Some st
         | None => None
         end.
Proof.
  intros Ht. destruct (ingest_fields now ne sn report ag) as (_ & -> & _).
  rewrite map_filter_lookup_if. case_decide as Hk.
  - subst k. rewrite lookup_insert_eq, decide_True by (cbn; lia). done.
  - rewrite lookup_insert_ne by congruence. destruct (nodes ag !! k) as [st|]; [|done].
    cbn. repeat case_decide; try done; lia.
Qed.

(** The same for nodes: one entry per node and method, replaced by the
    latest report, stale ones dropped. *)
Theorem ingest_nodes_exact now ne sn report ag k :
  now <= ne < now + staleness_threshold ag →
  nodes (ingest now ne sn report ag) !! k =
    if decide (k = (nr_node_name (ar_node report), report_method (ar_node report)))
    then Some {| ns_report := ar_node report; ns_received_at := now |}
    else match nodes ag !! k with
         | Some st => if decide (ns_received_at st <= ne - staleness_threshold ag) then None else Some st
         | None => None
         end.
Proof. apply ingest_nodes_lookup. Qed.

Lemma foldl_insert_pod_history now method l ph ns :
  default [] ((foldl (insert_pod now method) ph l).2 !! ns) =
    default [] (ph.2 !! ns) ++ ((λ p, (pr_timestamp p, pr_total_uw p)) <$> filter (λ p, pr_namespace p = ns) l).
Proof.
  revert ph. induction l as [|p l IH]; intros ph; [cbn; by rewrite app_nil_r|]. cbn [foldl]. rewrite IH.
  rewrite filter_cons. unfold insert_pod, hm_upd. cbn [snd]. case_decide as Hn.
  - subst ns. rewrite lookup_insert_eq. cbn. by rewrite <-app_assoc.
  - by rewrite lookup_insert_ne.
Qed.

(** A namespace's history is everything reported for it, in order, within
    the retention window; nothing older survives an ingestion. *)
Theorem ingest_history_exact now ne sn report ag ns since :
  sn - history_retention ag <= since →
  namespace_history ns since (ingest now ne sn report ag) =
    filter (λ tv : Z * Z, since <= tv.1)
      (default [] (history ag !! ns) ++
       ((λ p, (pr_timestamp p, pr_total_uw p)) <$> filter (λ p, pr_namespace p = ns) (ar_pods report))) ∧
  (∀ ns h, history (ingest now ne sn report ag) !! ns = Some h →
     h ≠ [] ∧ Forall (λ tv : Z * Z, sn - history_retention ag <= tv.1) h).
Proof.
  intros Hs. unfold namespace_history. destruct (ingest_fields now ne sn report ag) as (_ & _ & -> & _). split.
  - rewrite map_filter_lookup_if, lookup_fmap.
    pose proof (foldl_insert_pod_history now (report_method (ar_node report)) (ar_pods report)
      (filter (λ kv, ¬ evicted_by (report_method (ar_node report)) (nr_node_name (ar_node report))
         (pr_pod_uid <$> ar_pods report) kv) (pods ag), history ag) ns) as Hh. cbn [snd] in Hh.
    destruct (_ !! ns) as [h|]; cbn in Hh |- *; rewrite <-Hh; [|done].
    assert (∀ l : list (Z * Z), filter (λ tv : Z * Z, since <= tv.1)
      (filter (λ tv : Z * Z, sn - history_retention ag <= tv.1) l) = filter (λ tv : Z * Z, since <= tv.1) l) as Hf.
    { induction l as [|x l IH]; [done|]. rewrite filter_cons, (filter_cons _ x l).
      destruct (decide (sn - history_retention ag <= x.1)).
      - rewrite filter_cons. by rewrite IH.
      - rewrite decide_False by lia. done. }
    case_decide as Hd; [apply Hf|]. rewrite <-Hf.
    destruct (decide (filter (λ tv : Z * Z, sn - history_retention ag <= tv.1) h = [])) as [->|Hne]; [done|].
    by destruct Hd.
  - intros ns' h Hh. rewrite map_filter_lookup_if, lookup_fmap in Hh. destruct (_ !! ns') as [h'|]; [|done].
    cbn in Hh. case_decide; [|done]. injection Hh as <-. split; [done|].
    apply Forall_forall. intros x Hx. by apply list_elem_of_filter in Hx as [? _].
Qed.

(** ** Reachable states *)

Inductive AggEvent :=
| EIngest (now now_evict system_now : Z) (report : AgentReport)
| EEvictRemoved (live_node_names : list string).
Definition agg_step (ag : ClusterAggregator) (ev : AggEvent) : ClusterAggregator :=
  match ev with
  | EIngest now ne sn report => ingest now ne sn report ag
  | EEvictRemoved live => evict_removed_nodes live ag
  end.
Definition run_agg (evs : list AggEvent) : ClusterAggregator := foldl agg_step ClusterAggregator_new evs.

(** Keys agree with what they store. *)
Record agg_ok (ag : ClusterAggregator) : Prop := {
  pods_keyed : ∀ k st, pods ag !! k = Some st → k.1 = pr_pod_uid (ps_report st) ∧
    pr_metering_method (ps_report st) ≠ EmptyString;
  nodes_keyed : ∀ k st, nodes ag !! k = Some st →
    k = (nr_node_name (ns_report st), report_method (ns_report st))
}.

Lemma with_method_uid method p : pr_pod_uid (with_method method p) = pr_pod_uid p.
Proof. unfold with_method. by destruct (str_empty _). Qed.
Lemma with_method_nonempty method p : method ≠ EmptyString →
  pr_metering_method (with_method method p) ≠ EmptyString.
Proof.
  unfold with_method, str_empty. destruct (String.eqb_spec (pr_metering_method p) EmptyString); by cbn.
Qed.
Lemma report_method_nonempty node : report_method node ≠ EmptyString.
Proof. unfold report_method, str_empty. by destruct (String.eqb_spec (nr_metering_method node) EmptyString). Qed.

Lemma ingest_ok now ne sn report ag : agg_ok ag → agg_ok (ingest now ne sn report ag).
Proof.
  intros [Hp Hn]. destruct (ingest_fields now ne sn report ag) as (Hpods & Hnodes & _). split.
  - intros [uid m] st. rewrite Hpods, map_filter_lookup_if, foldl_insert_pod_pods. cbn [fst].
    destruct (if decide (m = _) then _ else None) as [p|] eqn:Hl.
    + destruct (decide (m = _)); [|done]. case_decide; [|done]. intros [= <-]. cbn.
      apply last_report_Some in Hl as [<- _]. rewrite with_method_uid. split; [done|].
      apply with_method_nonempty, report_method_nonempty.
    + rewrite map_filter_lookup_if. destruct (pods ag !! (uid, m)) as [st'|] eqn:E; [|done].
      clear Hl. repeat case_decide; try done. intros [= <-]. exact (Hp _ _ E).
  - intros k st. rewrite Hnodes, map_filter_lookup_if.
    destruct (decide (k = (nr_node_name (ar_node report), report_method (ar_node report)))) as [->|Hne].
    + rewrite lookup_insert_eq. case_decide; [|done]. by intros [= <-].
    + rewrite lookup_insert_ne by congruence. destruct (nodes ag !! k) as [st'|] eqn:E; [|done].
      case_decide; [|done]. intros [= <-]. by apply Hn.
Qed.
Lemma agg_step_ok ag ev : agg_ok ag → agg_ok (agg_step ag ev).
Proof.
  intros Hok. destruct ev as [now ne sn report|live]; [by apply ingest_ok|]. destruct Hok as [Hp Hn]. split; cbn.
  - intros k st [Hk _]%map_lookup_filter_Some. eauto.
  - intros k st [Hk _]%map_lookup_filter_Some. eauto.
Qed.
Lemma run_agg_ok evs : agg_ok (run_agg evs).
Proof.
  unfold run_agg. assert (agg_ok ClusterAggregator_new) as H0.
  { split; intros ? ?; cbn; by rewrite lookup_empty. }
  revert H0. generalize ClusterAggregator_new. induction evs as [|ev evs IH]; intros ag Hok; [done|].
  cbn. apply IH. by apply agg_step_ok.
Qed.

Section query_theorems.
Context `{HI : HashIter}.

(** In every consistent state, a lookup by uid returns a report of that very
    pod, and finds one whenever any method reported it. *)
Lemma pod_power_exact ag uid : agg_ok ag →
  match pod_power uid ag with
  | Some r => pr_pod_uid r = uid ∧ ∃ m st, pods ag !! (uid, m) = Some st ∧ ps_report st = r
  | None => ∀ m, pods ag !! (uid, m) = None
  end.
Proof.
  intros [Hp _]. unfold pod_power.
  destruct (list_find_p _ _) as [[[uid' m] st]|] eqn:E; cbn.
  - apply list_find_p_Some in E as [Hin%hm_iter_elem Heq%String.eqb_eq]. cbn in Heq. subst uid'.
    destruct (Hp _ _ Hin) as [Hu _]. cbn in Hu. split; [done|]. eauto.
  - intros m. destruct (pods ag !! (uid, m)) as [st|] eqn:Hl; [|done].
    apply (proj1 (list_find_p_None _ _)) with (x := ((uid, m), st)) in E; [|by apply hm_iter_elem].
    cbn in E. by rewrite String.eqb_refl in E.
Qed.

(** The namespace view.  Each namespace with a pod of the method appears
    once, with the number of its pods and the wrapped sums of their powers, and
    the list is ordered by total power, largest first. *)
Theorem namespace_power_exact method ag :
  let l := namespace_power method ag in
  NoDup (nsp_namespace <$> l) ∧ Sorted (λ a b, nsp_total_uw b <= nsp_total_uw a) l ∧
  (∀ r, r ∈ all_pods_filtered method ag → pr_namespace r ∈ nsp_namespace <$> l) ∧
  ∀ e, e ∈ l →
    let ps := pods_in_namespace (nsp_namespace e) method ag in
    ps ≠ [] ∧ nsp_pod_count e = length ps ∧
    nsp_cpu_uw e = sum_u64 (pr_cpu_uw <$> ps) ∧ nsp_memory_uw e = sum_u64 (pr_memory_uw <$> ps) ∧
    nsp_gpu_uw e = sum_u64 (pr_gpu_uw <$> ps) ∧ nsp_storage_uw e = sum_u64 (pr_storage_uw <$> ps) ∧
    nsp_io_uw e = sum_u64 (pr_io_uw <$> ps) ∧ nsp_total_uw e = sum_u64 (pr_total_uw <$> ps).
Proof.
  cbn zeta. unfold namespace_power.
  set (g := hm_group pr_namespace (λ r, ns_zero (pr_namespace r)) ns_add (all_pods_filtered method ag)).
  assert (nsp_namespace <$> hm_values g = hm_keys g) as Hkeys by (by apply hm_group_values_keys).
  split; [rewrite sort_desc_perm, Hkeys; apply hm_keys_NoDup|]. split; [apply sort_desc_sorted|]. split.
  - intros r Hr. rewrite sort_desc_perm, Hkeys. apply hm_keys_elem, hm_group_is_Some. eauto.
  - intros e He. rewrite sort_desc_perm in He. unfold hm_values in He.
    apply list_elem_of_fmap in He as ([k v] & -> & Hin). cbn [snd].
    destruct (hm_group_elem _ _ _ _ _ _ Hin) as (x & xs & Hg & Hv).
    assert (pr_namespace x = k) as Hx.
    { assert (x ∈ group_of pr_namespace k (all_pods_filtered method ag)) as Hx by (rewrite Hg; left).
      by apply list_elem_of_filter in Hx as [? _]. }
    assert (nsp_namespace v = k) as Hk by (rewrite Hv, (foldl_const _ nsp_namespace); done).
    unfold pods_in_namespace. rewrite Hk. unfold group_of in Hg. rewrite Hg. split; [done|].
    rewrite Hv. split; [rewrite (foldl_count _ nsp_pod_count); cbn; lia|].
    repeat split; unfold sum_u64; apply foldl_field; done.
Qed.

(** The cluster totals are the wrapped sums over the nodes of the method,
    and the power supply loss never goes negative. *)
Theorem cluster_power_exact method ag :
  let c := cluster_power method ag in
  let rs := ns_report <$> node_reports method ag in
  cl_cpu_uw c = sum_u64 (nr_cpu_uw <$> rs) ∧ cl_memory_uw c = sum_u64 (nr_memory_uw <$> rs) ∧
  cl_gpu_uw c = sum_u64 (nr_gpu_uw <$> rs) ∧ cl_idle_uw c = sum_u64 (nr_idle_uw <$> rs) ∧
  cl_platform_uw c = sum_u64 ((λ r, default 0 (nr_platform_uw r)) <$> rs) ∧
  cl_psu_output_uw c = sum_u64 ((λ r, default 0 (nr_psu_output_uw r)) <$> rs) ∧
  cl_psu_loss_uw c = Z.max 0 (cl_platform_uw c - cl_psu_output_uw c) ∧
  cl_total_attributed_uw c = sum_u64 [cl_cpu_uw c; cl_memory_uw c; cl_gpu_uw c] ∧
  cl_node_count c = length rs ∧ cl_pod_count c = length (all_pods_filtered method ag).
Proof.
  cbn zeta. unfold cluster_power.
  cbn [cl_cpu_uw cl_memory_uw cl_gpu_uw cl_idle_uw cl_platform_uw cl_psu_output_uw cl_psu_loss_uw
       cl_total_attributed_uw cl_node_count cl_pod_count]. set (l := node_reports method ag). rewrite <-!list_fmap_compose.
  assert (∀ a, foldl cluster_step a l = foldl (λ a s, cluster_step a s) a l) as Heq by done.
  repeat match goal with |- _ ∧ _ => split end; try (rewrite Heq; unfold sum_u64; apply (foldl_field (λ s a, cluster_step a s)); done).
  - done.
  - rewrite sum_u64_wrap, !sum_Z_cons. unfold u64_add, u64_wrap. cbn [sum_Z foldr].
    rewrite Zplus_mod_idemp_l. f_equal. lia.
  - rewrite length_fmap. rewrite (foldl_count (λ s a, cluster_step a s) a_count) by done. cbn. lia.
  - done.
Qed.

(** *** What the grouping of [group_power] promises

    The category of a namespace, the applications that claim a pod, and the group
    a pod belongs to under each criterion, stated without the code's functions. *)

Inductive ns_category (cls : ClassificationData) (ns : string) : string → Prop :=
| category_platform co : co_namespaces cls !! ns = Some co → ns_category cls ns "platform"
| category_operator : co_namespaces cls !! ns = None → ns ∈ operator_namespaces cls → ns_category cls ns "operator"
| category_application : co_namespaces cls !! ns = None → ns ∉ operator_namespaces cls → ns_category cls ns "application".

(** No category asked for, or the one its namespace is classified as. *)
Definition selected (cls : ClassificationData) (category : option string) (r : PodPowerReport) : Prop :=
  match category with Some cat => ns_category cls (pr_namespace r) cat | None => True end.

(** An application claims the pods of its namespaces and those that carry all
    the labels of one of its non-empty selectors. *)
Definition app_claims (r : PodPowerReport) (app : ApplicationDef) : Prop :=
  pr_namespace r ∈ app_namespaces app ∨ ∃ sel, sel ∈ label_selectors app ∧ sel ≠ ∅ ∧ sel ⊆ pr_labels r.

(** The workload of a pod; a pod without one stands for itself. *)
Inductive workload_key (r : PodPowerReport) : string → Prop :=
| of_workload : pr_workload_uid r ≠ EmptyString → workload_key r (pr_workload_uid r)
| of_lone_pod : pr_workload_uid r = EmptyString → workload_key r (pr_pod_uid r).

(** An application's group: the ClusterOperator that owns the namespace; else the
    first application that claims the pod; else its part-of label; else its
    workload. *)
Inductive application_key (cls : ClassificationData) (r : PodPowerReport) : string → Prop :=
| of_operator co : co_namespaces cls !! pr_namespace r = Some co → application_key cls r (String.append "co:" co)
| of_app before app after : co_namespaces cls !! pr_namespace r = None →
    app_defs cls = before ++ app :: after → Forall (λ a, ¬ app_claims r a) before → app_claims r app →
    application_key cls r (String.append "app:" (app_name app))
| of_part_of part : co_namespaces cls !! pr_namespace r = None → Forall (λ a, ¬ app_claims r a) (app_defs cls) →
    pr_labels r !! "app.kubernetes.io/part-of" = Some part → application_key cls r (String.append "auto:" part)
| of_own_workload k : co_namespaces cls !! pr_namespace r = None → Forall (λ a, ¬ app_claims r a) (app_defs cls) →
    pr_labels r !! "app.kubernetes.io/part-of" = None → workload_key r k → application_key cls r k.

Inductive in_group (cls : ClassificationData) (r : PodPowerReport) : GroupBy → string → Prop :=
| in_workload k : workload_key r k → in_group cls r GWorkload k
| in_label label v : pr_labels r !! label = Some v → in_group cls r (GLabel label) v
| in_namespace : in_group cls r GNamespace (pr_namespace r)
| in_application k : application_key cls r k → in_group cls r GApplication k.

(** *** The code's functions decide it *)

Lemma classify_category cls ns cat : ns_category cls ns cat ↔ (classify cls ns).1 = cat.
Proof.
  unfold classify. split.
  - intros [co Hc|Hc Ho|Hc Ho]; rewrite Hc; [done|by rewrite decide_True|by rewrite decide_False].
  - destruct (co_namespaces cls !! ns) eqn:E; [intros <-; by econstructor|].
    case_decide; intros <-; by constructor.
Qed.
Lemma classify_operator cls ns : (classify cls ns).2 = co_namespaces cls !! ns.
Proof. unfold classify. destruct (co_namespaces cls !! ns); [done|]. by case_decide. Qed.
#[global] Instance selected_dec cls category r : Decision (selected cls category r).
Proof.
  destruct category as [cat|]; cbn; [|apply _].
  refine (cast_if (decide ((classify cls (pr_namespace r)).1 = cat))); by rewrite classify_category.
Defined.

Lemma selector_matches_iff labels sel : selector_matches labels sel = true ↔ sel ≠ ∅ ∧ sel ⊆ labels.
Proof.
  unfold selector_matches. rewrite andb_true_iff, negb_true_iff, bool_decide_eq_false, forallb_forall.
  apply and_iff_compat_l. rewrite map_subseteq_spec. split.
  - intros H k v Hk. apply hm_iter_elem, list_elem_of_In, H, bool_decide_eq_true in Hk. done.
  - intros H [k v] Hin. apply bool_decide_eq_true, H. by apply hm_iter_elem, list_elem_of_In.
Qed.
Lemma claims_iff r app :
  bool_decide (pr_namespace r ∈ app_namespaces app) || existsb (selector_matches (pr_labels r)) (label_selectors app) = true
  ↔ app_claims r app.
Proof.
  unfold app_claims. rewrite orb_true_iff, bool_decide_eq_true, existsb_exists.
  setoid_rewrite selector_matches_iff. by setoid_rewrite list_elem_of_In.
Qed.
Lemma find_split {A} (p : A → bool) (P : A → Prop) l : (∀ x, p x = true ↔ P x) →
  match list_find_p p l with
  | Some x => ∃ before after, l = before ++ x :: after ∧ Forall (λ a, ¬ P a) before ∧ P x
  | None => Forall (λ a, ¬ P a) l
  end.
Proof.
  intros Hp. unfold list_find_p. destruct (list_find _ l) as [[i x]|] eqn:E; cbn.
  - apply list_find_Some in E as (Hi & Hx & Hb). exists (take i l), (drop (S i) l).
    split; [symmetry; by apply take_drop_middle|]. split; [|by apply Hp].
    apply Forall_forall. intros a (j & Ha)%list_elem_of_lookup. apply lookup_take_Some in Ha as [Ha Hj].
    rewrite <-Hp. by eapply Hb.
  - apply list_find_None in E. eapply Forall_impl; [exact E|]. intros a. by rewrite <-Hp.
Qed.
Lemma first_claim {A} (P : A → Prop) b1 b2 x y a1 a2 : b1 ++ x :: a1 = b2 ++ y :: a2 →
  Forall (λ a, ¬ P a) b1 → P x → Forall (λ a, ¬ P a) b2 → P y → x = y.
Proof.
  revert b2. induction b1 as [|c b1 IH]; intros [|d b2]; intros Heq H1 Hx H2 Hy; cbn in Heq; simplify_eq.
  - done.
  - by apply Forall_cons in H2 as [? _].
  - by apply Forall_cons in H1 as [? _].
  - apply Forall_cons in H1 as [_ H1], H2 as [_ H2]. by eapply IH.
Qed.
Lemma pod_or_workload_key r : workload_key r (pod_or_workload r).1.1.
Proof. unfold pod_or_workload, str_empty. destruct (String.eqb_spec (pr_workload_uid r) EmptyString); by constructor. Qed.
Lemma workload_key_unique r k k' : workload_key r k → workload_key r k' → k = k'.
Proof. by intros [] []. Qed.
Lemma application_key_unique cls r k k' : application_key cls r k → application_key cls r k' → k = k'.
Proof.
  assert (∀ b a l, app_defs cls = b ++ a :: l → Forall (λ a, ¬ app_claims r a) (app_defs cls) → ¬ app_claims r a) as Hno.
  { intros b a l -> H. apply Forall_app in H as [_ H]. by apply Forall_cons in H as [? _]. }
  intros [co Hc|b a l Hc Hl Hb Ha|pt Hc Hn Hp|w Hc Hn Hp Hw] [co' Hc'|b' a' l' Hc' Hl' Hb' Ha'|pt' Hc' Hn' Hp'|w' Hc' Hn' Hp' Hw'];
    try congruence; try (by exfalso; eapply Hno).
  - do 2 f_equal. rewrite Hl in Hl'. by eapply first_claim.
  - by eapply workload_key_unique.
Qed.
Lemma in_group_unique cls r gb k k' : in_group cls r gb k → in_group cls r gb k' → k = k'.
Proof.
  intros [w Hw|l v Hv| |a Ha] H; inversion_clear H;
    [by eapply workload_key_unique|congruence|done|by eapply application_key_unique].
Qed.
Lemma in_group_iff cls r gb k : in_group cls r gb k ↔ (λ g, g.1.1) <$> group_key_of gb cls r = Some k.
Proof.
  assert (∀ k', (λ g, g.1.1) <$> group_key_of gb cls r = Some k' → in_group cls r gb k') as Hin.
  { intros k'. destruct gb as [|label| |]; cbn [group_key_of].
    - intros [= <-]. constructor. apply pod_or_workload_key.
    - rewrite fmap_Some. intros (g & (v & Hv & ->)%fmap_Some & ->). by constructor.
    - intros [= <-]. constructor.
    - intros H. constructor. revert H. rewrite classify_operator.
      destruct (co_namespaces cls !! pr_namespace r) as [co|] eqn:Hc; [intros [= <-]; by constructor|].
      unfold matched_app. rewrite Hc.
      pose proof (find_split _ (app_claims r) (app_defs cls) (claims_iff r)) as Hf.
      destruct (list_find_p _ _) as [app|]; cbn [fmap option_fmap option_map].
      + destruct Hf as (before & after & Hl & Hb & Ha). intros [= <-]. by eapply of_app.
      + destruct (pr_labels r !! "app.kubernetes.io/part-of") eqn:Hp; intros [= <-]; [by apply of_part_of|].
        apply of_own_workload; [done..|]. apply pod_or_workload_key. }
  split; [|apply Hin]. intros Hk. destruct (group_key_of gb cls r) as [g|] eqn:Hg; cbn in *.
  - f_equal. eapply in_group_unique; [by apply Hin|done].
  - exfalso. revert Hg. destruct Hk as [| label v Hv| |]; cbn [group_key_of]; [done|by rewrite Hv|done|].
    repeat case_match; done.
Qed.
#[global] Instance in_group_dec cls r gb k : Decision (in_group cls r gb k).
Proof.
  refine (cast_if (decide ((λ g, g.1.1) <$> group_key_of gb cls r = Some k))); by rewrite in_group_iff.
Defined.
(** Only a label can be missing. *)
Lemma in_group_total cls r gb :
  (∃ k, in_group cls r gb k) ∨ ∃ label, gb = GLabel label ∧ pr_labels r !! label = None.
Proof.
  destruct (group_key_of gb cls r) as [g|] eqn:Hg; [left; exists g.1.1; apply in_group_iff; by rewrite Hg|].
  right. destruct gb as [|label| |]; cbn [group_key_of] in Hg; [done| |done|].
  - exists label. split; [done|]. by destruct (pr_labels r !! label).
  - exfalso. repeat case_match; done.
Qed.

(** The pods the code groups under [k] are those that the criterion puts there. *)
Lemma grouped_spec gb category cls k (l : list PodPowerReport) :
  (λ g, g.1.1) <$> filter (λ g, g.2.1.1 = k) (omap (grouped gb category cls) l) =
  filter (λ r, selected cls category r ∧ in_group cls r gb k) l.
Proof.
  induction l as [|r l IH]; [done|]. rewrite filter_cons. cbn [omap list_omap]. rewrite <-IH.
  assert (selected cls category r ↔
    (match category with Some cat => negb (String.eqb (classify cls (pr_namespace r)).1 cat) | None => false end) = false) as Hs.
  { destruct category as [cat|]; cbn; [|done]. rewrite classify_category, negb_false_iff. by rewrite String.eqb_eq. }
  unfold grouped at 1. destruct (match category with Some cat => _ | None => _ end).
  - rewrite decide_False; [done|]. intros [H%Hs _]. done.
  - pose proof (in_group_iff cls r gb k) as Hi. destruct (group_key_of gb cls r) as [g|]; cbn [fmap option_fmap option_map] in *.
    + rewrite filter_cons. cbn [snd]. destruct (decide (g.1.1 = k)) as [Hk|Hk].
      * rewrite decide_True by (split; [by apply Hs|apply Hi; by rewrite Hk]). done.
      * rewrite decide_False by (intros [_ ?%Hi]; congruence). done.
    + rewrite decide_False by (by intros [_ ?%Hi]). done.
Qed.

Lemma group_entry (gs : list (PodPowerReport * string * (string * string * string))) e : e ∈ hm_values (hm_group (λ g, g.2.1.1) group_zero group_add gs) →
  let rs := (λ g, g.1.1) <$> filter (λ g, g.2.1.1 = gp_group_key e) gs in
  rs ≠ [] ∧ gp_pod_count e = length rs ∧ gp_pods e = pod_summary <$> rs ∧
  gp_cpu_uw e = sum_u64 (pr_cpu_uw <$> rs) ∧ gp_memory_uw e = sum_u64 (pr_memory_uw <$> rs) ∧
  gp_gpu_uw e = sum_u64 (pr_gpu_uw <$> rs) ∧ gp_storage_uw e = sum_u64 (pr_storage_uw <$> rs) ∧
  gp_io_uw e = sum_u64 (pr_io_uw <$> rs) ∧ gp_total_uw e = sum_u64 (pr_total_uw <$> rs).
Proof.
  intros He. unfold hm_values in He. apply list_elem_of_fmap in He as ([k v] & -> & Hin). cbn [snd].
  destruct (hm_group_elem _ _ _ _ _ _ Hin) as (x & xs & Hg & Hv). cbn zeta.
  assert (x.2.1.1 = k) as Hx.
  { assert (x ∈ group_of (λ g, g.2.1.1) k gs) as Hx by (rewrite Hg; left).
    by apply list_elem_of_filter in Hx as [? _]. }
  assert (gp_group_key v = k) as Hk.
  { rewrite Hv, (foldl_const _ gp_group_key) by done. by destruct x as [[? ?] [[? ?] ?]]. }
  rewrite Hk. unfold group_of in Hg. rewrite Hg. rewrite <-!list_fmap_compose, length_fmap.
  split; [done|]. rewrite Hv. set (z := group_zero x).
  assert (gp_pod_count z = 0%nat ∧ gp_pods z = [] ∧ gp_cpu_uw z = 0 ∧ gp_memory_uw z = 0 ∧ gp_gpu_uw z = 0 ∧
    gp_storage_uw z = 0 ∧ gp_io_uw z = 0 ∧ gp_total_uw z = 0) as (Z1 & Z2 & Z3 & Z4 & Z5 & Z6 & Z7 & Z8)
    by (unfold z; by destruct x as [[? ?] [[? ?] ?]]).
  clearbody z. generalize (x :: xs) as ys. intros ys.
  split; [rewrite (foldl_count _ gp_pod_count) by done; lia|]. split.
  - transitivity (gp_pods z ++ (pod_summary ∘ (λ g, g.1.1) <$> ys)); [|by rewrite Z2].
    clear. revert z. induction ys as [|y ys IH]; intros z; cbn; [by rewrite app_nil_r|].
    rewrite IH. cbn. by rewrite <-app_assoc.
  - unfold sum_u64. repeat split; [rewrite <-Z3|rewrite <-Z4|rewrite <-Z5|rewrite <-Z6|rewrite <-Z7|rewrite <-Z8];
      by apply foldl_field.
Qed.

End query_theorems.

(** ** Witnesses: node n1 reports pod a, then pod b *)

#[local] Existing Instance hash_iter_list.

Definition demo_pod (node uid ns method : string) (t total : Z) : PodPowerReport :=
  {| pr_node_name := node; pr_pod_uid := uid; pr_pod_name := uid; pr_namespace := ns; pr_cpu_uw := total;
     pr_memory_uw := 0; pr_gpu_uw := 0; pr_storage_uw := 0; pr_io_uw := 0; pr_total_uw := total;
     pr_timestamp := t; pr_workload_uid := EmptyString; pr_workload_name := EmptyString;
     pr_workload_kind := EmptyString; pr_workload_category := EmptyString; pr_labels := ∅;
     pr_metering_method := method |}.
Definition demo_node (name method : string) : NodePowerReport :=
  {| nr_node_name := name; nr_cpu_uw := 70; nr_memory_uw := 10; nr_gpu_uw := 0; nr_platform_uw := Some 120;
     nr_psu_output_uw := Some 110; nr_idle_uw := 5; nr_error_ratio := f_lit 1 10; nr_pod_count := 1;
     nr_process_count := 2; nr_timestamp := 0; nr_cpu_source := "rapl"; nr_memory_source := "rapl";
     nr_cpu_reading_type := "measured"; nr_sources := []; nr_metering_method := method |}.
Definition demo_ingest (now : Z) (method uid : string) (total : Z) : AggEvent :=
  EIngest now now now {| ar_node := demo_node "n1" method; ar_pods := [demo_pod "n1" uid "shop" EmptyString now total] |}.
Definition demo_second : AgentReport :=
  {| ar_node := demo_node "n1" EmptyString; ar_pods := [demo_pod "n1" "b" "shop" EmptyString (20 * sec) 9] |}.
Definition demo_agg : ClusterAggregator := run_agg [demo_ingest sec EmptyString "a" 30; demo_ingest (2 * sec) "kepler" "a" 31].

Lemma ingest_pods_exact_witness :
  let ag := ingest (20 * sec) (20 * sec) (20 * sec) demo_second demo_agg in
  pods ag !! ("a", "keck") = None ∧ is_Some (pods ag !! ("a", "kepler")) ∧ is_Some (pods ag !! ("b", "keck")).
Proof.
  cbn zeta. rewrite !ingest_pods_exact by (vm_compute; repeat split; congruence). vm_compute. eauto.
Defined.
Lemma ingest_nodes_exact_witness :
  let ag := ingest (70 * sec) (70 * sec) (70 * sec) demo_second demo_agg in
  is_Some (nodes ag !! ("n1", "keck")) ∧ nodes ag !! ("n1", "kepler") = None.
Proof.
  cbn zeta. rewrite !ingest_nodes_exact by (vm_compute; repeat split; congruence). vm_compute. eauto.
Defined.
Lemma ingest_history_exact_witness :
  namespace_history "shop" sec (ingest (20 * sec) (20 * sec) (20 * sec) demo_second demo_agg) =
    [(sec, 30); (2 * sec, 31); (20 * sec, 9)].
Proof.
  destruct (ingest_history_exact (20 * sec) (20 * sec) (20 * sec) demo_second demo_agg "shop" sec) as [-> _].
  - vm_compute. congruence.
  - vm_compute. reflexivity.
Defined.

(** The same pod reported by two metering methods counts twice in the grouping,
    which, unlike the other views, does not filter by method. *)
Example group_power_counts_methods_twice :
  gp_total_uw <$> group_power GNamespace None ClassificationData_default demo_agg = [61] ∧
  nsp_total_uw <$> namespace_power None demo_agg = [30].
Proof. by vm_compute. Qed.
