(* ===== verification/History.v ===== *)
(** * History: the aggregator's tables as a function of what happened

    The controller keeps tables it updates in place; what they promise is said
    here without them, by the sequence of reports and node listings so far: an
    entry is the report of some earlier event that nothing after it has replaced,
    withdrawn, outlived or removed.  The tables refine this specification. *)

From S2P Require Import Prelude F64 Common Classify Aggregator.

Open Scope Z_scope.

Notation staleness := (staleness_threshold ClusterAggregator_new).

(** Ingesting takes less than the staleness threshold. *)
Definition event_ok (ev : AggEvent) : Prop :=
  match ev with
  | EIngest now ne _ _ => now <= ne < now + staleness
  | EEvictRemoved _ => True
  end.

(** The entry an event writes for a pod, or for a node, of a metering method. *)
Definition writes_pod (ev : AggEvent) (uid m : string) : option PodState :=
  match ev with
  | EIngest now _ _ report =>
      if decide (m = report_method (ar_node report))
      then (λ p, {| ps_report := with_method m p; ps_received_at := now |}) <$> last_report uid (ar_pods report) else None
  | EEvictRemoved _ => None
  end.
Definition writes_node (ev : AggEvent) (name m : string) : option NodeState :=
  match ev with
  | EIngest now _ _ report =>
      if decide ((name, m) = (nr_node_name (ar_node report), report_method (ar_node report)))
      then Some {| ns_report := ar_node report; ns_received_at := now |} else None
  | EEvictRemoved _ => None
  end.
(** The events that end an entry without writing another: the pod's node reports
    without it, the entry is stale when some node reports, or the node is gone. *)
Definition ends_pod (ev : AggEvent) (m : string) (st : PodState) : Prop :=
  match ev with
  | EIngest _ ne _ report =>
      (m = report_method (ar_node report) ∧ pr_node_name (ps_report st) = nr_node_name (ar_node report)) ∨
      ps_received_at st + staleness <= ne
  | EEvictRemoved live => pr_node_name (ps_report st) ∉ live
  end.
Definition ends_node (ev : AggEvent) (name : string) (st : NodeState) : Prop :=
  match ev with
  | EIngest _ ne _ _ => ns_received_at st + staleness <= ne
  | EEvictRemoved live => name ∉ live
  end.

(** An entry that some event wrote and that every later event left alone. *)
Definition latest_entry {A} (writes : AggEvent → option A) (ends : AggEvent → A → Prop) (evs : list AggEvent) (st : A) : Prop :=
  ∃ before ev after, evs = before ++ ev :: after ∧ writes ev = Some st ∧
    ∀ ev', ev' ∈ after → writes ev' = None ∧ ¬ ends ev' st.

Lemma latest_entry_snoc {A} (writes : AggEvent → option A) (ends : AggEvent → A → Prop) evs ev st :
  latest_entry writes ends (evs ++ [ev]) st ↔
  writes ev = Some st ∨ (writes ev = None ∧ ¬ ends ev st ∧ latest_entry writes ends evs st).
Proof.
  split.
  - intros (before & ev0 & after & Heq & Hw & Hafter). destruct after as [|x after _] using rev_ind.
    + apply app_inj_2 in Heq as [-> [= ->]]; [by left|done].
    + change (ev0 :: after ++ [x]) with ((ev0 :: after) ++ [x]) in Heq. rewrite app_assoc in Heq.
      apply app_inj_2 in Heq as [-> [= ->]]; [|done]. right.
      destruct (Hafter x) as [Hx1 Hx2]; [apply elem_of_app; right; left|]. split; [done|]. split; [done|].
      exists before, ev0, after. split; [done|]. split; [done|]. intros ev' Hin. apply Hafter, elem_of_app. by left.
  - intros [Hw|(Hn & He & before & ev0 & after & -> & Hw & Hafter)].
    + exists evs, ev, []. split; [done|]. split; [done|]. by intros ? ?%not_elem_of_nil.
    + exists before, ev0, (after ++ [ev]). split; [by rewrite <-app_assoc|]. split; [done|].
      intros ev' [Hin| ->%list_elem_of_singleton]%elem_of_app; [by apply Hafter|done].
Qed.

(** A table whose every step writes or ends entries accordingly. *)
Lemma table_history {A} (writes : AggEvent → option A) (ends : AggEvent → A → Prop)
    (look : ClusterAggregator → option A) evs :
  look ClusterAggregator_new = None →
  (∀ ag ev st, staleness_threshold ag = staleness → event_ok ev →
     look (agg_step ag ev) = Some st ↔ writes ev = Some st ∨ (writes ev = None ∧ ¬ ends ev st ∧ look ag = Some st)) →
  Forall event_ok evs → ∀ st, look (run_agg evs) = Some st ↔ latest_entry writes ends evs st.
Proof.
  intros H0 Hstep Hok. unfold run_agg. induction evs as [|ev evs IH] using rev_ind; intros st.
  { cbn. rewrite H0. split; [done|]. by intros ([] & ? & ? & ? & _). }
  apply Forall_app in Hok as [Hok Hev]. rewrite Forall_singleton in Hev.
  rewrite foldl_app. cbn [foldl]. rewrite latest_entry_snoc, Hstep, IH; [done|done| |done].
  clear. induction evs as [|ev evs IH] using rev_ind; [done|]. rewrite foldl_app. cbn [foldl]. rewrite <-IH.
  destruct ev as [now ne sn report|live]; [|done]. cbn. by destruct (ingest_fields now ne sn report
    (foldl agg_step ClusterAggregator_new evs)) as (_ & _ & _ & -> & _).
Qed.

(** An entry kept unless a condition ends it. *)
Lemma kept_unless {A} (P : Prop) `{!Decision P} (ends : A → Prop) (o : option A) st : (∀ st', o = Some st' → P ↔ ends st') →
  (if decide P then None else o) = Some st ↔ @None A = Some st ∨ @None A = None ∧ ¬ ends st ∧ o = Some st.
Proof.
  intros HP. case_decide as Hd.
  - split; [done|]. intros [?|(_ & Hn & Ho)]; [done|]. by destruct Hn; apply (HP st Ho).
  - split; [|by intros [?|(_ & _ & ?)]]. intros Ho. right. split; [done|]. split; [|done]. by rewrite <-(HP st Ho).
Qed.

(** C10: the controller's tables are what its history says.  After any sequence of
    reports and node listings, the table has an entry for a pod under a metering
    method exactly when some event reported the pod under that method, no later
    report of the method mentions the pod or comes from its node, no later report
    of anyone found the entry stale, and no later listing lacks its node; the
    entry is that event's report, the last one it has for the pod.  The same goes
    for nodes, which only their own reports, staleness and listings touch. *)
Theorem tables_refine_history evs : Forall event_ok evs →
  (∀ uid m st, pods (run_agg evs) !! (uid, m) = Some st ↔
     latest_entry (λ ev, writes_pod ev uid m) (λ ev, ends_pod ev m) evs st) ∧
  (∀ name m st, nodes (run_agg evs) !! (name, m) = Some st ↔
     latest_entry (λ ev, writes_node ev name m) (λ ev, ends_node ev name) evs st).
Proof.
  intros Hok. split.
  - intros uid m. apply (table_history _ _ (λ ag, pods ag !! (uid, m))); [done| |done].
    intros ag [now ne sn report|live] st Hthr Hev; cbn.
    + rewrite ingest_pods_lookup by (rewrite Hthr; exact Hev). rewrite Hthr.
      set (o := if decide (m = _) then last_report uid (ar_pods report) else None).
      assert ((if decide (m = report_method (ar_node report))
               then (λ p, {| ps_report := with_method m p; ps_received_at := now |}) <$> last_report uid (ar_pods report) else None)
              = (λ p, {| ps_report := with_method (report_method (ar_node report)) p; ps_received_at := now |}) <$> o) as ->.
      { unfold o. by case_decide as Hm; [rewrite <-Hm|]. }
      destruct o as [p|]; cbn; [naive_solver|]. destruct (pods ag !! (uid, m)) as [st'|]; [|naive_solver].
      apply (kept_unless _ (ends_pod (EIngest now ne sn report) m)). intros st0 [= <-]. cbn. split; (intros [?|?]; [by left|right; lia]).
    + rewrite map_lookup_filter_Some. cbn. destruct (decide (pr_node_name (ps_report st) ∈ live)); naive_solver.
  - intros name m. apply (table_history _ _ (λ ag, nodes ag !! (name, m))); [done| |done].
    intros ag [now ne sn report|live] st Hthr Hev; cbn.
    + rewrite ingest_nodes_lookup by (rewrite Hthr; exact Hev). rewrite Hthr. case_decide; [naive_solver|].
      destruct (nodes ag !! (name, m)) as [st'|]; [|naive_solver].
      apply (kept_unless _ (ends_node (EIngest now ne sn report) name)). intros st0 [= <-]. cbn. split; lia.
    + rewrite map_lookup_filter_Some. cbn. destruct (decide (name ∈ live)); naive_solver.
Qed.

(** ** Witness: pod a reported by two methods, then withdrawn by one of them *)

Definition demo_events : list AggEvent :=
  [demo_ingest sec EmptyString "a" 30; demo_ingest (2 * sec) "kepler" "a" 31; demo_ingest (20 * sec) EmptyString "b" 9;
   EEvictRemoved ["n1"]].
Lemma tables_refine_history_witness :
  (∃ st, pods (run_agg demo_events) !! ("a", "kepler") = Some st ∧ pr_total_uw (ps_report st) = 31) ∧
  ∀ st, ¬ latest_entry (λ ev, writes_pod ev "a" "keck") (λ ev, ends_pod ev "keck") demo_events st.
Proof.
  destruct (tables_refine_history demo_events) as [H _].
  { repeat constructor; vm_compute; congruence. }
  split.
  - eexists. split; [apply H; exists [demo_ingest sec EmptyString "a" 30], (demo_ingest (2 * sec) "kepler" "a" 31),
      [demo_ingest (20 * sec) EmptyString "b" 9; EEvictRemoved ["n1"]]; split; [reflexivity|]; split; [reflexivity|]|reflexivity].
    intros ev' Hin. rewrite !elem_of_cons in Hin. destruct Hin as [->|[->|Hin]]; [| |by apply elem_of_nil in Hin].
    + split; [reflexivity|]. cbn. intros [[? _]|Hle]; [done|]. vm_compute in Hle. by apply Hle.
    + split; [reflexivity|]. cbn. intros Hn. apply Hn. left.
  - intros st Hst%H. vm_compute in Hst. discriminate.
Defined.
