(* ===== verification/Scheduler.v ===== *)
(** * Scheduler: the power-aware scheduler extender

    keck-controller/src/scheduler/mod.rs over the aggregator's interface.  The
    formatted reason strings are kept as the values they print. *)

From S2P Require Import Prelude F64 Aggregator.

Open Scope Z_scope.

Inductive PlacementStrategy := BinPack | Spread.

Record SchedulerConfig := {
  headroom_weight : f64;
  accuracy_weight : f64;
  strategy : PlacementStrategy;
  namespace_budgets : gmap string f64
}.
Definition SchedulerConfig_default : SchedulerConfig :=
  {| headroom_weight := f_lit 7 10; accuracy_weight := f_lit 3 10; strategy := BinPack; namespace_budgets := ∅ |}.

Inductive ScoreReason :=
| NoPowerData
| Scored (headroom accuracy : Z) (s : PlacementStrategy).
Record NodeScore := { score_node : string; score : Z; score_reason : ScoreReason }.

Inductive FailReason :=
| MeteringUnreliable (error_ratio : f64)
| BudgetExceeded (namespace : string) (current budget : f64).
Record FilterResult := { fr_nodes : list string; fr_failed : gmap string FailReason }.

Section scheduler.
Context `{HI : HashIter}.

(** [nodes.iter().map(|n| (name, n)).collect::<HashMap>()]. *)
Definition node_map (nodes : list NodeSummary) : gmap string NodeSummary :=
  foldl (λ m n, <[sum_node_name n := n]> m) ∅ nodes.

Definition current_ns_power (namespace : string) (ag : ClusterAggregator) : f64 :=
  match list_find_p (λ ns, String.eqb (nsp_namespace ns) namespace) (namespace_power (Some "keck") ag) with
  | Some ns => fdiv (f_of_Z (nsp_total_uw ns)) (f_of_Z 1000000)
  | None => fzero
  end.

(** Why a node is refused, if it is. *)
Definition refuse (cfg : SchedulerConfig) (namespace : string) (ns_power : f64) (nodes : gmap string NodeSummary)
    (node_name : string) : option FailReason :=
  match nodes !! node_name with
  | None => None
  | Some summary =>
      if fltb (f_lit 1 2) (sum_error_ratio summary) then Some (MeteringUnreliable (sum_error_ratio summary))
      else match namespace_budgets cfg !! namespace with
           | Some budget => if fleb budget ns_power then Some (BudgetExceeded namespace ns_power budget) else None
           | None => None
           end
  end.

Definition filter_step (cfg : SchedulerConfig) (namespace : string) (ns_power : f64) (nodes : gmap string NodeSummary)
    (r : FilterResult) (node_name : string) : FilterResult :=
  match refuse cfg namespace ns_power nodes node_name with
  | None => {| fr_nodes := fr_nodes r ++ [node_name]; fr_failed := fr_failed r |}
  | Some why => {| fr_nodes := fr_nodes r; fr_failed := <[node_name := why]> (fr_failed r) |}
  end.

(** [PowerScheduler::filter] at [now] (the summaries' age is not used). *)
Definition filter_nodes (now : Z) (cfg : SchedulerConfig) (ag : ClusterAggregator) (candidate_nodes : list string)
    (namespace : string) : FilterResult :=
  foldl (filter_step cfg namespace (current_ns_power namespace ag) (node_map (node_summaries now (Some "keck") ag)))
    {| fr_nodes := []; fr_failed := ∅ |} candidate_nodes.

Definition accuracy_pct (summary : NodeSummary) : Z :=
  f_to_u32 (fmul (fsub fone (sum_error_ratio summary)) (f_of_Z 100)).

Definition node_scores (strat : PlacementStrategy) (summary : NodeSummary) : Z * Z :=
  match strat with
  | BinPack =>
      let utilization :=
        match sum_platform_uw summary with
        | Some platform =>
            let used := u64_add (u64_add (sum_cpu_uw summary) (sum_memory_uw summary)) (sum_gpu_uw summary) in
            f64_min (fdiv (f_of_Z used) (f_of_Z platform)) fone
        | None => f_lit 1 2
        end in
      (f_to_u32 (fmul utilization (f_of_Z 100)), accuracy_pct summary)
  | Spread =>
      let headroom_pct :=
        match sum_headroom_uw summary, sum_platform_uw summary with
        | Some headroom, Some platform =>
            f_to_u32 (fmul (fdiv (f_of_Z headroom) (f_of_Z platform)) (f_of_Z 100))
        | _, _ => 50
        end in
      (headroom_pct, accuracy_pct summary)
  end.

Definition score_node_of (cfg : SchedulerConfig) (nodes : gmap string NodeSummary) (name : string) : NodeScore :=
  match nodes !! name with
  | None => {| score_node := name; score := 50; score_reason := NoPowerData |}
  | Some summary =>
      let '(headroom_score, accuracy_score) := node_scores (strategy cfg) summary in
      let combined := f_to_u32 (fadd (fmul (f_of_Z headroom_score) (headroom_weight cfg))
                                     (fmul (f_of_Z accuracy_score) (accuracy_weight cfg))) in
      {| score_node := name; score := Z.min combined 100;
         score_reason := Scored headroom_score accuracy_score (strategy cfg) |}
  end.

Definition prioritize (now : Z) (cfg : SchedulerConfig) (ag : ClusterAggregator) (candidate_nodes : list string)
    : list NodeScore :=
  score_node_of cfg (node_map (node_summaries now (Some "keck") ag)) <$> candidate_nodes.

(** ** The interface to the aggregator: what a node's entry is *)

Lemma node_map_lookup l name : NoDup (sum_node_name <$> l) →
  ∀ s, node_map l !! name = Some s ↔ s ∈ l ∧ sum_node_name s = name.
Proof.
  intros Hnd s. unfold node_map.
  assert (∀ m : gmap string NodeSummary, foldl (λ m n, <[sum_node_name n := n]> m) m l !! name = Some s ↔
    (s ∈ l ∧ sum_node_name s = name) ∨ (name ∉ sum_node_name <$> l ∧ m !! name = Some s)) as Hg.
  { induction l as [|n l IH]; intros m; cbn [foldl].
    { split; [intros ?; right; split; [apply not_elem_of_nil|done]|]. intros [[Hin _]|[_ ?]]; [|done].
      by apply not_elem_of_nil in Hin. }
    rewrite fmap_cons in Hnd. apply NoDup_cons in Hnd as [Hn Hnd]. rewrite IH by done.
    rewrite fmap_cons, not_elem_of_cons, elem_of_cons. split.
    - intros [[Hin Hs]|[Hnot [[Hk <-]|[Hk Hm]]%lookup_insert_Some]].
      + left. by split; [right|].
      + left. by split; [left|].
      + right. by split.
    - intros [[[->|Hin] <-]|[[Hne Hnot] Hm]].
      + right. split; [done|]. apply lookup_insert_eq.
      + by left.
      + right. split; [done|]. by rewrite lookup_insert_ne. }
  rewrite Hg, lookup_empty. naive_solver.
Qed.

Lemma node_summaries_NoDup now m evs : NoDup (sum_node_name <$> node_summaries now (Some m) (run_agg evs)).
Proof.
  destruct (run_agg_ok evs) as [_ Hn]. unfold node_summaries, node_reports. rewrite <-list_fmap_compose.
  change (sum_node_name ∘ node_summary_of now) with (λ s, nr_node_name (ns_report s)).
  unfold hm_values. pose proof (hm_keys_NoDup (nodes (run_agg evs))) as Hnd. unfold hm_keys in Hnd.
  assert (∀ kv, kv ∈ hm_iter (nodes (run_agg evs)) →
    kv.1 = (nr_node_name (ns_report kv.2), report_method (ns_report kv.2))) as Hk.
  { intros [k st] Hin%hm_iter_elem. by apply Hn. }
  revert Hnd Hk. generalize (hm_iter (nodes (run_agg evs))) as l. induction l as [|kv l IH]; intros Hnd Hk; [constructor|].
  change (NoDup (kv.1 :: l.*1)) in Hnd. apply NoDup_cons in Hnd as [Hnot Hnd].
  change ((kv :: l).*2) with (kv.2 :: l.*2). rewrite filter_cons.
  assert (NoDup ((λ s, nr_node_name (ns_report s)) <$>
    filter (λ s, matches_method (nr_metering_method (ns_report s)) (Some m) = true) l.*2)) as Hrest.
  { apply IH; [done|]. intros ? ?. apply Hk. by right. }
  case_decide as Hm; [|done]. rewrite fmap_cons. apply NoDup_cons. split; [|done].
  intros (s & Hs & [Hm' ([k' s'] & -> & Hin)%list_elem_of_fmap]%list_elem_of_filter)%list_elem_of_fmap.
  apply Hnot, list_elem_of_fmap. exists (k', s'). split; [|done]. cbn in *.
  rewrite (Hk kv) by left. pose proof (Hk (k', s') ltac:(by right)) as Hk'. cbn in Hk'. rewrite Hk', Hs. f_equal.
  unfold matches_method in Hm, Hm'. apply String.eqb_eq in Hm, Hm'.
  unfold report_method. rewrite Hm, Hm'. done.
Qed.

Lemma foldl_filter_step cfg ns p nm l r :
  foldl (filter_step cfg ns p nm) r l =
    {| fr_nodes := fr_nodes r ++ filter (λ n, refuse cfg ns p nm n = None) l;
       fr_failed := foldl (λ m n, match refuse cfg ns p nm n with Some w => <[n := w]> m | None => m end) (fr_failed r) l |}.
Proof.
  revert r. induction l as [|n l IH]; intros r; [cbn; rewrite app_nil_r; by destruct r|].
  cbn [foldl]. rewrite IH, filter_cons. unfold filter_step.
  destruct (refuse cfg ns p nm n) eqn:E; cbn; [done|]. by rewrite <-app_assoc.
Qed.
Lemma foldl_failed cfg ns p nm l (m : gmap string FailReason) n :
  foldl (λ m n, match refuse cfg ns p nm n with Some w => <[n := w]> m | None => m end) m l !! n =
    if decide (n ∈ l) then match refuse cfg ns p nm n with Some w => Some w | None => m !! n end else m !! n.
Proof.
  revert m. induction l as [|x l IH]; intros m; [by rewrite decide_False by apply not_elem_of_nil|].
  cbn [foldl]. rewrite IH. destruct (decide (n = x)) as [<-|Hne].
  - rewrite (decide_True (P := n ∈ n :: l)) by left. destruct (refuse cfg ns p nm n); case_decide; try done; by rewrite lookup_insert_eq.
  - destruct (decide (n ∈ l)).
    + rewrite decide_True by (by right). destruct (refuse cfg ns p nm n); [done|].
      destruct (refuse cfg ns p nm x); [by rewrite lookup_insert_ne|done].
    + rewrite decide_False by (intros [?|?]%elem_of_cons; done).
      destruct (refuse cfg ns p nm x); [by rewrite lookup_insert_ne|done].
Qed.

(** Why a node with a power report is refused: its error ratio is above 0.5, or
    the namespace of the pod has a budget its current power reaches. *)
Definition node_unfit (cfg : SchedulerConfig) (namespace : string) (ag : ClusterAggregator) (s : NodeSummary) : Prop :=
  fltb (f_lit 1 2) (sum_error_ratio s) = true ∨
  ∃ b, namespace_budgets cfg !! namespace = Some b ∧ fleb b (current_ns_power namespace ag) = true.

Lemma refuse_known now cfg evs namespace s :
  let ag := run_agg evs in
  s ∈ node_summaries now (Some "keck") ag →
  is_Some (refuse cfg namespace (current_ns_power namespace ag) (node_map (node_summaries now (Some "keck") ag))
             (sum_node_name s)) ↔ node_unfit cfg namespace ag s.
Proof.
  cbn zeta. intros Hs. unfold refuse, node_unfit.
  rewrite (proj2 (node_map_lookup _ _ (node_summaries_NoDup now "keck" evs) s) (conj Hs eq_refl)).
  destruct (fltb (f_lit 1 2) (sum_error_ratio s)) eqn:He; [split; [by left|eauto]|].
  destruct (namespace_budgets cfg !! namespace) as [b|]; cycle 1.
  { split; [by intros []|]. by intros [?|(? & ? & ?)]. }
  destruct (fleb b _) eqn:Hb; [split; [by eauto|eauto]|].
  split; [by intros []|]. intros [?|(b' & [= <-] & Hb')]; [done|]. by rewrite Hb in Hb'.
Qed.

Lemma filter_nodes_refused now cfg ag candidates namespace n : n ∈ candidates →
  let w := refuse cfg namespace (current_ns_power namespace ag) (node_map (node_summaries now (Some "keck") ag)) n in
  let r := filter_nodes now cfg ag candidates namespace in
  fr_failed r !! n = w ∧ (n ∈ fr_nodes r ↔ w = None).
Proof.
  intros Hn. cbn zeta. unfold filter_nodes. rewrite foldl_filter_step. cbn [fr_nodes fr_failed app].
  rewrite foldl_failed, decide_True, lookup_empty, list_elem_of_filter by done.
  split; [by destruct (refuse _ _ _ _ _)|tauto].
Qed.


(** A candidate that never reported passes, whatever the budget of the
    namespace: the opposite of what the comment on [filter] says. *)
Lemma unknown_node_passes now cfg evs candidates namespace n :
  let ag := run_agg evs in
  n ∈ candidates → n ∉ sum_node_name <$> node_summaries now (Some "keck") ag →
  n ∈ fr_nodes (filter_nodes now cfg ag candidates namespace).
Proof.
  cbn zeta. intros Hc Hn. apply filter_nodes_refused; [done|]. unfold refuse.
  destruct (node_map _ !! n) as [s|] eqn:E; [|done]. exfalso. apply Hn.
  apply (node_map_lookup _ n (node_summaries_NoDup now "keck" evs)) in E as [Hin <-]. apply list_elem_of_fmap. eauto.
Qed.

(** Scoring gives every candidate, in order, a score between 0 and 100,
    whatever the metering data (zero or missing platform power and not-a-number
    error ratios included); a node that never reported scores 50. *)
Theorem prioritize_scores now cfg ag candidates :
  score_node <$> prioritize now cfg ag candidates = candidates ∧
  Forall (λ s, 0 <= score s <= 100) (prioritize now cfg ag candidates) ∧
  ∀ s, s ∈ prioritize now cfg ag candidates →
    node_map (node_summaries now (Some "keck") ag) !! score_node s = None → score s = 50.
Proof.
  unfold prioritize. set (nm := node_map _). split; [|split].
  - rewrite <-list_fmap_compose. rewrite (list_fmap_ext _ id); [apply list_fmap_id|].
    intros i n _. cbn. unfold score_node_of. destruct (nm !! n) as [s|]; [|done]. by destruct (node_scores _ s).
  - apply Forall_fmap, Forall_forall. intros n _. cbn. unfold score_node_of.
    destruct (nm !! n) as [s|]; [|cbn; lia]. destruct (node_scores _ s) as [h a]. cbn [score].
    match goal with |- context [f_to_u32 ?x] => pose proof (f_to_Z_sat_range u32_max x ltac:(done)) end.
    unfold f_to_u32. lia.
  - intros s (n & -> & _)%list_elem_of_fmap. unfold score_node_of.
    destruct (nm !! n) as [s|] eqn:E; [|done]. destruct (node_scores _ s). cbn. by rewrite E.
Qed.
End scheduler.

(** A node that reports 0 uW of platform power scores as fully packed. *)
Example zero_platform_packs :
  (node_scores BinPack {| sum_node_name := "n"; sum_cpu_uw := 0; sum_memory_uw := 0; sum_gpu_uw := 0;
     sum_platform_uw := Some 0; sum_psu_output_uw := None; sum_idle_uw := 0; sum_error_ratio := fzero;
     sum_pod_count := 0; sum_headroom_uw := Some 0; sum_cpu_source := "s"; sum_cpu_reading_type := "t";
     sum_metering_method := "keck"; sum_last_seen := 0; sum_last_seen_secs_ago := 0 |}).1 = 100.
Proof. by vm_compute. Qed.

(** ** Witnesses *)

#[local] Existing Instance hash_iter_list.

Definition demo_cfg : SchedulerConfig :=
  {| headroom_weight := fone; accuracy_weight := fone; strategy := BinPack; namespace_budgets := {["shop" := fzero]} |}.
Definition demo_summary : NodeSummary := node_summary_of (2 * sec) {| ns_report := demo_node "n1" EmptyString; ns_received_at := sec |}.

