(* ===== verification/Api.v ===== *)
(** * Api: the controller's report endpoint and the cluster totals it serves

    keck-controller/src/api/mod.rs: authentication, validation and ingestion of
    agent reports, and the per-category totals of [handle_cluster].  The parsed
    JSON body and the [authorization] header (absent, not text, or text) are
    arguments; error messages are kept as the values they print. *)

From S2P Require Import Prelude F64 Classify Aggregator.

Open Scope Z_scope.

Inductive StatusCode := OK | UNAUTHORIZED | BAD_REQUEST.

(** [strip_prefix]. *)
Fixpoint strip_prefix (pre s : string) : option string :=
  match pre, s with
  | EmptyString, _ => Some s
  | String a pre', String b s' => if Ascii.eqb a b then strip_prefix pre' s' else None
  | String _ _, EmptyString => None
  end.

(** [authorization] is the header, when present and text. *)
Definition check_auth (authorization : option string) (api_key : option string) : result unit StatusCode :=
  match api_key with
  | None => Ok tt
  | Some expected =>
      match authorization with
      | None => Err UNAUTHORIZED
      | Some header =>
          match strip_prefix "Bearer " header with
          | None => Err UNAUTHORIZED
          | Some token => if String.eqb token expected then Ok tt else Err UNAUTHORIZED
          end
      end
  end.

Definition MAX_PODS_PER_REPORT : Z := 2000.
Definition MAX_NAME_LEN : Z := 512.
Definition MAX_POWER_UW : Z := 100000000000.

Inductive ReportError :=
| BadNodeName (len : Z)
| CpuTooLarge (uw : Z)
| MemoryTooLarge (uw : Z)
| GpuTooLarge (uw : Z)
| TooManyPods (n : Z)
| BadPodUid (len : Z)
| PodNameTooLong (len : Z)
| NamespaceTooLong (len : Z)
| PodPowerTooLarge (uid : string) (uw : Z).

Definition len (s : string) : Z := Z.of_nat (String.length s).

Definition validate_pod (pod : PodPowerReport) : result unit ReportError :=
  if str_empty (pr_pod_uid pod) || (MAX_NAME_LEN <? len (pr_pod_uid pod)) then Err (BadPodUid (len (pr_pod_uid pod)))
  else if MAX_NAME_LEN <? len (pr_pod_name pod) then Err (PodNameTooLong (len (pr_pod_name pod)))
  else if MAX_NAME_LEN <? len (pr_namespace pod) then Err (NamespaceTooLong (len (pr_namespace pod)))
  else if MAX_POWER_UW <? pr_total_uw pod then Err (PodPowerTooLarge (pr_pod_uid pod) (pr_total_uw pod))
  else Ok tt.
Fixpoint validate_pods (pods : list PodPowerReport) : result unit ReportError :=
  match pods with
  | [] => Ok tt
  | pod :: pods => match validate_pod pod with Err e => Err e | Ok _ => validate_pods pods end
  end.

Definition validate_report (report : AgentReport) : result unit ReportError :=
  let node := ar_node report in
  if str_empty (nr_node_name node) || (MAX_NAME_LEN <? len (nr_node_name node)) then
    Err (BadNodeName (len (nr_node_name node)))
  else if MAX_POWER_UW <? nr_cpu_uw node then Err (CpuTooLarge (nr_cpu_uw node))
  else if MAX_POWER_UW <? nr_memory_uw node then Err (MemoryTooLarge (nr_memory_uw node))
  else if MAX_POWER_UW <? nr_gpu_uw node then Err (GpuTooLarge (nr_gpu_uw node))
  else if MAX_PODS_PER_REPORT <? Z.of_nat (length (ar_pods report)) then
    Err (TooManyPods (Z.of_nat (length (ar_pods report))))
  else validate_pods (ar_pods report).

Record ServerState := {
  aggregator : ClusterAggregator;
  api_key : option string;
  agent_report_total : gmap string Z
}.

Inductive ReportReply :=
| Accepted
| Unauthorized
| Rejected (why : ReportError).
Definition reply_status (r : ReportReply) : StatusCode :=
  match r with Accepted => OK | Unauthorized => UNAUTHORIZED | Rejected _ => BAD_REQUEST end.

(** POST /api/v1/report at the given clock readings. *)
Definition handle_report (now now_evict system_now : Z) (authorization : option string) (report : AgentReport)
    (state : ServerState) : ReportReply * ServerState :=
  match check_auth authorization (api_key state) with
  | Err _ => (Unauthorized, state)
  | Ok _ =>
      match validate_report report with
      | Err reason => (Rejected reason, state)
      | Ok _ =>
          (Accepted,
           {| aggregator := ingest now now_evict system_now report (aggregator state);
              api_key := api_key state;
              agent_report_total := hm_upd (nr_node_name (ar_node report)) 0 (λ n, u64_add n 1)
                                      (agent_report_total state) |})
      end
  end.

(** The category totals of [handle_cluster]: application, operator, platform. *)
Definition category_step (cls : ClassificationData) (acc : Z * Z * Z) (pod : PodPowerReport) : Z * Z * Z :=
  let '(app_uw, op_uw, plat_uw) := acc in
  let cat := (classify cls (pr_namespace pod)).1 in
  if String.eqb cat "platform" then (app_uw, op_uw, u64_add plat_uw (pr_total_uw pod))
  else if String.eqb cat "operator" then (app_uw, u64_add op_uw (pr_total_uw pod), plat_uw)
  else (u64_add app_uw (pr_total_uw pod), op_uw, plat_uw).
Definition category_power `{HI : HashIter} (method : option string) (cls : ClassificationData)
    (ag : ClusterAggregator) : Z * Z * Z :=
  foldl (category_step cls) (0, 0, 0) (all_pods_filtered method ag).

(** ** Validation *)

Definition pod_valid (p : PodPowerReport) : Prop :=
  pr_pod_uid p ≠ EmptyString ∧ len (pr_pod_uid p) <= MAX_NAME_LEN ∧ len (pr_pod_name p) <= MAX_NAME_LEN ∧
  len (pr_namespace p) <= MAX_NAME_LEN ∧ pr_total_uw p <= MAX_POWER_UW.
Definition report_valid (r : AgentReport) : Prop :=
  nr_node_name (ar_node r) ≠ EmptyString ∧ len (nr_node_name (ar_node r)) <= MAX_NAME_LEN ∧
  nr_cpu_uw (ar_node r) <= MAX_POWER_UW ∧ nr_memory_uw (ar_node r) <= MAX_POWER_UW ∧
  nr_gpu_uw (ar_node r) <= MAX_POWER_UW ∧ Z.of_nat (length (ar_pods r)) <= MAX_PODS_PER_REPORT ∧
  Forall pod_valid (ar_pods r).

Lemma str_empty_spec s : str_empty s = false ↔ s ≠ EmptyString.
Proof. unfold str_empty. by rewrite String.eqb_neq. Qed.

Lemma str_empty_true s : str_empty s = true ↔ s = EmptyString.
Proof. unfold str_empty. by rewrite String.eqb_eq. Qed.

(** Walk down a chain of [if b then Err .. else ..]. *)
Ltac guards :=
  repeat match goal with
  | |- context [if ?b then Err _ else _] => destruct b eqn:?
  | H : _ || _ = false |- _ => apply orb_false_iff in H as [? ?]
  | H : _ || _ = true |- _ => apply orb_true_iff in H
  | H : (_ <? _) = false |- _ => apply Z.ltb_ge in H
  | H : (_ <? _) = true |- _ => apply Z.ltb_lt in H
  | H : str_empty _ = false |- _ => apply str_empty_spec in H
  | H : str_empty _ = true |- _ => apply str_empty_true in H
  | H : _ ∨ _ |- _ => destruct H
  end.

Lemma validate_pod_spec p : validate_pod p = Ok tt ↔ pod_valid p.
Proof.
  unfold validate_pod, pod_valid. guards; split; try done; intros (? & ? & ? & ? & ?); done || lia.
Qed.
Lemma validate_pods_spec l : validate_pods l = Ok tt ↔ Forall pod_valid l.
Proof.
  induction l as [|p l IH]; [done|]. cbn. rewrite Forall_cons, <-IH, <-validate_pod_spec.
  destruct (validate_pod p) as [[]|]; [tauto|]. split; [done|]. by intros [[=] _].
Qed.
Lemma validate_report_spec r : validate_report r = Ok tt ↔ report_valid r.
Proof.
  unfold validate_report, report_valid. rewrite <-validate_pods_spec. guards; split; try done;
    intros (? & ? & ? & ? & ? & ? & ?); done || lia.
Qed.

Lemma strip_prefix_spec pre s t : strip_prefix pre s = Some t ↔ s = String.append pre t.
Proof.
  revert s. induction pre as [|a pre IH]; intros s; cbn.
  { split; [by intros [= ->]|by intros ->]. }
  destruct s as [|b s]; [done|]. destruct (Ascii.eqb_spec a b) as [->|Hne].
  - rewrite IH. split; [by intros ->|by intros [= ->]].
  - split; [done|]. by intros [= -> _].
Qed.

(** The header must be the configured key's bearer token. *)
Lemma check_auth_spec auth configured : check_auth auth configured = Ok tt ↔
  ∀ key, configured = Some key → auth = Some (String.append "Bearer " key).
Proof.
  unfold check_auth. destruct configured as [key|]; [|naive_solver].
  destruct auth as [h|]; [|split; [done|]; intros Hk; by specialize (Hk key eq_refl)].
  pose proof (strip_prefix_spec "Bearer " h) as Hs. destruct (strip_prefix "Bearer " h) as [t|].
  - destruct (String.eqb_spec t key) as [->|Hne].
    + split; [|done]. intros _ k [= <-]. f_equal. by apply Hs.
    + split; [done|]. intros Hk. specialize (Hk key eq_refl). injection Hk as Hk. apply Hs in Hk. congruence.
  - split; [done|]. intros Hk. specialize (Hk key eq_refl). injection Hk as Hk. by apply Hs in Hk.
Qed.

(** C18: the report endpoint.  A report is ingested exactly when no key is
    configured or the header is "Bearer " followed by the key, and the report is
    within the documented limits; otherwise the server's state does not change
    at all and the caller gets 401 or 400. *)
Theorem handle_report_guards now ne sn auth report state :
  let authorized := ∀ key, api_key state = Some key → auth = Some (String.append "Bearer " key) in
  match handle_report now ne sn auth report state with
  | (Accepted, state') => authorized ∧ report_valid report ∧
      aggregator state' = ingest now ne sn report (aggregator state) ∧ api_key state' = api_key state
  | (Unauthorized, state') => ¬ authorized ∧ state' = state
  | (Rejected _, state') => authorized ∧ ¬ report_valid report ∧ state' = state
  end.
Proof.
  cbn zeta. unfold handle_report.
  pose proof (check_auth_spec auth (api_key state)) as Hauth.
  pose proof (validate_report_spec report) as Hval.
  destruct (check_auth auth (api_key state)) as [[]|]; cycle 1.
  { split; [|done]. by intros Hk%Hauth. }
  destruct (validate_report report) as [[]|]; cbn.
  - split; [by apply Hauth|]. split; [by apply Hval|done].
  - split; [by apply Hauth|]. split; [|done]. by intros Hr%Hval.
Qed.

(** ** Validated totals do not overflow *)

(** A report as the JSON decoder delivers it: unsigned fields. *)
Definition report_unsigned (r : AgentReport) : Prop :=
  0 <= nr_cpu_uw (ar_node r) ∧ 0 <= nr_memory_uw (ar_node r) ∧ 0 <= nr_gpu_uw (ar_node r) ∧
  Forall (λ p, 0 <= pr_total_uw p) (ar_pods r).

Definition power_ok (uw : Z) : Prop := 0 <= uw <= MAX_POWER_UW.
Definition agg_bounded (ag : ClusterAggregator) : Prop :=
  (∀ k st, nodes ag !! k = Some st → power_ok (nr_cpu_uw (ns_report st)) ∧
     power_ok (nr_memory_uw (ns_report st)) ∧ power_ok (nr_gpu_uw (ns_report st))) ∧
  (∀ k st, pods ag !! k = Some st → power_ok (pr_total_uw (ps_report st))).

Lemma with_method_total m p : pr_total_uw (with_method m p) = pr_total_uw p.
Proof. unfold with_method. by destruct (str_empty _). Qed.

Lemma ingest_bounded now ne sn report ag : report_unsigned report → report_valid report →
  agg_bounded ag → agg_bounded (ingest now ne sn report ag).
Proof.
  intros (U1 & U2 & U3 & Up) (_ & _ & V1 & V2 & V3 & _ & Vp) [Hn Hp].
  destruct (ingest_fields now ne sn report ag) as (Hpods & Hnodes & _). split.
  - intros k st. rewrite Hnodes. intros [[[<- <-]|[_ Hk]]%lookup_insert_Some _]%map_lookup_filter_Some.
    + cbn. unfold power_ok. lia.
    + by eapply Hn.
  - intros [uid m] st. rewrite Hpods. intros [Hk _]%map_lookup_filter_Some.
    rewrite foldl_insert_pod_pods in Hk. destruct (if decide (m = _) then _ else None) as [p|] eqn:Hl.
    + injection Hk as <-. cbn. rewrite with_method_total. case_decide; [|done].
      apply last_report_Some in Hl as [_ Hin]. rewrite Forall_forall in Up, Vp.
      destruct (Vp p Hin) as (_ & _ & _ & _ & ?). specialize (Up p Hin). by split.
    + apply map_lookup_filter_Some in Hk as [Hk _]. by eapply Hp.
Qed.

(** A day in the life of the server: report requests and node removals. *)
Inductive ServerEvent :=
| SReport (now now_evict system_now : Z) (authorization : option string) (report : AgentReport)
| SEvictRemoved (live_node_names : list string).
Definition server_step (st : ServerState) (ev : ServerEvent) : ServerState :=
  match ev with
  | SReport now ne sn auth report => (handle_report now ne sn auth report st).2
  | SEvictRemoved live =>
      {| aggregator := evict_removed_nodes live (aggregator st); api_key := api_key st;
         agent_report_total := agent_report_total st |}
  end.
Definition run_server (key : option string) (evs : list ServerEvent) : ServerState :=
  foldl server_step {| aggregator := ClusterAggregator_new; api_key := key; agent_report_total := ∅ |} evs.
Definition event_unsigned (ev : ServerEvent) : Prop :=
  match ev with SReport _ _ _ _ r => report_unsigned r | SEvictRemoved _ => True end.

Lemma server_bounded key evs : Forall event_unsigned evs → agg_bounded (aggregator (run_server key evs)).
Proof.
  intros Hev. unfold run_server.
  assert (agg_bounded (aggregator {| aggregator := ClusterAggregator_new; api_key := key; agent_report_total := ∅ |})) as H0.
  { split; intros ? ?; cbn; by rewrite lookup_empty. }
  revert H0. generalize {| aggregator := ClusterAggregator_new; api_key := key; agent_report_total := ∅ |}.
  induction Hev as [|ev evs Hu Hev IH]; intros st Hb; [done|]. cbn. apply IH.
  destruct ev as [now ne sn auth report|live]; cbn.
  - unfold handle_report. destruct (check_auth _ _); [|done].
    destruct (validate_report report) as [[]|] eqn:Hv; [|done]. cbn.
    apply ingest_bounded; try done. by apply validate_report_spec.
  - destruct Hb as [Hn Hp]. split; cbn; intros k v [Hk _]%map_lookup_filter_Some; eauto.
Qed.

Lemma sum_bounded (l : list Z) : Forall power_ok l → 0 <= sum_Z l <= MAX_POWER_UW * Z.of_nat (length l).
Proof. induction 1 as [|x l Hx Hl IH]; [done|]. rewrite sum_Z_cons. unfold power_ok in *. cbn [length]. lia. Qed.

Section totals.
Context `{HI : HashIter}.

Lemma node_reports_bounded method ag : agg_bounded ag →
  Forall (λ s, power_ok (nr_cpu_uw (ns_report s)) ∧ power_ok (nr_memory_uw (ns_report s)) ∧
               power_ok (nr_gpu_uw (ns_report s))) (node_reports method ag).
Proof.
  intros [Hn _]. apply Forall_forall. intros s [_ [k Hk]%hm_values_elem]%list_elem_of_filter. by eapply Hn.
Qed.
Lemma length_node_reports method ag : (length (node_reports method ag) <= size (nodes ag))%nat.
Proof.
  unfold node_reports. etrans; [apply length_filter|]. unfold hm_values. by rewrite length_fmap, length_hm_iter.
Qed.

Lemma sum_nodes_bounded (l : list NodeState) (f : NodeState → Z) : Z.of_nat (length l) <= 60000000 →
  Forall (λ s, power_ok (f s)) l → 0 <= sum_Z (f <$> l) <= 6000000000000000000.
Proof.
  intros Hlen Hf. pose proof (sum_bounded (f <$> l)) as Hsb. rewrite Forall_fmap, length_fmap in Hsb.
  specialize (Hsb Hf). unfold MAX_POWER_UW in Hsb. nia.
Qed.

Lemma cluster_total_exact method ag : agg_bounded ag → Z.of_nat (size (nodes ag)) <= 60000000 →
  cl_total_attributed_uw (cluster_power method ag) =
    sum_Z ((λ s, nr_cpu_uw (ns_report s) + nr_memory_uw (ns_report s) + nr_gpu_uw (ns_report s))
           <$> node_reports method ag).
Proof.
  intros Hb Hnn. pose proof (node_reports_bounded method ag Hb) as Hl. pose proof (length_node_reports method ag) as Hlen.
  unfold cluster_power. cbn [cl_total_attributed_uw].
  set (l := node_reports method ag) in *. set (a0 := Build_ClusterAcc _ _ _ _ _ _ _ _).
  assert (a_cpu (foldl cluster_step a0 l) = sum_u64 ((λ s, nr_cpu_uw (ns_report s)) <$> l)) as ->
    by (apply (foldl_field (λ s a, cluster_step a s)); done).
  assert (a_memory (foldl cluster_step a0 l) = sum_u64 ((λ s, nr_memory_uw (ns_report s)) <$> l)) as ->
    by (apply (foldl_field (λ s a, cluster_step a s)); done).
  assert (a_gpu (foldl cluster_step a0 l) = sum_u64 ((λ s, nr_gpu_uw (ns_report s)) <$> l)) as ->
    by (apply (foldl_field (λ s a, cluster_step a s)); done).
  pose proof (sum_nodes_bounded l (λ s, nr_cpu_uw (ns_report s))) as S1.
  pose proof (sum_nodes_bounded l (λ s, nr_memory_uw (ns_report s))) as S2.
  pose proof (sum_nodes_bounded l (λ s, nr_gpu_uw (ns_report s))) as S3.
  ospecialize (S1 _ _); [lia|eapply Forall_impl; [exact Hl|naive_solver]|].
  ospecialize (S2 _ _); [lia|eapply Forall_impl; [exact Hl|naive_solver]|].
  ospecialize (S3 _ _); [lia|eapply Forall_impl; [exact Hl|naive_solver]|].
  assert (u64_mod = 18446744073709551616) as HM by done.
  rewrite !sum_u64_exact by (unfold is_u64; lia).
  rewrite (u64_add_exact (sum_Z _) (sum_Z _)), u64_add_exact by lia.
  clear. induction l as [|s l IH]; [done|]. rewrite !fmap_cons, !sum_Z_cons, <-IH. lia.
Qed.

Lemma category_fold_exact cls l a o p : Forall (λ r, power_ok (pr_total_uw r)) l →
  0 <= a → 0 <= o → 0 <= p → a + o + p + sum_Z (pr_total_uw <$> l) < u64_mod →
  let '(a', o', p') := foldl (category_step cls) (a, o, p) l in
  a' + o' + p' = a + o + p + sum_Z (pr_total_uw <$> l).
Proof.
  intros Hl. revert a o p. induction Hl as [|r l Hr Hl IH]; intros a o p Ha Ho Hp Hlt; [cbn in *; lia|].
  cbn [foldl]. rewrite fmap_cons, sum_Z_cons in *. unfold power_ok in Hr.
  assert (0 <= sum_Z (pr_total_uw <$> l)).
  { apply sum_Z_nonneg, Forall_fmap. eapply Forall_impl; [exact Hl|]. unfold power_ok. cbn. lia. }
  unfold category_step at 2. destruct (String.eqb _ "platform"); [|destruct (String.eqb _ "operator")];
    rewrite u64_add_exact by lia;
    match goal with |- context [foldl _ (?x, ?y, ?z) l] =>
      specialize (IH x y z ltac:(lia) ltac:(lia) ltac:(lia) ltac:(lia)) end;
    destruct (foldl _ _ l) as [[a' o'] p']; lia.
Qed.

Lemma category_total_exact method cls ag : agg_bounded ag → Z.of_nat (size (pods ag)) <= 100000000 →
  let '(app, op, plat) := category_power method cls ag in
  app + op + plat = sum_Z (pr_total_uw <$> all_pods_filtered method ag).
Proof.
  intros [_ Hp] Hnp.
  assert (Forall (λ r, power_ok (pr_total_uw r)) (all_pods_filtered method ag)) as Hl.
  { apply Forall_fmap, Forall_forall. intros s [_ [k Hk]%hm_values_elem]%list_elem_of_filter. by eapply Hp. }
  assert (length (all_pods_filtered method ag) <= size (pods ag))%nat as Hlen.
  { unfold all_pods_filtered. rewrite length_fmap. etrans; [apply length_filter|].
    unfold hm_values. by rewrite length_fmap, length_hm_iter. }
  pose proof (sum_bounded (pr_total_uw <$> all_pods_filtered method ag)) as Hsb.
  rewrite Forall_fmap, length_fmap in Hsb. specialize (Hsb Hl). unfold MAX_POWER_UW in Hsb.
  apply (category_fold_exact cls _ 0 0 0 Hl); try lia. unfold u64_mod. lia.
Qed.

(** C24: attributed and category totals are exact.  Whatever requests the server
    gets, as long as it knows at most sixty million nodes and a hundred million
    pods, these two kinds of totals do not wrap: the cluster's attributed power is
    the mathematical sum of the nodes' CPU, memory and GPU powers, and the three
    category totals add up to the mathematical sum of the pods' powers.  (Platform,
    power supply and idle powers are not validated: [unbounded_fields_accepted].) *)
Theorem validated_totals_exact key evs method cls :
  Forall event_unsigned evs →
  let ag := aggregator (run_server key evs) in
  Z.of_nat (size (nodes ag)) <= 60000000 → Z.of_nat (size (pods ag)) <= 100000000 →
  cl_total_attributed_uw (cluster_power method ag) =
    sum_Z ((λ s, nr_cpu_uw (ns_report s) + nr_memory_uw (ns_report s) + nr_gpu_uw (ns_report s))
           <$> node_reports method ag) ∧
  let '(app, op, plat) := category_power method cls ag in
  app + op + plat = sum_Z (pr_total_uw <$> all_pods_filtered method ag).
Proof.
  intros Hev Hnn Hnp. pose proof (server_bounded key evs Hev) as Hb.
  split; [by apply cluster_total_exact|by apply category_total_exact].
Qed.
End totals.

(** ** Witnesses *)

#[local] Existing Instance hash_iter_list.

Definition demo_report : AgentReport :=
  {| ar_node := demo_node "n1" EmptyString;
     ar_pods := [demo_pod "n1" "a" "shop" EmptyString sec 30; demo_pod "n1" "b" "dns" EmptyString sec 12] |}.
Definition demo_events : list ServerEvent :=
  [SReport sec sec sec (Some "Bearer k") demo_report; SReport (2 * sec) (2 * sec) (2 * sec) (Some "k") demo_report].
Definition demo_cls : ClassificationData :=
  {| co_namespaces := {["dns" := "dns"]}; operator_namespaces := ∅; app_defs := [] |}.

Lemma validated_totals_exact_witness :
  let ag := aggregator (run_server (Some "k") demo_events) in
  cl_total_attributed_uw (cluster_power None ag) = 80 ∧ category_power None demo_cls ag = (30, 0, 12) ∧
  cl_total_attributed_uw (cluster_power None ag) =
    sum_Z ((λ s, nr_cpu_uw (ns_report s) + nr_memory_uw (ns_report s) + nr_gpu_uw (ns_report s))
           <$> node_reports None ag).
Proof.
  cbn zeta. split; [vm_compute; reflexivity|]. split; [vm_compute; reflexivity|].
  apply (validated_totals_exact (Some "k") demo_events None demo_cls); vm_compute; try congruence.
  repeat constructor; congruence.
Defined.

(** [validate_report] bounds neither the platform power nor a pod's CPU field. *)
Example unbounded_fields_accepted :
  validate_report
    {| ar_node := {| nr_node_name := "n"; nr_cpu_uw := 0; nr_memory_uw := 0; nr_gpu_uw := 0;
         nr_platform_uw := Some u64_max; nr_psu_output_uw := None; nr_idle_uw := u64_max; nr_error_ratio := fzero;
         nr_pod_count := 0; nr_process_count := 0; nr_timestamp := 0; nr_cpu_source := "s"; nr_memory_source := "s";
         nr_cpu_reading_type := "t"; nr_sources := []; nr_metering_method := "keck" |}; ar_pods := [] |} = Ok tt.
Proof. by vm_compute. Qed.
