(* ===== verification/Kepler.v ===== *)
(** * Kepler: scraping another meter's metrics into the controller

    keck-controller/src/kepler_scraper.rs, down to the bytes of the scraped
    page.  What a URL answers is an argument; slicing a string out of range is a
    panic, the outer [None]. *)

From S2P Require Import Prelude F64 Text Aggregator.
From Stdlib Require Import Ascii.
From Equations Require Import Equations.

Open Scope Z_scope.

Record PodKey := {
  pk_pod_id : string;
  pk_pod_name : string;
  pk_pod_namespace : string;
  pk_node_name : string;
  pk_state : string
}.
#[global] Instance PodKey_eq_dec : EqDecision PodKey.
Proof. solve_decision. Defined.
#[global] Instance PodKey_countable : Countable PodKey.
Proof.
  refine (inj_countable' (λ k, (pk_pod_id k, pk_pod_name k, pk_pod_namespace k, pk_node_name k, pk_state k))
    (λ t, let '(i, n, ns, nd, s) := t in {| pk_pod_id := i; pk_pod_name := n; pk_pod_namespace := ns;
                                           pk_node_name := nd; pk_state := s |}) _).
  by intros [].
Defined.

Record PodAccum := { pa_cpu_watts : f64; pa_gpu_watts : f64 }.
Definition PodAccum_default : PodAccum := {| pa_cpu_watts := fzero; pa_gpu_watts := fzero |}.

(** ** Parsing *)

(** One turn of the loop of [parse_labels]: a key, its value and what remains;
    [None] is a [break]. *)
Definition next_label (remaining : string) : option (string * string * string) :=
  eq ← find_char "="%char remaining;
  let key := trim (trim_start_matches ","%char (trim (str_to eq remaining))) in
  match str_from (S eq) remaining with
  | String q remaining =>
      if Ascii.eqb q quote then
        end_quote ← find_char quote remaining;
        let value := str_to end_quote remaining in
        let remaining := str_from (S end_quote) remaining in
        Some (key, value, match remaining with String ","%char r => r | _ => remaining end)
      else None
  | EmptyString => None
  end.

Lemma next_label_shorter remaining k v rest :
  next_label remaining = Some (k, v, rest) → (String.length rest < String.length remaining)%nat.
Proof.
  unfold next_label. intros (eq & Heq & H)%bind_Some. apply find_char_Some in Heq as (a & b & -> & <- & _).
  rewrite str_from_S_app in H. destruct b as [|q b]; [done|]. destruct (Ascii.eqb q quote); [|done].
  apply bind_Some in H as (e & _ & H). pose proof (length_str_from (S e) b) as Hl.
  rewrite length_append. cbn [String.length].
  destruct (str_from (S e) b) as [|c r]; [simplify_eq/=; lia|].
  destruct c as [[] [] [] [] [] [] [] []]; simplify_eq/=; lia.
Qed.

Definition inspect {A} (a : A) : {b | a = b} := exist _ a eq_refl.
Equations? parse_labels_from (remaining : string) (result : gmap string string) : gmap string string
    by wf (String.length remaining) lt :=
  parse_labels_from remaining result with inspect (next_label remaining) => {
    | exist _ (Some (k, v, rest)) E := parse_labels_from rest (<[k := v]> result);
    | exist _ None _ := result }.
Proof. by eapply next_label_shorter. Qed.
Definition parse_labels (s : string) : gmap string string := parse_labels_from s ∅.

(** The text between the braces and the value after them. *)
Definition metric_parts (line : string) : option (option (string * f64)) :=
  match find_char "{"%char line with
  | None => Some None
  | Some brace_start =>
      match find_char "}"%char line with
      | None => Some None
      | Some brace_end =>
          labels_str ← str_slice (S brace_start) brace_end line;
          Some ((λ watts, (labels_str, watts)) <$> parse_f64 (trim (str_from (S brace_end) line)))
      end
  end.
Definition pod_key (labels : gmap string string) : option PodKey :=
  pod_id ← labels !! "pod_id";
  pod_name ← labels !! "pod_name";
  pod_namespace ← labels !! "pod_namespace";
  node_name ← labels !! "node_name";
  state ← labels !! "state";
  Some {| pk_pod_id := pod_id; pk_pod_name := pod_name; pk_pod_namespace := pod_namespace;
          pk_node_name := node_name; pk_state := state |}.
Definition parse_pod_metric (line : string) : option (option (PodKey * f64)) :=
  (λ parts, '(labels_str, watts) ← parts; key ← pod_key (parse_labels labels_str); Some (key, watts))
  <$> metric_parts line.
Definition parse_node_metric (line : string) : option (option (string * f64)) :=
  (λ parts, '(labels_str, watts) ← parts; node ← parse_labels labels_str !! "node_name"; Some (node, watts))
  <$> metric_parts line.

(** ** Accumulating a page *)

Record Scrape := {
  pod_data : gmap PodKey PodAccum;
  node_cpu_watts : gmap string f64;
  node_gpu_watts : gmap string f64;
  node_idle_watts : gmap string f64;
  node_platform_watts : gmap string f64
}.
Definition scrape_zero : Scrape :=
  {| pod_data := ∅; node_cpu_watts := ∅; node_gpu_watts := ∅; node_idle_watts := ∅; node_platform_watts := ∅ |}.

(** What a line is about, by its metric's name. *)
Inductive MetricKind := PodCpu | PodGpu | NodeCpu | NodeIdle | NodeGpu | PlatformWatts.
#[global] Instance MetricKind_eq_dec : EqDecision MetricKind.
Proof. solve_decision. Defined.

Definition add_watts (n : string) (w : f64) (m : gmap string f64) : gmap string f64 :=
  hm_upd n fzero (λ v, fadd v w) m.
Definition add_cpu (w : f64) (a : PodAccum) : PodAccum :=
  {| pa_cpu_watts := fadd (pa_cpu_watts a) w; pa_gpu_watts := pa_gpu_watts a |}.
Definition add_gpu_watts (w : f64) (a : PodAccum) : PodAccum :=
  {| pa_cpu_watts := pa_cpu_watts a; pa_gpu_watts := fadd (pa_gpu_watts a) w |}.

Definition accumulate_pod (f : PodAccum → PodAccum) (key : PodKey) (st : Scrape) : Scrape :=
  if String.eqb (pk_state key) "running" then
    {| pod_data := hm_upd key PodAccum_default f (pod_data st); node_cpu_watts := node_cpu_watts st;
       node_gpu_watts := node_gpu_watts st; node_idle_watts := node_idle_watts st;
       node_platform_watts := node_platform_watts st |}
  else st.
Definition accumulate_node (k : MetricKind) (n : string) (w : f64) (st : Scrape) : Scrape :=
  {| pod_data := pod_data st;
     node_cpu_watts := (if decide (k = NodeCpu) then add_watts n w else id) (node_cpu_watts st);
     node_gpu_watts := (if decide (k = NodeGpu) then add_watts n w else id) (node_gpu_watts st);
     node_idle_watts := (if decide (k = NodeIdle) then add_watts n w else id) (node_idle_watts st);
     node_platform_watts := (if decide (k = PlatformWatts) then add_watts n w else id) (node_platform_watts st) |}.

Definition on_pod (f : f64 → PodAccum → PodAccum) (st : Scrape) (line : string) : option Scrape :=
  (λ r, match r with Some (key, watts) => accumulate_pod (f watts) key st | None => st end) <$> parse_pod_metric line.
Definition on_node (k : MetricKind) (st : Scrape) (line : string) : option Scrape :=
  (λ r, match r with Some (node, watts) => accumulate_node k node watts st | None => st end) <$> parse_node_metric line.

(** The body of the loop over the lines of the page. *)
Definition scrape_line (st : Scrape) (line : string) : option Scrape :=
  if String.prefix "#" line || String.eqb line EmptyString then Some st
  else if String.prefix "kepler_pod_cpu_watts{" line then on_pod add_cpu st line
  else if String.prefix "kepler_pod_gpu_watts{" line then on_pod add_gpu_watts st line
  else if String.prefix "kepler_node_cpu_watts{" line then on_node NodeCpu st line
  else if String.prefix "kepler_node_cpu_idle_watts{" line then on_node NodeIdle st line
  else if String.prefix "kepler_node_gpu_watts{" line then on_node NodeGpu st line
  else if String.prefix "kepler_platform_watts{" line then on_node PlatformWatts st line
  else Some st.
Definition scrape_body (body : string) : option Scrape :=
  foldl (λ st line, st ≫= λ st, scrape_line st line) (Some scrape_zero) (str_lines body).

(** ** Reports *)

(** [(watts * 1_000_000.0) as u64] *)
Definition microwatts (w : f64) : Z := f_to_u64 (fmul w (f_of_Z 1000000)).

Definition kepler_pod (timestamp : Z) (key : PodKey) (accum : PodAccum) : PodPowerReport :=
  let cpu_uw := microwatts (pa_cpu_watts accum) in
  let gpu_uw := microwatts (pa_gpu_watts accum) in
  {| pr_node_name := pk_node_name key; pr_pod_uid := pk_pod_id key; pr_pod_name := pk_pod_name key;
     pr_namespace := pk_pod_namespace key; pr_cpu_uw := cpu_uw; pr_memory_uw := 0; pr_gpu_uw := gpu_uw;
     pr_storage_uw := 0; pr_io_uw := 0; pr_total_uw := u64_add cpu_uw gpu_uw; pr_timestamp := timestamp;
     pr_workload_uid := EmptyString; pr_workload_name := EmptyString; pr_workload_kind := EmptyString;
     pr_workload_category := EmptyString; pr_labels := ∅; pr_metering_method := "kepler" |}.

Definition watts_of (m : gmap string f64) (node_name : string) : f64 := default fzero (m !! node_name).
Definition kepler_error_ratio (platform_uw : option Z) (total_attributed : Z) : f64 :=
  match platform_uw with
  | Some p =>
      if 0 <? p then
        fdiv (f_of_Z (unsigned_abs (i64_wrap (i64_wrap p - i64_wrap total_attributed)))) (f_of_Z p)
      else fzero
  | None => fzero
  end.
Definition kepler_report (timestamp : Z) (st : Scrape) (node_name : string) (pods : list PodPowerReport) : AgentReport :=
  let cpu_uw := microwatts (watts_of (node_cpu_watts st) node_name) in
  let gpu_uw := microwatts (watts_of (node_gpu_watts st) node_name) in
  let idle_uw := microwatts (watts_of (node_idle_watts st) node_name) in
  let platform_uw := microwatts <$> node_platform_watts st !! node_name in
  {| ar_node := {| nr_node_name := node_name; nr_cpu_uw := cpu_uw; nr_memory_uw := 0; nr_gpu_uw := gpu_uw;
       nr_platform_uw := platform_uw; nr_psu_output_uw := None; nr_idle_uw := idle_uw;
       nr_error_ratio := kepler_error_ratio platform_uw (u64_add cpu_uw gpu_uw);
       nr_pod_count := u32_wrap (Z.of_nat (length pods)); nr_process_count := 0; nr_timestamp := timestamp;
       nr_cpu_source := if node_platform_watts st !! node_name then "kepler (RAPL + Redfish)" else "kepler (RAPL)";
       nr_memory_source := "kepler"; nr_cpu_reading_type := "estimated"; nr_sources := [];
       nr_metering_method := "kepler" |};
     ar_pods := pods |}.

(** The clock readings of one scrape: per pod, per node report, and the three
    of [ingest]. *)
Record ScrapeClock := {
  pod_time : PodKey → Z;
  node_time : string → Z;
  ingest_now : string → Z;
  ingest_evict : string → Z;
  ingest_system : string → Z
}.

Section scrape.
Context `{HI : HashIter}.

Definition pods_by_node (clk : ScrapeClock) (st : Scrape) : gmap string (list PodPowerReport) :=
  hm_group (λ ka : PodKey * PodAccum, pk_node_name ka.1) (λ _, [])
    (λ ka ps, ps ++ [kepler_pod (pod_time clk ka.1) ka.1 ka.2]) (hm_iter (pod_data st)).
Definition ingest_node (clk : ScrapeClock) (st : Scrape) (agg : ClusterAggregator) (np : string * list PodPowerReport)
    : ClusterAggregator :=
  ingest (ingest_now clk np.1) (ingest_evict clk np.1) (ingest_system clk np.1)
    (kepler_report (node_time clk np.1) st np.1 np.2) agg.
Definition ingest_scrape (clk : ScrapeClock) (st : Scrape) (agg : ClusterAggregator) : ClusterAggregator :=
  foldl (ingest_node clk st) agg (hm_iter (pods_by_node clk st)).

(** [scrape_and_ingest]: the pods counted and the new state, or the failed
    request; the outer [None] is a panic. *)
Definition scrape_and_ingest (fetch : string → option string) (clk : ScrapeClock) (url : string)
    (agg : ClusterAggregator) : option (result nat unit * ClusterAggregator) :=
  match fetch url with
  | None => Some (Err tt, agg)
  | Some body =>
      st ← scrape_body body;
      Some (Ok (size (pod_data st)), ingest_scrape clk st agg)
  end.

(** The Endpoints object: subsets with optional addresses. *)
Definition discover_kepler_pod_ips (eps : option (option (list (option (list string))))) : list string :=
  match eps with
  | Some subsets => default [] subsets ≫= default []
  | None => []
  end.
Definition kepler_url (ip : string) : string := String.append "http://" (String.append ip ":28282/metrics").

(** One turn of [run_kepler_scraper]'s loop: every endpoint in turn, a failed
    one skipped. *)
Definition kepler_round (fetch : string → option string) (clk : string → ScrapeClock)
    (eps : option (option (list (option (list string))))) (agg : ClusterAggregator) : option (nat * ClusterAggregator) :=
  foldl (λ acc ip,
      '(total, agg) ← acc;
      '(r, agg') ← scrape_and_ingest fetch (clk ip) (kepler_url ip) agg;
      Some (match r with Ok count => (total + count)%nat | Err _ => total end, agg'))
    (Some (0%nat, agg)) (discover_kepler_pod_ips eps).

(** One turn of [run_single_url_scraper]'s loop, the fallback without a
    Kubernetes client; [env] is KEPLER_METRICS_URL. *)
Definition single_url_round (fetch : string → option string) (clk : ScrapeClock) (env : option string)
    (agg : ClusterAggregator) : option ClusterAggregator :=
  snd <$> scrape_and_ingest fetch clk (default "http://kepler.kepler.svc:28282/metrics" env) agg.
(** A turn of [run_kepler_scraper]: nothing unless KEPLER_ENABLED is "true". *)
Definition run_kepler_turn (enabled : option string) (has_client : bool) (fetch : string → option string)
    (clk : string → ScrapeClock) (url_env : option string) (eps : option (option (list (option (list string)))))
    (agg : ClusterAggregator) : option ClusterAggregator :=
  if negb (String.eqb (default EmptyString enabled) "true") then Some agg
  else if has_client then snd <$> kepler_round fetch clk eps agg
  else single_url_round fetch (clk EmptyString) url_env agg.
End scrape.

Definition q (s : string) : string := String quote (String.append s (String quote EmptyString)).
Definition demo_line : string :=
  String.append "kepler_pod_cpu_watts{node_name=" (String.append (q "node-1") (String.append ",pod_id=" (String.append (q "abc-123")
    (String.append ",pod_name=" (String.append (q "web-1") (String.append ",pod_namespace=" (String.append (q "default")
    (String.append ",state=" (String.append (q "running") (String.append ",zone=" (String.append (q "package") "} 2.5"))))))))))).
Example parse_pod_metric_test : parse_pod_metric demo_line =
  Some (Some ({| pk_pod_id := "abc-123"; pk_pod_name := "web-1"; pk_pod_namespace := "default"; pk_node_name := "node-1";
                 pk_state := "running" |}, f_lit 5 2)).
Proof. vm_compute. reflexivity. Qed.

(** ** What the parser does to any page *)

Lemma parse_labels_from_eq s m : parse_labels_from s m =
  match next_label s with Some (k, v, rest) => parse_labels_from rest (<[k := v]> m) | None => m end.
Proof.
  simp parse_labels_from. destruct (inspect (next_label s)) as [[[[k v] rest]|] E];
    simp parse_labels_from; rewrite E; by simp parse_labels_from.
Qed.

Lemma metric_parts_safe name line : free_of "}"%char name = true → String.prefix (String.append name "{") line = true →
  is_Some (metric_parts line).
Proof.
  intros Hn [t ->]%prefix_Some. unfold metric_parts.
  destruct (find_char "{"%char _) as [a|] eqn:Ha; [|done]. destruct (find_char "}"%char _) as [b|] eqn:Hb; [|done].
  rewrite append_assoc in *. apply find_char_Some in Ha as (x & y & Hx & <- & Hfx).
  apply find_char_Some in Hb as (x' & y' & Hx' & <- & _).
  assert (String.length x <= String.length name)%nat as Hle.
  { clear -Hx Hfx. revert x Hx Hfx. induction name as [|c name IH]; intros [|d x] Hx Hfx; cbn; try lia.
    - rewrite append_nil, !append_cons, append_nil in Hx. injection Hx as <- _. done.
    - rewrite !append_cons in Hx. injection Hx as -> Hx. cbn in Hfx. apply andb_prop in Hfx as [_ Hfx].
      apply le_n_S. by eapply IH. }
  assert (S (String.length name) <= String.length x')%nat as Hle'.
  { clear -Hx' Hn. revert x' Hx' Hn. induction name as [|c name IH]; intros [|d x'] Hx' Hn; cbn; try lia.
    - rewrite !append_nil, ?append_cons in Hx'. done.
    - rewrite append_cons, append_nil in Hx'. injection Hx' as -> _. done.
    - rewrite !append_cons in Hx'. injection Hx' as -> Hx'. cbn in Hn. apply andb_prop in Hn as [_ Hn].
      apply le_n_S. by eapply IH. }
  unfold str_slice. rewrite Hx', length_append. cbn [String.length].
  destruct (Nat.leb_spec (S (String.length x)) (String.length x')); [|lia].
  destruct (Nat.leb_spec (String.length x') (String.length x' + S (String.length y'))); [|lia].
  cbn. eauto.
Qed.
Lemma scrape_line_safe st line : is_Some (scrape_line st line).
Proof.
  unfold scrape_line. destruct (_ || _); [by eexists|].
  repeat (match goal with |- context [if String.prefix ?p line then _ else _] =>
            let name := eval vm_compute in (str_to (pred (String.length p)) p) in
            destruct (String.prefix p line) eqn:Hp;
            [pose proof (metric_parts_safe name line eq_refl Hp) as Hsafe;
             unfold on_pod, on_node, parse_pod_metric, parse_node_metric; by rewrite !fmap_is_Some|clear Hp] end).
  by eexists.
Qed.

(** The scraper never panics: whatever bytes an endpoint serves, every slice
    it takes is in range and its label loop ends, so the page is always folded
    to some readings. *)
Theorem scrape_body_total body : is_Some (scrape_body body).
Proof.
  unfold scrape_body. apply (foldl_inv is_Some); [by eexists|].
  intros st line _ [s ->]. cbn. apply scrape_line_safe.
Qed.

(** ** Reading back a page

    A page in the exposition format, as data and as text: comments, blank lines,
    samples with labels and samples without, each with an optional timestamp. *)

Record Sample := {
  sa_name : string;
  sa_labels : list (string * string);
  sa_value : string;
  sa_timestamp : option string
}.
Inductive PageLine :=
| Comment (text : string)
| Blank
| Metric (s : Sample)
| Unlabelled (name value : string) (timestamp : option string).

Definition render_label (kv : string * string) : string :=
  String.append kv.1 (String "="%char (String quote (String.append kv.2 (String quote EmptyString)))).
Fixpoint render_labels (l : list (string * string)) : string :=
  match l with
  | [] => EmptyString
  | kv :: l' => String.append (render_label kv)
      (match l' with [] => EmptyString | _ => String ","%char (render_labels l') end)
  end.
Definition render_value (value : string) (timestamp : option string) : string :=
  match timestamp with Some t => String.append value (String " "%char t) | None => value end.
Definition render_sample (s : Sample) : string :=
  String.append (sa_name s) (String "{"%char (String.append (render_labels (sa_labels s))
    (String "}"%char (String " "%char (render_value (sa_value s) (sa_timestamp s)))))).
Definition render_line (l : PageLine) : string :=
  match l with
  | Comment text => String "#"%char text
  | Blank => EmptyString
  | Metric s => render_sample s
  | Unlabelled name value timestamp => String.append name (String " "%char (render_value value timestamp))
  end.
Definition unlines (ls : list string) : string := foldr (λ l acc, String.append l (String newline acc)) EmptyString ls.
Definition render_page (ls : list PageLine) : string := unlines (render_line <$> ls).

(** Metric and label names; label values the format prints as they are (no
    quote, backslash or line break) and without a closing brace; the text of a
    value and of a timestamp. *)
Definition name_char (c : ascii) : bool := is_ascii_alphanumeric c || Ascii.eqb c "_"%char || Ascii.eqb c ":"%char.
Definition value_char (c : ascii) : bool :=
  line_char c && negb (Ascii.eqb c quote) && negb (Ascii.eqb c "}"%char) && negb (Ascii.eqb c "\"%char).
Definition number_char (c : ascii) : bool := negb (is_whitespace c).
Definition number_wf (v : string) : bool := str_all number_char v && str_nonempty v.
Definition name_wf (n : string) : bool := str_all name_char n && str_nonempty n.
Definition timestamp_wf (t : option string) : bool := match t with Some t => number_wf t | None => true end.
Definition sample_wf (s : Sample) : bool :=
  name_wf (sa_name s) && forallb (λ kv, str_all name_char kv.1 && str_all value_char kv.2) (sa_labels s) &&
  number_wf (sa_value s) && timestamp_wf (sa_timestamp s).
Definition page_line_wf (l : PageLine) : bool :=
  match l with
  | Comment text => str_all line_char text
  | Blank => true
  | Metric s => sample_wf s
  | Unlabelled name value timestamp => name_wf name && number_wf value && timestamp_wf timestamp
  end.

(** What the page says, without its text. *)
Definition sample_labels (s : Sample) : gmap string string :=
  foldl (λ m kv, <[kv.1 := kv.2]> m) ∅ (sa_labels s).
Definition sample_kind (s : Sample) : option MetricKind :=
  let n := sa_name s in
  if String.eqb "kepler_pod_cpu_watts" n then Some PodCpu
  else if String.eqb "kepler_pod_gpu_watts" n then Some PodGpu
  else if String.eqb "kepler_node_cpu_watts" n then Some NodeCpu
  else if String.eqb "kepler_node_cpu_idle_watts" n then Some NodeIdle
  else if String.eqb "kepler_node_gpu_watts" n then Some NodeGpu
  else if String.eqb "kepler_platform_watts" n then Some PlatformWatts
  else None.
(** The number of a sample; one with a timestamp has none for the scraper. *)
Definition sample_number (s : Sample) : option f64 :=
  match sa_timestamp s with None => parse_f64 (sa_value s) | Some _ => None end.
Definition sample_pod (s : Sample) : option (PodKey * f64) :=
  w ← sample_number s; k ← pod_key (sample_labels s); Some (k, w).
Definition sample_node (s : Sample) : option (string * f64) :=
  w ← sample_number s; n ← sample_labels s !! "node_name"; Some (n, w).

(** The readings a page has of a running pod, and of a node. *)
Definition pod_reading (kd : MetricKind) (k : PodKey) (l : PageLine) : option f64 :=
  match l with
  | Metric s =>
      if decide (sample_kind s = Some kd) then
        '(k', w) ← sample_pod s;
        if decide (k' = k ∧ pk_state k = "running") then Some w else None
      else None
  | _ => None
  end.
Definition node_reading (kd : MetricKind) (n : string) (l : PageLine) : option f64 :=
  match l with
  | Metric s =>
      if decide (sample_kind s = Some kd) then
        '(n', w) ← sample_node s; if decide (n' = n) then Some w else None
      else None
  | _ => None
  end.
Definition sum_readings (l : list f64) : option f64 := match l with [] => None | _ => Some (fsum l) end.

(** *** The label list *)
Lemma trim_id s : str_all number_char s = true → trim s = s.
Proof.
  intros Hs. unfold trim. assert (trim_start s = s) as ->.
  { destruct s as [|c s]; [done|]. cbn in *. apply andb_prop in Hs as [Hc _]. unfold number_char in Hc.
    by destruct (is_whitespace c). }
  induction s as [|c s IH]; [done|]. cbn in *. apply andb_prop in Hs as [Hc Hs]. unfold number_char in Hc.
  rewrite IH by done. destruct s; [|done]. by destruct (is_whitespace c).
Qed.
Lemma name_char_number c : name_char c = true → number_char c = true.
Proof. by destruct c as [[] [] [] [] [] [] [] []]. Qed.
Lemma name_char_free d c : name_char d = false → name_char c = true → negb (Ascii.eqb c d) = true.
Proof. intros Hd Hc. destruct (Ascii.eqb_spec c d) as [->|]; [congruence|done]. Qed.
Lemma name_free d s : name_char d = false → str_all name_char s = true → free_of d s = true.
Proof. intros Hd. apply str_all_impl. intros c. by apply name_char_free. Qed.
Lemma value_free_quote s : str_all value_char s = true → free_of quote s = true.
Proof. apply str_all_impl. intros c. unfold value_char. by destruct (Ascii.eqb c quote), (line_char c). Qed.

Lemma next_label_render k v rest : str_all name_char k = true → str_all value_char v = true →
  next_label (String.append (render_label (k, v)) rest) =
    Some (k, v, match rest with String ","%char r => r | _ => rest end).
Proof.
  intros Hk Hv. unfold next_label, render_label. cbn [fst snd]. rewrite append_assoc, append_cons.
  rewrite find_char_app by (by apply name_free). cbn [mbind option_bind].
  rewrite str_to_app, str_from_S_app, append_cons.
  assert (trim k = k) as Htrim by (apply trim_id; by eapply str_all_impl, Hk; apply name_char_number).
  rewrite Htrim. assert (trim_start_matches ","%char k = k) as ->.
  { destruct k as [|c k]; [done|]. cbn in *. by destruct (Ascii.eqb_spec c ","%char) as [->|]. }
  rewrite Htrim, Ascii.eqb_refl, append_assoc, append_cons, append_nil.
  rewrite find_char_app by (by apply value_free_quote). cbn [mbind option_bind].
  by rewrite str_to_app, str_from_S_app.
Qed.
Lemma parse_labels_from_render l m :
  forallb (λ kv, str_all name_char kv.1 && str_all value_char kv.2) l = true →
  parse_labels_from (render_labels l) m = foldl (λ m kv, <[kv.1 := kv.2]> m) m l.
Proof.
  revert m. induction l as [|[k v] l IH]; intros m; cbn [forallb]; [by rewrite parse_labels_from_eq|].
  intros [[Hk Hv]%andb_prop Hl]%andb_prop. cbn [render_labels foldl fst snd].
  rewrite parse_labels_from_eq, next_label_render by done. rewrite <-(IH _ Hl). by destruct l.
Qed.

(** *** A line *)
Lemma render_labels_free d l : d ≠ "="%char → d ≠ quote → d ≠ ","%char → name_char d = false →
  (∀ c, value_char c = true → negb (Ascii.eqb c d) = true) →
  forallb (λ kv, str_all name_char kv.1 && str_all value_char kv.2) l = true → free_of d (render_labels l) = true.
Proof.
  intros H1 H2 H3 Hn Hv. induction l as [|[k v] l IH]; [done|]. cbn [forallb fst snd].
  intros [[Hk Hvv]%andb_prop Hl]%andb_prop. cbn [render_labels]. unfold render_label. cbn [fst snd].
  assert (∀ c, c ≠ d → negb (Ascii.eqb c d) = true) as Hne by (intros c ?%Ascii.eqb_neq; by apply negb_true_iff).
  rewrite !str_all_app. cbn [str_all]. rewrite !str_all_app. cbn [str_all].
  rewrite (name_free d k), (str_all_impl _ _ _ Hv Hvv), !Hne by congruence. cbn.
  destruct l; [done|]. cbn [str_all]. by rewrite Hne, IH by congruence.
Qed.
Lemma trim_end_id s : str_all number_char s = true → trim_end s = s.
Proof.
  induction s as [|c s IH]; [done|]. cbn. intros [Hc Hs]%andb_prop. unfold number_char in Hc.
  rewrite IH by done. destruct s; [|done]. by destruct (is_whitespace c).
Qed.
Lemma name_wf_elim n : name_wf n = true → str_all name_char n = true ∧ str_nonempty n = true.
Proof. apply andb_prop. Qed.
Lemma sample_wf_elim s : sample_wf s = true →
  name_wf (sa_name s) = true ∧
  forallb (λ kv, str_all name_char kv.1 && str_all value_char kv.2) (sa_labels s) = true ∧
  number_wf (sa_value s) = true ∧ timestamp_wf (sa_timestamp s) = true.
Proof. unfold sample_wf. by intros [[[]%andb_prop]%andb_prop]%andb_prop. Qed.

(** What is parsed as a value: the number alone, or nothing when a timestamp
    follows it. *)
Lemma parse_value v t : number_wf v = true → timestamp_wf t = true →
  parse_f64 (trim (String " "%char (render_value v t))) = match t with None => parse_f64 v | Some _ => None end.
Proof.
  intros [Hv Hne]%andb_prop Ht. change (trim (String " "%char ?x)) with (trim x).
  destruct t as [t|]; cbn [render_value]; [|by rewrite trim_id].
  apply andb_prop in Ht as [Htc Htn]. unfold trim.
  assert (trim_start (String.append v (String " "%char t)) = String.append v (String " "%char t)) as ->.
  { destruct v as [|c v]; [done|]. cbn in Hv. apply andb_prop in Hv as [Hc _]. rewrite append_cons. cbn.
    unfold number_char in Hc. by destruct (is_whitespace c). }
  change (String " "%char t) with (String.append " " t). rewrite <-append_assoc, trim_end_app, append_assoc;
    [|done|by apply trim_end_id].
  destruct (parse_f64 _) eqn:E; [|done]. apply parse_f64_no_space in E. rewrite str_all_app in E.
  by apply andb_prop in E as [_ E].
Qed.
Lemma metric_parts_render s : sample_wf s = true →
  metric_parts (render_sample s) = Some ((λ w, (render_labels (sa_labels s), w)) <$> sample_number s).
Proof.
  intros ([Hn _]%name_wf_elim & Hl & Hv & Ht)%sample_wf_elim. unfold metric_parts, render_sample, sample_number.
  rewrite find_char_app by (by apply name_free).
  set (pre := String.append (sa_name s) (String "{"%char (render_labels (sa_labels s)))).
  assert (∀ t, String.append (sa_name s) (String "{"%char (String.append (render_labels (sa_labels s)) t))
               = String.append pre t) as Hpre by (intros t; unfold pre; by rewrite append_assoc, append_cons).
  rewrite Hpre, find_char_app.
  - pose proof (str_slice_app (sa_name s) "{"%char (render_labels (sa_labels s))) as Hslice. fold pre in Hslice.
    rewrite Hslice. cbn [mbind option_bind].
    by rewrite str_from_S_app, parse_value.
  - unfold pre. rewrite str_all_app, name_free by done. cbn. apply render_labels_free; try done.
    intros c. unfold value_char. by destruct (Ascii.eqb c "}"%char), (Ascii.eqb c quote), (line_char c).
Qed.
Lemma parse_sample s : sample_wf s = true →
  parse_pod_metric (render_sample s) = Some (sample_pod s) ∧ parse_node_metric (render_sample s) = Some (sample_node s).
Proof.
  intros Hs. unfold parse_pod_metric, parse_node_metric, sample_pod, sample_node. rewrite metric_parts_render by done.
  cbn [fmap option_fmap option_map].
  assert (parse_labels (render_labels (sa_labels s)) = sample_labels s) as Hp.
  { apply parse_labels_from_render. by destruct (sample_wf_elim s Hs) as (_ & ? & _). }
  by destruct (sample_number s) as [w|]; cbn; rewrite ?Hp.
Qed.

(** One line of the page, on the data. *)
Definition apply_line (st : Scrape) (l : PageLine) : Scrape :=
  match l with
  | Metric s =>
      match sample_kind s with
      | Some PodCpu => match sample_pod s with Some (k, w) => accumulate_pod (add_cpu w) k st | None => st end
      | Some PodGpu => match sample_pod s with Some (k, w) => accumulate_pod (add_gpu_watts w) k st | None => st end
      | Some kd => match sample_node s with Some (n, w) => accumulate_node kd n w st | None => st end
      | None => st
      end
  | _ => st
  end.
Lemma prefix_sample p s : str_all name_char p = true → str_all name_char (sa_name s) = true →
  String.prefix (String.append p "{") (render_sample s) = String.eqb p (sa_name s).
Proof. intros Hp Hs. apply prefix_name; by apply name_free. Qed.
(** A sample without labels starts with no metric the scraper reads. *)
Lemma unlabelled_ignored st name v t : page_line_wf (Unlabelled name v t) = true →
  scrape_line st (render_line (Unlabelled name v t)) = Some st.
Proof.
  cbn [page_line_wf render_line]. intros [[[Hn Hne]%name_wf_elim _]%andb_prop _]%andb_prop.
  assert (∀ p, str_all name_char p = true →
    String.prefix (String.append p "{") (String.append name (String " "%char (render_value v t))) = false) as Hp.
  { intros p Hp. revert name Hn Hne. induction p as [|c p IH]; intros name Hn Hne.
    - rewrite append_nil. destruct name as [|d n]; [done|]. rewrite append_cons, prefix_cons.
      cbn in Hn. apply andb_prop in Hn as [Hd _]. by destruct (Ascii.eqb_spec "{"%char d) as [<-|].
    - cbn in Hp. apply andb_prop in Hp as [Hc Hp]. rewrite append_cons. destruct name as [|d n]; [done|].
      rewrite append_cons, prefix_cons. cbn in Hn. apply andb_prop in Hn as [Hd Hn].
      destruct (str_nonempty n) eqn:En; [rewrite (IH Hp n Hn En); apply andb_false_r|].
      destruct n as [|? ?]; [|done]. rewrite append_nil. destruct p as [|e p]; [apply andb_false_r|].
      rewrite append_cons, prefix_cons. cbn in Hp. apply andb_prop in Hp as [He _].
      destruct (Ascii.eqb_spec e " "%char) as [->|]; [done|apply andb_false_r]. }
  unfold scrape_line.
  pose proof (Hp "kepler_pod_cpu_watts" eq_refl : String.prefix "kepler_pod_cpu_watts{" _ = _) as ->.
  pose proof (Hp "kepler_pod_gpu_watts" eq_refl : String.prefix "kepler_pod_gpu_watts{" _ = _) as ->.
  pose proof (Hp "kepler_node_cpu_watts" eq_refl : String.prefix "kepler_node_cpu_watts{" _ = _) as ->.
  pose proof (Hp "kepler_node_cpu_idle_watts" eq_refl : String.prefix "kepler_node_cpu_idle_watts{" _ = _) as ->.
  pose proof (Hp "kepler_node_gpu_watts" eq_refl : String.prefix "kepler_node_gpu_watts{" _ = _) as ->.
  pose proof (Hp "kepler_platform_watts" eq_refl : String.prefix "kepler_platform_watts{" _ = _) as ->.
  by destruct (_ || _).
Qed.
Lemma scrape_line_render st l : page_line_wf l = true → scrape_line st (render_line l) = Some (apply_line st l).
Proof.
  destruct l as [text| |s|n v t]; [by destruct text|done| |by apply unlabelled_ignored].
  cbn [page_line_wf render_line apply_line]. intros Hs.
  destruct (parse_sample s Hs) as [Hpod Hnode]. destruct (sample_wf_elim s Hs) as ([Hn Hne]%name_wf_elim & _).
  unfold scrape_line. assert (String.prefix "#" (render_sample s) || String.eqb (render_sample s) EmptyString = false) as ->.
  { unfold render_sample. destruct (sa_name s) as [|c n]; [done|]. rewrite append_cons. cbn in Hn.
    apply andb_prop in Hn as [Hc _]. rewrite prefix_cons. by destruct (Ascii.eqb_spec "#"%char c) as [<-|]. }
  unfold sample_kind.
  pose proof (prefix_sample "kepler_pod_cpu_watts" s eq_refl Hn : String.prefix "kepler_pod_cpu_watts{" _ = _) as ->.
  pose proof (prefix_sample "kepler_pod_gpu_watts" s eq_refl Hn : String.prefix "kepler_pod_gpu_watts{" _ = _) as ->.
  pose proof (prefix_sample "kepler_node_cpu_watts" s eq_refl Hn : String.prefix "kepler_node_cpu_watts{" _ = _) as ->.
  pose proof (prefix_sample "kepler_node_cpu_idle_watts" s eq_refl Hn : String.prefix "kepler_node_cpu_idle_watts{" _ = _) as ->.
  pose proof (prefix_sample "kepler_node_gpu_watts" s eq_refl Hn : String.prefix "kepler_node_gpu_watts{" _ = _) as ->.
  pose proof (prefix_sample "kepler_platform_watts" s eq_refl Hn : String.prefix "kepler_platform_watts{" _ = _) as ->.
  unfold on_pod, on_node. rewrite Hpod, Hnode. cbn zeta.
  clear Hpod Hnode. generalize (sample_pod s) (sample_node s). intros sp sn.
  repeat match goal with |- context [String.eqb ?a (sa_name s)] =>
    generalize (String.eqb a (sa_name s)); intros []; [reflexivity|] end. reflexivity.
Qed.

(** *** The page *)
Lemma str_lines_unlines ls : Forall (λ l, str_all line_char l = true) ls → str_lines (unlines ls) = ls.
Proof.
  intros Hls. unfold str_lines. assert (str_split newline (unlines ls) = ls ++ [EmptyString]) as ->.
  { induction Hls as [|l ls Hl Hls IH]; [done|].
    change (unlines (l :: ls)) with (String.append l (String newline (unlines ls))).
    rewrite str_split_app, str_split_none, IH; [done|].
    eapply str_all_impl; [|exact Hl]. intros c. unfold line_char. by destruct (Ascii.eqb c newline). }
  rewrite last_snoc, removelast_last, app_nil_r. induction Hls as [|l ls Hl Hls IH]; [done|]. rewrite fmap_cons, IH. f_equal.
  unfold strip_cr. rewrite strip_suffix_none; [done|]. eapply str_all_impl; [|exact Hl]. intros c.
  unfold line_char. by destruct (Ascii.eqb c newline), (Ascii.eqb c carriage_return).
Qed.
Lemma name_line n : name_wf n = true → str_all line_char n = true.
Proof. intros [Hn _]%name_wf_elim. eapply str_all_impl; [|exact Hn]. by intros [[] [] [] [] [] [] [] []]. Qed.
Lemma number_line v : number_wf v = true → str_all line_char v = true.
Proof. intros [Hv _]%andb_prop. eapply str_all_impl; [|exact Hv]. by intros [[] [] [] [] [] [] [] []]. Qed.
Lemma value_line v t : number_wf v = true → timestamp_wf t = true → str_all line_char (render_value v t) = true.
Proof.
  intros Hv Ht. destruct t as [t|]; cbn; [|by apply number_line]. rewrite str_all_app. cbn [str_all].
  by rewrite !number_line.
Qed.
Lemma labels_line l : forallb (λ kv, str_all name_char kv.1 && str_all value_char kv.2) l = true →
  str_all line_char (render_labels l) = true.
Proof.
  assert (∀ c, name_char c = true → line_char c = true) as H1 by (by intros [[] [] [] [] [] [] [] []]).
  assert (∀ c, value_char c = true → line_char c = true) as H3
    by (intros c; unfold value_char; by destruct (line_char c)).
  induction l as [|[k v] l IH]; [done|]. cbn [forallb fst snd]. intros [[Hk Hvv]%andb_prop Hl]%andb_prop.
  cbn [render_labels]. unfold render_label. cbn [fst snd].
  rewrite !str_all_app. cbn [str_all]. rewrite !str_all_app. cbn [str_all].
  rewrite (str_all_impl _ _ _ H1 Hk), (str_all_impl _ _ _ H3 Hvv). cbn. destruct l; [done|]. cbn [str_all].
  by rewrite IH.
Qed.
Lemma render_line_chars l : page_line_wf l = true → str_all line_char (render_line l) = true.
Proof.
  destruct l as [text| |s|n v t]; [done..| |]; cbn [page_line_wf render_line].
  - intros (Hn & Hl & Hv & Ht)%sample_wf_elim. unfold render_sample. rewrite str_all_app, name_line by done.
    cbn [str_all]. rewrite str_all_app, labels_line by done. cbn [str_all]. by rewrite value_line.
  - intros [[Hn Hv]%andb_prop Ht]%andb_prop. rewrite str_all_app, name_line by done. cbn [str_all]. by rewrite value_line.
Qed.
Lemma scrape_body_render ls : Forall (λ l, page_line_wf l = true) ls →
  scrape_body (render_page ls) = Some (foldl apply_line scrape_zero ls).
Proof.
  intros Hls. unfold scrape_body, render_page. rewrite str_lines_unlines.
  - generalize scrape_zero as st. induction Hls as [|l ls Hl Hls IH]; intros st; [done|]. cbn.
    by rewrite scrape_line_render, IH.
  - apply Forall_fmap. eapply Forall_impl; [exact Hls|]. intros l. apply render_line_chars.
Qed.

(** *** The sums *)
Definition accum_of (cpu gpu : list f64) : option PodAccum :=
  match cpu, gpu with
  | [], [] => None
  | _, _ => Some {| pa_cpu_watts := fsum cpu; pa_gpu_watts := fsum gpu |}
  end.
Lemma fsum_snoc (l : list f64) x : fsum (l ++ [x]) = fadd (fsum l) x.
Proof. unfold fsum. by rewrite foldl_app. Qed.
Lemma sum_readings_snoc l w : sum_readings (l ++ [w]) = Some (fadd (default fzero (sum_readings l)) w).
Proof. rewrite <-fsum_snoc || idtac. unfold sum_readings. destruct l; [done|]. cbn [app]. by rewrite app_comm_cons, fsum_snoc. Qed.
Lemma accum_of_cpu c g w : accum_of (c ++ [w]) g = Some (add_cpu w (default PodAccum_default (accum_of c g))).
Proof.
  assert (∀ x, accum_of (c ++ [w]) g = Some x ↔ x = {| pa_cpu_watts := fsum (c ++ [w]); pa_gpu_watts := fsum g |}) as H
    by (intros x; destruct c; cbn; naive_solver).
  apply H. rewrite fsum_snoc. by destruct c, g.
Qed.
Lemma accum_of_gpu c g w : accum_of c (g ++ [w]) = Some (add_gpu_watts w (default PodAccum_default (accum_of c g))).
Proof.
  assert (∀ x, accum_of c (g ++ [w]) = Some x ↔ x = {| pa_cpu_watts := fsum c; pa_gpu_watts := fsum (g ++ [w]) |}) as H
    by (intros x; destruct c, g; cbn; naive_solver).
  apply H. rewrite fsum_snoc. by destruct c, g.
Qed.

Record scrape_says (ls : list PageLine) (st : Scrape) : Prop := {
  says_pod k : pod_data st !! k = accum_of (omap (pod_reading PodCpu k) ls) (omap (pod_reading PodGpu k) ls);
  says_cpu n : node_cpu_watts st !! n = sum_readings (omap (node_reading NodeCpu n) ls);
  says_gpu n : node_gpu_watts st !! n = sum_readings (omap (node_reading NodeGpu n) ls);
  says_idle n : node_idle_watts st !! n = sum_readings (omap (node_reading NodeIdle n) ls);
  says_platform n : node_platform_watts st !! n = sum_readings (omap (node_reading PlatformWatts n) ls)
}.

Lemma omap_snoc {A B} (f : A → option B) l x :
  omap f (l ++ [x]) = omap f l ++ match f x with Some y => [y] | None => [] end.
Proof. rewrite omap_app. cbn. by destruct (f x). Qed.

(** One line, on one pod and on one node. *)
Lemma apply_line_pod st l k : pod_data (apply_line st l) !! k =
  match pod_reading PodCpu k l, pod_reading PodGpu k l with
  | Some w, _ => Some (add_cpu w (default PodAccum_default (pod_data st !! k)))
  | None, Some w => Some (add_gpu_watts w (default PodAccum_default (pod_data st !! k)))
  | None, None => pod_data st !! k
  end.
Proof.
  destruct l as [text| |s|]; [done..| |done]. cbn [apply_line pod_reading].
  destruct (sample_kind s) as [[]|]; try done;
    repeat first [rewrite decide_True by done|rewrite decide_False by done];
    try (by destruct (sample_node s) as [[]|]).
  all: destruct (sample_pod s) as [[k' w]|]; [|done]; cbn; unfold accumulate_pod.
  all: destruct (String.eqb_spec (pk_state k') "running") as [Hr|Hr]; [|rewrite decide_False by (by intros [-> ?]); done].
  all: cbn; unfold hm_upd; destruct (decide (k' = k)) as [->|Hne];
    [by rewrite lookup_insert_eq, decide_True|by rewrite lookup_insert_ne, decide_False by (done || by intros [? _])].
Qed.
Definition node_map (kd : MetricKind) (st : Scrape) : gmap string f64 :=
  match kd with
  | NodeCpu => node_cpu_watts st
  | NodeGpu => node_gpu_watts st
  | NodeIdle => node_idle_watts st
  | PlatformWatts => node_platform_watts st
  | _ => ∅
  end.
Definition node_kind (kd : MetricKind) : Prop := kd ≠ PodCpu ∧ kd ≠ PodGpu.
Lemma accumulate_node_map kd kd' n w st : node_kind kd →
  node_map kd (accumulate_node kd' n w st) = if decide (kd' = kd) then add_watts n w (node_map kd st) else node_map kd st.
Proof. intros [??]. by destruct kd, kd'. Qed.
Lemma apply_line_node kd st l n : node_kind kd → node_map kd (apply_line st l) !! n =
  match node_reading kd n l with
  | Some w => Some (fadd (default fzero (node_map kd st !! n)) w)
  | None => node_map kd st !! n
  end.
Proof.
  intros Hkd. destruct l as [text| |s|]; [done..| |done]. cbn [apply_line node_reading].
  destruct (sample_kind s) as [kd'|]; [|by rewrite decide_False].
  assert (kd' = PodCpu ∨ kd' = PodGpu ∨ (node_kind kd' ∧ ∀ a b c : Scrape,
    match kd' with PodCpu => a | PodGpu => b | _ => c end = c)) as [->|[->|[Hkd' Hm]]]
    by (unfold node_kind; destruct kd'; naive_solver).
  1,2: rewrite decide_False by (unfold node_kind in *; naive_solver);
       destruct (sample_pod s) as [[k w]|]; [|done]; unfold accumulate_pod; by destruct (String.eqb _ _), kd.
  transitivity (node_map kd (match sample_node s with Some (n', w) => accumulate_node kd' n' w st | None => st end) !! n).
  { destruct Hkd'. by destruct kd'. }
  destruct (sample_node s) as [[n' w]|]; cbn; [|by case_decide]. rewrite accumulate_node_map by done.
  destruct (decide (kd' = kd)) as [->|Hne]; [|by rewrite decide_False by congruence]. rewrite decide_True by done.
  unfold add_watts, hm_upd. case_decide; [subst; by rewrite lookup_insert_eq|by rewrite lookup_insert_ne].
Qed.

Lemma apply_lines_pod ls k : pod_data (foldl apply_line scrape_zero ls) !! k =
  accum_of (omap (pod_reading PodCpu k) ls) (omap (pod_reading PodGpu k) ls).
Proof.
  induction ls as [|l ls IH] using rev_ind; [done|]. rewrite foldl_app, !omap_snoc. cbn [foldl].
  rewrite apply_line_pod, IH. assert (pod_reading PodCpu k l = None ∨ pod_reading PodGpu k l = None) as [H|H].
  { destruct l as [| |s|]; [by left..| |by left]. cbn. destruct (sample_kind s) as [[]|]; (by left) || (by right). }
  - rewrite H, app_nil_r. destruct (pod_reading PodGpu k l); [by rewrite accum_of_gpu|by rewrite app_nil_r].
  - rewrite H, app_nil_r. destruct (pod_reading PodCpu k l); [by rewrite accum_of_cpu|by rewrite app_nil_r].
Qed.
Lemma apply_lines_node kd ls n : node_kind kd →
  node_map kd (foldl apply_line scrape_zero ls) !! n = sum_readings (omap (node_reading kd n) ls).
Proof.
  intros Hkd. induction ls as [|l ls IH] using rev_ind; [by destruct kd|]. rewrite foldl_app, omap_snoc. cbn [foldl].
  rewrite apply_line_node, IH by done.
  destruct (node_reading kd n l); [by rewrite sum_readings_snoc|by rewrite app_nil_r].
Qed.

(** C13: a scraped page says what was put on it.  For any page of the exposition
    format in its canonical layout (comments, blank lines, samples of any
    metrics with labels or without, with a timestamp or without) whose label
    values have no quote, backslash, closing brace or line break, the scraper's
    tables hold for every running pod the sum of its CPU samples and of its GPU
    samples, in the order of the page, and for every node the sums of its CPU,
    GPU, idle and platform samples; samples without labels or with a timestamp
    count for nothing, and whatever the page does not mention is absent. *)
Theorem scrape_page_exact ls : Forall (λ l, page_line_wf l = true) ls →
  ∃ st, scrape_body (render_page ls) = Some st ∧ scrape_says ls st.
Proof.
  intros Hls. exists (foldl apply_line scrape_zero ls). split; [by apply scrape_body_render|].
  split; [apply apply_lines_pod|..]; intros n.
  - by apply (apply_lines_node NodeCpu).
  - by apply (apply_lines_node NodeGpu).
  - by apply (apply_lines_node NodeIdle).
  - by apply (apply_lines_node PlatformWatts).
Qed.

(** ** Into the aggregator *)

Lemma kepler_method ts st n ps : report_method (ar_node (kepler_report ts st n ps)) = "kepler".
Proof. done. Qed.
Lemma kepler_pod_method ts k a : with_method "kepler" (kepler_pod ts k a) = kepler_pod ts k a.
Proof. done. Qed.
Lemma ingest_node_threshold clk st agg np : staleness_threshold (ingest_node clk st agg np) = staleness_threshold agg.
Proof. unfold ingest_node. by destruct (ingest_fields (ingest_now clk np.1) (ingest_evict clk np.1)
  (ingest_system clk np.1) (kepler_report (node_time clk np.1) st np.1 np.2) agg) as (_ & _ & _ & -> & _). Qed.
Lemma fold_ingest_threshold clk st agg l :
  staleness_threshold (foldl (ingest_node clk st) agg l) = staleness_threshold agg.
Proof. revert agg. induction l as [|np l IH]; intros agg; [done|]. cbn. by rewrite IH, ingest_node_threshold. Qed.

(** The scrape's clock advances by less than the staleness threshold. *)
Definition clock_ok (clk : ScrapeClock) (agg : ClusterAggregator) : Prop :=
  ∀ n n', ingest_now clk n <= ingest_evict clk n ∧ ingest_evict clk n < ingest_now clk n' + staleness_threshold agg.
(** A pod's id names one pod. *)
Definition ids_unique (st : Scrape) : Prop :=
  ∀ k k', is_Some (pod_data st !! k) → is_Some (pod_data st !! k') → pk_pod_id k = pk_pod_id k' → k = k'.

Section ingest_fold.
Variables (clk : ScrapeClock) (st : Scrape) (agg : ClusterAggregator).
Hypothesis Hclk : clock_ok clk agg.

(** The nodes of a scrape: each once, with its own pods, no uid twice. *)
Definition node_list_ok (l : list (string * list PodPowerReport)) : Prop :=
  NoDup l.*1 ∧
  (∀ n ps p, (n, ps) ∈ l → p ∈ ps → pr_node_name p = n ∧ with_method "kepler" p = p) ∧
  (∀ n ps p n' ps' p', (n, ps) ∈ l → p ∈ ps → (n', ps') ∈ l → p' ∈ ps' → pr_pod_uid p = pr_pod_uid p' → p = p').

Lemma node_list_ok_snoc l np : node_list_ok (l ++ [np]) → node_list_ok l ∧ np.1 ∉ l.*1.
Proof.
  unfold node_list_ok. rewrite fmap_app, NoDup_app. intros ((Hl & Hn & _) & Hp & Hu). split.
  - split; [done|]. split; intros; [eapply Hp|eapply Hu]; eauto using elem_of_app; apply elem_of_app; eauto.
  - intros Hin. apply (Hn _ Hin). left.
Qed.

Lemma fold_ingest_lookup l uid m : node_list_ok l →
  let agg' := foldl (ingest_node clk st) agg l in
  (∀ n ps p, (n, ps) ∈ l → p ∈ ps →
     pods agg' !! (pr_pod_uid p, "kepler") = Some {| ps_report := p; ps_received_at := ingest_now clk n |}) ∧
  (∀ n ps, (n, ps) ∈ l → nodes agg' !! (n, "kepler") =
     Some {| ns_report := ar_node (kepler_report (node_time clk n) st n ps); ns_received_at := ingest_now clk n |}) ∧
  (∀ s, pods agg' !! (uid, "kepler") = Some s → pr_node_name (ps_report s) ∈ l.*1 →
     ∃ n ps p, (n, ps) ∈ l ∧ p ∈ ps ∧ pr_pod_uid p = uid) ∧
  (m ≠ "kepler" → ∀ s, (∀ n, ingest_evict clk n - staleness_threshold agg < ps_received_at s) →
     pods agg' !! (uid, m) = Some s ↔ pods agg !! (uid, m) = Some s) ∧
  (m ≠ "kepler" → ∀ s, (∀ n, ingest_evict clk n - staleness_threshold agg < ns_received_at s) →
     nodes agg' !! (uid, m) = Some s ↔ nodes agg !! (uid, m) = Some s).
Proof.
  cbn zeta. induction l as [|[n' ps'] l IH] using rev_ind; intros Hok.
  { split; [by intros ??? ?%not_elem_of_nil|]. split; [by intros ?? ?%not_elem_of_nil|].
    split; [by intros ? _ ?%not_elem_of_nil|]. by split. }
  destruct (node_list_ok_snoc _ _ Hok) as [Hok' Hn']. cbn in Hn'. destruct (IH Hok') as (IH1 & IH2 & IH3 & IH4 & IH5).
  destruct Hok as (_ & Hp & Hu). rewrite foldl_app. cbn [foldl].
  set (agg1 := foldl (ingest_node clk st) agg l) in *. unfold ingest_node. cbn [fst snd].
  assert (staleness_threshold agg1 = staleness_threshold agg) as Hthr by apply fold_ingest_threshold.
  assert (ingest_now clk n' <= ingest_evict clk n' < ingest_now clk n' + staleness_threshold agg1) as Ht
    by (rewrite Hthr; apply Hclk).
  split; [|split; [|split; [|split]]].
  - intros n ps p Hin Hps. rewrite ingest_pods_lookup, kepler_method, decide_True by done. cbn [ar_pods kepler_report].
    destruct (last_report (pr_pod_uid p) ps') as [q|] eqn:Hq.
    + apply last_report_Some in Hq as [Hqu Hqp].
      assert (q = p) as -> by (eapply Hu; [apply elem_of_app; right; by apply list_elem_of_singleton|done..|done]).
      destruct (Hp n ps p Hin Hps) as [<- ->].
      destruct (Hp n' ps' p) as [-> _]; [apply elem_of_app; right; by apply list_elem_of_singleton|done|done].
    + apply elem_of_app in Hin as [Hin|[= -> ->]%list_elem_of_singleton].
      * rewrite (IH1 n ps p Hin Hps), decide_False; [done|]. cbn.
        destruct (Hp n ps p) as [-> _]; [apply elem_of_app; by left|done|].
        intros [[_ ->]|Hst]; [apply Hn'; apply list_elem_of_fmap; by exists (n', ps)|].
        rewrite Hthr in Hst. destruct (Hclk n' n). lia.
      * apply last_report_None in Hq. destruct Hq. apply list_elem_of_fmap. eauto.
  - intros n ps Hin. rewrite ingest_nodes_lookup, kepler_method by done. cbn [ar_node kepler_report nr_node_name].
    apply elem_of_app in Hin as [Hin|[= -> ->]%list_elem_of_singleton]; [|by rewrite decide_True].
    rewrite decide_False by (intros [= ->]; apply Hn', list_elem_of_fmap; by exists (n', ps)).
    rewrite (IH2 n ps Hin). rewrite decide_False; [done|]. cbn. rewrite Hthr. destruct (Hclk n' n). lia.
  - intros s. rewrite ingest_pods_lookup, kepler_method, decide_True by done. cbn [ar_pods kepler_report].
    destruct (last_report uid ps') as [q|] eqn:Hq.
    + intros _ _. apply last_report_Some in Hq as [Hqu Hqp]. exists n', ps', q. split; [|done].
      apply elem_of_app. right. by apply list_elem_of_singleton.
    + destruct (pods agg1 !! (uid, "kepler")) as [s'|] eqn:Hs; [|done]. case_decide as Hd; [done|]. intros [= <-].
      rewrite fmap_app, elem_of_app. intros [Hin|Heq%list_elem_of_singleton]; [|by destruct Hd; left].
      destruct (IH3 s' eq_refl Hin) as (n & ps & p & Hl & ?). exists n, ps, p. split; [|done]. apply elem_of_app. by left.
  - intros Hm s Hfresh. rewrite ingest_pods_lookup, kepler_method, decide_False by done. cbn [ar_node kepler_report nr_node_name].
    rewrite <-(IH4 Hm s Hfresh), Hthr. destruct (pods agg1 !! (uid, m)) as [s'|]; [|done].
    case_decide as Hd; [|done]. split; [done|]. intros [= ->]. destruct Hd as [[? _]|Hd]; [done|].
    specialize (Hfresh n'). lia.
  - intros Hm s Hfresh. rewrite ingest_nodes_lookup, kepler_method by done. cbn [ar_node kepler_report nr_node_name].
    rewrite decide_False by congruence. rewrite <-(IH5 Hm s Hfresh), Hthr.
    destruct (nodes agg1 !! (uid, m)) as [s'|]; [|done]. case_decide as Hd; [|done]. split; [done|]. intros [= ->].
    specialize (Hfresh n'). lia.
Qed.
End ingest_fold.

Section ingest_theorem.
Context `{HI : HashIter}.

Lemma foldl_snoc_map {A B} (f : A → B) (l : list A) acc : foldl (λ ps x, ps ++ [f x]) acc l = acc ++ (f <$> l).
Proof.
  revert acc. induction l as [|x l IH]; intros acc; cbn; [by rewrite app_nil_r|]. by rewrite IH, <-app_assoc.
Qed.
Lemma pods_by_node_elem clk st n ps p : (n, ps) ∈ hm_iter (pods_by_node clk st) → p ∈ ps →
  ∃ k a, pod_data st !! k = Some a ∧ pk_node_name k = n ∧ p = kepler_pod (pod_time clk k) k a.
Proof.
  intros (x & xs & Hg & ->)%hm_group_elem. rewrite <-Hg, foldl_snoc_map, app_nil_l.
  intros ([k a] & -> & [Hk Hin]%list_elem_of_filter)%list_elem_of_fmap. exists k, a. cbn in *.
  by apply hm_iter_elem in Hin.
Qed.
Lemma pods_by_node_has clk st k a : pod_data st !! k = Some a →
  ∃ ps, (pk_node_name k, ps) ∈ hm_iter (pods_by_node clk st) ∧ kepler_pod (pod_time clk k) k a ∈ ps.
Proof.
  intros Hk. assert ((k, a) ∈ group_of (λ ka : PodKey * PodAccum, pk_node_name ka.1) (pk_node_name k) (hm_iter (pod_data st)))
    as Hin by (apply list_elem_of_filter; split; [done|by apply hm_iter_elem]).
  destruct (pods_by_node clk st !! pk_node_name k) as [ps|] eqn:Hps.
  - exists ps. split; [by apply hm_iter_elem|]. unfold pods_by_node in Hps. rewrite hm_group_lookup in Hps.
    destruct (group_of _ _ _) as [|x xs]; [done|]. injection Hps as <-.
    change (kepler_pod (pod_time clk k) k a ∈ foldl (λ ps (ka : PodKey * PodAccum),
      ps ++ [kepler_pod (pod_time clk ka.1) ka.1 ka.2]) [] (x :: xs)).
    rewrite foldl_snoc_map. apply list_elem_of_fmap. by exists (k, a).
  - unfold pods_by_node in Hps. rewrite hm_group_lookup in Hps. destruct (group_of _ _ _) as [|x xs]; [|done].
    by apply not_elem_of_nil in Hin.
Qed.
Lemma pods_by_node_ok clk st : ids_unique st → node_list_ok (hm_iter (pods_by_node clk st)).
Proof.
  intros Hu. split; [apply hm_keys_NoDup|]. split.
  - intros n ps p Hn Hp. destruct (pods_by_node_elem clk st n ps p Hn Hp) as (k & a & Hk & <- & ->). done.
  - intros n ps p n' ps' p' Hn Hp Hn' Hp'.
    destruct (pods_by_node_elem clk st n ps p Hn Hp) as (k & a & Hk & <- & ->).
    destruct (pods_by_node_elem clk st n' ps' p' Hn' Hp') as (k' & a' & Hk' & <- & ->). cbn. intros Heq.
    assert (k = k') as -> by (apply Hu; eauto). rewrite Hk in Hk'. by injection Hk' as ->.
Qed.

Lemma pods_by_node_length clk st n ps : (n, ps) ∈ hm_iter (pods_by_node clk st) →
  length ps = length (filter (λ ka : PodKey * PodAccum, pk_node_name ka.1 = n) (map_to_list (pod_data st))).
Proof.
  intros (x & xs & Hg & ->)%hm_group_elem. rewrite <-Hg, foldl_snoc_map, app_nil_l, length_fmap.
  unfold group_of. by rewrite hm_iter_perm.
Qed.

(** The entry of a pod with the readings [a], and that of a node, read off the
    page: what the controller is to know. *)
Record pod_known (clk : ScrapeClock) (k : PodKey) (a : PodAccum) (s : PodState) : Prop := {
  kp_identity : (pr_pod_uid (ps_report s), pr_pod_name (ps_report s), pr_namespace (ps_report s),
    pr_node_name (ps_report s)) = (pk_pod_id k, pk_pod_name k, pk_pod_namespace k, pk_node_name k);
  kp_cpu : pr_cpu_uw (ps_report s) = microwatts (pa_cpu_watts a);
  kp_gpu : pr_gpu_uw (ps_report s) = microwatts (pa_gpu_watts a);
  kp_others : pr_memory_uw (ps_report s) = 0 ∧ pr_storage_uw (ps_report s) = 0 ∧ pr_io_uw (ps_report s) = 0;
  kp_total : pr_total_uw (ps_report s) = u64_wrap (microwatts (pa_cpu_watts a) + microwatts (pa_gpu_watts a));
  kp_method : pr_metering_method (ps_report s) = "kepler";
  kp_received : ps_received_at s = ingest_now clk (pk_node_name k)
}.
Record node_known (clk : ScrapeClock) (st : Scrape) (n : string) (s : NodeState) : Prop := {
  kn_name : nr_node_name (ns_report s) = n;
  kn_cpu : nr_cpu_uw (ns_report s) = microwatts (default fzero (node_cpu_watts st !! n));
  kn_gpu : nr_gpu_uw (ns_report s) = microwatts (default fzero (node_gpu_watts st !! n));
  kn_idle : nr_idle_uw (ns_report s) = microwatts (default fzero (node_idle_watts st !! n));
  kn_platform : nr_platform_uw (ns_report s) = microwatts <$> node_platform_watts st !! n;
  kn_pods : nr_pod_count (ns_report s) =
    u32_wrap (Z.of_nat (length (filter (λ ka : PodKey * PodAccum, pk_node_name ka.1 = n) (map_to_list (pod_data st)))));
  kn_method : nr_metering_method (ns_report s) = "kepler";
  kn_received : ns_received_at s = ingest_now clk n
}.

(** C12: what Kepler measured is what the controller then knows of it.  Provided
    no two running pods of the page share an id and the whole scrape is ingested
    within the staleness threshold: every running pod on the page has its entry
    in Kepler's slot, with its identity, the powers accumulated for it and their
    sum as its total; every node with such a pod has its entry there, with the
    node's powers on the page and the number of its pods; Kepler's pods of those
    nodes that are no longer on the page are gone; and no pod entry and no node
    entry of any other metering method changes as long as it is fresh, whatever
    order the tables are walked in. *)
Theorem kepler_ingest_exact clk st agg uid m : clock_ok clk agg → ids_unique st →
  let agg' := ingest_scrape clk st agg in
  (∀ k a, pod_data st !! k = Some a →
     (∃ s, pods agg' !! (pk_pod_id k, "kepler") = Some s ∧ pod_known clk k a s) ∧
     (∃ s, nodes agg' !! (pk_node_name k, "kepler") = Some s ∧ node_known clk st (pk_node_name k) s)) ∧
  (∀ s k, pods agg' !! (uid, "kepler") = Some s → is_Some (pod_data st !! k) →
     pr_node_name (ps_report s) = pk_node_name k → ∃ k', is_Some (pod_data st !! k') ∧ pk_pod_id k' = uid) ∧
  (m ≠ "kepler" → ∀ s, (∀ n, ingest_evict clk n - staleness_threshold agg < ps_received_at s) →
     pods agg' !! (uid, m) = Some s ↔ pods agg !! (uid, m) = Some s) ∧
  (m ≠ "kepler" → ∀ s, (∀ n, ingest_evict clk n - staleness_threshold agg < ns_received_at s) →
     nodes agg' !! (uid, m) = Some s ↔ nodes agg !! (uid, m) = Some s).
Proof.
  intros Hclk Hu. cbn zeta. unfold ingest_scrape.
  destruct (fold_ingest_lookup clk st agg Hclk _ uid m (pods_by_node_ok clk st Hu)) as (H1 & H2 & H3 & H4).
  split; [|split; [|done]].
  - intros k a Hk. destruct (pods_by_node_has clk st k a Hk) as (ps & Hn & Hp).
    split; [eexists; split; [exact (H1 _ _ _ Hn Hp)|by constructor]|].
    eexists. split; [exact (H2 _ _ Hn)|]. constructor; try done. cbn. by rewrite (pods_by_node_length clk st _ ps Hn).
  - intros s k Hs [a Hk] Hn. destruct (pods_by_node_has clk st k a Hk) as (ps & Hin & _).
    destruct (H3 s Hs) as (n & ps' & p & Hn' & Hp & <-).
    { apply list_elem_of_fmap. exists (pk_node_name k, ps). done. }
    destruct (pods_by_node_elem clk st n ps' p Hn' Hp) as (k' & a' & Hk' & _ & ->). exists k'. eauto.
Qed.

(** A round over the endpoints always completes, and endpoints that do not
    answer change nothing. *)
Lemma kepler_round_total fetch clk eps agg : is_Some (kepler_round fetch clk eps agg).
Proof.
  unfold kepler_round. apply (foldl_inv is_Some); [by eexists|]. intros acc ip _ [[t a] ->]. cbn.
  unfold scrape_and_ingest. destruct (fetch _) as [body|]; [|by eexists].
  destruct (scrape_body_total body) as [st ->]. by eexists.
Qed.
Lemma kepler_round_silent fetch clk eps agg : (∀ url, fetch url = None) → kepler_round fetch clk eps agg = Some (0%nat, agg).
Proof.
  intros Hf. unfold kepler_round. apply (foldl_inv (λ o, o = Some (0%nat, agg))); [done|].
  intros acc ip _ ->. cbn. unfold scrape_and_ingest. by rewrite Hf.
Qed.
End ingest_theorem.

#[local] Existing Instance hash_iter_list.

Definition demo_labels (uid node state : string) : list (string * string) :=
  [("node_name", node); ("pod_id", uid); ("pod_name", "web"); ("pod_namespace", "default"); ("state", state)].
Definition demo_page : list PageLine :=
  [Comment " HELP kepler_pod_cpu_watts CPU power";
   Metric {| sa_name := "kepler_pod_cpu_watts"; sa_labels := demo_labels "p1" "n1" "running" ++ [("zone", "package")];
             sa_value := "2.5"; sa_timestamp := None |};
   Metric {| sa_name := "kepler_pod_cpu_watts"; sa_labels := demo_labels "p1" "n1" "running" ++ [("zone", "dram")];
             sa_value := "1.5"; sa_timestamp := None |};
   Metric {| sa_name := "kepler_pod_cpu_watts"; sa_labels := demo_labels "p2" "n1" "terminated"; sa_value := "9"; sa_timestamp := None |};
   Blank;
   Unlabelled "process_cpu_seconds_total" "3.25" None;
   Metric {| sa_name := "kepler_pod_cpu_watts"; sa_labels := demo_labels "p1" "n1" "running"; sa_value := "7";
             sa_timestamp := Some "1700000000000" |};
   Metric {| sa_name := "kepler_node_cpu_watts"; sa_labels := [("node_name", "n1"); ("zone", "package")];
             sa_value := "105.25"; sa_timestamp := None |};
   Metric {| sa_name := "kepler_node_cpu_watts"; sa_labels := [("node_name", "n2")]; sa_value := "80"; sa_timestamp := None |}].
Definition demo_key : PodKey :=
  {| pk_pod_id := "p1"; pk_pod_name := "web"; pk_pod_namespace := "default"; pk_node_name := "n1"; pk_state := "running" |}.
Definition demo_scrape : Scrape := foldl apply_line scrape_zero demo_page.
Definition demo_clock : ScrapeClock :=
  {| pod_time := λ _, 5; node_time := λ _, 5; ingest_now := λ _, 10; ingest_evict := λ _, 10; ingest_system := λ _, 10 |}.

Lemma scrape_page_exact_witness : ∃ st, scrape_body (render_page demo_page) = Some st ∧
  pod_data st !! demo_key = Some {| pa_cpu_watts := f_of_Z 4; pa_gpu_watts := fzero |}.
Proof.
  destruct (scrape_page_exact demo_page) as (st & Hst & Hs).
  - repeat (constructor; [vm_compute; reflexivity|]). constructor.
  - exists st. split; [exact Hst|]. rewrite (says_pod _ _ Hs). vm_compute. reflexivity.
Defined.
Lemma kepler_ingest_exact_witness : ∃ s,
  pods (ingest_scrape demo_clock demo_scrape ClusterAggregator_new) !! ("p1", "kepler") = Some s ∧
  pr_total_uw (ps_report s) = 4000000.
Proof.
  destruct (kepler_ingest_exact demo_clock demo_scrape ClusterAggregator_new "p1" "keck") as [H _].
  - intros n n'. vm_compute. split; [discriminate|reflexivity].
  - assert (map_to_list (pod_data demo_scrape) =
      [(demo_key, {| pa_cpu_watts := f_of_Z 4; pa_gpu_watts := fzero |})]) as Hl by (vm_compute; reflexivity).
    intros k k' [a Hk] [a' Hk'] _. apply elem_of_map_to_list in Hk, Hk'. rewrite Hl in Hk, Hk'.
    apply list_elem_of_singleton in Hk, Hk'. congruence.
  - destruct (proj1 (H demo_key _ eq_refl)) as (s & Hs & K). exists s. split; [exact Hs|].
    rewrite (kp_total _ _ _ _ K). vm_compute. reflexivity.
Defined.

(** A node without a running pod is on the page but not in the controller. *)
Example idle_node_not_reported :
  node_cpu_watts demo_scrape !! "n2" = Some (f_of_Z 80) ∧
  nodes (ingest_scrape demo_clock demo_scrape ClusterAggregator_new) !! ("n2", "kepler") = None.
Proof. split; vm_compute; reflexivity. Qed.
(** A closing brace inside a label's value cuts the labels short: the sample
    is dropped without a trace. *)
Example brace_in_label_drops_sample :
  scrape_body (render_page [Metric {| sa_name := "kepler_pod_cpu_watts";
    sa_labels := [("pod_name", "a}b")] ++ demo_labels "p1" "n1" "running"; sa_value := "2.5"; sa_timestamp := None |}]) = Some scrape_zero.
Proof. vm_compute. reflexivity. Qed.
(** So does a timestamp, which the format allows after the value. *)
Example timestamped_sample_dropped :
  scrape_body (render_page [Metric {| sa_name := "kepler_pod_cpu_watts";
    sa_labels := demo_labels "p1" "n1" "running"; sa_value := "2.5"; sa_timestamp := Some "1700000000000" |}]) =
  Some scrape_zero.
Proof. vm_compute. reflexivity. Qed.
