(* ===== verification/Views.v ===== *)
(** * Views: what the controller's REST API answers

    The read handlers of keck-controller/src/api/mod.rs, as the JSON values they
    build from [Aggregator]'s queries.  [params] are the query's parameters; the
    clock a handler reads is an argument.  An object's fields are in the source's
    order. *)

From S2P Require Import Prelude F64 Json Classify Aggregator Api.

Open Scope Z_scope.

(** [uw as f64 / 1e6] *)
Definition watts (uw : Z) : f64 := fdiv (f_of_Z uw) (f_of_Z 1000000).
Definition json_watts (uw : Z) : Value := json_f64 (watts uw).
Definition json_uint (n : Z) : Value := Number (PosInt n).
Definition json_len (n : nat) : Value := json_uint (Z.of_nat n).
Definition json_opt {A} (f : A → Value) (o : option A) : Value := from_option f Null o.

Notation Params := (gmap string string).
Definition param_method (params : Params) : option string := params !! "method".
(** [params.get(key).cloned().unwrap_or_default()] *)
Definition param_or_empty (params : Params) (key : string) : string := default EmptyString (params !! key).

Inductive ViewReply :=
| ViewOk (body : Value)
| NotFound.

Section views.
Context `{HI : HashIter}.

(** *** GET /api/v1/cluster *)

Definition cluster_node_json (n : NodeSummary) : Value := Object [
  ("node_name", Str (sum_node_name n)); ("cpu_watts", json_watts (sum_cpu_uw n));
  ("memory_watts", json_watts (sum_memory_uw n)); ("gpu_watts", json_watts (sum_gpu_uw n));
  ("platform_watts", json_opt json_watts (sum_platform_uw n));
  ("psu_output_watts", json_opt json_watts (sum_psu_output_uw n)); ("idle_watts", json_watts (sum_idle_uw n));
  ("pod_count", json_uint (sum_pod_count n)); ("error_ratio", json_f64 (sum_error_ratio n));
  ("cpu_source", Str (sum_cpu_source n)); ("cpu_reading_type", Str (sum_cpu_reading_type n))].
Definition category_json (totals : Z * Z * Z) : Value :=
  let '(app_uw, op_uw, plat_uw) := totals in
  Object [("application_watts", json_watts app_uw); ("operator_watts", json_watts op_uw);
          ("platform_watts", json_watts plat_uw)].
Definition source_json (s : SourceStatus) : Value := Object [
  ("name", Str (ss_name s)); ("node_name", Str (ss_node_name s)); ("component", Str (ss_component s));
  ("reading_type", Str (ss_reading_type s)); ("available", Bool (ss_available s)); ("selected", Bool (ss_selected s));
  ("watts", json_watts (ss_power_uw s))].
Definition data_quality_json (method : option string) (power : ClusterPower) (ag : ClusterAggregator) : Value :=
  let has_platform := 0 <? cl_platform_uw power in
  let has_gpu := 0 <? cl_gpu_uw power in
  let cpu_info := cpu_source_info ag in
  let mem_info := memory_source_info ag in
  Object [
    ("cpu", Object [("source", Str cpu_info.1); ("type", Str cpu_info.2); ("available", Bool (0 <? cl_cpu_uw power))]);
    ("memory", Object [
      ("source", Str mem_info);
      ("type", Str (if str_contains mem_info "Redfish" then "measured"
                    else if 0 <? cl_memory_uw power then "estimated" else "unavailable"));
      ("available", Bool (0 <? cl_memory_uw power))]);
    ("gpu", Object [
      ("source", Str (if has_gpu then "NVML" else "none"));
      ("type", Str (if has_gpu then "measured" else "unavailable")); ("available", Bool has_gpu)]);
    ("platform", Object [
      ("source", Str (if has_platform then "Redfish PSU" else "none"));
      ("type", Str (if has_platform then "measured" else "unavailable")); ("available", Bool has_platform);
      ("note", Str (if has_platform then "PSU measured power (ground truth)"
                    else "No PSU power source — configure Redfish/IPMI for ground truth."))]);
    ("attribution", Object [
      ("method", Str (default "keck" method)); ("available_methods", Array (Str <$> available_methods ag));
      ("note", Str (if bool_decide (method = Some "kepler") then "Kepler: CPU time ratio with active/idle split."
                    else "Keck: frequency-weighted per-core attribution with eBPF."))]);
    ("alerts", Object [
      ("missing_ground_truth", Bool (negb has_platform)); ("missing_gpu", Bool (negb has_gpu));
      ("message", Str (if negb has_platform then "No platform power source. Configure iDRAC to get measured power."
                       else "All data sources available."))])].
Definition handle_cluster (now : Z) (cls : ClassificationData) (params : Params) (ag : ClusterAggregator) : Value :=
  let method := param_method params in
  let power := cluster_power method ag in
  Object [
    ("cpu_watts", json_watts (cl_cpu_uw power)); ("memory_watts", json_watts (cl_memory_uw power));
    ("gpu_watts", json_watts (cl_gpu_uw power)); ("platform_watts", json_watts (cl_platform_uw power));
    ("psu_output_watts", json_watts (cl_psu_output_uw power)); ("psu_loss_watts", json_watts (cl_psu_loss_uw power));
    ("idle_watts", json_watts (cl_idle_uw power)); ("total_attributed_watts", json_watts (cl_total_attributed_uw power));
    ("node_count", json_len (cl_node_count power)); ("pod_count", json_len (cl_pod_count power));
    ("avg_error_ratio", json_f64 (cl_avg_error_ratio power));
    ("category_power", category_json (category_power method cls ag));
    ("nodes", Array (cluster_node_json <$> node_summaries now method ag));
    ("sources", Array (source_json <$> all_sources ag)); ("data_quality", data_quality_json method power ag)].

(** *** GET /api/v1/namespaces *)

Definition namespace_json (ns : NsPower) : Value := Object [
  ("namespace", Str (nsp_namespace ns)); ("cpu_watts", json_watts (nsp_cpu_uw ns));
  ("memory_watts", json_watts (nsp_memory_uw ns)); ("gpu_watts", json_watts (nsp_gpu_uw ns));
  ("storage_watts", json_watts (nsp_storage_uw ns)); ("io_watts", json_watts (nsp_io_uw ns));
  ("total_watts", json_watts (nsp_total_uw ns)); ("pod_count", json_len (nsp_pod_count ns))].
Definition handle_namespaces (params : Params) (ag : ClusterAggregator) : Value :=
  Array (namespace_json <$> namespace_power (param_method params) ag).

(** *** GET /api/v1/pods-by-namespace *)

Definition pod_json (p : PodPowerReport) : Value := Object [
  ("pod_uid", Str (pr_pod_uid p)); ("pod_name", Str (pr_pod_name p)); ("namespace", Str (pr_namespace p));
  ("node_name", Str (pr_node_name p)); ("cpu_watts", json_watts (pr_cpu_uw p));
  ("memory_watts", json_watts (pr_memory_uw p)); ("gpu_watts", json_watts (pr_gpu_uw p));
  ("storage_watts", json_watts (pr_storage_uw p)); ("io_watts", json_watts (pr_io_uw p));
  ("total_watts", json_watts (pr_total_uw p))].
Definition handle_namespace_pods (params : Params) (ag : ClusterAggregator) : Value :=
  Array (pod_json <$> pods_in_namespace (param_or_empty params "ns") (param_method params) ag).

(** *** GET /api/v1/nodes and /api/v1/pods-by-node *)

Definition nodes_json (n : NodeSummary) : Value := Object [
  ("node_name", Str (sum_node_name n)); ("cpu_watts", json_watts (sum_cpu_uw n));
  ("memory_watts", json_watts (sum_memory_uw n)); ("gpu_watts", json_watts (sum_gpu_uw n));
  ("platform_watts", json_opt json_watts (sum_platform_uw n)); ("idle_watts", json_watts (sum_idle_uw n));
  ("error_ratio", json_f64 (sum_error_ratio n)); ("pod_count", json_uint (sum_pod_count n));
  ("headroom_watts", json_opt json_watts (sum_headroom_uw n));
  ("last_seen_secs_ago", json_uint (sum_last_seen_secs_ago n)); ("cpu_source", Str (sum_cpu_source n));
  ("cpu_reading_type", Str (sum_cpu_reading_type n)); ("metering_method", Str (sum_metering_method n))].
Definition handle_nodes (now : Z) (params : Params) (ag : ClusterAggregator) : Value :=
  Array (nodes_json <$> node_summaries now (param_method params) ag).

Definition node_json (n : NodeSummary) : Value := Object [
  ("node_name", Str (sum_node_name n)); ("cpu_watts", json_watts (sum_cpu_uw n));
  ("memory_watts", json_watts (sum_memory_uw n)); ("gpu_watts", json_watts (sum_gpu_uw n));
  ("platform_watts", json_opt json_watts (sum_platform_uw n)); ("idle_watts", json_watts (sum_idle_uw n));
  ("error_ratio", json_f64 (sum_error_ratio n)); ("pod_count", json_uint (sum_pod_count n))].
Definition handle_node (now : Z) (params : Params) (ag : ClusterAggregator) : ViewReply :=
  match node_summary now (param_or_empty params "name") ag with
  | None => NotFound
  | Some node => ViewOk (node_json node)
  end.

(** *** GET /api/v1/pods-by-uid *)

Definition handle_pod (params : Params) (ag : ClusterAggregator) : ViewReply :=
  match pod_power (param_or_empty params "uid") ag with
  | None => NotFound
  | Some pod => ViewOk (pod_json pod)
  end.

(** *** GET /api/v1/applications *)

Definition group_pod_json (p : PodPowerSummary) : Value := Object [
  ("pod_uid", Str (pps_pod_uid p)); ("pod_name", Str (pps_pod_name p)); ("cpu_watts", json_watts (pps_cpu_uw p));
  ("memory_watts", json_watts (pps_memory_uw p)); ("gpu_watts", json_watts (pps_gpu_uw p));
  ("total_watts", json_watts (pps_total_uw p))].
Definition group_json (g : GroupPower) : Value := Object [
  ("group_key", Str (gp_group_key g)); ("group_name", Str (gp_group_name g)); ("group_kind", Str (gp_group_kind g));
  ("namespace", Str (gp_namespace g)); ("category", Str (gp_category g)); ("cpu_watts", json_watts (gp_cpu_uw g));
  ("memory_watts", json_watts (gp_memory_uw g)); ("gpu_watts", json_watts (gp_gpu_uw g));
  ("storage_watts", json_watts (gp_storage_uw g)); ("io_watts", json_watts (gp_io_uw g));
  ("total_watts", json_watts (gp_total_uw g)); ("pod_count", json_len (gp_pod_count g));
  ("pods", Array (group_pod_json <$> gp_pods g))].
Definition handle_applications (cls : ClassificationData) (params : Params) (ag : ClusterAggregator) : Value :=
  let group_by := from_option GroupBy_parse GApplication (params !! "group_by") in
  Array (group_json <$> group_power group_by (params !! "category") cls ag).

Definition handle_healthz : string := "ok".
End views.
