(* ===== verification/Controller.v ===== *)
(** * Controller: the running controller

    The metrics of keck-controller/src/metrics.rs and the handler that exports
    them, the node watcher of keck-controller/src/main.rs, and the whole
    controller as a transition system: its tasks share the aggregator, the
    classification and the metrics behind locks, so a run interleaves their
    critical sections.  Rendering the metrics as text is the library's. *)

From S2P Require Import Prelude F64 Json Classify Aggregator Api Kepler Views.
From stdpp Require Import relations.

Open Scope Z_scope.

(** ** Metrics *)

(** A [Family] of gauges is the map from the labels seen to their gauges; the
    counter of reports is in [ServerState]. *)
Record Metrics := {
  m_registry : list (string * string);
  cluster_power_watts : gmap string f64;
  namespace_power_watts : gmap (string * string) f64;
  node_power_watts : gmap string f64;
  node_error_ratio : gmap string f64;
  agent_last_report_secs : gmap string f64;
  m_pod_count : Z;
  m_node_count : Z
}.
Definition Metrics_new : Metrics := {|
  m_registry := [
    ("keck_cluster_power_watts", "Total cluster power by component");
    ("keck_namespace_power_watts", "Total namespace power by component");
    ("keck_node_power_watts", "Total node power");
    ("keck_node_error_ratio", "PSU reconciliation error ratio per node");
    ("keck_agent_last_report_seconds_ago", "Seconds since last agent report per node");
    ("keck_agent_report_total", "Total reports received per node");
    ("keck_pod_count", "Number of pods with power data");
    ("keck_node_count", "Number of nodes reporting power data")];
  cluster_power_watts := ∅; namespace_power_watts := ∅; node_power_watts := ∅; node_error_ratio := ∅;
  agent_last_report_secs := ∅; m_pod_count := 0; m_node_count := 0 |}.

Section controller.
Context `{HI : HashIter}.

(** [get_or_create(&label).set(v)], for each of [l]. *)
Definition set_gauges {A} `{Countable K} (label : A → K) (v : A → f64) (l : list A) (m : gmap K f64) : gmap K f64 :=
  foldl (λ m a, <[label a := v a]> m) m l.

(** GET /metrics: the gauges set before rendering.  One step: the handler sets
    them under a shared lock, so two scrapes may interleave, but then the
    aggregator is the same for both and they set the same values, except for the
    age of the last report, which is that of one scrape or the other.  The text is
    rendered after the lock is released: a scrape of a later state that comes in
    between is a step before this one's answer. *)
Definition handle_metrics (now : Z) (ag : ClusterAggregator) (m : Metrics) : Metrics :=
  let cluster := cluster_power None ag in
  let node_list := node_summaries now None ag in
  {| m_registry := m_registry m;
     cluster_power_watts :=
       set_gauges fst snd
         [("cpu", watts (cl_cpu_uw cluster)); ("memory", watts (cl_memory_uw cluster)); ("gpu", watts (cl_gpu_uw cluster));
          ("platform", watts (cl_platform_uw cluster))] (cluster_power_watts m);
     namespace_power_watts :=
       set_gauges (λ ns, (nsp_namespace ns, "total")) (λ ns, watts (nsp_total_uw ns)) (namespace_power None ag)
         (namespace_power_watts m);
     node_power_watts :=
       set_gauges sum_node_name (λ n, watts (u64_add (u64_add (sum_cpu_uw n) (sum_memory_uw n)) (sum_gpu_uw n))) node_list
         (node_power_watts m);
     node_error_ratio := set_gauges sum_node_name sum_error_ratio node_list (node_error_ratio m);
     agent_last_report_secs :=
       set_gauges sum_node_name (λ n, f_of_Z (sum_last_seen_secs_ago n)) node_list (agent_last_report_secs m);
     m_pod_count := i64_wrap (Z.of_nat (cl_pod_count cluster));
     m_node_count := i64_wrap (Z.of_nat (cl_node_count cluster)) |}.

(** One round of [watch_cluster_nodes]: the names of the nodes the API lists, or
    [None] when listing fails. *)
Definition watch_nodes_round (listing : option (list (option string))) (ag : ClusterAggregator) : ClusterAggregator :=
  match listing with
  | Some items => evict_removed_nodes (omap id items) ag
  | None => ag
  end.

(** ** The transition system *)

Record Controller := { c_server : ServerState; c_cls : ClassificationData; c_metrics : Metrics }.
Definition Controller_new (key : option string) : Controller :=
  {| c_server := {| aggregator := ClusterAggregator_new; api_key := key; agent_report_total := ∅ |};
     c_cls := {| co_namespaces := ∅; operator_namespaces := ∅; app_defs := [] |}; c_metrics := Metrics_new |}.
Definition with_aggregator (ag : ClusterAggregator) (c : Controller) : Controller :=
  {| c_server := {| aggregator := ag; api_key := api_key (c_server c); agent_report_total := agent_report_total (c_server c) |};
     c_cls := c_cls c; c_metrics := c_metrics c |}.

Inductive ctl_step : Controller → Controller → Prop :=
| StepReport now ne sn auth report c :
    ctl_step c {| c_server := (handle_report now ne sn auth report (c_server c)).2; c_cls := c_cls c; c_metrics := c_metrics c |}
| StepWatch listing c : ctl_step c (with_aggregator (watch_nodes_round listing (aggregator (c_server c))) c)
| StepKepler fetch clk url r ag c :
    scrape_and_ingest fetch clk url (aggregator (c_server c)) = Some (r, ag) → ctl_step c (with_aggregator ag c)
| StepClassify cls c : ctl_step c {| c_server := c_server c; c_cls := cls; c_metrics := c_metrics c |}
| StepScrape now c :
    ctl_step c {| c_server := c_server c; c_cls := c_cls c;
                  c_metrics := handle_metrics now (aggregator (c_server c)) (c_metrics c) |}.
Definition reachable (key : option string) : Controller → Prop := rtc ctl_step (Controller_new key).

(** ** Reachable states *)

(** Every step writes the aggregator through [ingest] or an eviction. *)
Definition counted (c : Controller) : Prop := ∀ n m st,
  nodes (aggregator (c_server c)) !! (n, m) = Some st → m ≠ "kepler" → is_Some (agent_report_total (c_server c) !! n).
Record ctl_ok (c : Controller) : Prop := { ctl_agg : agg_ok (aggregator (c_server c)); ctl_counted : counted c }.

Lemma evict_removed_ok live ag : agg_ok ag → agg_ok (evict_removed_nodes live ag).
Proof. exact (agg_step_ok ag (EEvictRemoved live)). Qed.
Lemma ingest_nodes_old now ne sn report ag k st : nodes (ingest now ne sn report ag) !! k = Some st →
  k = (nr_node_name (ar_node report), report_method (ar_node report)) ∨ nodes ag !! k = Some st.
Proof.
  destruct (ingest_fields now ne sn report ag) as (_ & -> & _).
  intros [[[<- _]|[_ Hk]]%lookup_insert_Some _]%map_lookup_filter_Some; [by left|by right].
Qed.

Lemma ingest_pods_old now ne sn report ag u m st : pods (ingest now ne sn report ag) !! (u, m) = Some st →
  m = report_method (ar_node report) ∨ pods ag !! (u, m) = Some st.
Proof.
  destruct (ingest_fields now ne sn report ag) as (-> & _). intros [H _]%map_lookup_filter_Some. revert H.
  generalize (history ag) as h. intros h. set (kept := filter _ (pods ag)).
  assert (∀ s, kept !! (u, m) = Some s → pods ag !! (u, m) = Some s) as Hk by (by intros s [? _]%map_lookup_filter_Some).
  clearbody kept. revert kept h Hk. generalize (report_method (ar_node report)) as method. induction (ar_pods report) as [|p ps IH]; intros method kept h Hk H.
  { right. by apply Hk. }
  cbn in H. destruct (decide (m = method)) as [->|Hne]; [by left|]. eapply IH; [|exact H].
  intros s. rewrite lookup_insert_ne by congruence. apply Hk.
Qed.

(** What a Kepler scrape leaves: consistent, and only Kepler's entries are new. *)
Definition kepler_preserves (ag ag' : ClusterAggregator) : Prop :=
  (agg_ok ag → agg_ok ag') ∧
  (∀ n m st, m ≠ "kepler" → nodes ag' !! (n, m) = Some st → nodes ag !! (n, m) = Some st) ∧
  (∀ u m st, m ≠ "kepler" → pods ag' !! (u, m) = Some st → pods ag !! (u, m) = Some st).
#[global] Instance kepler_preserves_preorder : PreOrder kepler_preserves.
Proof.
  split; [by split|]. intros a b c (H1 & H2 & H3) (H4 & H5 & H6). split; [auto|]. split; intros n m st Hm Hc; eauto.
Qed.
Lemma ingest_node_preserves clk st ag np : kepler_preserves ag (ingest_node clk st ag np).
Proof.
  destruct np as [n ps]. split; [apply ingest_ok|]. split; intros n' m s Hm H.
  - apply ingest_nodes_old in H as [Hk|H]; [|done]. rewrite kepler_method in Hk. congruence.
  - by apply ingest_pods_old in H as [Hk|H].
Qed.
Lemma ingest_scrape_preserves clk st ag : kepler_preserves ag (ingest_scrape clk st ag).
Proof.
  unfold ingest_scrape. generalize (hm_iter (pods_by_node clk st)) as l. intros l. revert ag.
  induction l as [|np l IH]; intros ag; [reflexivity|]. cbn. etrans; [apply ingest_node_preserves|apply IH].
Qed.
Lemma scrape_and_ingest_preserves fetch clk url ag r ag' : scrape_and_ingest fetch clk url ag = Some (r, ag') →
  kepler_preserves ag ag'.
Proof.
  unfold scrape_and_ingest. destruct (fetch url) as [body|]; [|by intros [= _ <-]].
  destruct (scrape_body body) as [st|]; [|done]. intros [= _ <-]. apply ingest_scrape_preserves.
Qed.

Lemma handle_report_ok now ne sn auth report c : ctl_ok c →
  ctl_ok {| c_server := (handle_report now ne sn auth report (c_server c)).2; c_cls := c_cls c; c_metrics := c_metrics c |}.
Proof.
  intros [Ha Hc]. unfold handle_report. destruct (check_auth _ _); [|by split].
  destruct (validate_report report); [|by split]. split; cbn; [by apply ingest_ok|].
  intros n m st Hn Hm. cbn in *. unfold hm_upd. apply ingest_nodes_old in Hn as [[= -> _]|Hn].
  - rewrite lookup_insert_eq. eauto.
  - destruct (decide (n = nr_node_name (ar_node report))) as [->|Hne]; [by rewrite lookup_insert_eq|].
    rewrite lookup_insert_ne by congruence. by eapply Hc.
Qed.
Lemma ctl_step_ok c c' : ctl_step c c' → ctl_ok c → ctl_ok c'.
Proof.
  intros Hs Hok. destruct Hs as [now ne sn auth report c|listing c|fetch clk url r ag c Hk|cls c|now c];
    [by apply handle_report_ok| |destruct Hok as [Ha Hc]; split; cbn..|by destruct Hok|by destruct Hok].
  - destruct listing as [items|]; [|by destruct Hok]. destruct Hok as [Ha Hc]. split; cbn; [by apply evict_removed_ok|].
    intros n m st [Hn _]%map_lookup_filter_Some Hm. by eapply Hc.
  - by apply (scrape_and_ingest_preserves _ _ _ _ _ _ Hk).
  - intros n m st Hn Hm. apply (scrape_and_ingest_preserves _ _ _ _ _ _ Hk) in Hn; [|done]. by eapply Hc.
Qed.
Lemma reachable_ok key c : reachable key c → ctl_ok c.
Proof.
  intros Hr. assert (ctl_ok (Controller_new key)) as H0.
  { split; [split|]; intros ?; intros; cbn in *; by rewrite lookup_empty in *. }
  unfold reachable in Hr. revert H0. induction Hr as [|c1 c2 c3 Hs _ IH]; [done|]. intros H1. by apply IH, (ctl_step_ok c1).
Qed.

(** ** The gauges *)

Lemma set_gauges_None {A} `{Countable K} (label : A → K) v l m k : (∀ a, a ∈ l → label a ≠ k) →
  set_gauges label v l m !! k = m !! k.
Proof.
  unfold set_gauges. revert m. induction l as [|a l IH]; intros m Hl; [done|]. cbn. rewrite IH.
  - rewrite lookup_insert_ne; [done|]. apply Hl. left.
  - intros b Hb. apply Hl. by right.
Qed.
Lemma set_gauges_Some {A} `{Countable K} (label : A → K) v l m a : a ∈ l → (∀ b, b ∈ l → label b = label a → v b = v a) →
  set_gauges label v l m !! label a = Some (v a).
Proof.
  intros Ha Hu. apply list_elem_of_split in Ha as (l1 & l2 & ->). unfold set_gauges. rewrite foldl_app. cbn.
  set (m' := foldl _ m l1). clearbody m'. revert m'.
  induction l2 as [|b l2 IH] using rev_ind; intros m'; [cbn; by rewrite lookup_insert_eq|].
  rewrite foldl_app. cbn. destruct (decide (label b = label a)) as [Hb|Hb].
  - rewrite Hb, lookup_insert_eq. f_equal. apply Hu; [|done]. set_solver.
  - rewrite lookup_insert_ne by done. apply IH. intros b' Hb'. apply Hu. set_solver.
Qed.

(** The nodes of the default method are those of the slot "keck". *)
Lemma keck_nodes ag n st : agg_ok ag →
  st ∈ node_reports None ag ∧ nr_node_name (ns_report st) = n ↔ nodes ag !! (n, "keck") = Some st.
Proof.
  intros [_ Hn]. unfold node_reports. rewrite list_elem_of_filter, hm_values_elem.
  assert (matches_method (nr_metering_method (ns_report st)) None = true ↔ report_method (ns_report st) = "keck") as ->
    by (unfold matches_method, report_method; cbn; apply String.eqb_eq).
  split.
  - intros [[Hm [k Hk]] <-]. pose proof (Hn _ _ Hk) as Heq. by rewrite Heq, Hm in Hk.
  - intros Hk. pose proof (Hn _ _ Hk) as [= -> Hm]. eauto.
Qed.
Lemma node_gauge_exact now ag v (m : gmap string f64) n : agg_ok ag →
  set_gauges sum_node_name v (node_summaries now None ag) m !! n =
    match nodes ag !! (n, "keck") with
    | Some st => Some (v (node_summary_of now st))
    | None => m !! n
    end.
Proof.
  intros Hok. destruct (nodes ag !! (n, "keck")) as [st|] eqn:Hn.
  - apply (keck_nodes ag n st Hok) in Hn as [Hin <-].
    change (nr_node_name (ns_report st)) with (sum_node_name (node_summary_of now st)). apply set_gauges_Some.
    + apply list_elem_of_fmap. eauto.
    + intros b (st' & -> & Hin')%list_elem_of_fmap Heq. cbn in Heq.
      assert (nodes ag !! (nr_node_name (ns_report st), "keck") = Some st) as H1 by (by apply keck_nodes).
      assert (nodes ag !! (nr_node_name (ns_report st), "keck") = Some st') as H2 by (by apply keck_nodes). congruence.
  - apply set_gauges_None. intros b (st & -> & Hin)%list_elem_of_fmap Heq. cbn in Heq.
    assert (nodes ag !! (n, "keck") = Some st) by (by apply keck_nodes). congruence.
Qed.
Lemma namespace_gauge_exact (ag : ClusterAggregator) (m : gmap (string * string) f64) ns :
  set_gauges (λ e, (nsp_namespace e, "total")) (λ e, watts (nsp_total_uw e)) (namespace_power None ag) m !! (ns, "total") =
    match pods_in_namespace ns None ag with
    | [] => m !! (ns, "total")
    | ps => Some (watts (sum_u64 (pr_total_uw <$> ps)))
    end.
Proof.
  destruct (namespace_power_exact None ag) as (_ & _ & Hall & Hsum). cbn zeta in *.
  destruct (pods_in_namespace ns None ag) as [|p ps] eqn:Hps.
  - apply set_gauges_None. intros e He [= Heq]. destruct (Hsum e He) as [Hne _]. by rewrite Heq in Hne.
  - assert (p ∈ pods_in_namespace ns None ag) as [Hp Hin]%list_elem_of_filter by (rewrite Hps; left).
    apply Hall in Hin as (e & He & Hin)%list_elem_of_fmap. rewrite Hp in He.
    assert (∀ b, b ∈ namespace_power None ag → nsp_namespace b = ns → nsp_total_uw b = sum_u64 (pr_total_uw <$> p :: ps)) as Hv.
    { intros b Hb Heq. destruct (Hsum b Hb) as (_ & _ & _ & _ & _ & _ & _ & ->). by rewrite Heq, Hps. }
    rewrite <-(Hv e) by done. rewrite He.
    apply (set_gauges_Some (λ e, (nsp_namespace e, "total")) (λ e, watts (nsp_total_uw e)) _ m e Hin).
    intros b Hb [= Heq]. by rewrite !Hv by congruence.
Qed.

(** C14: what a Prometheus scrape reads, in any state the controller can get to,
    however its tasks interleave.  The gauges of a node the agents report are
    those of its latest report, and such a node has a report counter; the gauge
    of a namespace with pods is the sum of their powers; the cluster's gauges are
    the cluster totals.  The gauges of every other node and namespace keep the
    value they last had. *)
Theorem scrape_gauges_exact key c now : reachable key c →
  let ag := aggregator (c_server c) in
  let m := c_metrics c in
  let m' := handle_metrics now ag m in
  (∀ n, match nodes ag !! (n, "keck") with
        | Some st =>
            let r := ns_report st in
            node_power_watts m' !! n = Some (watts (u64_add (u64_add (nr_cpu_uw r) (nr_memory_uw r)) (nr_gpu_uw r))) ∧
            node_error_ratio m' !! n = Some (nr_error_ratio r) ∧
            agent_last_report_secs m' !! n = Some (f_of_Z (sat_sub now (ns_received_at st) / sec)) ∧
            is_Some (agent_report_total (c_server c) !! n)
        | None =>
            node_power_watts m' !! n = node_power_watts m !! n ∧ node_error_ratio m' !! n = node_error_ratio m !! n ∧
            agent_last_report_secs m' !! n = agent_last_report_secs m !! n
        end) ∧
  (∀ ns, namespace_power_watts m' !! (ns, "total") =
     match pods_in_namespace ns None ag with
     | [] => namespace_power_watts m !! (ns, "total")
     | ps => Some (watts (sum_u64 (pr_total_uw <$> ps)))
     end) ∧
  let power := cluster_power None ag in
  cluster_power_watts m' !! "cpu" = Some (watts (cl_cpu_uw power)) ∧
  cluster_power_watts m' !! "memory" = Some (watts (cl_memory_uw power)) ∧
  cluster_power_watts m' !! "gpu" = Some (watts (cl_gpu_uw power)) ∧
  cluster_power_watts m' !! "platform" = Some (watts (cl_platform_uw power)).
Proof.
  intros [Ha Hc]%reachable_ok. cbn zeta. split; [|split; [intros ns; apply namespace_gauge_exact|]].
  - intros n. cbn [handle_metrics node_power_watts node_error_ratio agent_last_report_secs].
    rewrite !node_gauge_exact by done. destruct (nodes _ !! (n, "keck")) as [st|] eqn:Hn; [|done].
    repeat split. by eapply Hc.
  - by cbn [handle_metrics cluster_power_watts set_gauges foldl fst snd]; simplify_map_eq.
Qed.

(** The powers a page shows, by key. *)
Definition shows (v : Value) (powers : list (string * Z)) : Prop :=
  ∀ key uw, (key, uw) ∈ powers → get key v = Some (json_watts uw).
Lemma node_json_shows now st :
  let v := node_json (node_summary_of now st) in let r := ns_report st in
  shows v [("cpu_watts", nr_cpu_uw r); ("memory_watts", nr_memory_uw r); ("gpu_watts", nr_gpu_uw r); ("idle_watts", nr_idle_uw r)] ∧
  get "node_name" v = Some (Str (nr_node_name r)) ∧ get "platform_watts" v = Some (json_opt json_watts (nr_platform_uw r)).
Proof.
  split; [|done]. intros key uw Hin.
  by repeat (apply elem_of_cons in Hin as [[= -> ->]|Hin]; [done|]); apply elem_of_nil in Hin.
Qed.
Lemma pod_json_shows p :
  let v := pod_json p in
  shows v [("cpu_watts", pr_cpu_uw p); ("memory_watts", pr_memory_uw p); ("gpu_watts", pr_gpu_uw p);
           ("storage_watts", pr_storage_uw p); ("io_watts", pr_io_uw p); ("total_watts", pr_total_uw p)] ∧
  get "pod_uid" v = Some (Str (pr_pod_uid p)) ∧ get "namespace" v = Some (Str (pr_namespace p)) ∧
  get "node_name" v = Some (Str (pr_node_name p)).
Proof.
  split; [|done]. intros key uw Hin.
  by repeat (apply elem_of_cons in Hin as [[= -> ->]|Hin]; [done|]); apply elem_of_nil in Hin.
Qed.

(** C37: the single-object endpoints, in any state the controller can get to.  A
    node is found exactly when the agents' slot has it, and the answer shows the
    powers of its latest report; a pod is found exactly when some metering method
    has it, and the answer shows the powers of one of those reports, under the
    uid asked for. *)
Theorem single_views_exact key c now params : reachable key c →
  let ag := aggregator (c_server c) in
  let uid := param_or_empty params "uid" in
  match handle_node now params ag, nodes ag !! (param_or_empty params "name", "keck") with
  | ViewOk v, Some st =>
      let r := ns_report st in
      shows v [("cpu_watts", nr_cpu_uw r); ("memory_watts", nr_memory_uw r); ("gpu_watts", nr_gpu_uw r); ("idle_watts", nr_idle_uw r)] ∧
      get "node_name" v = Some (Str (param_or_empty params "name")) ∧
      get "platform_watts" v = Some (json_opt json_watts (nr_platform_uw r))
  | NotFound, None => True
  | _, _ => False
  end ∧
  match handle_pod params ag with
  | NotFound => ∀ m, pods ag !! (uid, m) = None
  | ViewOk v => ∃ m st, pods ag !! (uid, m) = Some st ∧
      let p := ps_report st in
      shows v [("cpu_watts", pr_cpu_uw p); ("memory_watts", pr_memory_uw p); ("gpu_watts", pr_gpu_uw p);
               ("storage_watts", pr_storage_uw p); ("io_watts", pr_io_uw p); ("total_watts", pr_total_uw p)] ∧
      get "pod_uid" v = Some (Str uid) ∧ get "namespace" v = Some (Str (pr_namespace p)) ∧
      get "node_name" v = Some (Str (pr_node_name p))
  end.
Proof.
  intros [Ha _]%reachable_ok. cbn zeta. split.
  - unfold handle_node, node_summary. set (n := param_or_empty params "name").
    destruct (list_find_p _ _) as [s|] eqn:E.
    + apply list_find_p_Some in E as [(st & -> & Hin)%list_elem_of_fmap Hn%String.eqb_eq].
      rewrite (proj1 (keck_nodes _ n st Ha) (conj Hin Hn)), <-Hn. apply node_json_shows.
    + destruct (nodes _ !! (n, "keck")) as [st|] eqn:Hn; [|done]. apply keck_nodes in Hn as [Hin <-]; [|done].
      apply (proj1 (list_find_p_None _ _)) with (x := node_summary_of now st) in E; [|apply list_elem_of_fmap; eauto].
      cbn in E. by rewrite String.eqb_refl in E.
  - unfold handle_pod. pose proof (pod_power_exact _ (param_or_empty params "uid") Ha) as Hp.
    destruct (pod_power _ _) as [r|]; [|done]. destruct Hp as (Hu & m & st & Hst & <-). exists m, st. split; [done|].
    rewrite <-Hu. apply pod_json_shows.
Qed.

(** The cluster page agrees with itself, whatever the state, the method asked
    for and the classification: it lists as many nodes as it counts, its data
    quality block says a component is unavailable exactly when the page shows
    zero power for it, it raises the ground-truth alert exactly when there is no
    platform power, and the method it names is the one it was asked for. *)
Theorem cluster_page_consistent now cls params ag :
  let v := handle_cluster now cls params ag in
  let power := cluster_power (param_method params) ag in
  (∃ ns, get "nodes" v = Some (Array ns) ∧ get "node_count" v = Some (json_len (length ns))) ∧
  ∃ dq, get "data_quality" v = Some dq ∧
    (∀ comp uw, (comp, uw) ∈ [("cpu", cl_cpu_uw power); ("memory", cl_memory_uw power); ("gpu", cl_gpu_uw power);
                              ("platform", cl_platform_uw power)] →
       get (String.append comp "_watts") v = Some (json_watts uw) ∧
       get comp dq ≫= get "available" = Some (Bool (0 <? uw))) ∧
    get "alerts" dq ≫= get "missing_ground_truth" = Some (Bool (cl_platform_uw power <=? 0)) ∧
    get "attribution" dq ≫= get "method" = Some (Str (default "keck" (param_method params))).
Proof.
  cbn zeta. unfold handle_cluster. set (power := cluster_power _ _). split.
  - eexists. rewrite !get_cons. cbn [String.eqb Ascii.eqb Bool.eqb]. split; [done|]. do 2 f_equal. rewrite length_fmap.
    unfold node_summaries. rewrite length_fmap. unfold power, cluster_power. cbn [cl_node_count].
    by rewrite (foldl_count (λ s a, cluster_step a s) a_count).
  - eexists. split; [by rewrite !get_cons|]. split; [|by rewrite Z.leb_antisym].
    intros comp uw Hin. repeat (apply elem_of_cons in Hin as [[= -> ->]|Hin]; [by split|]). by apply elem_of_nil in Hin.
Qed.
End controller.

(** ** Witnesses *)

#[local] Existing Instance hash_iter_list.

Definition ctl_reported : Controller :=
  {| c_server := (handle_report sec sec sec None demo_report (c_server (Controller_new None))).2;
     c_cls := c_cls (Controller_new None); c_metrics := Metrics_new |}.
Definition ctl_scraped : Controller :=
  {| c_server := c_server ctl_reported; c_cls := c_cls ctl_reported;
     c_metrics := handle_metrics (3 * sec) (aggregator (c_server ctl_reported)) Metrics_new |}.
Lemma ctl_scraped_reachable : reachable None ctl_scraped.
Proof.
  apply rtc_l with ctl_reported; [apply (StepReport sec sec sec None demo_report (Controller_new None))|].
  apply rtc_once. apply (StepScrape (3 * sec) ctl_reported).
Qed.

Lemma scrape_gauges_exact_witness :
  let m := handle_metrics (5 * sec) (aggregator (c_server ctl_scraped)) (c_metrics ctl_scraped) in
  agent_last_report_secs m !! "n1" = Some (f_of_Z 4) ∧ namespace_power_watts m !! ("shop", "total") = Some (watts 30).
Proof.
  destruct (scrape_gauges_exact None ctl_scraped (5 * sec) ctl_scraped_reachable) as (Hn & Hns & _). cbn zeta in *. split.
  - specialize (Hn "n1"). destruct (nodes _ !! ("n1", "keck")) as [st|] eqn:E; [|by vm_compute in E].
    destruct Hn as (_ & _ & -> & _). vm_compute in E. injection E as <-. vm_compute. reflexivity.
  - rewrite Hns. vm_compute. reflexivity.
Defined.
Lemma single_views_exact_witness :
  handle_pod {["uid" := "a"]} (aggregator (c_server ctl_scraped)) ≠ NotFound ∧
  handle_node 0 {["name" := "n2"]} (aggregator (c_server ctl_scraped)) = NotFound.
Proof.
  split.
  - intros Hp. destruct (single_views_exact None ctl_scraped 0 {["uid" := "a"]} ctl_scraped_reachable) as [_ H].
    cbn zeta in H. rewrite Hp in H. specialize (H "keck"). by vm_compute in H.
  - destruct (single_views_exact None ctl_scraped 0 {["name" := "n2"]} ctl_scraped_reachable) as [H _].
    assert (nodes (aggregator (c_server ctl_scraped)) !! ("n2", "keck") = None) as Hn by (vm_compute; reflexivity).
    change (param_or_empty {["name" := "n2"]} "name") with "n2" in H. rewrite Hn in H.
    revert H. generalize (handle_node 0 {["name" := "n2"]} (aggregator (c_server ctl_scraped))).
    intros [v|] H; [destruct H|reflexivity].
Defined.

(** A node that left the cluster is gone from the API but stays in the exported
    metrics, with its last power, for as long as the controller runs. *)
Example removed_node_still_exported :
  let ag := watch_nodes_round (Some []) (aggregator (c_server ctl_scraped)) in
  handle_node 0 {["name" := "n1"]} ag = NotFound ∧
  node_power_watts (handle_metrics (9 * sec) ag (c_metrics ctl_scraped)) !! "n1" =
    node_power_watts (c_metrics ctl_scraped) !! "n1" ∧
  is_Some (node_power_watts (c_metrics ctl_scraped) !! "n1").
Proof. split; [by vm_compute|]. split; [by vm_compute|]. vm_compute. eauto. Qed.
(** The single-pod page answers with whichever method's report the table yields
    first: here the agent's and Kepler's disagree, and only one is shown. *)
Example pod_view_ignores_method :
  let report method uw :=
    {| ar_node := demo_node "n1" method; ar_pods := [demo_pod "n1" "a" "shop" method sec uw] |} in
  let ag := ingest sec sec sec (report "kepler" 70) (ingest sec sec sec (report "keck" 30) ClusterAggregator_new) in
  size (pods ag) = 2%nat ∧ ∃ v, handle_pod {["uid" := "a"; "method" := "kepler"]} ag = ViewOk v ∧
    handle_pod {["uid" := "a"; "method" := "keck"]} ag = ViewOk v.
Proof. split; [by vm_compute|]. eexists. split; vm_compute; reflexivity. Qed.
