(* ===== verification/Host.v ===== *)
(** * Host: what the agent's drivers see of their machine

    Files, environment variables and HTTP endpoints are functions.  The [PowerSource] trait of
    keck-agent/src/hardware/mod.rs is the class [SourceTrait], and what its
    clients rely on is [LawfulSource].

    An error message is the part the drivers write themselves; what they append
    of an integer parser's error is left out. *)

From S2P Require Import Prelude F64 Json Common Text Collector.
From Stdlib Require Import Ascii.

Open Scope Z_scope.

(** ** The machine *)

Record Response := {
  rs_success : bool;
  rs_status : string;
  rs_json : result Value string;
  rs_text : result string string
}.
Inductive Auth :=
| NoAuth
| Basic (user password : string)
| Bearer (token : string).

Record Host := {
  (** [Path::exists], [fs::read_to_string], and [fs::read_dir] with the names it
      yields *)
  h_exists : string → bool;
  h_read : string → result string string;
  h_dir : string → result (list (result string string)) string;
  h_env : string → option string;
  (** building an HTTP client, and a GET request *)
  h_client : result unit string;
  h_get : Auth → string → result Response string
}.

Definition join (dir name : string) : string := String.append dir (String "/"%char name).
Definition read_trimmed (h : Host) (path : string) : option string :=
  match h_read h path with Ok s => Some (trim s) | Err _ => None end.
Definition env_or_empty (h : Host) (name : string) : string := default EmptyString (h_env h name).

(** Get the sysfs root: /host/sys in containers, /sys on bare metal. *)
Definition sysfs_root (h : Host) : string := if h_exists h "/host/sys/class" then "/host/sys" else "/sys".
Definition procfs_root (h : Host) : string := if h_exists h "/host/proc/1" then "/host/proc" else "/proc".

(** Read a u64 from a sysfs file. *)
Definition read_u64_file (h : Host) (path : string) : result Z SourceError :=
  match h_read h path with
  | Err e => Err (Read e)
  | Ok content =>
      match parse_u64 (trim content) with
      | Some n => Ok n
      | None => Err (Parse path)
      end
  end.

(** ** Decimal numbers in names: [format!("{}", n)] *)
Fixpoint digits_of (fuel : nat) (n : Z) (acc : string) : string :=
  match fuel with
  | O => acc
  | S fuel =>
      let acc := String (ascii_of_nat (Z.to_nat (48 + n mod 10))) acc in
      if n <? 10 then acc else digits_of fuel (n / 10) acc
  end.
Definition show (n : Z) : string := digits_of (S (Z.to_nat (Z.log2 n))) n EmptyString.

(** ** The trait *)

Class SourceTrait (S : Type) := {
  describe : S → PowerSource;
  read : Host → Z → S → result PowerReading SourceError
}.

(** What the collector and the agent rely on: a reading describes its source,
    and carries an energy counter or a power, a u64 either way; which of the two
    depends on the source alone, so that two readings of it can be compared. *)
Record reading_ok (src : PowerSource) (energy : bool) (time : Z) (r : PowerReading) : Prop := {
  rok_id : source_id r = src_id src;
  rok_time : r_timestamp r = time;
  rok_component : r_component r = src_component src;
  rok_granularity : r_granularity r = src_granularity src;
  rok_type : r_type r = src_reading_type src;
  rok_value : if energy then ∃ e, energy_uj r = Some e ∧ is_u64 e ∧ power_uw r = None
              else ∃ p, power_uw r = Some p ∧ is_u64 p ∧ energy_uj r = None
}.
Class LawfulSource (S : Type) `{SourceTrait S} := {
  counts_energy : S → bool;
  read_lawful : ∀ h t (s : S) r, read h t s = Ok r → reading_ok (describe s) (counts_energy s) t r
}.

(** [Box<dyn PowerSource>] *)
Record DynSource := {
  dyn_type : Type;
  dyn_trait : SourceTrait dyn_type;
  dyn_lawful : LawfulSource dyn_type;
  dyn_source : dyn_type
}.
Definition boxed {S} `{LawfulSource S} (s : S) : DynSource :=
  {| dyn_type := S; dyn_trait := _; dyn_lawful := _; dyn_source := s |}.
#[global] Instance dyn_source_trait : SourceTrait DynSource := {
  describe := λ d, @describe _ (dyn_trait d) (dyn_source d);
  read := λ h t d, @Host.read _ (dyn_trait d) h t (dyn_source d)
}.
#[global] Instance dyn_source_lawful : LawfulSource DynSource.
Proof.
  refine {| counts_energy := λ d : DynSource, @counts_energy _ (dyn_trait d) (dyn_lawful d) (dyn_source d) |}.
  intros h t d r. exact (@read_lawful _ (dyn_trait d) (dyn_lawful d) h t (dyn_source d) r).
Defined.

(** ** Facts *)

Lemma omap_cons_match {A B} (f : A → option B) x l :
  omap f (x :: l) = match f x with Some y => y :: omap f l | None => omap f l end.
Proof. done. Qed.

Lemma parse_u64_range s n : parse_u64 s = Some n → is_u64 n.
Proof.
  unfold parse_u64, parse_uint.
  set (body := match s with String "+" s' => s' | _ => s end). clearbody body.
  destruct (_ && _) eqn:E; [|done]. intros [= <-]. apply andb_prop in E as [[_ Hd]%andb_prop Hle%Z.leb_le].
  assert (∀ acc t, 0 <= acc → str_all is_ascii_digit t = true → 0 <= digits_val acc t) as Hpos.
  { intros acc t. revert acc. induction t as [|c t IH]; intros acc Ha; [done|]. cbn.
    intros [Hc Ht]%andb_prop. apply IH; [|done]. unfold is_ascii_digit, digit_val in *. lia. }
  specialize (Hpos 0 body ltac:(lia) Hd). unfold is_u64, u64_max in *. lia.
Qed.
Lemma read_u64_file_range h path n : read_u64_file h path = Ok n → is_u64 n.
Proof.
  unfold read_u64_file. destruct (h_read h path) as [c|]; [|done]. destruct (parse_u64 (trim c)) eqn:E; [|done].
  intros [= ->]. by eapply parse_u64_range.
Qed.
Lemma result_default_range {E} (x : result Z E) : (∀ n, x = Ok n → is_u64 n) →
  is_u64 (match x with Ok n => n | Err _ => 0 end).
Proof. destruct x as [n|]; intros H; [by apply H|]. by unfold is_u64, u64_mod. Qed.

(** *** A printed number is read back *)
Definition digit_char (d : Z) : ascii := ascii_of_nat (Z.to_nat (48 + d)).
Lemma digit_char_spec d : 0 <= d < 10 → is_ascii_digit (digit_char d) = true ∧ digit_val (digit_char d) = d.
Proof.
  intros Hd. assert (d = 0 ∨ d = 1 ∨ d = 2 ∨ d = 3 ∨ d = 4 ∨ d = 5 ∨ d = 6 ∨ d = 7 ∨ d = 8 ∨ d = 9) as H by lia.
  by repeat destruct H as [->|H]; [..|subst].
Qed.
Lemma digits_of_step fuel n acc : digits_of (S fuel) n acc =
  if n <? 10 then String (digit_char (n mod 10)) acc else digits_of fuel (n / 10) (String (digit_char (n mod 10)) acc).
Proof. done. Qed.
(** Printing pushes the digits of [n] in front of [acc]. *)
Lemma digits_of_read fuel n acc : 0 <= n < 2 ^ Z.of_nat fuel → (0 < fuel)%nat → ∃ ds,
  digits_of fuel n acc = String.append ds acc ∧ str_all is_ascii_digit ds = true ∧ str_nonempty ds = true ∧
  digits_val 0 ds = n.
Proof.
  revert n acc. induction fuel as [|fuel IH]; intros n acc Hn Hf; [lia|]. rewrite digits_of_step.
  destruct (Z.ltb_spec n 10) as [Hlt|Hge].
  - rewrite Z.mod_small by lia. destruct (digit_char_spec n) as [Hd Hv]; [lia|].
    exists (String (digit_char n) EmptyString). cbn. rewrite Hd, Hv. done.
  - assert (0 <= n mod 10 < 10) as Hm by (apply Z.mod_pos_bound; lia).
    destruct (digit_char_spec (n mod 10) Hm) as [Hd Hv].
    assert (2 ^ Z.of_nat (S fuel) = 2 * 2 ^ Z.of_nat fuel) as Hpow by (rewrite Nat2Z.inj_succ, Z.pow_succ_r; lia).
    assert (0 < fuel)%nat by (destruct fuel; [cbn in Hn; lia|lia]).
    destruct (IH (n / 10) (String (digit_char (n mod 10)) acc)) as (ds & -> & Hds & Hne & Hval).
    { split; [apply Z.div_pos; lia|]. apply Z.div_lt_upper_bound; lia. }
    { done. }
    exists (String.append ds (String (digit_char (n mod 10)) EmptyString)).
    rewrite append_assoc, append_cons, append_nil, str_all_app, Hds. cbn [str_all]. rewrite Hd.
    split; [done|]. split; [done|]. split; [by destruct ds|].
    assert (∀ a t u, digits_val a (String.append t u) = digits_val (digits_val a t) u) as Happ.
    { intros a t u. revert a. induction t as [|c t IHt]; intros a; [done|]. rewrite append_cons. cbn. apply IHt. }
    rewrite Happ, Hval. cbn. rewrite Hv. pose proof (Z.div_mod n 10). lia.
Qed.
Lemma show_spec n : 0 <= n → str_all is_ascii_digit (show n) = true ∧ str_nonempty (show n) = true ∧
  digits_val 0 (show n) = n.
Proof.
  intros Hn. unfold show. destruct (digits_of_read (S (Z.to_nat (Z.log2 n))) n EmptyString) as (ds & -> & ?); [|lia|].
  - split; [done|]. rewrite Nat2Z.inj_succ, Z2Nat.id by apply Z.log2_nonneg.
    destruct (decide (n = 0)) as [->|]; [done|]. apply Z.log2_spec. lia.
  - by rewrite append_nil_r.
Qed.
Lemma show_inj a b : 0 <= a → 0 <= b → show a = show b → a = b.
Proof. intros Ha Hb H. destruct (show_spec a Ha) as (_ & _ & <-), (show_spec b Hb) as (_ & _ & <-). by rewrite H. Qed.
Lemma parse_show mx n : 0 <= n <= mx → parse_uint mx (show n) = Some n.
Proof.
  intros Hn. destruct (show_spec n) as (Hd & Hne & Hv); [lia|]. unfold parse_uint.
  assert (match show n with String "+" s' => s' | _ => show n end = show n) as ->.
  { destruct (show n) as [|c s]; [done|]. cbn in Hd. apply andb_prop in Hd as [Hc _].
    destruct c as [[] [] [] [] [] [] [] []]; done. }
  rewrite Hd, Hne, Hv. by destruct (Z.leb_spec n mx); [|lia].
Qed.
Lemma show_no_colon n : 0 <= n → free_of ":"%char (show n) = true.
Proof.
  intros Hn. destruct (show_spec n Hn) as (Hd & _). eapply str_all_impl; [|exact Hd]. intros c Hc.
  by destruct (Ascii.eqb_spec c ":"%char) as [->|].
Qed.

(** *** Lists *)
Lemma fmap_bind_list {A B C} (f : B → C) (g : A → list B) l : f <$> (l ≫= g) = l ≫= λ x, f <$> g x.
Proof. induction l as [|x l IH]; [done|]. rewrite !bind_cons, fmap_app. by rewrite IH. Qed.
Lemma NoDup_omap_key {A B} (f : A → option B) (key : B → string) l : NoDup l →
  (∀ x y a b, x ∈ l → y ∈ l → f x = Some a → f y = Some b → key a = key b → x = y) → NoDup (key <$> omap f l).
Proof.
  induction 1 as [|x l Hx Hl IH]; intros Hf; [constructor|]. rewrite omap_cons_match.
  assert (NoDup (key <$> omap f l)) as Hnd.
  { apply IH. intros y z a b Hy Hz. apply Hf; by right. }
  destruct (f x) as [a|] eqn:Ha; [|done]. rewrite fmap_cons. constructor; [|done].
  intros (b & Hk & (y & Hy & Hb)%list_elem_of_omap)%list_elem_of_fmap. apply Hx.
  rewrite (Hf x y a b); [done|left|by right|done..].
Qed.
Lemma elem_of_option_list {A} (o : option A) x : x ∈ option_list o ↔ o = Some x.
Proof. destruct o as [y|]; cbn; rewrite ?list_elem_of_singleton; [naive_solver|]. split; [by intros ?%not_elem_of_nil|done]. Qed.
(** A machine given by its files (a path and its contents), directories and
    environment, with no network. *)
Definition assoc {A} (l : list (string * A)) (k : string) : option A := snd <$> list_find_p (λ kv, String.eqb kv.1 k) l.
Definition is_some {A} (o : option A) : bool := match o with Some _ => true | None => false end.
Definition file_host (files : list (string * string)) (dirs : list (string * list string)) (env : list (string * string))
    : Host :=
  {| h_exists := λ p, is_some (assoc files p) || is_some (assoc dirs p);
     h_read := λ p, match assoc files p with Some s => Ok s | None => Err "No such file or directory" end;
     h_dir := λ p, match assoc dirs p with Some l => Ok (Ok <$> l) | None => Err "No such file or directory" end;
     h_env := assoc env;
     h_client := Ok tt;
     h_get := λ _ _, Err "connection refused" |}.
Definition line_of (s : string) : string := String.append s (String newline EmptyString).
