(* ===== verification/Rapl.v ===== *)
(** * Rapl: the CPU's energy counters

    keck-agent/src/hardware/rapl.rs over the files of [Host]. *)

From S2P Require Import Prelude F64 Json Common Text Collector Host.
From Stdlib Require Import Ascii.

Open Scope Z_scope.

Record RaplSource := {
  rapl_id : string;
  rapl_name : string;
  rapl_path : string;
  rapl_component : Component;
  rapl_granularity : Granularity;
  rapl_max_energy_uj : Z
}.

Definition RaplSource_new (h : Host) (domain : string) (socket : Z) (path : string) (component : Component)
    : result RaplSource SourceError :=
  let id_str := String.append "rapl:" (String.append domain (String.append ":" (show socket))) in
  let max_energy_uj := match read_u64_file h (join path "max_energy_range_uj") with Ok n => n | Err _ => 0 end in
  let zone_name := default domain (read_trimmed h (join path "name")) in
  Ok {| rapl_id := id_str;
        rapl_name := String.append "RAPL " (String.append domain (String.append " (socket "
          (String.append (show socket) (String.append "): " zone_name))));
        rapl_path := path; rapl_component := component; rapl_granularity := Socket socket;
        rapl_max_energy_uj := max_energy_uj |}.

#[global] Instance rapl_trait : SourceTrait RaplSource := {
  describe := λ s, {| src_id := rapl_id s; src_name := rapl_name s; src_component := rapl_component s;
                      src_granularity := rapl_granularity s; src_reading_type := Estimated;
                      default_poll_interval := 100 * ms |};
  read := λ h t s,
    match read_u64_file h (join (rapl_path s) "energy_uj") with
    | Err e => Err e
    | Ok energy_uj => Ok {| source_id := rapl_id s; r_timestamp := t; r_component := rapl_component s;
        r_granularity := rapl_granularity s; r_type := Estimated; energy_uj := Some energy_uj; power_uw := None;
        max_energy_uj := rapl_max_energy_uj s |}
    end
}.

(** The socket of a top-level domain [intel-rapl:N], and of a sub-domain
    [intel-rapl:N:M]. *)
Definition u8_max : Z := 255.
Definition domain_socket (parts_expected : nat) (name : string) : option Z :=
  if negb (String.prefix "intel-rapl:" name) then None else
  let parts := str_split ":"%char name in
  if negb (Nat.eqb (length parts) parts_expected) then None else
  parts !! 1%nat ≫= parse_uint u8_max.

(** The loops over the directory: an entry that cannot be read ends them with
    its error. *)
Definition package_entry (h : Host) (powercap name : string) : option RaplSource :=
  socket ← domain_socket 2 name;
  let path := join powercap name in
  if negb (h_exists h (join path "energy_uj")) then None else
  match RaplSource_new h "package" socket path Cpu with Ok s => Some s | Err _ => None end.
Definition dram_entry (h : Host) (powercap name : string) : option RaplSource :=
  socket ← domain_socket 3 name;
  let path := join powercap name in
  zone_name ← read_trimmed h (join path "name");
  if negb (String.eqb zone_name "dram") then None else
  if negb (h_exists h (join path "energy_uj")) then None else
  match RaplSource_new h "dram" socket path Memory with Ok s => Some s | Err _ => None end.
Fixpoint scan_dir {A} (entry : string → option A) (entries : list (result string string)) : result (list A) SourceError :=
  match entries with
  | [] => Ok []
  | Err e :: _ => Err (Read e)
  | Ok name :: rest =>
      match scan_dir entry rest with
      | Err e => Err e
      | Ok l => Ok (match entry name with Some s => s :: l | None => l end)
      end
  end.

Definition granularity_socket (g : Granularity) : Z := match g with Socket n => n | _ => 0 end.
Definition by_socket (a b : RaplSource) : bool :=
  granularity_socket (rapl_granularity a) <=? granularity_socket (rapl_granularity b).

(** Discover RAPL CPU package domains. *)
Definition rapl_discover (h : Host) (sysfs : string) : result (list RaplSource) SourceError :=
  let powercap := String.append sysfs "/class/powercap" in
  if negb (h_exists h powercap) then Err (Unavailable "/sys/class/powercap not found (no RAPL support)") else
  match h_dir h powercap with
  | Err e => Err (Read e)
  | Ok entries =>
      match scan_dir (package_entry h powercap) entries with
      | Err e => Err e
      | Ok [] => Err (Unavailable "No RAPL package domains found")
      | Ok sources => Ok (sort_by by_socket sources)
      end
  end.
(** Discover RAPL DRAM domains (memory energy). *)
Definition rapl_discover_dram (h : Host) (sysfs : string) : result (list RaplSource) SourceError :=
  let powercap := String.append sysfs "/class/powercap" in
  if negb (h_exists h powercap) then Err (Unavailable "no powercap") else
  match h_dir h powercap with
  | Err e => Err (Read e)
  | Ok entries =>
      match scan_dir (dram_entry h powercap) entries with
      | Err e => Err e
      | Ok [] => Err (Unavailable "No RAPL DRAM domains found")
      | Ok sources => Ok sources
      end
  end.

(** ** Theorems *)

#[global] Instance rapl_lawful : LawfulSource RaplSource.
Proof.
  refine {| counts_energy := λ _, true |}.
  intros h t s r. cbn. destruct (read_u64_file _ _) as [e|] eqn:E; [|done]. intros [= <-].
  split; try done. exists e. by eapply read_u64_file_range in E.
Defined.

Lemma scan_dir_all {A} (entry : string → option A) names : scan_dir entry (Ok <$> names) = Ok (omap entry names).
Proof. induction names as [|n names IH]; [done|]. cbn. rewrite IH. by destruct (entry n). Qed.
Lemma scan_dir_error {A} (entry : string → option A) entries l : scan_dir entry entries = Ok l →
  ∃ names, entries = Ok <$> names ∧ l = omap entry names.
Proof.
  revert l. induction entries as [|[n|e] entries IH]; intros l; cbn; [intros [= <-]; by exists []| |done].
  destruct (scan_dir entry entries) as [l'|]; [|done]. intros [= <-]. destruct (IH l' eq_refl) as (names & -> & ->).
  exists (n :: names). cbn. by destruct (entry n).
Qed.

(** The entries of the powercap directory, as the kernel names them. *)
Inductive Zone :=
| Top (socket : Z)
| Sub (socket sub : Z)
| Foreign (name : string).
Definition zone_dir (z : Zone) : string :=
  match z with
  | Top n => String.append "intel-rapl:" (show n)
  | Sub n m => String.append "intel-rapl:" (String.append (show n) (String ":"%char (show m)))
  | Foreign name => name
  end.
Definition zone_ok (z : Zone) : Prop :=
  match z with
  | Top n => 0 <= n <= u8_max
  | Sub n m => 0 <= n <= u8_max ∧ 0 <= m
  | Foreign name => String.prefix "intel-rapl:" name = false
  end.
Definition zone_top (z : Zone) : option Z := match z with Top n => Some n | _ => None end.
Definition zone_sub (z : Zone) : option Z := match z with Sub n _ => Some n | _ => None end.

Lemma split_intel s : str_split ":"%char (String.append "intel-rapl:" s) = "intel-rapl" :: str_split ":"%char s.
Proof. change (String.append "intel-rapl:" s) with (String.append "intel-rapl" (String ":"%char s)). by rewrite str_split_app. Qed.
Lemma domain_socket_zone z : zone_ok z →
  domain_socket 2 (zone_dir z) = zone_top z ∧ domain_socket 3 (zone_dir z) = zone_sub z.
Proof.
  unfold domain_socket. destruct z as [n|n m|name]; cbn [zone_ok zone_dir zone_top zone_sub]; intros Hz.
  - rewrite (prefix_append "intel-rapl:"), split_intel, str_split_none by (apply show_no_colon; lia).
    split; [exact (parse_show u8_max n Hz)|reflexivity].
  - destruct Hz as [Hn Hm]. rewrite (prefix_append "intel-rapl:"), split_intel, str_split_app,
      !str_split_none by (apply show_no_colon; lia).
    split; [reflexivity|exact (parse_show u8_max n Hn)].
  - by rewrite Hz.
Qed.

Definition socket_of (s : RaplSource) : Z := granularity_socket (rapl_granularity s).
Lemma sort_by_socket l : Sorted Z.le (socket_of <$> sort_by by_socket l) ∧ sort_by by_socket l ≡ₚ l.
Proof.
  split; [|apply sort_by_perm].
  pose proof (sort_by_sorted by_socket) as Hs.
  ospecialize (Hs _ l); [intros a b ?%Z.leb_gt; apply Z.leb_le; unfold granularity_socket in *; lia|].
  induction Hs as [|x l' Hl IH Hx]; cbn; constructor; [done|].
  destruct Hx as [|y l'' Hxy]; constructor. apply Is_true_eq_true in Hxy. by apply Z.leb_le.
Qed.

Definition package_of (powercap : string) (s : RaplSource) : Prop :=
  rapl_path s = join powercap (zone_dir (Top (socket_of s))) ∧
  rapl_id s = String.append "rapl:package:" (show (socket_of s)) ∧ rapl_component s = Cpu ∧
  rapl_granularity s = Socket (socket_of s).
(** The packages of a listing. *)
Lemma package_entries_spec h powercap zones : Forall zone_ok zones →
  let l := omap (package_entry h powercap) (zone_dir <$> zones) in
  socket_of <$> l = filter (λ n, h_exists h (join (join powercap (zone_dir (Top n))) "energy_uj") = true) (omap zone_top zones) ∧
  ∀ s, s ∈ l → package_of powercap s.
Proof.
  intros Hok. cbn zeta. induction Hok as [|z zones Hz Hok [IH1 IH2]]; [split; [done|by intros s ?%not_elem_of_nil]|].
    rewrite fmap_cons, !omap_cons_match. 
    destruct (package_entry h powercap (zone_dir z)) as [s0|] eqn:He; unfold package_entry in He;
      destruct (domain_socket_zone z Hz) as [Hd _]; rewrite Hd in He; clear Hd;
      destruct z as [n|n m|name]; try done; cbn [zone_top mbind option_bind zone_dir] in *;
      destruct (h_exists h _) eqn:Hex; cbn [negb] in He; try done; [injection He as <-|].
    - rewrite filter_cons_True by done. split; [by rewrite fmap_cons, IH1|].
      intros s [->|Hs]%elem_of_cons; [done|by apply IH2].
    - rewrite filter_cons_False by congruence. by split.
Qed.

(** RAPL discovery finds every socket once.  On the powercap directory as
    the kernel lays it out, in whatever order it is listed and with whatever
    sub-domains and other controllers beside them, the sources are exactly one
    per socket with a counter, in the order of the sockets, each reading the
    counter of its own domain and carrying its own id. *)
Theorem rapl_discover_exact h sysfs zones :
  let powercap := String.append sysfs "/class/powercap" in
  h_exists h powercap = true → h_dir h powercap = Ok ((λ z, Ok (zone_dir z)) <$> zones) → Forall zone_ok zones →
  let tops := filter (λ n, h_exists h (join (join powercap (zone_dir (Top n))) "energy_uj") = true) (omap zone_top zones) in
  match rapl_discover h sysfs with
  | Ok srcs => srcs ≠ [] ∧ Sorted Z.le (socket_of <$> srcs) ∧ socket_of <$> srcs ≡ₚ tops ∧
      ∀ s, s ∈ srcs → rapl_path s = join powercap (zone_dir (Top (socket_of s))) ∧
        describe s = {| src_id := String.append "rapl:package:" (show (socket_of s)); src_name := rapl_name s;
          src_component := Cpu; src_granularity := Socket (socket_of s); src_reading_type := Estimated;
          default_poll_interval := 100 * ms |}
  | Err _ => tops = []
  end.
Proof.
  intros powercap Hex Hdir Hok tops. unfold rapl_discover. fold powercap. rewrite Hex, Hdir. cbn [negb].
  change ((λ z, Ok (zone_dir z)) <$> zones) with ((Ok ∘ zone_dir : Zone → result string string) <$> zones).
  rewrite list_fmap_compose, scan_dir_all.
  destruct (package_entries_spec h powercap zones Hok) as [Htops Hl]. fold tops in Htops.
  set (l := omap (package_entry h powercap) (zone_dir <$> zones)) in *.
  rewrite <-Htops. clearbody l tops. destruct l as [|x l']; [done|].
  destruct (sort_by_socket (x :: l')) as [Hs Hp]. split.
  { intros Hn. rewrite Hn in Hp. by apply Permutation_nil_cons in Hp. }
  split; [done|]. split; [by rewrite Hp|]. intros s. rewrite Hp. intros Hin.
  destruct (Hl s Hin) as (-> & Hid & Hc & Hg). split; [done|]. cbn. by rewrite Hid, Hc, Hg.
Qed.

Definition demo_zones : list Zone := [Sub 1 0; Top 1; Foreign "dtpm"; Top 0].
Definition demo_host : Host :=
  file_host [("/sys/class/powercap/intel-rapl:0/energy_uj", line_of "123456");
             ("/sys/class/powercap/intel-rapl:1/energy_uj", line_of "777");
             ("/sys/class/powercap/intel-rapl:1/max_energy_range_uj", line_of "262143328850")]
            [("/sys/class/powercap", zone_dir <$> demo_zones)] [].

Lemma rapl_discover_exact_witness :
  match rapl_discover demo_host "/sys" with
  | Ok srcs => socket_of <$> srcs ≡ₚ [1; 0] ∧ Sorted Z.le (socket_of <$> srcs)
  | Err _ => False
  end ∧
  match rapl_discover demo_host "/sys" with
  | Ok srcs => (λ s, match read demo_host 0 s with Ok r => energy_uj r | Err _ => None end) <$> srcs = [Some 123456; Some 777]
  | Err _ => False
  end.
Proof.
  split; [|vm_compute; reflexivity].
  pose proof (rapl_discover_exact demo_host "/sys" demo_zones eq_refl eq_refl) as H.
  ospecialize (H _); [repeat (apply Forall_cons; split; [by vm_compute|]); by apply Forall_nil|].
  cbn zeta in H. destruct (rapl_discover demo_host "/sys") as [srcs|e] eqn:E; [|by vm_compute in E].
  destruct H as (_ & Hs & Hp & _). split; [|exact Hs]. rewrite Hp. vm_compute. reflexivity.
Defined.
