(* ===== verification/Hwmon.v ===== *)
(** * Hwmon: on-board power and energy sensors

    keck-agent/src/hardware/hwmon.rs over the files of [Host]. *)

From S2P Require Import Prelude F64 Json Common Text Classify Collector Host.
From Stdlib Require Import Ascii.

Open Scope Z_scope.

Inductive HwmonSensor :=
| PowerSensor (path : string)
| EnergySensor (path : string) (max_path : option string).

Record HwmonSource := {
  hw_id : string;
  hw_display_name : string;
  hw_chip_name : string;
  hw_component : Component;
  hw_sensor : HwmonSensor
}.

Definition hwmon_reading (t : Z) (s : HwmonSource) (energy power : option Z) (max_energy : Z) : PowerReading :=
  {| source_id := hw_id s; r_timestamp := t; r_component := hw_component s; r_granularity := Node;
     r_type := Measured; energy_uj := energy; power_uw := power; max_energy_uj := max_energy |}.
#[global] Instance hwmon_trait : SourceTrait HwmonSource := {
  describe := λ s, {| src_id := hw_id s; src_name := hw_display_name s; src_component := hw_component s;
                      src_granularity := Node; src_reading_type := Measured; default_poll_interval := 500 * ms |};
  read := λ h t s,
    match hw_sensor s with
    | PowerSensor path =>
        match read_u64_file h path with
        | Err e => Err e
        | Ok power_uw => Ok (hwmon_reading t s None (Some power_uw) 0)
        end
    | EnergySensor path max_path =>
        match read_u64_file h path with
        | Err e => Err e
        | Ok energy_uj =>
            let max_energy := match max_path with
                              | Some p => match read_u64_file h p with Ok n => n | Err _ => 0 end
                              | None => 0
                              end in
            Ok (hwmon_reading t s (Some energy_uj) None max_energy)
        end
    end
}.

(** Classify which component an hwmon sensor belongs to based on chip name and label. *)
Definition to_lowercase (s : string) : string := str_map to_lower s.
Definition contains_any (s : string) (subs : list string) : bool := existsb (str_contains s) subs.
Definition classify_component (chip_name label : string) : Component :=
  let name_lower := to_lowercase chip_name in
  let label_lower := to_lowercase label in
  if contains_any name_lower ["nvidia"; "amdgpu"; "radeon"; "xe"] then Gpu
  else if contains_any name_lower ["mlx"; "ice"; "bnxt"; "i40e"] || contains_any label_lower ["network"; "nic"] then Nic
  else if contains_any name_lower ["nvme"; "drivetemp"] || contains_any label_lower ["disk"; "ssd"] then Storage
  else if contains_any label_lower ["cpu"; "vcore"; "package"] then Cpu
  else if contains_any label_lower ["dram"; "dimm"; "memory"] then Memory
  else Cpu.

Definition sensor_file (dir kind : string) (n : Z) (suffix : string) : string :=
  join dir (String.append kind (String.append (show n) suffix)).
Definition sensor_id (hwmon_name kind : string) (n : Z) (chip_name : string) : string :=
  String.append "hwmon:" (String.append hwmon_name (String.append ":" (String.append kind
    (String.append (show n) (String.append ":" chip_name))))).
Definition sensor_name (chip_name kind : string) (n : Z) (label : string) : string :=
  String.append "hwmon " (String.append chip_name (String.append " " (String.append kind
    (String.append (show n) (String.append " (" (String.append label ")")))))).

(** One turn of the loop over power{N}_input, and over energy{N}_input. *)
Definition power_sensor (h : Host) (dir hwmon_name chip_name : string) (n : Z) : option HwmonSource :=
  let power_path := sensor_file dir "power" n "_input" in
  if negb (h_exists h power_path) then None else
  let label := default EmptyString (read_trimmed h (sensor_file dir "power" n "_label")) in
  let enable_path := sensor_file dir "power" n "_enable" in
  let disabled := h_exists h enable_path &&
                  match read_trimmed h enable_path with Some v => String.eqb v "0" | None => false end in
  if disabled then None else
  Some {| hw_id := sensor_id hwmon_name "power" n chip_name;
          hw_display_name := sensor_name chip_name "power" n (if str_nonempty label then label else "unlabeled");
          hw_chip_name := chip_name; hw_component := classify_component chip_name label;
          hw_sensor := PowerSensor power_path |}.
Definition energy_sensor (h : Host) (dir hwmon_name chip_name : string) (n : Z) : option HwmonSource :=
  let energy_path := sensor_file dir "energy" n "_input" in
  if negb (h_exists h energy_path) then None else
  let label := default EmptyString (read_trimmed h (sensor_file dir "energy" n "_label")) in
  let p := sensor_file dir "energy" n "_max" in
  Some {| hw_id := sensor_id hwmon_name "energy" n chip_name; hw_display_name := sensor_name chip_name "energy" n label;
          hw_chip_name := chip_name; hw_component := classify_component chip_name label;
          hw_sensor := EnergySensor energy_path (if h_exists h p then Some p else None) |}.
(** [1..=16] *)
Definition sensor_numbers : list Z := Z.of_nat <$> seq 1 16.
Definition chip_of (h : Host) (dir : string) : string := default EmptyString (read_trimmed h (join dir "name")).
Definition chip_sensors (h : Host) (base hwmon_name : string) : list HwmonSource :=
  let dir := join base hwmon_name in
  let chip_name := chip_of h dir in
  omap (power_sensor h dir hwmon_name chip_name) sensor_numbers ++
  omap (energy_sensor h dir hwmon_name chip_name) sensor_numbers.

Fixpoint concat_dir (entry : string → list HwmonSource) (entries : list (result string string))
    : result (list HwmonSource) SourceError :=
  match entries with
  | [] => Ok []
  | Err e :: _ => Err (Read e)
  | Ok name :: rest => match concat_dir entry rest with Err e => Err e | Ok l => Ok (entry name ++ l) end
  end.
(** Discover hwmon power and energy sensors. *)
Definition hwmon_discover (h : Host) (sysfs : string) : result (list HwmonSource) SourceError :=
  let base := String.append sysfs "/class/hwmon" in
  if negb (h_exists h base) then Err (Unavailable "no /sys/class/hwmon") else
  match h_dir h base with
  | Err e => Err (Read e)
  | Ok entries =>
      match concat_dir (chip_sensors h base) entries with
      | Err e => Err e
      | Ok [] => Err (Unavailable "No hwmon power sensors found")
      | Ok sources => Ok sources
      end
  end.

(** ** Theorems *)

#[global] Instance hwmon_lawful : LawfulSource HwmonSource.
Proof.
  refine {| counts_energy := λ s, match hw_sensor s with PowerSensor _ => false | EnergySensor _ _ => true end |}.
  intros h t s r. cbn. destruct (hw_sensor s) as [path|path max_path];
    destruct (read_u64_file h path) as [v|] eqn:E; try done; intros [= <-]; apply read_u64_file_range in E;
    split; try done; by exists v.
Defined.

Lemma concat_dir_all entry names : concat_dir entry (Ok <$> names) = Ok (names ≫= entry).
Proof. induction names as [|n names IH]; [done|]. cbn. by rewrite IH. Qed.
Lemma sensor_id_inj hn hn' kind kind' n n' c c' : free_of ":"%char hn = true → free_of ":"%char hn' = true →
  kind ∈ ["power"; "energy"] → kind' ∈ ["power"; "energy"] → 0 <= n → 0 <= n' →
  sensor_id hn kind n c = sensor_id hn' kind' n' c' → hn = hn' ∧ kind = kind' ∧ n = n'.
Proof.
  intros Hh Hh' Hk Hk' Hn Hn' H%append_cancel_l. unfold sensor_id in H.
  change (String.append ":" ?x) with (String ":"%char x) in H.
  apply split_name_inj in H as [-> H]; [|done..].
  rewrite <-(append_assoc kind (show n)), <-(append_assoc kind' (show n')) in H.
  apply split_name_inj in H as [H _].
  - assert (kind = kind') as ->; [|apply append_cancel_l, show_inj in H; auto].
    apply elem_of_cons in Hk as [->| ->%list_elem_of_singleton];
      apply elem_of_cons in Hk' as [->| ->%list_elem_of_singleton]; try done; by rewrite !append_cons in H.
  - rewrite str_all_app, show_no_colon, andb_true_r by done.
    by apply elem_of_cons in Hk as [->| ->%list_elem_of_singleton].
  - rewrite str_all_app, show_no_colon, andb_true_r by done.
    by apply elem_of_cons in Hk' as [->| ->%list_elem_of_singleton].
Qed.

Lemma sensor_numbers_spec n : n ∈ sensor_numbers ↔ 1 <= n <= 16.
Proof.
  unfold sensor_numbers. rewrite list_elem_of_fmap. setoid_rewrite elem_of_seq. split; [intros (i & -> & ?); lia|].
  intros Hn. exists (Z.to_nat n). lia.
Qed.
Lemma sensor_numbers_NoDup : NoDup sensor_numbers.
Proof. apply NoDup_fmap_2; [apply _|apply NoDup_seq]. Qed.

(** The sensor a source was made from. *)
Definition sensor_of (h : Host) (base : string) (s : HwmonSource) (name kind : string) (n : Z) : Prop :=
  let dir := join base name in
  (kind = "power" ∧ power_sensor h dir name (chip_of h dir) n = Some s) ∨
  (kind = "energy" ∧ energy_sensor h dir name (chip_of h dir) n = Some s).
Lemma sensor_of_id h base s name kind n : sensor_of h base s name kind n →
  hw_id s = sensor_id name kind n (chip_of h (join base name)) ∧ kind ∈ ["power"; "energy"].
Proof.
  unfold sensor_of, power_sensor, energy_sensor. cbn zeta.
  intros [[-> H]|[-> H]]; (split; [|set_solver]); destruct (h_exists h _); cbn [negb] in H; try done;
    [destruct (_ && _); [done|]|]; by injection H as <-.
Qed.
Lemma chip_sensors_spec h base name s : s ∈ chip_sensors h base name ↔
  ∃ kind n, 1 <= n <= 16 ∧ sensor_of h base s name kind n.
Proof.
  unfold chip_sensors, sensor_of. rewrite elem_of_app, !list_elem_of_omap. setoid_rewrite sensor_numbers_spec.
  split; [intros [(n & Hn & H)|(n & Hn & H)]; [exists "power"|exists "energy"]; exists n; split; [done|auto|done|auto]|].
  intros (kind & n & Hn & [[_ H]|[_ H]]); [left|right]; eauto.
Qed.
Lemma chip_sensors_NoDup h base name : free_of ":"%char name = true → NoDup (hw_id <$> chip_sensors h base name).
Proof.
  intros Hname. unfold chip_sensors. rewrite fmap_app. apply NoDup_app.
  assert (∀ s kind n s' kind' n', sensor_of h base s name kind n → sensor_of h base s' name kind' n' →
    0 <= n → 0 <= n' → hw_id s = hw_id s' → kind = kind' ∧ n = n') as Hinj.
  { intros s kind n s' kind' n' [-> Hk]%sensor_of_id [-> Hk']%sensor_of_id Hn Hn' Heq.
    by apply sensor_id_inj in Heq as (_ & -> & ->). }
  split; [|split].
  - apply NoDup_omap_key; [apply sensor_numbers_NoDup|]. intros x y a b Hx%sensor_numbers_spec Hy%sensor_numbers_spec Ha Hb He.
    edestruct (Hinj a "power" x b "power" y) as [_ ?]; unfold sensor_of; eauto; lia.
  - intros i (a & -> & (x & Hx%sensor_numbers_spec & Ha)%list_elem_of_omap)%list_elem_of_fmap
      (b & Hi & (y & Hy%sensor_numbers_spec & Hb)%list_elem_of_omap)%list_elem_of_fmap.
    edestruct (Hinj a "power" x b "energy" y) as [? _]; unfold sensor_of; eauto; lia || done.
  - apply NoDup_omap_key; [apply sensor_numbers_NoDup|]. intros x y a b Hx%sensor_numbers_spec Hy%sensor_numbers_spec Ha Hb He.
    edestruct (Hinj a "energy" x b "energy" y) as [_ ?]; unfold sensor_of; eauto; lia.
Qed.

(** Hwmon discovery is complete and its ids are unique.  The sources are
    exactly the enabled power inputs and the energy inputs 1 to 16 of the listed
    chips, an error comes only when there is none, and since no two of them
    share an id the counters remembered under their ids never mix. *)
Theorem hwmon_discover_exact h sysfs names :
  let base := String.append sysfs "/class/hwmon" in
  h_exists h base = true → h_dir h base = Ok (Ok <$> names) → NoDup names →
  Forall (λ n, free_of ":"%char n = true) names →
  let srcs := match hwmon_discover h sysfs with Ok l => l | Err _ => [] end in
  NoDup (hw_id <$> srcs) ∧
  ∀ s, s ∈ srcs ↔ ∃ name kind n, name ∈ names ∧ 1 <= n <= 16 ∧ sensor_of h base s name kind n.
Proof.
  intros base Hex Hdir Hnd Hcolon srcs. assert (srcs = names ≫= chip_sensors h base) as ->.
  { unfold srcs, hwmon_discover. fold base. rewrite Hex, Hdir. cbn [negb].
    rewrite concat_dir_all. by destruct (names ≫= _). }
  split.
  - rewrite fmap_bind_list. apply NoDup_bind; [|intros n Hn; apply chip_sensors_NoDup; by eapply Forall_forall in Hcolon|done].
    intros n n' i Hn Hn' (s & -> & (kind & k & Hk & Hs)%chip_sensors_spec)%list_elem_of_fmap
      (s' & Hi & (kind' & k' & Hk' & Hs')%chip_sensors_spec)%list_elem_of_fmap.
    apply sensor_of_id in Hs as [Hid ?], Hs' as [Hid' ?]. rewrite Hid, Hid' in Hi.
    apply sensor_id_inj in Hi as [-> _]; try done; try lia; by eapply Forall_forall in Hcolon.
  - intros s. rewrite list_elem_of_bind. setoid_rewrite chip_sensors_spec. split.
    + intros (name & (kind & n & Hn & Hs) & Hname). eauto 10.
    + intros (name & kind & n & Hname & Hn & Hs). eauto 10.
Qed.

Definition demo_hwmon_host : Host :=
  file_host [("/sys/class/hwmon/hwmon2/name", line_of "nvme"); ("/sys/class/hwmon/hwmon2/power1_input", line_of "4200000");
             ("/sys/class/hwmon/hwmon0/power1_input", line_of "1"); ("/sys/class/hwmon/hwmon0/power1_enable", line_of "0");
             ("/sys/class/hwmon/hwmon0/energy2_input", line_of "99"); ("/sys/class/hwmon/hwmon0/energy2_label", line_of "DIMM A")]
            [("/sys/class/hwmon", ["hwmon2"; "hwmon0"])] [].
Example hwmon_demo : match hwmon_discover demo_hwmon_host "/sys" with
  | Ok l => (λ s, (hw_id s, hw_component s)) <$> l =
      [("hwmon:hwmon2:power1:nvme", Storage); ("hwmon:hwmon0:energy2:", Memory)]
  | Err _ => False
  end.
Proof. vm_compute. reflexivity. Qed.
Lemma hwmon_discover_exact_witness :
  NoDup (hw_id <$> match hwmon_discover demo_hwmon_host "/sys" with Ok l => l | Err _ => [] end).
Proof.
  apply (hwmon_discover_exact demo_hwmon_host "/sys" ["hwmon2"; "hwmon0"]); [reflexivity|reflexivity|..].
  - apply (bool_decide_unpack _). vm_compute. exact I.
  - repeat (apply Forall_cons; split; [reflexivity|]). by apply Forall_nil.
Defined.
(** A network controller whose name happens to contain "xe" counts as a GPU. *)
Example xe_substring : classify_component "pxe_nic" "network" = Gpu.
Proof. reflexivity. Qed.
