(* ===== verification/Gpu.v ===== *)
(** * Gpu: GPU power from the DCGM exporter

    keck-agent/src/hardware/gpu.rs over the files and endpoints of [Host]. *)

From S2P Require Import Prelude F64 Json Common Text Classify Collector Host.
From Stdlib Require Import Ascii SpecFloat.

Open Scope Z_scope.

Record DcgmGpuSource := {
  gpu_id : string;
  gpu_display_name : string;
  device_index : Z;
  dcgm_url : string;
  gpu_uuid : string
}.

Definition power_line (line : string) : bool := String.prefix "DCGM_FI_DEV_POWER_USAGE{" line.
(** [Hostname="..."] *)
Definition hostname_label (hostname : string) : string :=
  String.append "Hostname" (String.append quoted_eq (String.append hostname (String quote EmptyString))).
(** The lines a source adds up: this node's, and its own GPU's. *)
Definition selects (hostname uuid line : string) : bool :=
  power_line line &&
  negb (str_nonempty hostname && negb (str_contains line (hostname_label hostname))) &&
  negb (str_nonempty uuid && negb (str_contains line uuid)).
Definition line_watts (line : string) : option f64 := rsplit_once_snd " "%char line ≫= parse_f64.
Definition sum_watts (hostname uuid body : string) : f64 :=
  foldl (λ total_watts line,
    if selects hostname uuid line then
      match line_watts line with Some watts => fadd total_watts watts | None => total_watts end
    else total_watts) fzero (str_lines body).
(** [x == 0.0] *)
Definition f64_is_zero (x : f64) : bool := match x with S754_zero _ => true | _ => false end.

#[global] Instance gpu_trait : SourceTrait DcgmGpuSource := {
  describe := λ s, {| src_id := gpu_id s; src_name := gpu_display_name s; src_component := Gpu;
                      src_granularity := Device (device_index s); src_reading_type := Measured;
                      default_poll_interval := 3000 * ms |};
  read := λ h t s,
    match h_get h NoAuth (dcgm_url s) with
    | Err e => Err (Unavailable (String.append "DCGM request failed: " e))
    | Ok resp =>
        match rs_text resp with
        | Err e => Err (Parse (String.append "DCGM response read failed: " e))
        | Ok body =>
            let total_watts := sum_watts (env_or_empty h "NODE_NAME") (gpu_uuid s) body in
            if f64_is_zero total_watts then Err (Unavailable "No GPU power reading from DCGM")
            else Ok {| source_id := gpu_id s; r_timestamp := t; r_component := Gpu;
                       r_granularity := Device (device_index s); r_type := Measured; energy_uj := None;
                       power_uw := Some (f_to_u64 (fmul total_watts (f_of_Z 1000000))); max_energy_uj := 0 |}
        end
    end
}.

(** Extract a label value from a Prometheus metric line. *)
Definition extract_label (line label : string) : option string :=
  after_find (String.append label quoted_eq) line ≫= before_char quote.

(** Auto-discover DCGM exporter pod IP on this node via K8s API. *)
Definition discover_dcgm_url (h : Host) : option string :=
  token ← match h_read h "/var/run/secrets/kubernetes.io/serviceaccount/token" with Ok s => Some s | Err _ => None end;
  node_name ← h_env h "NODE_NAME";
  _ ← match h_client h with Ok _ => Some tt | Err _ => None end;
  let url := String.append
    "https://kubernetes.default.svc/api/v1/namespaces/nvidia-gpu-operator/pods?labelSelector=app=nvidia-dcgm-exporter&fieldSelector=spec.nodeName="
    node_name in
  resp ← match h_get h (Bearer token) url with Ok r => Some r | Err _ => None end;
  if negb (rs_success resp) then None else
  body ← match rs_json resp with Ok v => Some v | Err _ => None end;
  items ← get "items" body;
  arr ← as_array items;
  first ← head arr;
  status ← get "status" first;
  ip ← get "podIP" status;
  pod_ip ← as_str ip;
  Some (String.append "http://" (String.append pod_ip ":9400/metrics")).
Definition choose_dcgm_url (h : Host) : result string SourceError :=
  match h_env h "DCGM_EXPORTER_URL" with
  | Some url => Ok (if str_contains url ".svc" then default url (discover_dcgm_url h) else url)
  | None =>
      match discover_dcgm_url h with
      | Some url => Ok url
      | None => Err (Unavailable "DCGM exporter not found on this node.")
      end
  end.

(** One line of the exporter's page: a new source for a GPU not seen before. *)
Definition gpu_scan_line (hostname url : string) (acc : list DcgmGpuSource * gset string) (line : string)
    : list DcgmGpuSource * gset string :=
  let '(sources, seen_uuids) := acc in
  if negb (power_line line) then acc
  else if str_nonempty hostname &&
          match extract_label line "Hostname" with Some hn => negb (String.eqb hn hostname) | None => false end then acc
  else
    let uuid := default EmptyString (extract_label line "UUID") in
    if negb (str_nonempty uuid) || bool_decide (uuid ∈ seen_uuids) then acc
    else
      let model := default "NVIDIA GPU" (extract_label line "modelName") in
      let gpu_index := default (u8_wrap (Z.of_nat (length sources))) (extract_label line "gpu" ≫= parse_uint 255) in
      (sources ++ [{| gpu_id := String.append "dcgm:gpu:" (show gpu_index);
                      gpu_display_name := String.append "DCGM " (String.append model (String.append " (GPU "
                        (String.append (show gpu_index) ")")));
                      device_index := gpu_index; dcgm_url := url; gpu_uuid := uuid |}],
       {[ uuid ]} ∪ seen_uuids).
Definition gpu_scan (hostname url body : string) : list DcgmGpuSource :=
  (foldl (gpu_scan_line hostname url) ([], ∅) (str_lines body)).1.

(** Discover GPU power sources via DCGM exporter. *)
Definition gpu_discover (h : Host) : result (list DcgmGpuSource) SourceError :=
  if negb (h_exists h (String.append (procfs_root h) "/driver/nvidia")) then Err (Unavailable "No NVIDIA driver found") else
  match choose_dcgm_url h with
  | Err e => Err e
  | Ok url =>
      match h_client h with
      | Err e => Err (Unavailable (String.append "HTTP client error: " e))
      | Ok _ =>
          match h_get h NoAuth url with
          | Err e => Err (Unavailable (String.append "DCGM connection failed: " e))
          | Ok resp =>
              if negb (rs_success resp) then Err (Unavailable (String.append "DCGM returned " (rs_status resp))) else
              match rs_text resp with
              | Err e => Err (Parse (String.append "DCGM response failed: " e))
              | Ok body =>
                  match gpu_scan (env_or_empty h "NODE_NAME") url body with
                  | [] => Err (Unavailable "NVIDIA driver present but DCGM exporter not reachable. Set DCGM_EXPORTER_URL.")
                  | sources => Ok sources
                  end
              end
          end
      end
  end.

(** ** Theorems *)

#[global] Instance gpu_lawful : LawfulSource DcgmGpuSource.
Proof.
  refine {| counts_energy := λ _, false |}.
  intros h t s r. unfold read, gpu_trait. destruct (h_get h NoAuth (dcgm_url s)) as [resp|]; [|done].
  destruct (rs_text resp) as [body|]; [|done].
  pose proof (f_to_u64_range (fmul (sum_watts (env_or_empty h "NODE_NAME") (gpu_uuid s) body) (f_of_Z 1000000))) as Hr.
  destruct (f64_is_zero _); [done|]. intros [= <-]. split; try done. eexists. split; [done|]. by split; [exact Hr|].
Defined.

Lemma contains_prefix s sub : String.prefix sub s = true → str_contains s sub = true.
Proof. intros H. destruct s; cbn [str_contains]; by rewrite H. Qed.
Lemma contains_app_l a s sub : str_contains s sub = true → str_contains (String.append a s) sub = true.
Proof.
  intros H. induction a as [|c a IH]; [done|]. rewrite append_cons. cbn [str_contains].
  change (String c (String.append a s)) with (String.append (String c a) s) in *. by rewrite IH, orb_true_r.
Qed.
Lemma str_from_suffix n s : ∃ a, s = String.append a (str_from n s).
Proof.
  revert s. induction n as [|n IH]; intros s; [by exists EmptyString|]. destruct s as [|c s]; [by exists EmptyString|].
  destruct (IH s) as [a Ha]. exists (String c a). rewrite append_cons. cbn [str_from]. by rewrite <-Ha.
Qed.
Lemma after_find_suffix pat s t : after_find pat s = Some t → ∃ a, s = String.append a (String.append pat t).
Proof.
  revert t. induction s as [|c s IH]; intros t; cbn [after_find].
  - destruct pat; [|done]. intros [= <-]. by exists EmptyString.
  - destruct (String.prefix pat (String c s)) eqn:Hp.
    + intros [= <-]. apply prefix_Some in Hp as [u Hu]. exists EmptyString.
      by rewrite Hu, str_from_app.
    + intros H. destruct (IH t H) as [a ->]. by exists (String c a).
Qed.
Lemma before_char_spec c s v : before_char c s = Some v → ∃ t, s = String.append v (String c t).
Proof.
  revert v. induction s as [|a s IH]; intros v; cbn; [done|]. destruct (Ascii.eqb_spec a c) as [->|].
  - intros [= <-]. by exists s.
  - intros (w & Hw & ->)%fmap_Some. destruct (IH w Hw) as [t ->]. by exists t.
Qed.
(** A label's value, with its name and quotes, is part of the line. *)
Lemma extract_label_contains line label v : extract_label line label = Some v →
  str_contains line (String.append label (String.append quoted_eq (String.append v (String quote EmptyString)))) = true ∧
  str_contains line v = true.
Proof.
  unfold extract_label. intros (t & (a & ->)%after_find_suffix & (u & ->)%before_char_spec)%bind_Some. split.
  - apply contains_app_l, contains_prefix. set (target := String.append label _).
    assert (String.append (String.append label quoted_eq) (String.append v (String quote u)) = String.append target u)
      as -> by (unfold target; by rewrite !append_assoc).
    apply prefix_append.
  - do 2 apply contains_app_l. apply contains_prefix, prefix_append.
Qed.

(** The GPU a line of the page is about, if it is one of this node's. *)
Definition gpu_candidate (hostname line : string) : option string :=
  if power_line line && negb (str_nonempty hostname &&
       match extract_label line "Hostname" with Some hn => negb (String.eqb hn hostname) | None => false end) then
    uuid ← extract_label line "UUID"; if str_nonempty uuid then Some uuid else None
  else None.
Lemma gpu_scan_line_spec hostname url srcs seen line :
  gpu_scan_line hostname url (srcs, seen) line =
    match gpu_candidate hostname line with
    | Some uuid => if decide (uuid ∈ seen) then (srcs, seen) else
        ((gpu_scan_line hostname url (srcs, seen) line).1, {[ uuid ]} ∪ seen)
    | None => (srcs, seen)
    end ∧
  ∀ uuid, gpu_candidate hostname line = Some uuid → uuid ∉ seen →
    ∃ s, (gpu_scan_line hostname url (srcs, seen) line).1 = srcs ++ [s] ∧ gpu_uuid s = uuid ∧ dcgm_url s = url.
Proof.
  unfold gpu_scan_line, gpu_candidate. destruct (power_line line); cbn [negb andb]; [|done].
  destruct (str_nonempty hostname && _); cbn [negb]; [done|].
  destruct (extract_label line "UUID") as [uuid|]; cbn [from_option id mbind option_bind]; [|done].
  destruct (str_nonempty uuid) eqn:Hne; cbn [negb orb]; [|done]. case_decide as Hin.
  - rewrite bool_decide_true by done. split; [done|]. by intros ? [= <-].
  - rewrite bool_decide_false by done. split; [done|]. intros ? [= <-] _. eexists. split; [done|]. done.
Qed.
Lemma gpu_scan_inv hostname url lines : let r := foldl (gpu_scan_line hostname url) ([], ∅) lines in
  NoDup (gpu_uuid <$> r.1) ∧ Forall (λ s, dcgm_url s = url) r.1 ∧
  (∀ u, u ∈ r.2 ↔ u ∈ gpu_uuid <$> r.1) ∧
  (∀ u, u ∈ gpu_uuid <$> r.1 ↔ ∃ line, line ∈ lines ∧ gpu_candidate hostname line = Some u).
Proof.
  cbn zeta. induction lines as [|line lines (Hnd & Hurl & Hseen & Hc)] using rev_ind.
  { cbn. split; [constructor|]. split; [done|]. split; [set_solver|]. intros u. split; [by intros ?%not_elem_of_nil|].
    by intros (? & ?%not_elem_of_nil & _). }
  rewrite foldl_app. cbn [foldl]. destruct (foldl _ _ lines) as [srcs seen]. cbn [fst snd] in *.
  assert (∀ u, (∃ l, l ∈ lines ++ [line] ∧ gpu_candidate hostname l = Some u) ↔
    u ∈ gpu_uuid <$> srcs ∨ gpu_candidate hostname line = Some u) as Hsnoc.
  { intros u. rewrite Hc. setoid_rewrite elem_of_app. setoid_rewrite list_elem_of_singleton. naive_solver. }
  setoid_rewrite Hsnoc. destruct (gpu_scan_line_spec hostname url srcs seen line) as [Heq Hnew].
  destruct (gpu_candidate hostname line) as [uuid|]; [|rewrite Heq; naive_solver].
  destruct (decide (uuid ∈ seen)) as [Hin|Hin]; rewrite Heq.
  - cbn [fst snd]. repeat split; try done; try naive_solver.
  - cbn [fst snd]. destruct (Hnew uuid eq_refl Hin) as (s & -> & <- & Hs). rewrite fmap_app. cbn [fmap list_fmap].
    split; [|split; [|split]].
    + apply NoDup_app. split; [done|]. split; [|apply NoDup_singleton]. intros u Hu ->%list_elem_of_singleton.
      apply Hin. by apply Hseen.
    + apply Forall_app. by split; [|constructor].
    + set_solver.
    + intros u. rewrite elem_of_app, list_elem_of_singleton. naive_solver.
Qed.

(** GPU discovery.  Every GPU the exporter reports for this node becomes
    exactly one source, and nothing else does; and as long as the exporter keeps
    serving the same page, with the host named on every power line when the
    node's name is known, each of them finds lines of its own to add up, so that
    reading it fails only when the watts on them add up to zero. *)
Theorem gpu_discover_exact h srcs : gpu_discover h = Ok srcs → ∃ url resp body,
  h_get h NoAuth url = Ok resp ∧ rs_text resp = Ok body ∧
  let hostname := env_or_empty h "NODE_NAME" in
  NoDup (gpu_uuid <$> srcs) ∧
  (∀ u, u ∈ gpu_uuid <$> srcs ↔ ∃ line, line ∈ str_lines body ∧ gpu_candidate hostname line = Some u) ∧
  (hostname = EmptyString ∨
     (∀ line, line ∈ str_lines body → power_line line = true → is_Some (extract_label line "Hostname")) →
   ∀ s, s ∈ srcs → (∃ line, line ∈ str_lines body ∧ selects hostname (gpu_uuid s) line = true) ∧
     ∀ t, (∃ r, read h t s = Ok r) ↔ f64_is_zero (sum_watts hostname (gpu_uuid s) body) = false).
Proof.
  unfold gpu_discover. destruct (h_exists h _); cbn [negb]; [|done]. destruct (choose_dcgm_url h) as [url|]; [|done].
  destruct (h_client h); [|done]. destruct (h_get h NoAuth url) as [resp|] eqn:Hget; [|done].
  destruct (rs_success resp); cbn [negb]; [|done]. destruct (rs_text resp) as [body|] eqn:Htext; [|done].
  set (hostname := env_or_empty h "NODE_NAME"). intros Hs. exists url, resp, body. split; [done|]. split; [done|].
  pose proof (gpu_scan_inv hostname url (str_lines body)) as (Hnd & Hurl & _ & Hc). cbn zeta.
  assert (srcs = gpu_scan hostname url body) as -> by (destruct (gpu_scan _ _ _); [done|by injection Hs as ->]).
  split; [done|]. split; [done|]. intros Hhost s Hin. split.
  - assert (gpu_uuid s ∈ gpu_uuid <$> gpu_scan hostname url body) as Hu by (apply list_elem_of_fmap; eauto).
    apply Hc in Hu as (line & Hline & Hcand). exists line. split; [done|]. unfold gpu_candidate in Hcand.
    destruct (power_line line) eqn:Hp; cbn [andb] in Hcand; [|done]. unfold selects. rewrite Hp. cbn [andb].
    destruct (negb _) eqn:Hh in Hcand; [|done]. apply bind_Some in Hcand as (uuid & Hx & Hcand).
    destruct (str_nonempty uuid); [|done]. injection Hcand as <-.
    destruct (extract_label_contains _ _ _ Hx) as [_ ->]. rewrite andb_false_r. cbn [negb]. rewrite andb_true_r.
    destruct Hhost as [->|Hhost]; [done|]. destruct (Hhost line Hline Hp) as [hn Hn]. rewrite Hn in Hh.
    destruct (str_nonempty hostname); [|done]. cbn [andb] in *. rewrite negb_involutive in *.
    apply String.eqb_eq in Hh as ->. unfold hostname_label.
    by destruct (extract_label_contains _ _ _ Hn) as [-> _].
  - intros time. eapply Forall_forall in Hurl; [|exact Hin]. unfold read, gpu_trait. rewrite Hurl, Hget, Htext.
    fold hostname. destruct (f64_is_zero _); [split; [by intros [? ?]|done]|]. split; [done|]. intros _. by eexists.
Qed.

Definition dcgm_line (uuid host watts : string) : string :=
  let q s := String quote (String.append s (String quote EmptyString)) in
  String.append "DCGM_FI_DEV_POWER_USAGE{gpu=" (String.append (q "1") (String.append ",UUID=" (String.append (q uuid)
    (String.append host (String.append "} " watts))))).
Definition host_label (name : string) : string :=
  String.append "," (hostname_label name).
Definition gpu_host (page : string) : Host :=
  {| h_exists := λ _, true; h_read := λ _, Err EmptyString; h_dir := λ _, Err EmptyString;
     h_env := λ v, if String.eqb v "NODE_NAME" then Some "n1" else if String.eqb v "DCGM_EXPORTER_URL" then Some "http://dcgm" else None;
     h_client := Ok tt;
     h_get := λ _ _, Ok {| rs_success := true; rs_status := "200 OK"; rs_json := Err EmptyString; rs_text := Ok page |} |}.
Definition demo_gpu_page : string :=
  String.append (dcgm_line "GPU-a" (host_label "n1") "49.5") (String newline
    (String.append (dcgm_line "GPU-b" (host_label "n2") "70") (String newline EmptyString))).
Lemma gpu_discover_exact_witness : ∃ srcs, gpu_discover (gpu_host demo_gpu_page) = Ok srcs ∧
  gpu_uuid <$> srcs = ["GPU-a"] ∧ NoDup (gpu_uuid <$> srcs).
Proof.
  destruct (gpu_discover (gpu_host demo_gpu_page)) as [srcs|e] eqn:E; [|by vm_compute in E].
  exists srcs. split; [reflexivity|].
  destruct (gpu_discover_exact (gpu_host demo_gpu_page) srcs E) as (url & resp & body & _ & _ & Hnd & _).
  split; [|exact Hnd]. vm_compute in E. injection E as <-. reflexivity.
Defined.
(** A power line without a Hostname label yields a source that can never be
    read: discovery keeps it, reading filters it out. *)
Example hostless_gpu_unreadable :
  match gpu_discover (gpu_host (dcgm_line "GPU-a" EmptyString "49.5")) with
  | Ok [s] => read (gpu_host (dcgm_line "GPU-a" EmptyString "49.5")) 0 s = Err (Unavailable "No GPU power reading from DCGM")
  | _ => False
  end.
Proof. vm_compute. reflexivity. Qed.
