(* ===== verification/Redfish.v ===== *)
(** * Redfish: platform power from the baseboard controller

    keck-agent/src/hardware/platform.rs over the endpoints of [Host]. *)

From S2P Require Import Prelude F64 Json Common Text Classify Collector Host.
From Stdlib Require Import Ascii.

Open Scope Z_scope.

Inductive ReadMethod :=
| SensorReading (path : string)
| SensorPercentage (pct_path total_path : string)
| PowerApi (path : string)
| TelemetryMetric (metric_id : string).

Record RedfishSource := {
  rf_id : string;
  rf_display_name : string;
  rf_component : Component;
  rf_endpoint : string;
  rf_read_method : ReadMethod;
  rf_username : string;
  rf_password : string
}.

Definition sensors_path (sensor : string) : string := String.append "/redfish/v1/Chassis/System.Embedded.1/Sensors/" sensor.
Definition power_path : string := "/redfish/v1/Chassis/System.Embedded.1/Power".
Definition board_total : string := "SystemBoardPwrConsumption".

Section redfish.
Variable h : Host.

(** A GET that must answer 200, and its JSON body. *)
Definition read_json_field (user pass url field : string) : result f64 SourceError :=
  match h_get h (Basic user pass) url with
  | Err e => Err (Unavailable (String.append "Redfish: " e))
  | Ok resp =>
      if negb (rs_success resp) then Err (Unavailable (String.append "HTTP " (rs_status resp))) else
      match rs_json resp with
      | Err e => Err (Parse (String.append "JSON: " e))
      | Ok body =>
          match get field body ≫= as_f64 with
          | Some x => Ok x
          | None => Err (Parse (String.append "Field '" (String.append field "' not found")))
          end
      end
  end.

(** The last entry of a report for the metric whose value parses. *)
Definition entry_value (metric_id : string) (entry : Value) : option f64 :=
  if bool_decide (get "MetricId" entry ≫= as_str = Some metric_id) then
    (v ← get "MetricValue" entry; val_str ← as_str v; parse_f64 val_str)
  else None.
Fixpoint first_value (metric_id : string) (entries : list Value) : option f64 :=
  match entries with
  | [] => None
  | e :: es => match entry_value metric_id e with Some v => Some v | None => first_value metric_id es end
  end.
Definition report_value (metric_id : string) (report : Value) : option f64 :=
  v ← get "MetricValues" report; values ← as_array v; first_value metric_id (reverse values).

(** The loop over the collection's members: the first report with a value ends
    it, a report that is not served is skipped, anything else is an error. *)
Fixpoint search_reports (user pass endpoint metric_id : string) (members : list Value) : result f64 SourceError :=
  match members with
  | [] => Err (Parse (String.append metric_id " not found in MetricReports"))
  | member :: members' =>
      match get "@odata.id" member ≫= as_str with
      | None => Err (Parse "No @odata.id")
      | Some report_path =>
          match h_get h (Basic user pass) (String.append endpoint report_path) with
          | Err e => Err (Unavailable (String.append "Report: " e))
          | Ok report_resp =>
              if negb (rs_success report_resp) then search_reports user pass endpoint metric_id members'
              else match rs_json report_resp with
                   | Err e => Err (Parse (String.append "Report JSON: " e))
                   | Ok report =>
                       match report_value metric_id report with
                       | Some val => Ok val
                       | None => search_reports user pass endpoint metric_id members'
                       end
                   end
          end
      end
  end.
Definition read_metric_from_reports (user pass endpoint metric_id : string) : result f64 SourceError :=
  match h_get h (Basic user pass) (String.append endpoint "/redfish/v1/TelemetryService/MetricReports") with
  | Err e => Err (Unavailable (String.append "MetricReports: " e))
  | Ok resp =>
      if negb (rs_success resp) then Err (Unavailable (String.append "MetricReports HTTP " (rs_status resp))) else
      match rs_json resp with
      | Err e => Err (Parse (String.append "MetricReports JSON: " e))
      | Ok body =>
          match get "Members" body ≫= as_array with
          | None => Err (Parse "No MetricReports Members")
          | Some members => search_reports user pass endpoint metric_id members
          end
      end
  end.

Definition power_consumed (body : Value) : option f64 :=
  pc ← get "PowerControl" body; arr ← as_array pc; ctrl ← head arr; v ← get "PowerConsumedWatts" ctrl; as_f64 v.
Definition read_watts (s : RedfishSource) : result f64 SourceError :=
  let user := rf_username s in let pass := rf_password s in let endpoint := rf_endpoint s in
  match rf_read_method s with
  | SensorReading path => read_json_field user pass (String.append endpoint path) "Reading"
  | SensorPercentage pct_path total_path =>
      match read_json_field user pass (String.append endpoint pct_path) "Reading" with
      | Err e => Err e
      | Ok pct =>
          match read_json_field user pass (String.append endpoint total_path) "Reading" with
          | Err e => Err e
          | Ok total => Ok (fdiv (fmul total pct) (f_of_Z 100))
          end
      end
  | PowerApi path =>
      match h_get h (Basic user pass) (String.append endpoint path) with
      | Err e => Err (Unavailable (String.append "Redfish: " e))
      | Ok resp =>
          match rs_json resp with
          | Err e => Err (Parse (String.append "JSON: " e))
          | Ok body => match power_consumed body with
                       | Some w => Ok w
                       | None => Err (Parse "PowerConsumedWatts not found")
                       end
          end
      end
  | TelemetryMetric metric_id =>
      match read_metric_from_reports user pass endpoint metric_id with
      | Ok w => Ok w
      | Err _ => read_json_field user pass (String.append endpoint (sensors_path metric_id)) "Reading"
      end
  end.

(** ** Discovery *)

(** Probe a Redfish URL: true if it exists and returns 200. *)
Definition probe (user pass url : string) : bool :=
  match h_get h (Basic user pass) url with Ok r => rs_success r | Err _ => false end.
(** Probe a Redfish URL and check if a specific field exists with a numeric value. *)
Definition probe_reading (user pass url : string) : option f64 :=
  match h_get h (Basic user pass) url with
  | Err _ => None
  | Ok resp =>
      if negb (rs_success resp) then None else
      match rs_json resp with Err _ => None | Ok body => get "Reading" body ≫= as_f64 end
  end.

Definition redfish_id (key endpoint : string) : string :=
  String.append "redfish:" (String.append key (String.append ":" endpoint)).
Definition redfish_name (prefix endpoint : string) : string :=
  String.append prefix (String.append " (" (String.append endpoint ")")).

Definition try_telemetry_metric (endpoint user pass metric_id : string) (component : Component) (display_prefix : string)
    : option RedfishSource :=
  let url := String.append endpoint (String.append "/redfish/v1/TelemetryService/MetricDefinitions/" metric_id) in
  if negb (probe user pass url) then None else
  let source m := {| rf_id := redfish_id metric_id endpoint; rf_display_name := redfish_name display_prefix endpoint;
                     rf_component := component; rf_endpoint := endpoint; rf_read_method := m;
                     rf_username := user; rf_password := pass |} in
  match probe_reading user pass (String.append endpoint (sensors_path metric_id)) with
  | Some _ => Some (source (SensorReading (sensors_path metric_id)))
  | None =>
      match read_metric_from_reports user pass endpoint metric_id with
      | Ok _ => Some (source (TelemetryMetric metric_id))
      | Err _ => None
      end
  end.

(** Try to create a source from Sensors API percentage reading. *)
Definition try_sensor_pct (endpoint user pass sensor_name : string) (component : Component) (display_prefix : string)
    : option RedfishSource :=
  _ ← probe_reading user pass (String.append endpoint (sensors_path sensor_name));
  _ ← probe_reading user pass (String.append endpoint (sensors_path board_total));
  Some {| rf_id := redfish_id sensor_name endpoint; rf_display_name := redfish_name display_prefix endpoint;
          rf_component := component; rf_endpoint := endpoint;
          rf_read_method := SensorPercentage (sensors_path sensor_name) (sensors_path board_total);
          rf_username := user; rf_password := pass |}.

(** Discover per-PSU input/output power from the Power API. *)
Definition psu_sensor (i : nat) (suffix : string) : string :=
  String.append "PSU.Slot." (String.append (show (Z.of_nat i + 1)) suffix).
Definition psu_source (endpoint user pass name : string) (i : nat) (field sensor_suffix key label : string) (psu : Value)
    : option RedfishSource :=
  _ ← get field psu ≫= as_f64;
  let path := sensors_path (psu_sensor i sensor_suffix) in
  _ ← probe_reading user pass (String.append endpoint path);
  Some {| rf_id := redfish_id (String.append "psu" (String.append (show (Z.of_nat i + 1)) key)) endpoint;
          rf_display_name := redfish_name (String.append name label) endpoint; rf_component := Platform;
          rf_endpoint := endpoint; rf_read_method := SensorReading path; rf_username := user; rf_password := pass |}.
Definition psu_sources (endpoint user pass : string) (i : nat) (psu : Value) : list RedfishSource :=
  let name := default "PSU" (get "Name" psu ≫= as_str) in
  option_list (psu_source endpoint user pass name i "PowerInputWatts" "_InputPower" ":input" " Input" psu) ++
  option_list (psu_source endpoint user pass name i "PowerOutputWatts" "_OutputPower" ":output" " Output" psu).
Definition enumerate {A} (l : list A) : list (nat * A) := zip (seq 0 (length l)) l.
Definition discover_psu_detail (power_url user pass endpoint : string) : result (list RedfishSource) SourceError :=
  match h_get h (Basic user pass) power_url with
  | Err e => Err (Unavailable (String.append "Redfish: " e))
  | Ok resp =>
      match rs_json resp with
      | Err e => Err (Parse (String.append "JSON: " e))
      | Ok body =>
          Ok (match get "PowerSupplies" body ≫= as_array with
              | Some psus => enumerate psus ≫= λ ip, psu_sources endpoint user pass ip.1 ip.2
              | None => []
              end)
      end
  end.

(** [map.split(',').find_map(..)] *)
Definition map_entry (serial entry : string) : option string :=
  match find_char "="%char entry with
  | Some i => if String.eqb (trim (str_to i entry)) serial then Some (trim (str_from (S i) entry)) else None
  | None => None
  end.
Fixpoint find_map {A B} (f : A → option B) (l : list A) : option B :=
  match l with
  | [] => None
  | x :: l' => match f x with Some y => Some y | None => find_map f l' end
  end.
Definition resolve_endpoint : result string SourceError :=
  match h_env h "REDFISH_ENDPOINT" with
  | Some ep => Ok ep
  | None =>
      match h_env h "REDFISH_MAP" with
      | Some map =>
          let serial := default EmptyString (read_trimmed h (String.append (sysfs_root h) "/class/dmi/id/product_serial")) in
          if negb (str_nonempty serial) then Err (Unavailable "Cannot read serial") else
          match find_map (map_entry serial) (str_split ","%char map) with
          | Some ep => Ok ep
          | None => Err (Unavailable (String.append "Serial " (String.append serial " not in REDFISH_MAP")))
          end
      | None => Err (Unavailable "REDFISH_ENDPOINT or REDFISH_MAP not set")
      end
  end.

(** [a.or_else(|| b)] *)
Definition or_else {A} (a b : option A) : option A := match a with Some x => Some x | None => b end.

Definition cpu_source (ep user pass : string) : option RedfishSource :=
  or_else (or_else (try_telemetry_metric ep user pass "TotalCPUPower" Cpu "Redfish Telemetry CPU")
                   (try_sensor_pct ep user pass "SystemBoardCPUUsage" Cpu "Redfish Sensor CPU"))
          (try_telemetry_metric ep user pass "CPUPower" Cpu "Redfish Telemetry CPUPower").
Definition mem_source (ep user pass : string) : option RedfishSource :=
  or_else (or_else (try_telemetry_metric ep user pass "TotalMemoryPower" Memory "Redfish Telemetry Memory")
                   (try_telemetry_metric ep user pass "DRAMPwr" Memory "Redfish Telemetry DRAM"))
          (try_sensor_pct ep user pass "SystemBoardMEMUsage" Memory "Redfish Sensor Memory").
Definition fan_source (ep user pass : string) : option RedfishSource :=
  try_telemetry_metric ep user pass "TotalFanPower" Fan "Redfish Telemetry Fans".
Definition storage_source (ep user pass : string) : option RedfishSource :=
  try_telemetry_metric ep user pass "TotalStoragePower" Storage "Redfish Telemetry Storage".
Definition io_source (ep user pass : string) : option RedfishSource :=
  or_else (try_sensor_pct ep user pass "SystemBoardIOUsage" Nic "Redfish Sensor I/O")
          (try_telemetry_metric ep user pass "TotalPciePower" Nic "Redfish Telemetry PCIe").
Definition board_source (ep user pass : string) : option RedfishSource :=
  try_sensor_pct ep user pass "SystemBoardSYSUsage" Platform "Redfish Sensor Platform".
Definition psu_total_source (ep user pass : string) : RedfishSource :=
  {| rf_id := redfish_id "platform" ep; rf_display_name := redfish_name "Redfish PSU Total" ep; rf_component := Platform;
     rf_endpoint := ep; rf_read_method := PowerApi power_path; rf_username := user; rf_password := pass |}.
Definition redfish_sources (ep user pass : string) : list RedfishSource :=
  option_list (cpu_source ep user pass) ++ option_list (mem_source ep user pass) ++
  option_list (fan_source ep user pass) ++ option_list (storage_source ep user pass) ++
  option_list (io_source ep user pass) ++ option_list (board_source ep user pass) ++
  (match discover_psu_detail (String.append ep power_path) user pass ep with Ok l => l | Err _ => [] end) ++
  [psu_total_source ep user pass].

Definition redfish_discover : result (list RedfishSource) SourceError :=
  match resolve_endpoint with
  | Err e => Err e
  | Ok ep =>
      match h_env h "REDFISH_USERNAME" with
      | None => Err (Unavailable "REDFISH_USERNAME not set")
      | Some user =>
          match h_env h "REDFISH_PASSWORD" with
          | None => Err (Unavailable "REDFISH_PASSWORD not set")
          | Some pass =>
              match h_client h with
              | Err e => Err (Unavailable (String.append "HTTP client: " e))
              | Ok _ =>
                  if negb (probe user pass (String.append ep power_path)) then Err (Unavailable "Redfish not reachable")
                  else Ok (redfish_sources ep user pass)
              end
          end
      end
  end.
End redfish.

#[global] Instance redfish_trait : SourceTrait RedfishSource := {
  describe := λ s, {| src_id := rf_id s; src_name := rf_display_name s; src_component := rf_component s;
                      src_granularity := Node; src_reading_type := Measured; default_poll_interval := 3000 * ms |};
  read := λ h t s,
    match read_watts h s with
    | Err e => Err e
    | Ok watts => Ok {| source_id := rf_id s; r_timestamp := t; r_component := rf_component s; r_granularity := Node;
        r_type := Measured; energy_uj := None; power_uw := Some (f_to_u64 (fmul watts (f_of_Z 1000000)));
        max_energy_uj := 0 |}
    end
}.

(** ** Theorems *)

#[global] Instance redfish_lawful : LawfulSource RedfishSource.
Proof.
  refine {| counts_energy := λ _, false |}.
  intros h t s r. unfold read, redfish_trait. destruct (read_watts h s) as [w|]; [|done].
  pose proof (f_to_u64_range (fmul w (f_of_Z 1000000))) as Hr. intros [= <-]. split; try done.
  eexists. split; [done|]. by split; [exact Hr|].
Defined.

Section discovery.
Variables (h : Host) (ep user pass : string).

Lemma probe_reading_read url x : probe_reading h user pass url = Some x ↔ read_json_field h user pass url "Reading" = Ok x.
Proof.
  unfold probe_reading, read_json_field. destruct (h_get h _ url) as [resp|]; [|done].
  destruct (rs_success resp); [|done]. cbn [negb]. destruct (rs_json resp) as [body|]; [|done].
  destruct (get "Reading" body ≫= as_f64); naive_solver.
Qed.

(** A source found under [key]: its id, its component, and that it can be
    read. *)
Record found (key : string) (c : Component) (s : RedfishSource) : Prop := {
  found_id : rf_id s = redfish_id key ep;
  found_component : rf_component s = c;
  found_reads : ∃ w, read_watts h s = Ok w
}.
Lemma telemetry_found m c d s : try_telemetry_metric h ep user pass m c d = Some s → found m c s.
Proof.
  unfold try_telemetry_metric. destruct (probe h user pass _); cbn [negb]; [|done].
  destruct (probe_reading h user pass _) as [x|] eqn:Hp.
  - intros [= <-]. split; [done..|]. exists x. by apply probe_reading_read.
  - destruct (read_metric_from_reports h user pass ep m) as [x|] eqn:Hr; [|done]. intros [= <-].
    split; [done..|]. exists x. unfold read_watts. cbn. by rewrite Hr.
Qed.
Lemma pct_found m c d s : try_sensor_pct h ep user pass m c d = Some s → found m c s.
Proof.
  unfold try_sensor_pct. intros (x & Hx%probe_reading_read & (y & Hy%probe_reading_read & [= <-])%bind_Some)%bind_Some.
  split; [done..|]. unfold read_watts. cbn [rf_read_method rf_username rf_password rf_endpoint]. rewrite Hx, Hy. eauto.
Qed.
Definition psu_key (i : nat) (key : string) : string := String.append "psu" (String.append (show (Z.of_nat i + 1)) key).
Lemma psu_found name i field suffix key label psu s :
  psu_source h ep user pass name i field suffix key label psu = Some s → found (psu_key i key) Platform s.
Proof.
  unfold psu_source. intros (_ & _ & (y & Hy%probe_reading_read & [= <-])%bind_Some)%bind_Some.
  split; [done..|]. exists y. done.
Qed.
Lemma or_else_found {A} (a b : option A) (P : A → Prop) : (∀ x, a = Some x → P x) → (∀ x, b = Some x → P x) →
  ∀ x, or_else a b = Some x → P x.
Proof. destruct a; cbn; auto. Qed.

(** The components that have one source at most, with the keys they may have. *)
Definition fixed_keys : list string :=
  ["TotalCPUPower"; "SystemBoardCPUUsage"; "CPUPower"; "TotalMemoryPower"; "DRAMPwr"; "SystemBoardMEMUsage";
   "TotalFanPower"; "TotalStoragePower"; "SystemBoardIOUsage"; "TotalPciePower"; "SystemBoardSYSUsage"].
Definition found_in (keys : list string) (c : Component) (s : RedfishSource) : Prop := ∃ k, k ∈ keys ∧ found k c s.

Lemma cpu_found s : cpu_source h ep user pass = Some s → found_in ["TotalCPUPower"; "SystemBoardCPUUsage"; "CPUPower"] Cpu s.
Proof.
  apply or_else_found; [apply or_else_found|]; intros x Hx; [apply telemetry_found in Hx|apply pct_found in Hx|
    apply telemetry_found in Hx]; eexists; (split; [|exact Hx]); set_solver.
Qed.
Lemma mem_found s : mem_source h ep user pass = Some s → found_in ["TotalMemoryPower"; "DRAMPwr"; "SystemBoardMEMUsage"] Memory s.
Proof.
  apply or_else_found; [apply or_else_found|]; intros x Hx; [apply telemetry_found in Hx..|apply pct_found in Hx];
    eexists; (split; [|exact Hx]); set_solver.
Qed.
Lemma io_found s : io_source h ep user pass = Some s → found_in ["SystemBoardIOUsage"; "TotalPciePower"] Nic s.
Proof.
  apply or_else_found; intros x Hx; [apply pct_found in Hx|apply telemetry_found in Hx];
    eexists; (split; [|exact Hx]); set_solver.
Qed.
Lemma fan_found s : fan_source h ep user pass = Some s → found_in ["TotalFanPower"] Fan s.
Proof. intros Hx%telemetry_found. eexists. split; [|exact Hx]. set_solver. Qed.
Lemma storage_found s : storage_source h ep user pass = Some s → found_in ["TotalStoragePower"] Storage s.
Proof. intros Hx%telemetry_found. eexists. split; [|exact Hx]. set_solver. Qed.
Lemma board_found s : board_source h ep user pass = Some s → found_in ["SystemBoardSYSUsage"] Platform s.
Proof. intros Hx%pct_found. eexists. split; [|exact Hx]. set_solver. Qed.
Lemma psus_found l s : discover_psu_detail h (String.append ep power_path) user pass ep = Ok l → s ∈ l →
  ∃ i key, key ∈ [":input"; ":output"] ∧ found (psu_key i key) Platform s.
Proof.
  unfold discover_psu_detail. destruct (h_get h _ _) as [resp|]; [|done]. destruct (rs_json resp) as [body|]; [|done].
  destruct (get "PowerSupplies" body ≫= as_array) as [psus|]; intros [= <-]; [|by intros ?%not_elem_of_nil].
  intros ([i psu] & Hs & _)%list_elem_of_bind. unfold psu_sources in Hs.
  apply elem_of_app in Hs as [Hs|Hs]; apply elem_of_option_list in Hs; apply psu_found in Hs; eexists _, _;
    (split; [|exact Hs]); set_solver.
Qed.

(** Ids: the key decides. *)
Lemma redfish_id_inj k k' : redfish_id k ep = redfish_id k' ep → k = k'.
Proof. unfold redfish_id. intros H%append_cancel_l. by eapply append_cancel_r. Qed.
Lemma NoDup_found_option keys c (o : option RedfishSource) :
  (∀ s, o = Some s → found_in keys c s) → ∀ i, i ∈ rf_id <$> option_list o → ∃ k, k ∈ keys ∧ i = redfish_id k ep.
Proof.
  intros Ho i (s & -> & Hs%elem_of_option_list)%list_elem_of_fmap. destruct (Ho s Hs) as (k & Hk & Hf).
  exists k. split; [done|]. by apply found_id in Hf.
Qed.
Lemma NoDup_option_list {A B} (f : A → B) (o : option A) : NoDup (f <$> option_list o).
Proof. destruct o; [apply NoDup_singleton|constructor]. Qed.
Lemma psu_key_inj i i' key key' : key ∈ [":input"; ":output"] → key' ∈ [":input"; ":output"] →
  psu_key i key = psu_key i' key' → i = i' ∧ key = key'.
Proof.
  intros Hk Hk' H%append_cancel_l.
  assert (∃ t, key = String ":"%char t) as [t ->] by (apply elem_of_cons in Hk as [->| ->%list_elem_of_singleton]; by eexists).
  assert (∃ t, key' = String ":"%char t) as [t' ->] by (apply elem_of_cons in Hk' as [->| ->%list_elem_of_singleton]; by eexists).
  apply split_name_inj in H as [H ->]; [|apply show_no_colon; lia..]. apply show_inj in H; lia || (split; [lia|done]).
Qed.
Lemma psus_NoDup l : discover_psu_detail h (String.append ep power_path) user pass ep = Ok l → NoDup (rf_id <$> l).
Proof.
  unfold discover_psu_detail. destruct (h_get h _ _) as [resp|]; [|done]. destruct (rs_json resp) as [body|]; [|done].
  destruct (get "PowerSupplies" body ≫= as_array) as [psus|]; intros [= <-]; [|constructor].
  rewrite fmap_bind_list.
  assert (∀ ip s, s ∈ psu_sources h ep user pass ip.1 ip.2 → ∃ key, key ∈ [":input"; ":output"] ∧
    rf_id s = redfish_id (psu_key ip.1 key) ep) as Hid.
  { intros ip s [Hs|Hs]%elem_of_app; apply elem_of_option_list in Hs; apply psu_found in Hs as [-> _ _]; eexists;
      (split; [|done]); set_solver. }
  apply NoDup_bind.
  - intros [j psu] [j' psu'] i Hip Hip' (s & -> & Hs)%list_elem_of_fmap (s' & Hi & Hs')%list_elem_of_fmap.
    destruct (Hid _ _ Hs) as (k & Hk & E), (Hid _ _ Hs') as (k' & Hk' & E'). rewrite E, E' in Hi.
    apply redfish_id_inj, psu_key_inj in Hi as [Hi _]; [|done..].
    unfold enumerate in *. apply list_elem_of_lookup in Hip as [n Hn], Hip' as [n' Hn'].
    apply lookup_zip_Some in Hn as [Hn1 Hn2], Hn' as [Hn1' Hn2']. apply lookup_seq in Hn1 as [Hn1 _], Hn1' as [Hn1' _].
    cbn in *. subst. congruence.
  - intros ip _. unfold psu_sources. rewrite fmap_app. apply NoDup_app. split; [apply NoDup_option_list|].
    split; [|apply NoDup_option_list].
    intros i (s & -> & Hs%elem_of_option_list%psu_found)%list_elem_of_fmap
      (s' & Hi & Hs'%elem_of_option_list%psu_found)%list_elem_of_fmap.
    rewrite (found_id _ _ _ Hs), (found_id _ _ _ Hs') in Hi.
    apply redfish_id_inj, psu_key_inj in Hi as [_ Hi]; [done|set_solver..].
  - apply (NoDup_fmap_1 fst). unfold enumerate. rewrite fst_zip by (by rewrite length_seq). apply NoDup_seq.
Qed.
End discovery.

Section redfish_theorem.
Variables (h : Host) (ep user pass : string).
Let psus := match discover_psu_detail h (String.append ep power_path) user pass ep with Ok l => l | Err _ => [] end.

Lemma psus_spec s : s ∈ psus → ∃ i key, key ∈ [":input"; ":output"] ∧ found h ep (psu_key i key) Platform s.
Proof.
  unfold psus. destruct (discover_psu_detail _ _ _ _ _) eqn:E; [by eapply psus_found|by intros ?%not_elem_of_nil].
Qed.
(** The sources before the power supplies: one part per component. *)
Definition fixed_parts : list (Component * list string * option RedfishSource) :=
  [(Cpu, ["TotalCPUPower"; "SystemBoardCPUUsage"; "CPUPower"], cpu_source h ep user pass);
   (Memory, ["TotalMemoryPower"; "DRAMPwr"; "SystemBoardMEMUsage"], mem_source h ep user pass);
   (Fan, ["TotalFanPower"], fan_source h ep user pass);
   (Storage, ["TotalStoragePower"], storage_source h ep user pass);
   (Nic, ["SystemBoardIOUsage"; "TotalPciePower"], io_source h ep user pass);
   (Platform, ["SystemBoardSYSUsage"], board_source h ep user pass)].
Lemma fixed_parts_found : Forall (λ p, ∀ s, p.2 = Some s → found_in h ep p.1.2 p.1.1 s) fixed_parts.
Proof.
  repeat (constructor; [eauto using cpu_found, mem_found, fan_found, storage_found, io_found, board_found|]). constructor.
Qed.
Lemma redfish_sources_parts : redfish_sources h ep user pass =
  (fixed_parts ≫= λ p, option_list p.2) ++ psus ++ [psu_total_source ep user pass].
Proof. unfold redfish_sources. cbn [fixed_parts mbind list_bind snd]. by rewrite <-!app_assoc, app_nil_l. Qed.

Lemma parts_ids_NoDup (parts : list (Component * list string * option RedfishSource)) :
  Forall (λ p, ∀ s, p.2 = Some s → found_in h ep p.1.2 p.1.1 s) parts → NoDup (mjoin ((λ p, p.1.2) <$> parts)) →
  NoDup (rf_id <$> (parts ≫= λ p, option_list p.2)) ∧
  ∀ i, i ∈ rf_id <$> (parts ≫= λ p, option_list p.2) → ∃ k, k ∈ mjoin ((λ p, p.1.2) <$> parts) ∧ i = redfish_id k ep.
Proof.
  induction 1 as [|[[c ks] o] parts Hp Hparts IH]; [intros _; split; [constructor|by intros i ?%not_elem_of_nil]|].
  cbn [mjoin list_join fmap list_fmap fst snd mbind list_bind]. intros (Hks & Hdis & Hnd)%NoDup_app.
  destruct (IH Hnd) as [IH1 IH2]. pose proof (NoDup_found_option h ep ks c o Hp) as Ho. rewrite fmap_app. split.
  - apply NoDup_app. split; [apply NoDup_option_list|]. split; [|done]. intros i Hi Hi'.
    destruct (Ho i Hi) as (k & Hk & ->), (IH2 _ Hi') as (k' & Hk' & E%redfish_id_inj). subst k'. by eapply Hdis.
  - intros i [Hi|Hi]%elem_of_app.
    + destruct (Ho i Hi) as (k & Hk & ->). exists k. split; [|done]. apply elem_of_app. by left.
    + destruct (IH2 i Hi) as (k & Hk & ->). exists k. split; [|done]. apply elem_of_app. by right.
Qed.
Lemma fixed_keys_no_psu k : k ∈ "platform" :: mjoin ((λ p, p.1.2) <$> fixed_parts) → String.prefix "psu" k = false.
Proof.
  cbn. intros Hk. repeat (apply elem_of_cons in Hk as [->|Hk]; [reflexivity|]). by apply not_elem_of_nil in Hk.
Qed.
Lemma redfish_ids_NoDup : NoDup (rf_id <$> redfish_sources h ep user pass).
Proof.
  rewrite redfish_sources_parts, !fmap_app. destruct (parts_ids_NoDup fixed_parts fixed_parts_found) as [Hnd Hkeys].
  { apply (bool_decide_unpack _). vm_compute. exact I. }
  assert (∀ i, i ∈ rf_id <$> psus → ∃ n key, i = redfish_id (psu_key n key) ep) as Hpsu.
  { intros i (s & -> & (n & key & _ & Hf)%psus_spec)%list_elem_of_fmap. exists n, key. by apply found_id in Hf. }
  assert (∀ k n key, k ∈ "platform" :: mjoin ((λ p, p.1.2) <$> fixed_parts) → k ≠ psu_key n key) as Hne.
  { intros k n key Hk ->. apply fixed_keys_no_psu in Hk. unfold psu_key in Hk.
    by rewrite (prefix_append "psu") in Hk. }
  apply NoDup_app. split; [done|]. split.
  - intros i (k & Hk & ->)%Hkeys Hi. rewrite elem_of_app in Hi. destruct Hi as [(n & key & E%redfish_id_inj)%Hpsu|Hi].
    + apply (Hne k n key); [by right|done].
    + cbn in Hi. apply list_elem_of_singleton, redfish_id_inj in Hi. subst k. cbn in Hk.
      repeat (apply elem_of_cons in Hk as [?|Hk]; [done|]). by apply not_elem_of_nil in Hk.
  - apply NoDup_app. split; [|split; [|apply NoDup_singleton]].
    + unfold psus. destruct (discover_psu_detail _ _ _ _ _) eqn:E; [by eapply psus_NoDup|constructor].
    + intros i (n & key & ->)%Hpsu Hi. cbn in Hi. apply list_elem_of_singleton, redfish_id_inj in Hi.
      apply (Hne "platform" n key); [left|done].
Qed.

Lemma redfish_component_once c : c ≠ Platform →
  (length (filter (λ s, rf_component s = c) (redfish_sources h ep user pass)) <= 1)%nat.
Proof.
  intros Hc. rewrite redfish_sources_parts, !filter_app, !length_app.
  assert (filter (λ s, rf_component s = c) psus = []) as ->.
  { destruct (filter _ psus) as [|s l] eqn:E; [done|].
    assert (s ∈ filter (λ s, rf_component s = c) psus) as [Hs (n & key & _ & Hf)%psus_spec]%list_elem_of_filter
      by (rewrite E; left). apply found_component in Hf. congruence. }
  rewrite (filter_cons_False _ (psu_total_source ep user pass)) by (cbn; congruence). cbn [length filter list_filter].
  assert (∀ parts, Forall (λ p : Component * list string * option RedfishSource,
      ∀ s, p.2 = Some s → found_in h ep p.1.2 p.1.1 s) parts →
    (length (filter (λ s, rf_component s = c) (parts ≫= λ p, option_list p.2)) <=
     length (filter (λ p, p.1.1 = c) parts))%nat) as Hle.
  { induction 1 as [|[[c' ks] o] parts Hp Hparts IH]; [done|]. cbn [mbind list_bind fst snd].
    rewrite filter_app, length_app, filter_cons. cbn [fst snd] in *. destruct o as [s|]; cbn [option_list option_rect].
    - destruct (Hp s eq_refl) as (k & _ & Hf%found_component). rewrite filter_cons, Hf. case_decide; cbn [length]; cbn; lia.
    - cbn. case_decide; cbn [length]; lia. }
  specialize (Hle fixed_parts fixed_parts_found).
  assert (length (filter (λ p : Component * list string * option RedfishSource, p.1.1 = c) fixed_parts) <= 1)%nat.
  { unfold fixed_parts. destruct c; try done; repeat (rewrite filter_cons_False by done);
      repeat (rewrite filter_cons_True by done); repeat (rewrite filter_cons_False by done); cbn; lia. }
  lia.
Qed.
End redfish_theorem.

(** What Redfish discovery promises the agent.  Every source it returns can
    be read while the controller keeps answering as it did, except possibly the
    PSU total, which is always there and always last; each component other than
    the platform has at most one source, so no power is counted twice; and all
    ids are distinct. *)
Theorem redfish_discover_sound h srcs : redfish_discover h = Ok srcs → ∃ ep user pass,
  (∀ t s, s ∈ srcs → (∃ r, read h t s = Ok r) ∨ s = psu_total_source ep user pass) ∧
  last srcs = Some (psu_total_source ep user pass) ∧
  (∀ c, c ≠ Platform → (length (filter (λ s, rf_component s = c) srcs) <= 1)%nat) ∧
  NoDup (rf_id <$> srcs).
Proof.
  unfold redfish_discover. destruct (resolve_endpoint h) as [ep|]; [|done].
  destruct (h_env h "REDFISH_USERNAME") as [user|]; [|done]. destruct (h_env h "REDFISH_PASSWORD") as [pass|]; [|done].
  destruct (h_client h); [|done]. destruct (probe h user pass _); cbn [negb]; [|done]. intros [= <-].
  exists ep, user, pass. split; [|split; [|split]].
  - intros time s. rewrite redfish_sources_parts, !elem_of_app, list_elem_of_singleton.
    assert (∀ key c, found h ep key c s → ∃ r, read h time s = Ok r) as Hread.
    { intros key c [_ _ [w Hw]]. unfold read, redfish_trait. rewrite Hw. eauto. }
    intros [(p & Hs%elem_of_option_list & Hp)%list_elem_of_bind|[(n & key & _ & Hf)%psus_spec| ->]]; [left|left; eauto|by right].
    pose proof (fixed_parts_found h ep user pass) as Hfix. eapply Forall_forall in Hfix; [|exact Hp].
    destruct (Hfix s Hs) as (k & _ & Hf). eauto.
  - rewrite redfish_sources_parts, app_assoc. apply last_snoc.
  - intros c. apply redfish_component_once.
  - apply redfish_ids_NoDup.
Qed.

(** A controller that serves one sensor and a report. *)
Definition demo_json (v : Value) : result Response string :=
  Ok {| rs_success := true; rs_status := "200 OK"; rs_json := Ok v; rs_text := Err EmptyString |}.
Definition watts_entry (id w : string) : Value := Object [("MetricId", Str id); ("MetricValue", Str w)].
Definition demo_bmc : Host :=
  {| h_exists := λ _, false; h_read := λ p, if String.eqb p "/sys/class/dmi/id/product_serial" then Ok "S1 " else Err EmptyString;
     h_dir := λ _, Err EmptyString;
     h_env := assoc [("REDFISH_MAP", "S0=https://bmc0, S1 = https://bmc1"); ("REDFISH_USERNAME", "u"); ("REDFISH_PASSWORD", "p")];
     h_client := Ok tt;
     h_get := λ _ url,
       match assoc [("https://bmc1/redfish/v1/Chassis/System.Embedded.1/Power", Object [("PowerControl", Array [])]);
                    ("https://bmc1/redfish/v1/TelemetryService/MetricDefinitions/TotalFanPower", Null);
                    ("https://bmc1/redfish/v1/Chassis/System.Embedded.1/Sensors/TotalFanPower",
                       Object [("Reading", Number (PosInt 12))]);
                    ("https://bmc1/redfish/v1/TelemetryService/MetricDefinitions/CPUPower", Null);
                    ("https://bmc1/redfish/v1/TelemetryService/MetricReports",
                       Object [("Members", Array [Object [("@odata.id", Str "/r1")]])]);
                    ("https://bmc1/r1", Object [("MetricValues",
                       Array [watts_entry "CPUPower" "90"; watts_entry "CPUPower" "95.5"; watts_entry "CPUPower" "n/a"])])] url with
       | Some v => demo_json v
       | None => Ok {| rs_success := false; rs_status := "404 Not Found"; rs_json := Err EmptyString; rs_text := Err EmptyString |}
       end |}.
(** CPU power comes from the report's most recent value that parses; the PSU
    total is listed although it cannot be read. *)
Example redfish_demo : match redfish_discover demo_bmc with
  | Ok srcs => (λ s, (rf_id s, match read demo_bmc 0 s with Ok r => power_uw r | Err _ => None end)) <$> srcs =
      [("redfish:CPUPower:https://bmc1", Some 95500000); ("redfish:TotalFanPower:https://bmc1", Some 12000000);
       ("redfish:platform:https://bmc1", None)]
  | Err _ => False
  end.
Proof. vm_compute. reflexivity. Qed.
Lemma redfish_discover_sound_witness : ∃ srcs, redfish_discover demo_bmc = Ok srcs ∧ NoDup (rf_id <$> srcs).
Proof.
  destruct (redfish_discover demo_bmc) as [srcs|e] eqn:E; [|by vm_compute in E]. exists srcs. split; [reflexivity|].
  destruct (redfish_discover_sound demo_bmc srcs E) as (ep & user & pass & _ & _ & _ & Hnd). exact Hnd.
Defined.
