(* ===== verification/Agent.v ===== *)
(** * Agent: the collection loop of the node agent

    keck-agent/src/main.rs: reading and selecting the power sources, enumerating
    the pods of the node from /proc and from the kernel's per-core times,
    attributing node power to them, and building the report.  The report types
    are those of the controller (the agent serialises what the controller
    parses; the metering method it never sends is the empty default).  The
    content of /proc, the answers of the meters, the Kubernetes API, the DCGM
    exporter and the clock are arguments. *)

From S2P Require Import Prelude F64 Common Classify Text Workload Procfs Bpf Tuner Collector Aggregator.
From Stdlib Require Import Ascii SpecFloat.

Open Scope Z_scope.

(** ** Reading and selecting sources *)

Definition reading_type_str (t : ReadingType) : string :=
  match t with
  | Measured => "measured"
  | Estimated => "estimated"
  | Derived => "derived"
  end.
Definition component_str (c : Component) : string :=
  match c with
  | Cpu => "cpu"
  | Memory => "memory"
  | Gpu => "gpu"
  | Nic => "nic"
  | Storage => "storage"
  | Fan => "fan"
  | Platform => "platform"
  end.

Record ComponentReading := { rd_power_uw : Z; rd_source : string; rd_type : ReadingType }.
(** An entry of [all_source_readings]. *)
Record SourceReading := {
  sr_name : string;
  sr_component : string;
  sr_type : string;
  sr_available : bool;
  sr_power_uw : Z
}.
(** The seven [_best] variables, by component, and the list of all readings. *)
Record Selection := { all_source_readings : list SourceReading; best : gmap Component ComponentReading }.

Definition main_energy_to_power (energy_uj interval_ns : Z) : Z :=
  if interval_ns =? 0 then 0 else u64_wrap (u128_wrap (energy_uj * 1000000000) / interval_ns).

Definition counter_delta (current prev max_energy : Z) : Z :=
  if prev <=? current then current - prev
  else if 0 <? max_energy then u64_add (u64_sub max_energy prev) current
  else current.

(** The power of a reading, and the counters remembered for the next one. *)
Definition reading_power (interval_ns : Z) (prev_readings : gmap string Z) (id : string) (r : PowerReading)
    : Z * gmap string Z :=
  match energy_uj r with
  | Some current_energy =>
      let prev := default current_energy (prev_readings !! id) in
      let delta := counter_delta current_energy prev (max_energy_uj r) in
      (main_energy_to_power delta interval_ns, <[id := current_energy]> prev_readings)
  | None =>
      match power_uw r with
      | Some pw => (pw, prev_readings)
      | None => (0, prev_readings)
      end
  end.

Definition type_rank (t : ReadingType) : Z :=
  match t with
  | Measured => 3
  | Estimated => 2
  | Derived => 1
  end.
Definition is_better (existing : option ComponentReading) (new : ComponentReading) : bool :=
  match existing with
  | None => true
  | Some old => type_rank (rd_type old) <? type_rank (rd_type new)
  end.
(** For the platform the larger power wins, elsewhere the better type. *)
Definition replaces (c : Component) (existing : option ComponentReading) (new : ComponentReading) : bool :=
  match c with
  | Platform =>
      match existing with
      | None => true
      | Some old => rd_power_uw old <? rd_power_uw new
      end
  | _ => is_better existing new
  end.
Definition select_best (m : gmap Component ComponentReading) (cr : Component * ComponentReading)
    : gmap Component ComponentReading :=
  if replaces cr.1 (m !! cr.1) cr.2 then <[cr.1 := cr.2]> m else m.

(** One source of the loop, with what reading it answered. *)
Definition read_one (interval_ns : Z) (acc : gmap string Z * Selection)
    (sa : PowerSource * result PowerReading SourceError) : gmap string Z * Selection :=
  let '(prev_readings, sel) := acc in
  let '(src, answer) := sa in
  match answer with
  | Err _ =>
      (prev_readings,
       {| all_source_readings := all_source_readings sel ++
            [{| sr_name := src_name src; sr_component := component_str (src_component src);
                sr_type := reading_type_str (src_reading_type src); sr_available := false; sr_power_uw := 0 |}];
          best := best sel |})
  | Ok r =>
      let '(pw, prev') := reading_power interval_ns prev_readings (src_id src) r in
      (prev',
       {| all_source_readings := all_source_readings sel ++
            [{| sr_name := src_name src; sr_component := component_str (src_component src);
                sr_type := reading_type_str (r_type r); sr_available := 0 <? pw; sr_power_uw := pw |}];
          best := if pw =? 0 then best sel
                  else select_best (best sel) (src_component src,
                         {| rd_power_uw := pw; rd_source := src_name src; rd_type := r_type r |}) |})
  end.
Definition read_sources (interval_ns : Z) (prev_readings : gmap string Z)
    (srcs : list (PowerSource * result PowerReading SourceError)) : gmap string Z * Selection :=
  foldl (read_one interval_ns) (prev_readings, {| all_source_readings := []; best := ∅ |}) srcs.

(** The read before the loop: counters only. *)
Definition initial_read (prev_readings : gmap string Z) (sa : PowerSource * result PowerReading SourceError)
    : gmap string Z :=
  match sa.2 with
  | Ok r => match energy_uj r with Some e => <[src_id sa.1 := e]> prev_readings | None => prev_readings end
  | Err _ => prev_readings
  end.

(** ** Node figures *)

Definition best_uw (sel : Selection) (c : Component) : Z := from_option rd_power_uw 0 (best sel !! c).
Definition best_source (sel : Selection) (c : Component) : string := from_option rd_source "none" (best sel !! c).
Definition cpu_type (sel : Selection) : string :=
  from_option (λ r, reading_type_str (rd_type r)) "none" (best sel !! Cpu).
Definition platform_uw (sel : Selection) : option Z := rd_power_uw <$> best sel !! Platform.
Definition psu_output_uw (sel : Selection) : option Z :=
  let total := sum_u64 (sr_power_uw <$>
    filter (λ s, sr_available s && str_contains (sr_name s) "Output" = true) (all_source_readings sel)) in
  if 0 <? total then Some total else None.
Definition node_attributed (sel : Selection) : Z :=
  u64_add (u64_add (u64_add (u64_add (u64_add (best_uw sel Cpu) (best_uw sel Memory)) (best_uw sel Gpu))
    (best_uw sel Nic)) (best_uw sel Storage)) (best_uw sel Fan).
Definition reference_power (sel : Selection) : option Z :=
  match psu_output_uw sel with
  | Some p => Some p
  | None => platform_uw sel
  end.
Definition node_idle_uw (sel : Selection) : Z :=
  match reference_power sel with
  | Some p => sat_sub p (node_attributed sel)
  | None => 0
  end.
Definition node_error_ratio (sel : Selection) : f64 :=
  match reference_power sel with
  | Some p =>
      if 0 <? p then
        fdiv (f_of_Z (unsigned_abs (i64_wrap (i64_wrap p - i64_wrap (node_attributed sel))))) (f_of_Z p)
      else fzero
  | None => fzero
  end.

(** ** Pod reports *)

(** [recalculate_total]. *)
Definition components_total (cpu mem gpu storage io : Z) : Z :=
  u64_add (u64_add (u64_add (u64_add cpu mem) gpu) storage) io.
Definition recalculate_total (p : PodPowerReport) : PodPowerReport :=
  {| pr_node_name := pr_node_name p; pr_pod_uid := pr_pod_uid p; pr_pod_name := pr_pod_name p;
     pr_namespace := pr_namespace p; pr_cpu_uw := pr_cpu_uw p; pr_memory_uw := pr_memory_uw p;
     pr_gpu_uw := pr_gpu_uw p; pr_storage_uw := pr_storage_uw p; pr_io_uw := pr_io_uw p;
     pr_total_uw := components_total (pr_cpu_uw p) (pr_memory_uw p) (pr_gpu_uw p) (pr_storage_uw p) (pr_io_uw p);
     pr_timestamp := pr_timestamp p; pr_workload_uid := pr_workload_uid p;
     pr_workload_name := pr_workload_name p; pr_workload_kind := pr_workload_kind p;
     pr_workload_category := pr_workload_category p; pr_labels := pr_labels p;
     pr_metering_method := pr_metering_method p |}.

(** The report of a pod with the given powers; its identity from the cache.
    [now uid] is what the clock shows when the report of that pod is made. *)
Definition pod_report (node_name : string) (now : string → Z) (pod_cache : gmap string PodIdentity) (uid : string)
    (cpu mem gpu storage io total : Z) : PodPowerReport :=
  let identity := pod_cache !! uid in
  {| pr_node_name := node_name; pr_pod_uid := uid;
     pr_pod_name := from_option id_name uid identity;
     pr_namespace := from_option id_namespace "unknown" identity;
     pr_cpu_uw := cpu; pr_memory_uw := mem; pr_gpu_uw := gpu; pr_storage_uw := storage; pr_io_uw := io;
     pr_total_uw := total; pr_timestamp := now uid;
     pr_workload_uid := from_option id_workload_uid EmptyString identity;
     pr_workload_name := from_option id_workload_name EmptyString identity;
     pr_workload_kind := from_option id_workload_kind EmptyString identity;
     pr_workload_category := from_option (λ i, category_str (id_workload_category i)) "application" identity;
     pr_labels := from_option id_labels ∅ identity;
     pr_metering_method := EmptyString |}.

(** ** Enumerating pods from /proc *)

Record ProcessMetrics := {
  pm_pod_uid : string;
  pm_cpu_ticks : Z;
  pm_rss_pages : Z;
  pm_minflt_delta : Z;
  pm_majflt_delta : Z;
  pm_io_bytes_delta : Z;
  pm_net_bytes : Z
}.
(** The caches kept between ticks, by pid. *)
Record ProcCaches := {
  prev_cpu_ticks : gmap Z Z;
  prev_page_faults : gmap Z (Z * Z);
  prev_io_bytes : gmap Z Z;
  pss_cache : gmap Z Z
}.
(** What one process adds to the interval. *)
Record Observation := {
  ob_pod : option string;
  ob_cpu_delta : Z;
  ob_minflt_delta : Z;
  ob_majflt_delta : Z;
  ob_pss : Z;
  ob_io_delta : Z;
  ob_net : Z
}.

(** [saturating_sub] from the remembered value, a first sight counting nothing. *)
Definition delta_since (m : gmap Z Z) (pid current : Z) : Z := sat_sub current (default current (m !! pid)).

(** The PSS of a process and the cache: read when it is refreshed or unknown. *)
Definition pss_of (refresh_pss : bool) (cache : gmap Z Z) (pid : Z) (f : ProcFiles) : Z * gmap Z Z :=
  let fresh := (pss_or_rss f, <[pid := pss_or_rss f]> cache) in
  if refresh_pss then fresh
  else match cache !! pid with
       | Some v => (v, cache)
       | None => fresh
       end.

(** One directory of /proc: not a process, a thread or unreadable ([None]), or
    an observation and the updated caches. *)
Definition observe_process (refresh_pss : bool) (pid_net_bytes : gmap Z (Z * Z)) (c : ProcCaches)
    (entry : string * ProcFiles) : option (Observation * ProcCaches) :=
  let '(pid_str, f) := entry in
  if negb (str_all is_ascii_digit pid_str) then None
  else if is_thread pid_str f then None
  else
    match read_proc_stat f with
    | None => None
    | Some st =>
        let pid := default 0 (parse_u32 pid_str) in
        let '(prev_min, prev_maj) := default (st_minflt st, st_majflt st) (prev_page_faults c !! pid) in
        let '(pss, pss_cache') := pss_of refresh_pss (pss_cache c) pid f in
        let current_io := default 0 (read_io_bytes f) in
        Some ({| ob_pod := pod_of_files f;
                 ob_cpu_delta := delta_since (prev_cpu_ticks c) pid (st_cpu_ticks st);
                 ob_minflt_delta := sat_sub (st_minflt st) prev_min;
                 ob_majflt_delta := sat_sub (st_majflt st) prev_maj;
                 ob_pss := pss;
                 ob_io_delta := delta_since (prev_io_bytes c) pid current_io;
                 ob_net := match pid_net_bytes !! pid with Some (tx, rx) => u64_add tx rx | None => 0 end |},
              {| prev_cpu_ticks := <[pid := st_cpu_ticks st]> (prev_cpu_ticks c);
                 prev_page_faults := <[pid := (st_minflt st, st_majflt st)]> (prev_page_faults c);
                 prev_io_bytes := <[pid := current_io]> (prev_io_bytes c);
                 pss_cache := pss_cache' |})
    end.

(** The accumulators of the scan. *)
Record Scan := {
  sc_caches : ProcCaches;
  process_metrics : list ProcessMetrics;
  total_all_cpu_ticks : Z;
  total_all_pss : Z;
  total_all_pgfaults : Z;
  total_all_io_bytes : Z
}.
Definition weighted_faults (minflt majflt : Z) : Z := u64_add minflt (u64_mul majflt 10).
Definition metrics_of (o : Observation) : option ProcessMetrics :=
  (λ uid, {| pm_pod_uid := uid; pm_cpu_ticks := ob_cpu_delta o; pm_rss_pages := ob_pss o;
             pm_minflt_delta := ob_minflt_delta o; pm_majflt_delta := ob_majflt_delta o;
             pm_io_bytes_delta := ob_io_delta o; pm_net_bytes := ob_net o |}) <$> ob_pod o.
Definition scan_process (refresh_pss : bool) (pid_net_bytes : gmap Z (Z * Z)) (sc : Scan)
    (entry : string * ProcFiles) : Scan :=
  match observe_process refresh_pss pid_net_bytes (sc_caches sc) entry with
  | None => sc
  | Some (o, caches') =>
      {| sc_caches := caches';
         process_metrics := process_metrics sc ++ option_list (metrics_of o);
         total_all_cpu_ticks := u64_add (total_all_cpu_ticks sc) (ob_cpu_delta o);
         total_all_pss := u64_add (total_all_pss sc) (ob_pss o);
         total_all_pgfaults := u64_add (total_all_pgfaults sc)
                                 (weighted_faults (ob_minflt_delta o) (ob_majflt_delta o));
         total_all_io_bytes := u64_add (total_all_io_bytes sc) (ob_io_delta o) |}
  end.
Definition scan_start (c : ProcCaches) : Scan :=
  {| sc_caches := c; process_metrics := []; total_all_cpu_ticks := 0; total_all_pss := 0;
     total_all_pgfaults := 0; total_all_io_bytes := 0 |}.

(** Phase 2. *)
Record PodMetrics := {
  pod_cpu_ticks : Z;
  pod_pss_kb : Z;
  pod_pgfaults : Z;
  pod_io_bytes : Z;
  pod_net_bytes : Z
}.
Definition pod_metrics_zero : PodMetrics :=
  {| pod_cpu_ticks := 0; pod_pss_kb := 0; pod_pgfaults := 0; pod_io_bytes := 0; pod_net_bytes := 0 |}.
Definition pod_metrics_add (pm : ProcessMetrics) (m : PodMetrics) : PodMetrics :=
  {| pod_cpu_ticks := u64_add (pod_cpu_ticks m) (pm_cpu_ticks pm);
     pod_pss_kb := u64_add (pod_pss_kb m) (pm_rss_pages pm);
     pod_pgfaults := u64_add (pod_pgfaults m) (weighted_faults (pm_minflt_delta pm) (pm_majflt_delta pm));
     pod_io_bytes := u64_add (pod_io_bytes m) (pm_io_bytes_delta pm);
     pod_net_bytes := u64_add (pod_net_bytes m) (pm_net_bytes pm) |}.

(** The node's powers to be shared among its pods. *)
Record NodeTotals := { nt_cpu_uw : Z; nt_mem_uw : Z; nt_storage_uw : Z; nt_io_uw : Z }.

Section pods.
Context `{HI : HashIter} `{FO : FloatOps F}.

(** [if total > 0 { x as f64 / total as f64 } else { 0.0 }]. *)
Definition ratio_of (x total : Z) : F := if 0 <? total then fdiv (f_of_Z x) (f_of_Z total) else fzero.

Definition pod_metrics (sc : Scan) : gmap string PodMetrics :=
  hm_group pm_pod_uid (λ _, pod_metrics_zero) pod_metrics_add (process_metrics sc).

(** Phase 4, for one pod. *)
Definition attribute_pod (node_name : string) (now : string → Z) (t : NodeTotals) (total_llc_misses : Z)
    (pod_cache : gmap string PodIdentity) (sc : Scan) (um : string * PodMetrics) : PodPowerReport :=
  let '(uid, m) := um in
  let has_llc := 0 <? total_llc_misses in
  let pss_weight : F := if has_llc then f_lit 6 10 else fone in
  let llc_weight : F := if has_llc then f_lit 4 10 else fzero in
  let total_all_net_bytes := sum_u64 (pm_net_bytes <$> process_metrics sc) in
  let cpu_ratio : F := ratio_of (pod_cpu_ticks m) (total_all_cpu_ticks sc) in
  let pod_cpu_uw := scale_u64 (nt_cpu_uw t) cpu_ratio in
  let pss_ratio : F := ratio_of (pod_pss_kb m) (total_all_pss sc) in
  let llc_ratio := cpu_ratio in
  let mem_ratio := fadd (fmul pss_weight pss_ratio) (fmul llc_weight llc_ratio) in
  let pod_mem_uw := scale_u64 (nt_mem_uw t) mem_ratio in
  let pod_storage_uw := scale_u64 (nt_storage_uw t) (ratio_of (pod_io_bytes m) (total_all_io_bytes sc)) in
  let net_ratio : F := if 0 <? total_all_net_bytes
                       then fdiv (f_of_Z (pod_net_bytes m)) (f_of_Z total_all_net_bytes) else cpu_ratio in
  let pod_io_uw := scale_u64 (nt_io_uw t) net_ratio in
  pod_report node_name now pod_cache uid pod_cpu_uw pod_mem_uw 0 pod_storage_uw pod_io_uw
    (u64_add (u64_add (u64_add pod_cpu_uw pod_mem_uw) pod_storage_uw) pod_io_uw).

(** [proc_entries] is the listing of /proc ([None]: it cannot be read). *)
Definition enumerate_pods (node_name : string) (now : string → Z) (t : NodeTotals) (total_llc_misses : Z)
    (pod_cache : gmap string PodIdentity) (caches : ProcCaches) (pid_net_bytes : gmap Z (Z * Z)) (tick_count : Z)
    (proc_entries : option (list (string * ProcFiles))) : list PodPowerReport * ProcCaches :=
  match proc_entries with
  | None => ([], caches)
  | Some entries =>
      let sc := foldl (scan_process (tick_count mod 5 =? 0) pid_net_bytes) (scan_start caches) entries in
      (match process_metrics sc with
       | [] => []
       | _ => attribute_pod node_name now t total_llc_misses pod_cache sc <$> hm_iter (pod_metrics sc)
       end, sc_caches sc)
  end.

(** ** Enumerating pods from the kernel's per-core times *)

Definition add_weight (cpu : Z) (w : F) (m : gmap Z F) : gmap Z F := hm_upd cpu fzero (λ v, fadd v w) m.

(** Step 1: hardware cycles, else frequency-weighted time, else time. *)
Definition weighted_core_weight (core_counters : list CoreCounterDeltas) (snapshot : EbpfSnapshot) : gmap Z F :=
  let by_cycles := foldl (λ m c, if 0 <? cd_cycles c then <[cd_core_id c := f_of_Z (cd_cycles c)]> m else m)
                     (∅ : gmap Z F) core_counters in
  let by_freq := if decide (by_cycles = ∅)
    then foldl (λ m (t : Z * Z * Z), add_weight t.1.1
                  (fmul (fsq (fdiv (f_of_Z t.1.2) (f_of_Z 1000000))) (f_of_Z t.2)) m)
           by_cycles (es_cpu_freq_times snapshot)
    else by_cycles in
  if decide (by_freq = ∅)
  then foldl (λ m (t : Z * Z * Z), add_weight t.1.1 (f_of_Z t.2) m) by_freq (es_pid_cpu_times snapshot)
  else by_freq.

(** Step 4: the weight of a task on a core. *)
Definition task_weight (alpha beta : F) (hw : gmap (Z * Z) (Z * Z * Z)) (cpu : Z) (pt : Z * Z) : F :=
  let '(pid, time_ns) := pt in
  if decide (hw = ∅) then f_of_Z time_ns else
  let '(instr, cyc, misses) := default (0, 0, 0) (hw !! (cpu, pid)) in
  let ipc : F := if 0 <? cyc then fdiv (f_of_Z instr) (f_of_Z cyc) else fzero in
  let miss_ratio : F := if 0 <? instr then fdiv (f_of_Z misses) (f_of_Z instr) else fzero in
  fmul (f_of_Z time_ns) (fadd (fadd fone (fmul alpha ipc)) (fmul beta miss_ratio)).

(** What one core gives the pods: pod and share of the core's power. *)
Definition core_pod_shares (alpha beta : F) (hw : gmap (Z * Z) (Z * Z * Z)) (pid_pod : gmap Z string)
    (core_energy : gmap Z F) (cp : Z * list (Z * Z)) : list (string * F) :=
  let '(cpu, pids) := cp in
  let ce := default fzero (core_energy !! cpu) in
  if fleb ce fzero then [] else
  let pid_weights := (λ pt, (pt.1, task_weight alpha beta hw cpu pt)) <$> pids in
  let total_weight := fsum pid_weights.*2 in
  if fleb total_weight fzero then [] else
  omap (λ pw : Z * F, (λ uid, (uid, fmul ce (fdiv pw.2 total_weight))) <$> pid_pod !! pw.1) pid_weights.

(** The pods of the pids seen, resolved once each. *)
Definition resolve_pids (proc_of : Z → ProcFiles) (times : list (Z * Z * Z)) : gmap Z string :=
  foldl (λ m (t : Z * Z * Z),
           if decide (is_Some (m !! t.1.2)) then m
           else match pod_of_files (proc_of t.1.2) with Some uid => <[t.1.2 := uid]> m | None => m end)
    ∅ times.

Definition weighted_pod_cpu (total_cpu_uw : Z) (core_counters : list CoreCounterDeltas) (snapshot : EbpfSnapshot)
    (pid_pod : gmap Z string) (alpha beta : F) : option (gmap string F) :=
  let core_weight := weighted_core_weight core_counters snapshot in
  let total_weight := fsum (hm_values core_weight) in
  if fleb total_weight fzero then None else
  let core_energy := (λ w, fmul (f_of_Z total_cpu_uw) (fdiv w total_weight)) <$> core_weight in
  let core_pid_time := hm_group (λ t : Z * Z * Z, t.1.1) (λ _, []) (λ t l, l ++ [(t.1.2, t.2)])
                         (es_pid_cpu_times snapshot) in
  Some (foldl (λ m (us : string * F), hm_upd us.1 fzero (λ v, fadd v us.2) m) ∅
         (cp ← hm_iter core_pid_time;
          core_pod_shares alpha beta (es_pid_hw_counters snapshot) pid_pod core_energy cp)).

(** Step 6, for one pod. *)
Definition weighted_report (node_name : string) (now : string → Z) (total_mem_uw total_llc_misses : Z)
    (pod_cache : gmap string PodIdentity) (pod_cpu_uw : gmap string F) (pod_pss : gmap string Z) (total_pss : Z)
    (uid : string) : PodPowerReport :=
  let total_pod_cpu := fsum (hm_values pod_cpu_uw) in
  let cpu_f := default fzero (pod_cpu_uw !! uid) in
  let cpu := f_to_u64 cpu_f in
  let pss_ratio : F := ratio_of (default 0 (pod_pss !! uid)) total_pss in
  let llc_ratio := if fltb fzero total_pod_cpu then fdiv cpu_f total_pod_cpu else fzero in
  let mem_ratio := if 0 <? total_llc_misses
                   then fadd (fmul (f_lit 6 10) pss_ratio) (fmul (f_lit 4 10) llc_ratio) else pss_ratio in
  let mem := scale_u64 total_mem_uw mem_ratio in
  pod_report node_name now pod_cache uid cpu mem 0 0 0 (u64_add cpu mem).

Definition enumerate_pods_ebpf_weighted (node_name : string) (now : string → Z) (total_cpu_uw total_mem_uw total_llc_misses : Z)
    (core_counters : list CoreCounterDeltas) (pod_cache : gmap string PodIdentity) (snapshot : EbpfSnapshot)
    (proc_of : Z → ProcFiles) (alpha beta : F) : list PodPowerReport :=
  let pid_pod := resolve_pids proc_of (es_pid_cpu_times snapshot) in
  match weighted_pod_cpu total_cpu_uw core_counters snapshot pid_pod alpha beta with
  | None => []
  | Some pod_cpu_uw =>
      let pss_of_pid (pu : Z * string) := default 0 (read_pss_kb (proc_of pu.1)) in
      let pod_pss := hm_group snd (λ _, 0) (λ pu v, u64_add v (pss_of_pid pu)) (hm_iter pid_pod) in
      let total_pss := sum_u64 (pss_of_pid <$> hm_iter pid_pod) in
      let all_uids := (list_to_set (hm_keys pod_cpu_uw ++ hm_keys pod_pss) : gset string) in
      weighted_report node_name now total_mem_uw total_llc_misses pod_cache pod_cpu_uw pod_pss total_pss
        <$> hm_keys (gset_to_gmap tt all_uids)
  end.

(** The unweighted variant, which the loop does not call. *)
Definition enumerate_pods_ebpf (node_name : string) (now : string → Z) (total_cpu_uw total_mem_uw : Z)
    (pod_cache : gmap string PodIdentity) (snapshot : EbpfSnapshot) (proc_of : Z → ProcFiles) : list PodPowerReport :=
  let pid_pod := resolve_pids proc_of (es_pid_cpu_times snapshot) in
  let pod_cpu_ns := hm_group fst (λ _, 0) (λ us v, u64_add v us.2)
    (omap (λ t : Z * Z * Z, (λ uid, (uid, t.2)) <$> pid_pod !! t.1.2) (es_pid_cpu_times snapshot)) in
  let total_cpu_ns := sum_u64 (hm_values pod_cpu_ns) in
  let pod_rss := hm_group snd (λ _, 0) (λ pu v, u64_add v (default 0 (read_rss_pages (proc_of pu.1))))
                   (hm_iter pid_pod) in
  let total_rss := sum_u64 (hm_values pod_rss) in
  (λ un : string * Z,
     let cpu := scale_u64 total_cpu_uw (ratio_of un.2 total_cpu_ns) in
     let mem := scale_u64 total_mem_uw (ratio_of (default 0 (pod_rss !! un.1)) total_rss) in
     pod_report node_name now pod_cache un.1 cpu mem 0 0 0 (u64_add cpu mem)) <$> hm_iter pod_cpu_ns.
End pods.

(** ** Combining and completing the pods *)

Definition with_powers (cpu mem gpu : Z) (p : PodPowerReport) : PodPowerReport :=
  recalculate_total
    {| pr_node_name := pr_node_name p; pr_pod_uid := pr_pod_uid p; pr_pod_name := pr_pod_name p;
       pr_namespace := pr_namespace p; pr_cpu_uw := cpu; pr_memory_uw := mem;
       pr_gpu_uw := gpu; pr_storage_uw := pr_storage_uw p; pr_io_uw := pr_io_uw p;
       pr_total_uw := pr_total_uw p; pr_timestamp := pr_timestamp p; pr_workload_uid := pr_workload_uid p;
       pr_workload_name := pr_workload_name p; pr_workload_kind := pr_workload_kind p;
       pr_workload_category := pr_workload_category p; pr_labels := pr_labels p;
       pr_metering_method := pr_metering_method p |}.

(** The per-core figures override CPU and memory of the pods they know. *)
Definition override_pods (ebpf_pods pods : list PodPowerReport) : list PodPowerReport :=
  let ebpf_map := foldl (λ m p, <[pr_pod_uid p := (pr_cpu_uw p, pr_memory_uw p)]> m)
                    (∅ : gmap string (Z * Z)) ebpf_pods in
  (λ p, match ebpf_map !! pr_pod_uid p with
        | Some (cpu, mem) => with_powers cpu mem (pr_gpu_uw p) p
        | None => p
        end) <$> pods.

Definition extract_dcgm_label (line label : string) : option string :=
  after_find (String.append label quoted_eq) line ≫= before_char quote.

(** The first element satisfying [p], replaced. *)
Fixpoint update_first {A} (p : A → bool) (f : A → A) (l : list A) : option (list A) :=
  match l with
  | [] => None
  | x :: l' => if p x then Some (f x :: l') else cons x <$> update_first p f l'
  end.

Section gpu.
Context `{HI : HashIter}.

(** [gpu_uw] microwatts of GPU for the pod of that name. *)
Definition add_gpu (node_name : string) (now : string → Z) (pod_cache : gmap string PodIdentity)
    (pod_name namespace : string) (gpu_uw : Z) (pods : list PodPowerReport) : list PodPowerReport :=
  match update_first (λ p, String.eqb (pr_pod_name p) pod_name && String.eqb (pr_namespace p) namespace)
          (λ p, with_powers (pr_cpu_uw p) (pr_memory_uw p) (u64_add (pr_gpu_uw p) gpu_uw) p) pods with
  | Some pods' => pods'
  | None =>
      match list_find_p (λ ui : string * PodIdentity,
              String.eqb (id_name ui.2) pod_name && String.eqb (id_namespace ui.2) namespace) (hm_iter pod_cache) with
      | Some (uid, identity) =>
          pods ++ [{| pr_node_name := node_name; pr_pod_uid := uid; pr_pod_name := pod_name;
                      pr_namespace := namespace; pr_cpu_uw := 0; pr_memory_uw := 0; pr_gpu_uw := gpu_uw;
                      pr_storage_uw := 0; pr_io_uw := 0; pr_total_uw := gpu_uw; pr_timestamp := now uid;
                      pr_workload_uid := id_workload_uid identity; pr_workload_name := id_workload_name identity;
                      pr_workload_kind := id_workload_kind identity;
                      pr_workload_category := category_str (id_workload_category identity);
                      pr_labels := id_labels identity; pr_metering_method := EmptyString |}]
      | None => pods
      end
  end.

(** One line of the exporter. *)
Definition gpu_line (node_name : string) (now : string → Z) (pod_cache : gmap string PodIdentity)
    (pods : list PodPowerReport) (line : string) : list PodPowerReport :=
  if negb (String.prefix "DCGM_FI_DEV_POWER_USAGE{" line) then pods
  else if match extract_dcgm_label line "Hostname" with
          | Some h => negb (String.eqb h node_name)
          | None => false
          end then pods
  else match extract_dcgm_label line "pod" with
       | None | Some EmptyString => pods
       | Some pod_name =>
           let namespace := default EmptyString (extract_dcgm_label line "namespace") in
           let watts := default fzero (rsplit_once_snd " "%char line ≫= parse_f64) in
           if fleb watts fzero then pods
           else add_gpu node_name now pod_cache pod_name namespace
                  (f_to_u64 (fmul watts (f_of_Z 1000000))) pods
       end.
(** [body]: what the exporter answered, if there is one. *)
Definition add_gpu_power_to_pods (node_name : string) (now : string → Z) (pod_cache : gmap string PodIdentity)
    (body : option string) (pods : list PodPowerReport) : list PodPowerReport :=
  match body with
  | None => pods
  | Some b => foldl (gpu_line node_name now pod_cache) pods (str_lines b)
  end.
End gpu.

(** [names]: the entries of /proc ([None]: unreadable, no pid is active). *)
Definition cleanup_stale_pids (names : option (list string)) (c : ProcCaches) : ProcCaches :=
  let active_pids : gset Z := list_to_set (omap parse_u32 (default [] names)) in
  {| prev_cpu_ticks := filter (λ kv : Z * Z, kv.1 ∈ active_pids) (prev_cpu_ticks c);
     prev_page_faults := filter (λ kv : Z * (Z * Z), kv.1 ∈ active_pids) (prev_page_faults c);
     prev_io_bytes := filter (λ kv : Z * Z, kv.1 ∈ active_pids) (prev_io_bytes c);
     pss_cache := filter (λ kv : Z * Z, kv.1 ∈ active_pids) (pss_cache c) |}.
Definition count_processes (names : option (list string)) : Z :=
  u32_wrap (Z.of_nat (length (filter (λ s, str_all is_ascii_digit s = true) (default [] names)))).

(** ** The loop *)

Record AgentConfig := {
  ac_node_name : string;
  ac_interval_ns : Z;
  ac_exact_labels : list string;
  ac_prefix_labels : list string;
  ac_operator_namespaces : gset string;
  ac_pid_pmc : bool;
  ac_alpha : f64;
  ac_beta : f64
}.
(** What the loop keeps between iterations; [as_bpf] is the kernel's maps. *)
Record AgentState := {
  as_prev_readings : gmap string Z;
  as_caches : ProcCaches;
  as_tick_count : Z;
  as_pod_cache : gmap string PodIdentity;
  as_owner_cache : OwnerCache;
  as_last_pod_refresh : Z;
  as_counters : option HwCounterReader;
  as_tuner : option CoefficientTuner;
  as_bpf : option BpfMaps;
  as_healthy : bool
}.
(** What one iteration reads of the world: the answers of the API, the sources,
    the counters, the kernel's maps (what the kernel does up to the drain and
    during it), /proc and the exporter; the clock when each pod's report is made
    from /proc, from the kernel's times and for a GPU, and when the node's is; and
    whether the controller accepts the report. *)
Record TickEnv := {
  te_instant : Z;
  te_listing : option (list K8sPod);
  te_get_owners : string → string → string → option (list OwnerReference);
  te_instant_after : Z;
  te_answers : list (PowerSource * result PowerReading SourceError);
  te_counters : Z → option Z * option Z * option Z;
  te_kernel : list KernelEvent;
  te_drain : DrainEnv;
  te_procs : option (list (string * ProcFiles));
  te_proc_of : Z → ProcFiles;
  te_dcgm : option string;
  te_cleanup_procs : option (list string);
  te_alive : Z → bool;
  te_count_procs : option (list string);
  te_proc_time : string → Z;
  te_core_time : string → Z;
  te_gpu_time : string → Z;
  te_time : Z;
  te_accepted : bool
}.

Section tick.
Context `{HI : HashIter}.
Variable cfg : AgentConfig.

Definition tick_pod_cache (e : TickEnv) (s : AgentState) : gmap string PodIdentity * OwnerCache * Z :=
  if 30 * 1000000000 <=? sat_sub (te_instant e) (as_last_pod_refresh s) then
    let '(cache, owners) := refresh_pod_cache (te_get_owners e) (te_listing e) (ac_exact_labels cfg)
                              (ac_prefix_labels cfg) (ac_operator_namespaces cfg) (as_pod_cache s) (as_owner_cache s) in
    (cache, owners, te_instant_after e)
  else (as_pod_cache s, as_owner_cache s, as_last_pod_refresh s).

(** The pods of a tick, before GPU power. *)
Definition tick_pods (e : TickEnv) (s : AgentState) (pod_cache : gmap string PodIdentity) (sel : Selection)
    (core_counters : list CoreCounterDeltas) (snapshot : option EbpfSnapshot) (tuner : option CoefficientTuner)
    : list PodPowerReport * ProcCaches :=
  let total_llc_misses := sum_u64 (cd_cache_misses <$> core_counters) in
  let net := from_option es_pid_net_bytes ∅ snapshot in
  let '(pods, caches) :=
    enumerate_pods (F:=f64) (ac_node_name cfg) (te_proc_time e)
      {| nt_cpu_uw := best_uw sel Cpu; nt_mem_uw := best_uw sel Memory; nt_storage_uw := best_uw sel Storage;
         nt_io_uw := best_uw sel Nic |} total_llc_misses pod_cache (as_caches s) net (as_tick_count s) (te_procs e) in
  let pods' :=
    if negb (String.eqb (cpu_type sel) "estimated") then pods else
    match snapshot with
    | None => pods
    | Some snap =>
        match es_pid_cpu_times snap with
        | [] => pods
        | _ =>
            let '(ab_alpha, ab_beta) := from_option current (ac_alpha cfg, ac_beta cfg) tuner in
            match enumerate_pods_ebpf_weighted (F:=f64) (ac_node_name cfg) (te_core_time e) (best_uw sel Cpu)
                    (best_uw sel Memory) total_llc_misses core_counters pod_cache snap (te_proc_of e) ab_alpha ab_beta with
            | [] => pods
            | ebpf_pods => override_pods ebpf_pods pods
            end
        end
    end in
  (pods', caches).

Definition source_status (sel : Selection) (sr : SourceReading) : SourceStatus :=
  let comp := sr_component sr in
  {| ss_name := sr_name sr; ss_node_name := ac_node_name cfg; ss_component := comp; ss_reading_type := sr_type sr;
     ss_available := sr_available sr;
     ss_selected := if String.eqb comp "cpu" then String.eqb (best_source sel Cpu) (sr_name sr)
                    else if String.eqb comp "memory" then String.eqb (best_source sel Memory) (sr_name sr)
                    else if String.eqb comp "gpu" then (0 <? best_uw sel Gpu) && sr_available sr
                    else if String.eqb comp "platform" then bool_decide (is_Some (platform_uw sel)) && sr_available sr
                    else false;
     ss_power_uw := sr_power_uw sr |}.

Definition build_report (e : TickEnv) (sel : Selection) (pods : list PodPowerReport) : AgentReport :=
  {| ar_node :=
       {| nr_node_name := ac_node_name cfg; nr_cpu_uw := best_uw sel Cpu; nr_memory_uw := best_uw sel Memory;
          nr_gpu_uw := best_uw sel Gpu; nr_platform_uw := platform_uw sel; nr_psu_output_uw := psu_output_uw sel;
          nr_idle_uw := node_idle_uw sel; nr_error_ratio := node_error_ratio sel;
          nr_pod_count := u32_wrap (Z.of_nat (length pods)); nr_process_count := count_processes (te_count_procs e);
          nr_timestamp := te_time e; nr_cpu_source := best_source sel Cpu; nr_memory_source := best_source sel Memory;
          nr_cpu_reading_type := cpu_type sel; nr_sources := source_status sel <$> all_source_readings sel;
          nr_metering_method := EmptyString |};
     ar_pods := pods |}.

(** [drain().ok()]: what the kernel's maps hold now; nothing when there is no
    observer or draining fails. *)
Definition tick_drain (e : TickEnv) (s : AgentState) : option EbpfSnapshot * option BpfMaps :=
  match as_bpf s with
  | Some maps =>
      match drain (ac_pid_pmc cfg) (te_drain e) (run_kernel maps (te_kernel e)) with
      | (Ok snap, maps') => (Some snap, Some maps')
      | (Err _, maps') => (None, Some maps')
      end
  | None => (None, None)
  end.

(** One iteration: the report sent and the state after it. *)
Definition agent_tick (e : TickEnv) (s : AgentState) : AgentReport * AgentState :=
  let '(pod_cache, owner_cache, last_refresh) := tick_pod_cache e s in
  let '(prev_readings, sel) := read_sources (ac_interval_ns cfg) (as_prev_readings s) (te_answers e) in
  let '(core_counters, counters) :=
    match as_counters s with
    | Some r => let '(d, r') := read_deltas (te_counters e) r in (d, Some r')
    | None => ([], None)
    end in
  let '(snapshot, bpf) := tick_drain e s in
  let tuner := match as_tuner s, snapshot with
               | Some t, Some snap => Some (update t (es_pid_hw_counters snap, es_pid_cpu_times snap))
               | t, _ => t
               end in
  let '(pods, caches) := tick_pods e s pod_cache sel core_counters snapshot tuner in
  let pods := if 0 <? best_uw sel Gpu
              then add_gpu_power_to_pods (ac_node_name cfg) (te_gpu_time e) pod_cache (te_dcgm e) pods else pods in
  let tick_count := u64_add (as_tick_count s) 1 in
  let cleanup := tick_count mod 30 =? 0 in
  (build_report e sel pods,
   {| as_prev_readings := prev_readings;
      as_caches := if cleanup then cleanup_stale_pids (te_cleanup_procs e) caches else caches;
      as_tick_count := tick_count; as_pod_cache := pod_cache; as_owner_cache := owner_cache;
      as_last_pod_refresh := last_refresh; as_counters := counters; as_tuner := tuner;
      as_bpf := if cleanup then (λ m, (cleanup_dead_pids (te_alive e) m).2) <$> bpf else bpf;
      as_healthy := te_accepted e || as_healthy s |}).
End tick.
