(* ===== verification/AgentProps.v ===== *)
(** * AgentProps: what the agent's collection loop guarantees

    The theorems about [Agent]: the selection of sources, the shares of the
    pods, the consistency of the reports, and their arrival at the
    controller. *)

From S2P Require Import Prelude F64 Common Classify Text Workload Procfs Bpf Tuner Collector Aggregator Agent.
From Stdlib Require Import QArith Qround Lqa SpecFloat.

Open Scope Z_scope.

(** ** Consistent reports *)

(** The total is the (wrapped) sum of the components, and the name is the
    cached one of the uid. *)
Definition pod_consistent (pod_cache : gmap string PodIdentity) (p : PodPowerReport) : Prop :=
  pr_total_uw p = components_total (pr_cpu_uw p) (pr_memory_uw p) (pr_gpu_uw p) (pr_storage_uw p) (pr_io_uw p) ∧
  (∀ i, pod_cache !! pr_pod_uid p = Some i → pr_pod_name p = id_name i ∧ pr_namespace p = id_namespace i).
Definition pods_consistent (pod_cache : gmap string PodIdentity) (pods : list PodPowerReport) : Prop :=
  NoDup (pr_pod_uid <$> pods) ∧ Forall (pod_consistent pod_cache) pods.

Lemma components_total_wrap a b c d e : components_total a b c d e = u64_wrap (a + b + c + d + e).
Proof. unfold components_total. change (u64_add a b) with (u64_wrap (a + b)). by rewrite !u64_add_wrap. Qed.
Lemma pod_report_consistent node now cache uid cpu mem gpu storage io total :
  total = components_total cpu mem gpu storage io →
  pod_consistent cache (pod_report node now cache uid cpu mem gpu storage io total).
Proof. intros ->. split; [done|]. cbn. by intros i ->. Qed.
Lemma with_powers_consistent cache cpu mem gpu p : pod_consistent cache p → pod_consistent cache (with_powers cpu mem gpu p).
Proof. intros [_ Hn]. split; [done|]. exact Hn. Qed.

Section consistent.
Context `{HI : HashIter}.

Lemma enumerate_pods_consistent `{FO : FloatOps F} node now t llc cache caches net k procs :
  pods_consistent cache (enumerate_pods (F:=F) node now t llc cache caches net k procs).1.
Proof.
  unfold enumerate_pods. destruct procs as [entries|]; [|by split; constructor]. cbn [fst].
  set (sc := foldl _ _ entries). destruct (process_metrics sc) as [|pm pms]; [by split; constructor|]. split.
  - rewrite <-list_fmap_compose. rewrite (list_fmap_ext _ fst).
    + apply hm_keys_NoDup.
    + intros i [uid m] _. done.
  - apply Forall_fmap, Forall_forall. intros [uid m] _. cbn. apply pod_report_consistent.
    rewrite components_total_wrap, Z.add_0_r. change (u64_add ?a ?b) with (u64_wrap (a + b)) at 3.
    by rewrite !u64_add_wrap.
Qed.

Lemma override_consistent cache ebpf_pods pods : pods_consistent cache pods →
  pods_consistent cache (override_pods ebpf_pods pods).
Proof.
  intros [Hnd Hok]. unfold override_pods. set (m := foldl _ _ _). split.
  - rewrite <-list_fmap_compose. rewrite (list_fmap_ext _ pr_pod_uid); [done|].
    intros i p _. cbn. destruct (m !! pr_pod_uid p) as [[? ?]|]; done.
  - apply Forall_fmap. eapply Forall_impl; [exact Hok|]. intros p Hp. cbn.
    destruct (m !! pr_pod_uid p) as [[? ?]|]; [by apply with_powers_consistent|done].
Qed.

Lemma update_first_fmap {A B} (p : A → bool) (f : A → A) (g : A → B) l l' :
  (∀ x, g (f x) = g x) → update_first p f l = Some l' → g <$> l' = g <$> l.
Proof.
  intros Hg. revert l'. induction l as [|x l IH]; intros l'; [done|]. cbn. destruct (p x).
  - intros [= <-]. cbn. by rewrite Hg.
  - intros (l0 & Hl0 & ->)%fmap_Some. cbn. by rewrite (IH l0 Hl0).
Qed.
Lemma update_first_Forall {A} (P : A → Prop) (p : A → bool) (f : A → A) l l' :
  (∀ x, P x → P (f x)) → Forall P l → update_first p f l = Some l' → Forall P l'.
Proof.
  intros Hf Hl. revert l'. induction Hl as [|x l Hx Hl IH]; intros l'; [done|]. cbn. destruct (p x).
  - intros [= <-]. constructor; auto.
  - intros (l0 & Hl0 & ->)%fmap_Some. constructor; auto.
Qed.
Lemma update_first_None {A} (p : A → bool) (f : A → A) l : update_first p f l = None → ∀ x, x ∈ l → p x = false.
Proof.
  induction l as [|x l IH]; cbn; [intros _ x ?%not_elem_of_nil; done|]. destruct (p x) eqn:Hp; [done|].
  intros Hn%fmap_None y [->|Hy]%elem_of_cons; auto.
Qed.

Lemma add_gpu_consistent node now cache name ns gpu pods : is_u64 gpu → pods_consistent cache pods →
  pods_consistent cache (add_gpu node now cache name ns gpu pods).
Proof.
  intros Hgpu [Hnd Hok]. unfold add_gpu. destruct (update_first _ _ pods) as [pods'|] eqn:Hu.
  - split; [erewrite (update_first_fmap _ _ pr_pod_uid); [exact Hnd| |exact Hu]; done|].
    eapply update_first_Forall; [|exact Hok|exact Hu]. intros p. apply with_powers_consistent.
  - destruct (list_find_p _ (hm_iter cache)) as [[uid i]|] eqn:Hf; [|done].
    apply list_find_p_Some in Hf as [Hin Hname]. apply hm_iter_elem in Hin. cbn in Hname.
    apply andb_prop in Hname as [Hn%String.eqb_eq Hs%String.eqb_eq]. split.
    + rewrite fmap_app. apply NoDup_app. split; [done|]. split; [|apply NoDup_singleton].
      intros u Hu' ->%list_elem_of_singleton. cbn in Hu'. apply list_elem_of_fmap in Hu' as (p & Hp & Hpin).
      rewrite Forall_forall in Hok. destruct (Hok p Hpin) as [_ Hid]. rewrite <-Hp in Hid.
      destruct (Hid i Hin) as [H1 H2]. pose proof (update_first_None _ _ _ Hu p Hpin) as Hfalse. cbn in Hfalse.
      rewrite H1, H2, Hn, Hs, !String.eqb_refl in Hfalse. done.
    + apply Forall_app. split; [done|]. constructor; [|done]. split.
      * cbn. rewrite components_total_wrap. rewrite <-(u64_wrap_id gpu Hgpu) at 1. f_equal. lia.
      * cbn. rewrite Hin. by intros ? [= <-].
Qed.

Lemma gpu_power_consistent node now cache body pods : pods_consistent cache pods →
  pods_consistent cache (add_gpu_power_to_pods node now cache body pods).
Proof.
  unfold add_gpu_power_to_pods. destruct body as [b|]; [|done]. revert pods.
  induction (str_lines b) as [|line lines IH]; intros pods Hp; [done|]. cbn. apply IH. unfold gpu_line.
  destruct (negb _); [done|]. destruct (match extract_dcgm_label line "Hostname" with Some _ => _ | None => _ end); [done|].
  destruct (extract_dcgm_label line "pod") as [[|a name]|]; [done| |done].
  destruct (fleb _ fzero); [done|]. apply add_gpu_consistent; [apply f_to_u64_range|done].
Qed.

Variable cfg : AgentConfig.

Lemma tick_pods_consistent e s cache sel counters snap tuner :
  pods_consistent cache (tick_pods cfg e s cache sel counters snap tuner).1.
Proof.
  unfold tick_pods. pose proof (λ t llc cs net k procs, enumerate_pods_consistent (F:=f64)
    (ac_node_name cfg) (te_proc_time e) t llc cache cs net k procs) as Hen.
  match goal with |- context [enumerate_pods ?a ?b ?t ?l ?c ?cs ?n ?k ?p] =>
    specialize (Hen t l cs n k p); destruct (enumerate_pods a b t l c cs n k p) as [pods caches] end.
  cbn [fst] in *. destruct (negb _); [done|]. destruct snap as [snap|]; [|done].
  destruct (es_pid_cpu_times snap); [done|]. destruct (from_option current _ tuner) as [a b].
  destruct (enumerate_pods_ebpf_weighted _ _ _ _ _ _ _ _ _ _ _); [done|]. by apply override_consistent.
Qed.

Lemma agent_tick_report e s : ∃ sel pods cache,
  (agent_tick cfg e s).1 = build_report cfg e sel pods ∧ as_pod_cache (agent_tick cfg e s).2 = cache ∧
  pods_consistent cache pods.
Proof.
  unfold agent_tick. destruct (tick_pod_cache cfg e s) as [[cache owners] lr].
  destruct (read_sources _ _ _) as [prev sel].
  destruct (match as_counters s with Some _ => _ | None => _ end) as [cc counters].
  destruct (tick_drain cfg e s) as [snap bpf].
  match goal with |- context [tick_pods cfg e s cache sel cc snap ?t] =>
    pose proof (tick_pods_consistent e s cache sel cc snap t) as Hp;
    destruct (tick_pods cfg e s cache sel cc snap t) as [pods caches] end.
  exists sel, (if 0 <? best_uw sel Gpu
               then add_gpu_power_to_pods (ac_node_name cfg) (te_gpu_time e) cache (te_dcgm e) pods else pods), cache.
  split; [done|]. split; [done|]. destruct (0 <? best_uw sel Gpu); [by apply gpu_power_consistent|done].
Qed.

(** C17: every report is consistent, whatever /proc, the kernel maps, the meters
    and the exporter contain: each pod appears once, its total is the sum of its
    components (modulo 2^64), a pod the API knows carries its name and
    namespace, and the pod count is the number of pods. *)
Theorem agent_report_consistent e s :
  let r := (agent_tick cfg e s).1 in
  NoDup (pr_pod_uid <$> ar_pods r) ∧ nr_pod_count (ar_node r) = u32_wrap (Z.of_nat (length (ar_pods r))) ∧
  ∀ p, p ∈ ar_pods r →
    pr_total_uw p = u64_wrap (pr_cpu_uw p + pr_memory_uw p + pr_gpu_uw p + pr_storage_uw p + pr_io_uw p) ∧
    ∀ i, as_pod_cache (agent_tick cfg e s).2 !! pr_pod_uid p = Some i →
      pr_pod_name p = id_name i ∧ pr_namespace p = id_namespace i.
Proof.
  destruct (agent_tick_report e s) as (sel & pods & cache & -> & -> & Hnd & Hok). cbn.
  split; [done|]. split; [done|]. intros p Hp. rewrite Forall_forall in Hok.
  destruct (Hok p Hp) as [Ht Hn]. by rewrite <-components_total_wrap.
Qed.
End consistent.

(** ** Source selection *)

(** The readings of an iteration that carry power, in order. *)
Fixpoint live_readings (interval_ns : Z) (prev : gmap string Z)
    (srcs : list (PowerSource * result PowerReading SourceError)) : list (Component * ComponentReading) :=
  match srcs with
  | [] => []
  | (src, Err _) :: srcs' => live_readings interval_ns prev srcs'
  | (src, Ok r) :: srcs' =>
      let '(pw, prev') := reading_power interval_ns prev (src_id src) r in
      (if pw =? 0 then []
       else [(src_component src, {| rd_power_uw := pw; rd_source := src_name src; rd_type := r_type r |})])
      ++ live_readings interval_ns prev' srcs'
  end.
(** What decides between two readings of a component. *)
Definition merit (c : Component) (r : ComponentReading) : Z :=
  match c with
  | Platform => rd_power_uw r
  | _ => type_rank (rd_type r)
  end.
Definition readings_of (c : Component) (l : list (Component * ComponentReading)) : list ComponentReading :=
  (filter (λ cr : Component * ComponentReading, cr.1 = c) l).*2.

Lemma replaces_merit c old new : replaces c old new = from_option (λ o, merit c o <? merit c new) true old.
Proof. by destruct c, old. Qed.

Lemma read_sources_best interval prev sel srcs :
  best (foldl (read_one interval) (prev, sel) srcs).2 =
    foldl select_best (best sel) (live_readings interval prev srcs).
Proof.
  revert prev sel. induction srcs as [|[src [r|e]] srcs IH]; intros prev sel; [done| |].
  - cbn [foldl read_one live_readings]. destruct (reading_power interval prev (src_id src) r) as [pw prev'].
    rewrite IH. cbn [best]. destruct (pw =? 0); done.
  - cbn [foldl read_one live_readings]. by rewrite IH.
Qed.

(** [r] is the first reading of greatest merit in [l]. *)
Definition first_best (c : Component) (l : list ComponentReading) (r : ComponentReading) : Prop :=
  ∃ l1 l2, l = l1 ++ r :: l2 ∧ (∀ x, x ∈ l1 → merit c x < merit c r) ∧ (∀ x, x ∈ l2 → merit c x <= merit c r).

Lemma first_best_snoc c l r new : first_best c l r →
  first_best c (l ++ [new]) (if merit c r <? merit c new then new else r).
Proof.
  intros (l1 & l2 & -> & H1 & H2). destruct (Z.ltb_spec (merit c r) (merit c new)) as [Hlt|Hge].
  - exists (l1 ++ r :: l2), []. split; [done|]. split; [|by intros x ?%not_elem_of_nil].
    intros x [Hx|[->|Hx]%elem_of_cons]%elem_of_app; [specialize (H1 x Hx); lia|done|specialize (H2 x Hx); lia].
  - exists l1, (l2 ++ [new]). split; [by rewrite <-app_assoc|]. split; [done|].
    intros x [Hx| ->%list_elem_of_singleton]%elem_of_app; [by apply H2|lia].
Qed.

(** C19: source selection.  For each component the agent uses, of the readings
    that carry power, the first one of the best type (measured before estimated
    before derived), and for the platform the first one of the greatest power;
    it uses none exactly when none carries power. *)
Theorem select_best_exact interval prev srcs c :
  let l := readings_of c (live_readings interval prev srcs) in
  match best (read_sources interval prev srcs).2 !! c with
  | Some r => first_best c l r
  | None => l = []
  end.
Proof.
  unfold read_sources. rewrite read_sources_best. cbn [best].
  induction (live_readings interval prev srcs) as [|[c' new] l IH] using rev_ind; [done|].
  cbn zeta in *. rewrite foldl_app. cbn [foldl]. set (m := foldl select_best ∅ l) in *.
  unfold readings_of in *. rewrite filter_app, fmap_app, filter_cons, filter_nil. cbn [fst snd].
  unfold select_best. cbn [fst snd]. rewrite replaces_merit. destruct (decide (c' = c)) as [->|Hne].
  - destruct (m !! c) as [r|] eqn:Hm; cbn [from_option].
    + apply (first_best_snoc c _ _ new) in IH. destruct (merit c r <? merit c new); [by rewrite lookup_insert_eq|by rewrite Hm].
    + rewrite lookup_insert_eq, IH. exists [], []. split; [done|]. split; by intros x ?%not_elem_of_nil.
  - cbn [fmap list_fmap]. rewrite app_nil_r. destruct (from_option _ true (m !! c')); [by rewrite lookup_insert_ne|done].
Qed.

(** ** Node figures *)

(** The node balance.  Whenever the powers fit the machine integers, idle
    power is what the reference meter (the supplies' output, else the platform)
    measures beyond the attributed components, so the two add up to the
    reference unless the components exceed it, and without a reference nothing
    is idle. *)
Lemma node_idle_balances sel :
  (∀ c, 0 <= best_uw sel c) →
  best_uw sel Cpu + best_uw sel Memory + best_uw sel Gpu + best_uw sel Nic + best_uw sel Storage + best_uw sel Fan
    < u64_mod →
  let attributed := best_uw sel Cpu + best_uw sel Memory + best_uw sel Gpu + best_uw sel Nic
                    + best_uw sel Storage + best_uw sel Fan in
  match reference_power sel with
  | Some p => attributed + node_idle_uw sel = Z.max p attributed
  | None => node_idle_uw sel = 0
  end.
Proof.
  intros Hnn Hfit. cbn zeta. unfold node_idle_uw. destruct (reference_power sel) as [p|]; [|done].
  pose proof (Hnn Cpu). pose proof (Hnn Memory). pose proof (Hnn Gpu). pose proof (Hnn Nic).
  pose proof (Hnn Storage). pose proof (Hnn Fan).
  unfold node_attributed. change (u64_add (best_uw sel Cpu) (best_uw sel Memory))
    with (u64_wrap (best_uw sel Cpu + best_uw sel Memory)).
  rewrite !u64_add_wrap, u64_wrap_id by (unfold is_u64; lia). unfold sat_sub. lia.
Qed.

(** ** Pods share no more than the node has *)

(** The observations of a scan, process by process. *)
Fixpoint observations (refresh_pss : bool) (net : gmap Z (Z * Z)) (c : ProcCaches)
    (entries : list (string * ProcFiles)) : list Observation :=
  match entries with
  | [] => []
  | e :: es =>
      match observe_process refresh_pss net c e with
      | None => observations refresh_pss net c es
      | Some (o, c') => o :: observations refresh_pss net c' es
      end
  end.

Lemma scan_spec refresh net sc entries :
  let sc' := foldl (scan_process refresh net) sc entries in
  let obs := observations refresh net (sc_caches sc) entries in
  process_metrics sc' = process_metrics sc ++ omap metrics_of obs ∧
  total_all_cpu_ticks sc' = foldl u64_add (total_all_cpu_ticks sc) (ob_cpu_delta <$> obs) ∧
  total_all_pss sc' = foldl u64_add (total_all_pss sc) (ob_pss <$> obs) ∧
  total_all_io_bytes sc' = foldl u64_add (total_all_io_bytes sc) (ob_io_delta <$> obs).
Proof.
  revert sc. induction entries as [|e es IH]; intros sc; cbn [foldl observations].
  { cbn. by rewrite app_nil_r. }
  unfold scan_process at 2 4 6 8. destruct (observe_process refresh net (sc_caches sc) e) as [[o c']|]; [|apply IH].
  destruct (IH {| sc_caches := c';
    process_metrics := process_metrics sc ++ option_list (metrics_of o);
    total_all_cpu_ticks := u64_add (total_all_cpu_ticks sc) (ob_cpu_delta o);
    total_all_pss := u64_add (total_all_pss sc) (ob_pss o);
    total_all_pgfaults := u64_add (total_all_pgfaults sc) (weighted_faults (ob_minflt_delta o) (ob_majflt_delta o));
    total_all_io_bytes := u64_add (total_all_io_bytes sc) (ob_io_delta o) |}) as (H1 & H2 & H3 & H4).
  cbn [sc_caches process_metrics total_all_cpu_ticks total_all_pss total_all_io_bytes] in *.
  rewrite H1, H2, H3, H4. split; [|done]. rewrite <-app_assoc. f_equal.
  cbn [omap list_omap]. by destruct (metrics_of o).
Qed.

(** The machine totals of a scan do not overflow. *)
Record scan_fits (obs : list Observation) : Prop := {
  pss_nonneg : Forall (λ o, 0 <= ob_pss o) obs;
  cpu_fits : sum_Z (ob_cpu_delta <$> obs) < u64_mod;
  pss_fits : sum_Z (ob_pss <$> obs) < u64_mod;
  io_fits : sum_Z (ob_io_delta <$> obs) < u64_mod;
  net_fits : sum_Z (ob_net <$> obs) < u64_mod
}.

Lemma observe_nonneg refresh net c e o c' : observe_process refresh net c e = Some (o, c') →
  0 <= ob_cpu_delta o ∧ 0 <= ob_io_delta o ∧ 0 <= ob_net o.
Proof.
  unfold observe_process. destruct e as [name f]. destruct (negb _); [done|]. destruct (is_thread name f); [done|].
  destruct (read_proc_stat f) as [st|]; [|done]. destruct (default _ _) as [pmin pmaj].
  destruct (pss_of _ _ _ f) as [pss cache']. intros [= <- _]. cbn. unfold delta_since, sat_sub.
  split; [lia|]. split; [lia|]. destruct (net !! _) as [[tx rx]|]; [|done]. apply u64_add_range.
Qed.
Lemma observations_nonneg refresh net c entries :
  Forall (λ o, 0 <= ob_cpu_delta o ∧ 0 <= ob_io_delta o ∧ 0 <= ob_net o) (observations refresh net c entries).
Proof.
  revert c. induction entries as [|e es IH]; intros c; [constructor|]. cbn.
  destruct (observe_process refresh net c e) as [[o c']|] eqn:Ho; [|apply IH].
  constructor; [by eapply observe_nonneg|apply IH].
Qed.

(** The pods' processes are some of all processes. *)
Lemma sum_metrics_le (g : Observation → Z) (h : ProcessMetrics → Z) obs :
  (∀ o m, metrics_of o = Some m → h m = g o) → Forall (λ o, 0 <= g o) obs →
  0 <= sum_Z (h <$> omap metrics_of obs) <= sum_Z (g <$> obs) ∧ Forall (λ m, 0 <= h m) (omap metrics_of obs).
Proof.
  intros Hgh. induction 1 as [|o obs Ho Hobs [IH1 IH2]]; [done|]. cbn [omap list_omap].
  rewrite fmap_cons, sum_Z_cons. destruct (metrics_of o) as [m|] eqn:Hm; [|split; [lia|done]].
  rewrite fmap_cons, sum_Z_cons, (Hgh o m Hm). split; [lia|]. constructor; [by rewrite (Hgh o m Hm)|done].
Qed.
Lemma metrics_of_fields o m : metrics_of o = Some m →
  pm_cpu_ticks m = ob_cpu_delta o ∧ pm_rss_pages m = ob_pss o ∧ pm_io_bytes_delta m = ob_io_delta o ∧
  pm_net_bytes m = ob_net o.
Proof. unfold metrics_of. intros (uid & _ & ->)%fmap_Some. done. Qed.

Section conserve.
Context `{HI : HashIter}.

Lemma sum_hm_iter {A} (f : A → Z) (m : gmap string A) :
  sum_Z ((λ um : string * A, f um.2) <$> hm_iter m) = map_sum (λ _, f) m.
Proof. unfold map_sum. by rewrite hm_iter_perm. Qed.

(** A field of the pods' metrics: each pod holds its own sum, and together they
    hold at most the node's. *)
Lemma pod_field_sum (mu : PodMetrics → Z) (h : ProcessMetrics → Z) sc T :
  mu pod_metrics_zero = 0 →
  (∀ pm m, mu (pod_metrics_add pm m) = u64_add (mu m) (h pm)) →
  Forall (λ pm, 0 <= h pm) (process_metrics sc) → sum_Z (h <$> process_metrics sc) <= T → T < u64_mod →
  Forall (λ um : string * PodMetrics, 0 <= mu um.2) (hm_iter (pod_metrics sc)) ∧
  sum_Z ((λ um, mu um.2) <$> hm_iter (pod_metrics sc)) <= T.
Proof.
  intros Hz Hadd Hnn Hle Hfit.
  assert (∀ x v, 0 <= mu v → 0 <= h x → mu v + h x < u64_mod → mu (pod_metrics_add x v) = mu v + h x) as Hstep.
  { intros x v ? ? ?. rewrite Hadd. apply u64_add_exact. lia. }
  split.
  - apply Forall_forall. intros [uid m] Hm%hm_iter_elem. cbn.
    rewrite (hm_group_lookup_mu pm_pod_uid _ _ mu h (λ _, Hz) Hstep _ _ _ Hm Hnn) by lia.
    by apply (sum_filter_le h (λ x, pm_pod_uid x = uid)).
  - rewrite (sum_hm_iter mu). unfold pod_metrics.
    rewrite (hm_group_map_sum pm_pod_uid _ _ mu h (λ _, Hz) Hstep) by (done || lia). done.
Qed.

(** Ratios that add up to at most one share at most the whole. *)
Lemma Q_ratios_sum E l : 0 <= E <= u64_max → Forall (λ r, 0 <= r)%Q l → (Qsum l <= 1)%Q →
  sum_Z (scale_u64 (F:=Q) E <$> l) <= E.
Proof.
  intros HE Hl Hsum.
  assert (inject_Z (sum_Z (scale_u64 (F:=Q) E <$> l)) <= inject_Z E * Qsum l)%Q as Hle.
  { clear Hsum. induction Hl as [|r l Hr Hl IH]; [cbn; ring_simplify; lra|].
    rewrite fmap_cons, sum_Z_cons, inject_Z_plus, Qsum_cons.
    assert (inject_Z (scale_u64 (F:=Q) E r) <= inject_Z E * r)%Q; [|lra].
    pose proof (inject_Z_nonneg E (proj1 HE)).
    unfold scale_u64, f_to_u64. cbn. unfold Q_to_Z_sat. set (q := (inject_Z E * r)%Q).
    assert (0 <= q)%Q as Hq by (unfold q; nra). pose proof (Qfloor_le q) as Hfl.
    assert (0 <= Qfloor q) by (change 0 with (Qfloor 0); by apply Qfloor_resp_le).
    eapply Qle_trans; [|exact Hfl]. rewrite <-Zle_Qle. lia. }
  pose proof (inject_Z_nonneg E (proj1 HE)). rewrite Zle_Qle. nra.
Qed.

Lemma ratio_of_nonneg x t : 0 <= x → (0 <= ratio_of (F:=Q) x t)%Q.
Proof.
  intros Hx. unfold ratio_of. destruct (Z.ltb_spec 0 t); [|done].
  apply Qdiv_nonneg; apply inject_Z_nonneg; lia.
Qed.
Lemma ratios_sum_le {A} (f : A → Z) t l : Forall (λ a, 0 <= f a) l → sum_Z (f <$> l) <= t →
  (Qsum ((λ a, ratio_of (F:=Q) (f a) t) <$> l) <= 1)%Q.
Proof.
  intros Hl Hle. unfold ratio_of. destruct (Z.ltb_spec 0 t) as [Ht|Ht].
  - assert (0 < inject_Z t)%Q as Hq by (change 0%Q with (inject_Z 0); by rewrite <-Zlt_Qlt).
    assert (Qsum ((λ a, inject_Z (f a) / inject_Z t) <$> l) == inject_Z (sum_Z (f <$> l)) / inject_Z t)%Q as Heq.
    { clear -Hq. induction l as [|a l IH]; [cbn; field; lra|].
      rewrite !fmap_cons, Qsum_cons, sum_Z_cons, inject_Z_plus, IH. field. lra. }
    change (fdiv (f_of_Z ?x) (f_of_Z ?y)) with (inject_Z x / inject_Z y)%Q. rewrite Heq.
    apply Qle_shift_div_r; [done|]. rewrite Qmult_1_l. by rewrite <-Zle_Qle.
  - assert (Qsum ((λ _ : A, fzero (F:=Q)) <$> l) == 0)%Q as ->; [|lra].
    clear. induction l as [|a l IH]; [reflexivity|]. rewrite fmap_cons, Qsum_cons, IH. cbn. ring.
Qed.
Lemma Qsum_mix {A} (a b : Q) (f g : A → Q) l :
  (Qsum ((λ x, a * f x + b * g x) <$> l) == a * Qsum (f <$> l) + b * Qsum (g <$> l))%Q.
Proof. induction l as [|x l IH]; [cbn; ring|]. rewrite !fmap_cons, !Qsum_cons, IH. ring. Qed.

(** Sharing by one ratio, or by a convex mix of two. *)
Lemma Q_shares_le {A} E (r : A → Q) l : is_u64 E → Forall (λ a, 0 <= r a)%Q l → (Qsum (r <$> l) <= 1)%Q →
  sum_Z ((λ a, scale_u64 E (r a)) <$> l) <= E.
Proof.
  intros HE Hr Hsum. change (λ a, scale_u64 E (r a)) with (scale_u64 E ∘ r). rewrite list_fmap_compose.
  apply Q_ratios_sum; [unfold is_u64, u64_max in *; lia|by apply Forall_fmap|done].
Qed.
Lemma Q_mix_le {A} E (a b : Q) (f g : A → Q) l : is_u64 E → (0 <= a)%Q → (0 <= b)%Q → (a + b == 1)%Q →
  Forall (λ x, 0 <= f x)%Q l → (Qsum (f <$> l) <= 1)%Q → Forall (λ x, 0 <= g x)%Q l → (Qsum (g <$> l) <= 1)%Q →
  sum_Z ((λ x, scale_u64 E (a * f x + b * g x)%Q) <$> l) <= E.
Proof.
  intros HE Ha Hb Hab Hf Hf1 Hg Hg1. apply (Q_shares_le E (λ x, a * f x + b * g x)%Q); [done| |].
  - rewrite Forall_forall in Hf, Hg |- *. intros x Hx. specialize (Hf x Hx). specialize (Hg x Hx). nra.
  - rewrite Qsum_mix. nra.
Qed.

(** What a scan gives: non-negative fields of the pods, within the totals. *)
Lemma scan_fields refresh net caches entries :
  let obs := observations refresh net caches entries in
  let sc := foldl (scan_process refresh net) (scan_start caches) entries in
  scan_fits obs →
  ∀ mu T, (mu, T) ∈ [(pod_cpu_ticks, total_all_cpu_ticks sc); (pod_pss_kb, total_all_pss sc);
                     (pod_io_bytes, total_all_io_bytes sc);
                     (pod_net_bytes, sum_u64 (pm_net_bytes <$> process_metrics sc))] →
  Forall (λ um : string * PodMetrics, 0 <= mu um.2) (hm_iter (pod_metrics sc)) ∧
  sum_Z ((λ um, mu um.2) <$> hm_iter (pod_metrics sc)) <= T.
Proof.
  intros obs sc [Hpss Hc Hp Hi Hn]. pose proof (observations_nonneg refresh net caches entries) as Hnn. fold obs in Hnn.
  destruct (scan_spec refresh net (scan_start caches) entries) as (Hm & H1 & H2 & H3).
  fold sc in Hm, H1, H2, H3. cbn [scan_start process_metrics sc_caches total_all_cpu_ticks total_all_pss
    total_all_io_bytes app] in *. fold obs in Hm, H1, H2, H3.
  change (foldl u64_add 0 ?l) with (sum_u64 l) in H1, H2, H3.
  assert (∀ g : Observation → Z, Forall (λ o, 0 <= g o) obs → 0 <= sum_Z (g <$> obs)) as Hpos.
  { intros g Hg. by apply sum_Z_nonneg, Forall_fmap. }
  assert (Forall (λ o, 0 <= ob_cpu_delta o) obs) as Hcn by (eapply Forall_impl; [exact Hnn|naive_solver]).
  assert (Forall (λ o, 0 <= ob_io_delta o) obs) as Hin by (eapply Forall_impl; [exact Hnn|naive_solver]).
  assert (Forall (λ o, 0 <= ob_net o) obs) as Hnn' by (eapply Forall_impl; [exact Hnn|naive_solver]).
  rewrite sum_u64_exact in H1, H2, H3 by (unfold is_u64; auto with lia).
  destruct (sum_metrics_le ob_cpu_delta pm_cpu_ticks obs) as [Hc1 Hc2]; [intros o m Ho; by apply metrics_of_fields in Ho as (? & _)|done|].
  destruct (sum_metrics_le ob_pss pm_rss_pages obs) as [Hp1 Hp2]; [intros o m Ho; by apply metrics_of_fields in Ho as (_ & ? & _)|done|].
  destruct (sum_metrics_le ob_io_delta pm_io_bytes_delta obs) as [Hi1 Hi2]; [intros o m Ho; by apply metrics_of_fields in Ho as (_ & _ & ? & _)|done|].
  destruct (sum_metrics_le ob_net pm_net_bytes obs) as [Hn1 Hn2]; [intros o m Ho; by apply metrics_of_fields in Ho as (_ & _ & _ & ?)|done|].
  rewrite <-Hm in *. intros mu T Hin'. rewrite !elem_of_cons, elem_of_nil in Hin'.
  destruct Hin' as [[= -> ->]|[[= -> ->]|[[= -> ->]|[[= -> ->]|[]]]]].
  - rewrite H1. apply (pod_field_sum _ pm_cpu_ticks); (done || lia).
  - rewrite H2. apply (pod_field_sum _ pm_rss_pages); (done || lia).
  - rewrite H3. apply (pod_field_sum _ pm_io_bytes_delta); (done || lia).
  - rewrite sum_u64_exact by (unfold is_u64; lia). apply (pod_field_sum _ pm_net_bytes); (done || lia).
Qed.

(** The node's power is shared, never multiplied.  In exact arithmetic, the
    CPU, memory, storage and network powers reported for the pods of a node add
    up to at most the node's, for any processes, caches and counters whose
    totals fit the machine integers: the shares are taken of all processes, not
    only of those in pods. *)
Theorem pods_conserve_power node now t llc cache caches net k entries :
  scan_fits (observations (k mod 5 =? 0) net caches entries) →
  is_u64 (nt_cpu_uw t) → is_u64 (nt_mem_uw t) → is_u64 (nt_storage_uw t) → is_u64 (nt_io_uw t) →
  let pods := (enumerate_pods (F:=Q) node now t llc cache caches net k (Some entries)).1 in
  sum_Z (pr_cpu_uw <$> pods) <= nt_cpu_uw t ∧ sum_Z (pr_memory_uw <$> pods) <= nt_mem_uw t ∧
  sum_Z (pr_storage_uw <$> pods) <= nt_storage_uw t ∧ sum_Z (pr_io_uw <$> pods) <= nt_io_uw t.
Proof.
  intros Hfit Hc Hm Hs Hi. unfold enumerate_pods. cbn [fst].
  pose proof (scan_fields _ _ _ _ Hfit) as Hf. cbn zeta in Hf.
  set (sc := foldl _ _ entries) in *. destruct (process_metrics sc) as [|pm pms] eqn:Hpm.
  { cbn. unfold is_u64 in *. lia. }
  rewrite <-Hpm in *. clear Hpm. set (l := hm_iter (pod_metrics sc)) in *.
  rewrite <-!list_fmap_compose.
  destruct (Hf _ _ ltac:(left)) as [Hc1 Hc2].
  destruct (Hf _ _ ltac:(right; left)) as [Hp1 Hp2].
  destruct (Hf _ _ ltac:(right; right; left)) as [Hi1 Hi2].
  destruct (Hf _ _ ltac:(right; right; right; left)) as [Hn1 Hn2].
  pose (cpu := λ um : string * PodMetrics, ratio_of (F:=Q) (pod_cpu_ticks um.2) (total_all_cpu_ticks sc)).
  pose (pss := λ um : string * PodMetrics, ratio_of (F:=Q) (pod_pss_kb um.2) (total_all_pss sc)).
  assert (Forall (λ um, 0 <= cpu um)%Q l) as Hcpu0 by (eapply Forall_impl; [exact Hc1|]; intros; by apply ratio_of_nonneg).
  assert (Forall (λ um, 0 <= pss um)%Q l) as Hpss0 by (eapply Forall_impl; [exact Hp1|]; intros; by apply ratio_of_nonneg).
  pose proof (ratios_sum_le (λ um : string * PodMetrics, pod_cpu_ticks um.2) _ _ Hc1 Hc2 : (Qsum (cpu <$> l) <= 1)%Q) as Hcpu1.
  pose proof (ratios_sum_le (λ um : string * PodMetrics, pod_pss_kb um.2) _ _ Hp1 Hp2 : (Qsum (pss <$> l) <= 1)%Q) as Hpss1.
  split; [|split; [|split]].
  - rewrite (list_fmap_ext _ (λ um, scale_u64 (nt_cpu_uw t) (cpu um))) by (by intros ? []). by apply Q_shares_le.
  - rewrite (list_fmap_ext _ (λ um, scale_u64 (nt_mem_uw t)
      ((if 0 <? llc then f_lit (F:=Q) 6 10 else fone) * pss um + (if 0 <? llc then f_lit (F:=Q) 4 10 else fzero) * cpu um)%Q))
      by (by intros ? []).
    apply Q_mix_le; try done; by destruct (0 <? llc).
  - rewrite (list_fmap_ext _ (λ um, scale_u64 (nt_storage_uw t)
      (ratio_of (F:=Q) (pod_io_bytes um.2) (total_all_io_bytes sc)))) by (by intros ? []).
    apply Q_shares_le; [done| |by apply (ratios_sum_le (λ um : string * PodMetrics, pod_io_bytes um.2))].
    eapply Forall_impl; [exact Hi1|]; intros; by apply ratio_of_nonneg.
  - set (T := sum_u64 (pm_net_bytes <$> process_metrics sc)) in *. destruct (Z.ltb_spec 0 T) as [HT|HT].
    + rewrite (list_fmap_ext _ (λ um, scale_u64 (nt_io_uw t) (ratio_of (F:=Q) (pod_net_bytes um.2) T))).
      * apply Q_shares_le; [done| |by apply (ratios_sum_le (λ um : string * PodMetrics, pod_net_bytes um.2))].
        eapply Forall_impl; [exact Hn1|]; intros; by apply ratio_of_nonneg.
      * intros i [uid m] _. cbn. fold T. unfold ratio_of. by rewrite (proj2 (Z.ltb_lt 0 T) HT).
    + rewrite (list_fmap_ext _ (λ um, scale_u64 (nt_io_uw t) (cpu um))); [by apply Q_shares_le|].
      intros i [uid m] _. cbn. fold T. by rewrite (proj2 (Z.ltb_ge 0 T) HT).
Qed.
End conserve.

(** ** The per-core path shares no more than the node has *)

Section Qmaps.
Context `{Countable K}.

Definition Qmap_sum (m : gmap K Q) : Q := Qsum (map_to_list m).*2.
Definition Qnn (m : gmap K Q) : Prop := ∀ k v, m !! k = Some v → (0 <= v)%Q.

#[local] Instance Qsum_perm : Proper ((≡ₚ) ==> Qeq) Qsum.
Proof.
  induction 1 as [|x l l1 _ IH|x y l|l1 l2 l3 _ IH1 _ IH2]; rewrite ?Qsum_cons; [reflexivity|lra|lra|by rewrite IH1].
Qed.
Lemma Qmap_sum_insert_None m k v : m !! k = None → (Qmap_sum (<[k:=v]> m) == v + Qmap_sum m)%Q.
Proof. intros Hk. unfold Qmap_sum. by rewrite map_to_list_insert by done. Qed.
Lemma Qmap_sum_delete m k : (Qmap_sum m == default 0%Q (m !! k) + Qmap_sum (delete k m))%Q.
Proof.
  destruct (m !! k) as [v|] eqn:E; cbn [default from_option id].
  - rewrite <-(insert_delete_id m k v E) at 1. by rewrite Qmap_sum_insert_None by apply lookup_delete_eq.
  - rewrite delete_id by done. lra.
Qed.
Lemma Qmap_sum_insert m k v : (Qmap_sum (<[k:=v]> m) + default 0%Q (m !! k) == Qmap_sum m + v)%Q.
Proof.
  rewrite (Qmap_sum_delete m k), <-insert_delete_eq, Qmap_sum_insert_None by apply lookup_delete_eq. lra.
Qed.
Lemma Qmap_sum_nonneg m : Qnn m → (0 <= Qmap_sum m)%Q.
Proof.
  intros Hm. apply Qsum_nonneg, Forall_fmap, Forall_forall. intros [k v] Hkv%elem_of_map_to_list. by eapply Hm.
Qed.
Lemma Qmap_lookup_le m ks : Qnn m → NoDup ks →
  (Qsum ((λ k, default 0%Q (m !! k)) <$> ks) <= Qmap_sum m)%Q.
Proof.
  intros Hm Hnd. revert m Hm. induction Hnd as [|k ks Hk Hnd IH]; intros m Hm.
  { by apply Qmap_sum_nonneg. }
  rewrite fmap_cons, Qsum_cons, (Qmap_sum_delete m k).
  assert ((λ k, default 0%Q (m !! k)) <$> ks = (λ k', default 0%Q (delete k m !! k')) <$> ks) as ->.
  { apply list_fmap_ext. intros i k' Hk'. rewrite lookup_delete_ne; [done|].
    intros ->. apply Hk. by eapply list_elem_of_lookup_2. }
  assert (Qnn (delete k m)) as Hd by (intros k' v [_ Hv]%lookup_delete_Some; by eapply Hm).
  specialize (IH _ Hd). lra.
Qed.
Lemma Qmap_values `{HI : HashIter} m : (Qsum (hm_values m) == Qmap_sum m)%Q.
Proof. unfold hm_values, Qmap_sum. by rewrite hm_iter_perm. Qed.
Lemma Qmap_group l m : Qnn m → Forall (λ us : K * Q, 0 <= us.2)%Q l →
  let m' := foldl (λ m us, hm_upd us.1 (fzero (F:=Q)) (λ v, fadd v us.2) m) m l in
  Qnn m' ∧ (Qmap_sum m' == Qmap_sum m + Qsum l.*2)%Q.
Proof.
  intros Hm Hl. revert m Hm. induction Hl as [|[k q] l Hq Hl IH]; intros m Hm; cbn [foldl].
  { split; [done|]. cbn. lra. }
  assert (0 <= default (fzero (F:=Q)) (m !! k))%Q as Hd by (destruct (m !! k) eqn:E; cbn; [by eapply Hm|done]).
  edestruct (IH (hm_upd k fzero (λ v, fadd v q) m)) as [H1 H2].
  { unfold hm_upd. intros k' v [[_ <-]|[_ Hv]]%lookup_insert_Some; [|by eapply Hm].
    cbn [fst snd] in *. change (fadd (F:=Q)) with Qplus. lra. }
  split; [exact H1|]. cbn [fst snd] in *. rewrite H2. unfold hm_upd. cbn [fmap list_fmap snd].
  rewrite Qsum_cons. pose proof (Qmap_sum_insert m k (fadd (default (fzero (F:=Q)) (m !! k)) q)) as Hi.
  change (fadd (F:=Q)) with Qplus in *. change (fzero (F:=Q)) with 0%Q in *. lra.
Qed.
End Qmaps.

Section weighted.
Context `{HI : HashIter}.

(** What the kernel delivers: unsigned times and counters. *)
Record snapshot_ok (snap : EbpfSnapshot) : Prop := {
  times_nonneg : Forall (λ t : Z * Z * Z, 0 <= t.2) (es_pid_cpu_times snap);
  freqs_nonneg : Forall (λ t : Z * Z * Z, 0 <= t.1.2 ∧ 0 <= t.2) (es_cpu_freq_times snap);
  counters_nonneg : ∀ k i c m, es_pid_hw_counters snap !! k = Some (i, c, m) → 0 <= i ∧ 0 <= c ∧ 0 <= m
}.

Lemma add_weight_nn cpu w m : Qnn m → (0 <= w)%Q → Qnn (add_weight (F:=Q) cpu w m).
Proof.
  intros Hm Hw k v. unfold add_weight, hm_upd. intros [[_ <-]|[_ Hv]]%lookup_insert_Some; [|by eapply Hm].
  change (fadd (F:=Q)) with Qplus. destruct (m !! cpu) as [q|] eqn:E; cbn [default from_option id];
    [pose proof (Hm _ _ E); lra|change (fzero (F:=Q)) with 0%Q; lra].
Qed.

Lemma weighted_core_weight_nn counters snap : snapshot_ok snap → Qnn (weighted_core_weight (F:=Q) counters snap).
Proof.
  intros [Ht Hf _]. unfold weighted_core_weight. set (byc := foldl _ ∅ counters).
  assert (Qnn byc) as Hc.
  { apply (foldl_inv Qnn); [by intros ? ?; rewrite lookup_empty|]. intros m c _ Hm.
    destruct (Z.ltb_spec 0 (cd_cycles c)); [|done].
    intros k v [[_ <-]|[_ Hv]]%lookup_insert_Some; [apply inject_Z_nonneg; lia|by eapply Hm]. }
  set (byf := if decide (byc = ∅) then _ else byc).
  assert (Qnn byf) as Hbf.
  { unfold byf. destruct (decide (byc = ∅)); [|done]. apply (foldl_inv Qnn); [done|]. intros m t Hin Hm.
    rewrite Forall_forall in Hf. destruct (Hf t Hin). apply add_weight_nn; [done|].
    refine (fnn_mul (F:=Q) _ _ (fnn_sq _ (fnn_div _ _ (fnn_of_Z _ _) (fnn_of_Z _ _))) (fnn_of_Z _ _)); lia. }
  destruct (decide (byf = ∅)); [|done]. apply (foldl_inv Qnn); [done|]. intros m t Hin Hm.
  rewrite Forall_forall in Ht. apply add_weight_nn; [done|]. apply inject_Z_nonneg. by apply Ht.
Qed.

Lemma task_weight_nn alpha beta snap cpu pt : snapshot_ok snap → (0 <= alpha)%Q → (0 <= beta)%Q → 0 <= pt.2 →
  (0 <= task_weight (F:=Q) alpha beta (es_pid_hw_counters snap) cpu pt)%Q.
Proof.
  intros Hs Ha Hb Hpt. unfold task_weight. destruct pt as [pid time]. cbn [snd] in Hpt.
  destruct (decide _); [by apply inject_Z_nonneg|].
  destruct (default (0, 0, 0) _) as [[i c] m] eqn:Hd.
  assert (0 <= i ∧ 0 <= c ∧ 0 <= m) as (Hi & Hc & Hm).
  { destruct (es_pid_hw_counters snap !! (cpu, pid)) as [[[i' c'] m']|] eqn:E; cbn in Hd; injection Hd as <- <- <-;
      [by eapply counters_nonneg|lia]. }
  change (fnn (F:=Q) alpha) in Ha. change (fnn (F:=Q) beta) in Hb.
  change (fnn (F:=Q) (fmul (f_of_Z time) (fadd (fadd fone (fmul alpha
    (if 0 <? c then fdiv (f_of_Z i) (f_of_Z c) else fzero)))
    (fmul beta (if 0 <? i then fdiv (f_of_Z m) (f_of_Z i) else fzero))))).
  unfold fone, fzero. repeat case_match; auto 8 with keck lia.
Qed.

(** The pods of one core get at most the core's power. *)
Lemma shares_le (ce tw : Q) (pid_pod : gmap Z string) (pws : list (Z * Q)) :
  (0 <= ce)%Q → (0 < tw)%Q → Forall (λ pw, 0 <= pw.2)%Q pws →
  let l := omap (λ pw : Z * Q, (λ uid, (uid, ce * (pw.2 / tw))) <$> pid_pod !! pw.1)%Q pws in
  Forall (λ us : string * Q, 0 <= us.2)%Q l ∧ (Qsum l.*2 <= ce * (Qsum pws.*2 / tw))%Q.
Proof.
  intros Hce Htw. induction 1 as [|[pid w] pws Hw Hl [IH1 IH2]].
  { cbn. split; [constructor|]. unfold Qdiv. rewrite Qmult_0_l, Qmult_0_r. lra. }
  cbn [snd] in Hw. assert (0 <= w / tw)%Q as Hr by (apply Qdiv_nonneg; lra).
  cbn [fmap list_fmap snd]. rewrite Qsum_cons.
  assert (ce * ((w + Qsum pws.*2) / tw) == ce * (w / tw) + ce * (Qsum pws.*2 / tw))%Q as ->
    by (unfold Qdiv; ring).
  cbn [omap list_omap fst snd]. destruct (pid_pod !! pid) as [uid|]; cbn [fmap option_fmap option_map].
  - split; [constructor; [cbn [snd]; nra|exact IH1]|]. cbn [fmap list_fmap snd]. rewrite Qsum_cons.
    apply Qplus_le_compat; [apply Qle_refl|exact IH2].
  - split; [exact IH1|]. eapply Qle_trans; [exact IH2|]. nra.
Qed.

Lemma core_pod_shares_le alpha beta snap pid_pod core_energy cp : snapshot_ok snap →
  (0 <= alpha)%Q → (0 <= beta)%Q → Qnn core_energy → Forall (λ pt : Z * Z, 0 <= pt.2) cp.2 →
  let l := core_pod_shares (F:=Q) alpha beta (es_pid_hw_counters snap) pid_pod core_energy cp in
  Forall (λ us : string * Q, 0 <= us.2)%Q l ∧ (Qsum l.*2 <= default 0 (core_energy !! cp.1))%Q.
Proof.
  intros Hs Ha Hb Hce Hpids. destruct cp as [cpu pids]. cbn [fst snd] in *. unfold core_pod_shares.
  change (default (fzero (F:=Q)) (core_energy !! cpu)) with (default 0%Q (core_energy !! cpu)).
  set (ce := default 0%Q (core_energy !! cpu)).
  assert (0 <= ce)%Q as Hce0 by (unfold ce; destruct (core_energy !! cpu) eqn:E; cbn; [by eapply Hce|lra]).
  destruct (fleb ce fzero); [by split; [constructor|]|]. set (pws := _ <$> pids).
  assert (Forall (λ pw : Z * Q, 0 <= pw.2)%Q pws) as Hpw.
  { apply Forall_fmap. eapply Forall_impl; [exact Hpids|]. intros pt Hpt. by apply task_weight_nn. }
  destruct (fleb (fsum pws.*2) fzero) eqn:Hle; [by split; [constructor|]|].
  apply Qle_bool_false in Hle. change (fzero (F:=Q)) with 0%Q in Hle.
  destruct (shares_le ce (fsum pws.*2) pid_pod pws Hce0 Hle Hpw) as [H1 H2]. split; [exact H1|].
  assert (Qsum pws.*2 / fsum pws.*2 == 1)%Q as Hone
    by (rewrite fsum_Qsum in Hle |- *; apply Qmult_inv_r; lra).
  rewrite Hone, Qmult_1_r in H2. exact H2.
Qed.

Lemma Qsum_app l1 l2 : (Qsum (l1 ++ l2) == Qsum l1 + Qsum l2)%Q.
Proof.
  induction l1 as [|x l1 IH]; [change (Qsum [] ) with 0%Q; cbn [app]; lra|].
  rewrite <-app_comm_cons, !Qsum_cons, IH. lra.
Qed.

Lemma all_shares_le alpha beta snap pid_pod core_energy cps : snapshot_ok snap →
  (0 <= alpha)%Q → (0 <= beta)%Q → Qnn core_energy →
  Forall (λ cp : Z * list (Z * Z), Forall (λ pt : Z * Z, 0 <= pt.2) cp.2) cps →
  let l := cp ← cps; core_pod_shares (F:=Q) alpha beta (es_pid_hw_counters snap) pid_pod core_energy cp in
  Forall (λ us : string * Q, 0 <= us.2)%Q l ∧
  (Qsum l.*2 <= Qsum ((λ cpu, default 0%Q (core_energy !! cpu)) <$> cps.*1))%Q.
Proof.
  intros Hs Ha Hb Hce. induction 1 as [|cp cps Hcp Hl [IH1 IH2]]; [split; [constructor|apply Qle_refl]|].
  destruct (core_pod_shares_le alpha beta snap pid_pod core_energy cp Hs Ha Hb Hce Hcp) as [H1 H2].
  rewrite bind_cons. cbn zeta. split; [by apply Forall_app|].
  rewrite fmap_app, Qsum_app, !fmap_cons, Qsum_cons. by apply Qplus_le_compat.
Qed.

Lemma core_pid_time_nonneg snap : snapshot_ok snap →
  Forall (λ cp : Z * list (Z * Z), Forall (λ pt : Z * Z, 0 <= pt.2) cp.2)
    (hm_iter (hm_group (λ t : Z * Z * Z, t.1.1) (λ _, []) (λ t l, l ++ [(t.1.2, t.2)]) (es_pid_cpu_times snap))).
Proof.
  intros [Ht _ _]. apply Forall_forall. intros [cpu pids] Hin%hm_iter_elem. cbn [snd]. revert cpu pids Hin.
  unfold hm_group, hm_group_from.
  apply (foldl_inv (λ m : gmap Z (list (Z * Z)), ∀ k l, m !! k = Some l → Forall (λ pt : Z * Z, 0 <= pt.2) l)).
  { intros ? ?. by rewrite lookup_empty. }
  intros m t Hin Hm k l. unfold hm_upd. intros [[_ <-]|[_ Hl]]%lookup_insert_Some; [|by eapply Hm].
  apply Forall_app. split.
  - destruct (m !! t.1.1) as [l'|] eqn:E; cbn; [by eapply Hm|constructor].
  - repeat constructor. cbn. rewrite Forall_forall in Ht. by apply Ht.
Qed.

(** The powers of the pods, as computed in floats: none negative, together at
    most the node's. *)
Lemma weighted_pod_cpu_le T counters snap pid_pod alpha beta m : 0 <= T → snapshot_ok snap →
  (0 <= alpha)%Q → (0 <= beta)%Q →
  weighted_pod_cpu (F:=Q) T counters snap pid_pod alpha beta = Some m →
  Qnn m ∧ (Qmap_sum m <= inject_Z T)%Q.
Proof.
  intros HT Hs Ha Hb. unfold weighted_pod_cpu. set (cw := weighted_core_weight counters snap).
  set (tw := fsum (hm_values cw)). destruct (fleb tw fzero) eqn:Hle; [done|].
  apply Qle_bool_false in Hle. change (fzero (F:=Q)) with 0%Q in Hle.
  pose proof (weighted_core_weight_nn counters snap Hs) as Hcw. fold cw in Hcw.
  assert (tw == Qmap_sum cw)%Q as Htw by (unfold tw; rewrite fsum_Qsum; apply Qmap_values).
  pose proof (inject_Z_nonneg T HT) as HT'.
  set (ce := (λ w, fmul (f_of_Z T) (fdiv w tw)) <$> cw).
  assert (Qnn ce) as Hce.
  { intros k v. unfold ce. rewrite lookup_fmap. intros (w & Hw & ->)%fmap_Some.
    pose proof (Qdiv_nonneg w tw (Hcw _ _ Hw) (Qlt_le_weak _ _ Hle)).
    change (0 <= inject_Z T * (w / tw))%Q. nra. }
  assert (Qmap_sum ce == inject_Z T)%Q as HceT.
  { unfold Qmap_sum, ce. rewrite map_to_list_fmap, <-list_fmap_compose.
    assert (∀ l : list (Z * Q), Qsum ((snd ∘ prod_map id (λ w, fmul (f_of_Z T) (fdiv w tw))) <$> l)
              == inject_Z T * (Qsum l.*2 / tw))%Q as ->.
    { induction l as [|[k w] l IH]; [cbn; unfold Qdiv; ring|]. rewrite !fmap_cons, !Qsum_cons, IH.
      cbn [compose snd prod_map]. change (fmul (f_of_Z T) (fdiv w tw)) with (inject_Z T * (w / tw))%Q.
      unfold Qdiv. ring. }
    fold (Qmap_sum cw). rewrite <-Htw. unfold Qdiv. rewrite Qmult_inv_r by lra. lra. }
  intros Hm. apply (inj Some) in Hm as <-.
  destruct (all_shares_le alpha beta snap pid_pod ce _ Hs Ha Hb Hce (core_pid_time_nonneg snap Hs)) as [H1 H2].
  edestruct (Qmap_group (K:=string) _ ∅ ltac:(by intros ? ?; rewrite lookup_empty) H1) as [H3 H4].
  split; [exact H3|]. rewrite H4. change (Qmap_sum ∅) with (Qsum (map_to_list (∅ : gmap string Q)).*2).
  rewrite map_to_list_empty. cbn [fmap list_fmap Qsum foldr]. rewrite Qplus_0_l.
  eapply Qle_trans; [exact H2|]. rewrite <-HceT. apply Qmap_lookup_le; [done|]. apply hm_keys_NoDup.
Qed.

Lemma digits_val_nonneg s acc : 0 <= acc → str_all is_ascii_digit s = true → 0 <= digits_val acc s.
Proof.
  revert acc. induction s as [|c s IH]; intros acc Hacc; [done|]. cbn. intros [Hc Hs]%andb_prop.
  apply IH; [|done]. unfold is_ascii_digit, digit_val in *. lia.
Qed.
Lemma parse_u64_nonneg s n : parse_u64 s = Some n → 0 <= n.
Proof.
  unfold parse_u64, parse_uint. match goal with |- context [str_nonempty ?b] => generalize b as body end. intros body.
  destruct (str_nonempty body && str_all is_ascii_digit body && (digits_val 0 body <=? u64_max)) eqn:E; [|done].
  intros [= <-]. apply andb_prop in E as [[_ E]%andb_prop _]. by apply digits_val_nonneg.
Qed.
Lemma read_pss_nonneg f : 0 <= default 0 (read_pss_kb f).
Proof.
  unfold read_pss_kb, field_u64. destruct (pf_smaps_rollup f) as [c|]; cbn; [|done].
  destruct (list_find_p _ _) as [l|]; cbn; [|done]. destruct (split_whitespace l !! 1%nat) as [w|]; cbn; [|done].
  destruct (parse_u64 w) as [n|] eqn:E; cbn; [by eapply parse_u64_nonneg|done].
Qed.

Lemma f_to_u64_floor q : (0 <= q)%Q → (inject_Z (f_to_u64 (F:=Q) q) <= q)%Q.
Proof.
  intros Hq. unfold f_to_u64. cbn. unfold Q_to_Z_sat. eapply Qle_trans; [|apply Qfloor_le].
  assert (0 <= Qfloor q) by (change 0 with (Qfloor 0); by apply Qfloor_resp_le). rewrite <-Zle_Qle. lia.
Qed.
Lemma floors_le {A} (f : A → Q) l T : Forall (λ a, 0 <= f a)%Q l → (Qsum (f <$> l) <= inject_Z T)%Q →
  sum_Z ((λ a, f_to_u64 (F:=Q) (f a)) <$> l) <= T.
Proof.
  intros Hl HT. rewrite Zle_Qle. eapply Qle_trans; [|exact HT]. clear HT.
  induction Hl as [|a l Ha Hl IH]; [apply Qle_refl|]. rewrite !fmap_cons, sum_Z_cons, inject_Z_plus, Qsum_cons.
  apply Qplus_le_compat; [by apply f_to_u64_floor|done].
Qed.

Lemma default_nn `{Countable K} (m : gmap K Q) k : Qnn m → (0 <= default 0 (m !! k))%Q.
Proof. intros Hm. destruct (m !! k) eqn:E; cbn; [by eapply Hm|apply Qle_refl]. Qed.

(** The shares of memory by activity add up to at most one. *)
Lemma llc_ratios_le (m : gmap string Q) uids : Qnn m → NoDup uids →
  let r uid := if fltb (fzero (F:=Q)) (fsum (hm_values m)) then fdiv (default fzero (m !! uid)) (fsum (hm_values m)) else fzero in
  Forall (λ uid, 0 <= r uid)%Q uids ∧ (Qsum (r <$> uids) <= 1)%Q.
Proof.
  intros Hm Hnd. cbn zeta. set (t := fsum (hm_values m)).
  assert (t == Qmap_sum m)%Q as Ht by (unfold t; rewrite fsum_Qsum; apply Qmap_values).
  destruct (fltb fzero t) eqn:Hlt.
  - assert (0 < t)%Q as Hpos.
    { cbn in Hlt. apply negb_true_iff in Hlt. by apply Qle_bool_false in Hlt. }
    split.
    + apply Forall_forall. intros uid _. apply Qdiv_nonneg; [by apply default_nn|lra].
    + assert (∀ l : list string, Qsum ((λ uid, fdiv (default fzero (m !! uid)) t) <$> l)
                == Qsum ((λ uid, default 0%Q (m !! uid)) <$> l) / t)%Q as ->.
      { induction l as [|u l IH]; [cbn; unfold Qdiv; ring|]. rewrite !fmap_cons, !Qsum_cons, IH.
        change (fdiv (default fzero (m !! u)) t) with (default 0%Q (m !! u) / t)%Q. unfold Qdiv. ring. }
      apply Qle_shift_div_r; [done|]. rewrite Qmult_1_l, Ht. by apply Qmap_lookup_le.
  - split; [by apply Forall_forall|]. clear. induction uids as [|u l IH]; [done|].
    rewrite fmap_cons, Qsum_cons. change (fzero (F:=Q)) with 0%Q in *. lra.
Qed.

(** C7: the per-core path conserves power too.  In exact arithmetic and for any
    kernel snapshot, the CPU powers the weighted enumeration gives the pods add
    up to at most the node's CPU power, and the memory powers to at most the
    node's memory power: energy of cores, tasks or processes outside pods is
    never handed to pods. *)
Theorem weighted_pods_conserve node now T M llc counters cache snap proc_of alpha beta :
  is_u64 T → is_u64 M → snapshot_ok snap → (0 <= alpha)%Q → (0 <= beta)%Q →
  map_sum (λ pid _, default 0 (read_pss_kb (proc_of pid))) (resolve_pids proc_of (es_pid_cpu_times snap)) < u64_mod →
  let pods := enumerate_pods_ebpf_weighted (F:=Q) node now T M llc counters cache snap proc_of alpha beta in
  sum_Z (pr_cpu_uw <$> pods) <= T ∧ sum_Z (pr_memory_uw <$> pods) <= M.
Proof.
  intros HT HM Hs Ha Hb Hfit. unfold enumerate_pods_ebpf_weighted. set (pp := resolve_pids _ _) in *.
  destruct (weighted_pod_cpu _ _ _ _ _ _) as [m|] eqn:Hm; [|cbn; unfold is_u64 in *; lia].
  apply weighted_pod_cpu_le in Hm as [Hnn Hle]; [|unfold is_u64 in *; lia|done..].
  set (pss := λ pu : Z * string, default 0 (read_pss_kb (proc_of pu.1))).
  set (pod_pss := hm_group _ _ _ _). set (uids := hm_keys _).
  assert (NoDup uids) as Hnd by apply hm_keys_NoDup.
  assert (sum_Z (pss <$> hm_iter pp) < u64_mod) as Hfit'.
  { unfold map_sum in Hfit. by rewrite hm_iter_perm. }
  assert (Forall (λ pu, 0 <= pss pu) (hm_iter pp)) as Hpss0 by (apply Forall_forall; intros; apply read_pss_nonneg).
  assert (map_sum (λ _ v, v) pod_pss = sum_Z (pss <$> hm_iter pp)) as Hpsum.
  { apply (hm_group_map_sum snd _ _ (λ v, v) pss); [done| |done|done]. intros x v ? ? ?. apply u64_add_exact. lia. }
  assert (∀ k v, pod_pss !! k = Some v → 0 <= v) as Hpnn.
  { intros k v Hk. unfold pod_pss in Hk.
    eapply (hm_group_lookup_mu snd _ _ (λ v, v) pss) in Hk as ->; [|done| |done|done].
    - by apply (sum_filter_le pss (λ x, x.2 = k)).
    - intros x v' ? ? ?. apply u64_add_exact. lia. }
  rewrite sum_u64_exact by (split; [by apply sum_Z_nonneg, Forall_fmap|done]).
  rewrite <-!list_fmap_compose. split.
  - apply (floors_le (λ uid, default 0%Q (m !! uid))).
    + apply Forall_forall. intros uid _. by apply default_nn.
    + eapply Qle_trans; [by apply Qmap_lookup_le|done].
  - pose (pr := λ uid, ratio_of (F:=Q) (default 0 (pod_pss !! uid)) (sum_Z (pss <$> hm_iter pp))).
    assert (Forall (λ uid, 0 <= default 0 (pod_pss !! uid)) uids) as Hp0.
    { apply Forall_forall. intros uid _. destruct (pod_pss !! uid) eqn:E; cbn; [by eapply Hpnn|done]. }
    assert (Forall (λ uid, 0 <= pr uid)%Q uids) as Hpr0
      by (eapply Forall_impl; [exact Hp0|]; intros uid ?; by apply ratio_of_nonneg).
    assert (Qsum (pr <$> uids) <= 1)%Q as Hpr1.
    { apply (ratios_sum_le (λ uid, default 0 (pod_pss !! uid))); [done|]. rewrite <-Hpsum. by apply sum_lookup_le. }
    destruct (llc_ratios_le m uids Hnn Hnd) as [Hl0 Hl1]. cbn zeta in Hl0, Hl1.
    pose (lr := λ uid, if fltb (fzero (F:=Q)) (fsum (hm_values m))
                       then fdiv (default fzero (m !! uid)) (fsum (hm_values m)) else fzero).
    change (Forall (λ uid, 0 <= lr uid)%Q uids) in Hl0. change (Qsum (lr <$> uids) <= 1)%Q in Hl1.
    destruct (0 <? llc) eqn:Hllc.
    + rewrite (list_fmap_ext _ (λ uid, scale_u64 M (f_lit (F:=Q) 6 10 * pr uid + f_lit (F:=Q) 4 10 * lr uid)%Q)).
      * by apply Q_mix_le.
      * intros i uid _. cbn. unfold weighted_report. by rewrite Hllc.
    + rewrite (list_fmap_ext _ (λ uid, scale_u64 M (pr uid))); [by apply Q_shares_le|].
      intros i uid _. cbn. unfold weighted_report. by rewrite Hllc.
Qed.
End weighted.

(** ** Witnesses *)

#[local] Existing Instance hash_iter_list.

Definition demo_uid : string := "3f2a6c1e-9b7d-4e0f-8a55-0123456789ab".
Definition demo_cgroup (in_pod : bool) : string :=
  if in_pod then cgroup_file "/kubepods.slice/kubepods" demo_uid "slice/crio-1.scope"
  else "0::/system.slice/sshd.service".
Definition demo_files (stat pss : string) (in_pod : bool) : ProcFiles :=
  {| pf_status := None; pf_stat := Some stat; pf_smaps_rollup := Some pss; pf_statm := None;
     pf_io := Some "read_bytes: 4096"; pf_cgroup := Some (demo_cgroup in_pod) |}.
(** A process in the pod with 30 new ticks, one outside with 10, and a name
    that is not a process. *)
Definition demo_entries : list (string * ProcFiles) :=
  [("7", demo_files "7 (web) S 1 7 7 0 -1 4 100 5 3 1 100 30 0 0 20" "Pss: 300 kB" true);
   ("8", demo_files "8 (sshd) S 1 8 8 0 -1 4 100 5 3 1 50 10 0 0 20" "Pss: 100 kB" false);
   ("self", demo_files "" "" false)].
Definition demo_caches : ProcCaches :=
  {| prev_cpu_ticks := {[ 7 := 100; 8 := 50 ]}; prev_page_faults := ∅; prev_io_bytes := ∅; pss_cache := ∅ |}.
Definition demo_totals : NodeTotals :=
  {| nt_cpu_uw := 40000000; nt_mem_uw := 8000000; nt_storage_uw := 1000000; nt_io_uw := 2000000 |}.

Lemma pods_conserve_power_witness :
  let pods := (enumerate_pods (F:=Q) "n" (λ _, 0) demo_totals 0 ∅ demo_caches ∅ 0 (Some demo_entries)).1 in
  ((λ p, (pr_pod_uid p, pr_cpu_uw p, pr_memory_uw p)) <$> pods = [(demo_uid, 30000000, 6000000)]) ∧
  sum_Z (pr_cpu_uw <$> pods) <= 40000000 ∧ sum_Z (pr_memory_uw <$> pods) <= 8000000.
Proof.
  cbn zeta. split; [vm_compute; reflexivity|].
  edestruct (pods_conserve_power "n" (λ _, 0) demo_totals 0 ∅ demo_caches ∅ 0 demo_entries) as (H1 & H2 & _).
  - split; vm_compute; try reflexivity. repeat constructor; discriminate.
  - done.
  - done.
  - done.
  - done.
  - split; [exact H1|exact H2].
Defined.

(** Core 0 ran the pod's process for 3 ms and the other for 1 ms; core 1 only
    the other, for 4 ms. *)
Definition demo_snapshot : EbpfSnapshot :=
  {| es_pid_cpu_times := [(0, 7, 3000000); (0, 8, 1000000); (1, 8, 4000000)]; es_cpu_freq_times := [];
     es_pid_cgroups := ∅; es_pid_net_bytes := ∅; es_pid_hw_counters := ∅ |}.
Definition demo_proc_of (pid : Z) : ProcFiles :=
  demo_files "" "Pss: 300 kB" (pid =? 7).

Lemma weighted_pods_conserve_witness :
  let pods := enumerate_pods_ebpf_weighted (F:=Q) "n" (λ _, 0) 40000000 8000000 1 [] ∅ demo_snapshot demo_proc_of 0%Q 0%Q in
  ((λ p, (pr_pod_uid p, pr_cpu_uw p, pr_memory_uw p)) <$> pods = [(demo_uid, 15000000, 8000000)]) ∧
  sum_Z (pr_cpu_uw <$> pods) <= 40000000 ∧ sum_Z (pr_memory_uw <$> pods) <= 8000000.
Proof.
  cbn zeta. split; [vm_compute; reflexivity|].
  apply (weighted_pods_conserve "n" (λ _, 0) 40000000 8000000 1 [] ∅ demo_snapshot demo_proc_of 0%Q 0%Q).
  - done.
  - done.
  - split; [repeat constructor; discriminate|constructor|]. intros k i c m Hk. change (es_pid_hw_counters demo_snapshot) with (∅ : gmap (Z * Z) (Z * Z * Z)) in Hk. by rewrite lookup_empty in Hk.
  - apply Qle_refl.
  - apply Qle_refl.
  - vm_compute. reflexivity.
Defined.

(** With two RAPL sockets the agent reports the first one's power only. *)
Definition demo_rapl (id : string) : PowerSource :=
  {| src_id := id; src_name := id; src_component := Cpu; src_granularity := Collector.Node;
     src_reading_type := Estimated; default_poll_interval := 0 |}.
Definition demo_power (id : string) (pw : Z) : PowerReading :=
  {| source_id := id; r_timestamp := 0; r_component := Cpu; r_granularity := Collector.Node; r_type := Estimated;
     energy_uj := None; power_uw := Some pw; max_energy_uj := 0 |}.
Example second_socket_ignored :
  best_uw (read_sources 1 ∅ [(demo_rapl "s0", Ok (demo_power "s0" 40)); (demo_rapl "s1", Ok (demo_power "s1" 60))]).2 Cpu
    = 40.
Proof. reflexivity. Qed.
