(* ===== verification/EndToEnd.v ===== *)
(** * EndToEnd: from the agent's tick to the controller's view

    The report a tick of [Agent] builds, sent to the endpoint of [Api] and
    ingested by [Aggregator]. *)

From S2P Require Import Prelude F64 Common Classify Text Workload Procfs Bpf Tuner Collector Aggregator Agent AgentProps Api.

Open Scope Z_scope.

Lemma last_report_NoDup l p : NoDup (pr_pod_uid <$> l) → p ∈ l → last_report (pr_pod_uid p) l = Some p.
Proof.
  intros Hnd Hp. destruct (last_report (pr_pod_uid p) l) as [q|] eqn:Hl.
  - apply last_report_Some in Hl as [Hu Hq]. f_equal.
    apply list_elem_of_lookup in Hp as [i Hi], Hq as [j Hj].
    assert (i = j) as ->; [|congruence].
    apply (NoDup_lookup _ i j (pr_pod_uid p) Hnd); rewrite list_lookup_fmap; [rewrite Hi|rewrite Hj]; cbn; congruence.
  - apply last_report_None in Hl. exfalso. apply Hl. apply list_elem_of_fmap. eauto.
Qed.

Section end_to_end.
Context `{HI : HashIter}.
Variable cfg : AgentConfig.

(** C3: what the agent measures is what the controller knows.  Whatever a tick
    of the agent reads, if the controller accepts its report then afterwards
    the controller's entries for the node under the agent's metering method are
    exactly the pods of that tick, each with the powers reported, and the
    node's entry is the tick's; if it does not, nothing changes. *)
Theorem agent_report_arrives e s now ne sn auth state :
  now <= ne < now + staleness_threshold (aggregator state) →
  let r := (agent_tick cfg e s).1 in
  match handle_report now ne sn auth r state with
  | (Accepted, state') =>
      (∀ p, p ∈ ar_pods r → pods (aggregator state') !! (pr_pod_uid p, "keck") =
         Some {| ps_report := with_method "keck" p; ps_received_at := now |}) ∧
      (∀ uid st, pods (aggregator state') !! (uid, "keck") = Some st →
         pr_node_name (ps_report st) = ac_node_name cfg → uid ∈ pr_pod_uid <$> ar_pods r) ∧
      nodes (aggregator state') !! (ac_node_name cfg, "keck") =
        Some {| ns_report := ar_node r; ns_received_at := now |}
  | (_, state') => state' = state
  end.
Proof.
  intros Ht. cbn zeta. destruct (agent_tick_report cfg e s) as (sel & pods & cache & -> & _ & Hnd & _).
  unfold handle_report. destruct (check_auth auth (api_key state)); [|done].
  destruct (validate_report _); [|done]. cbn [aggregator]. set (r := build_report cfg e sel pods).
  assert (report_method (ar_node r) = "keck") as Hm by done.
  split; [|split].
  - intros p Hp. rewrite ingest_pods_lookup by done. rewrite Hm, decide_True by done.
    by rewrite last_report_NoDup.
  - intros uid st. rewrite ingest_pods_lookup by done. rewrite Hm, decide_True by done.
    destruct (last_report uid (ar_pods r)) as [p|] eqn:Hl.
    + intros _ _. apply last_report_Some in Hl as [<- Hp]. apply list_elem_of_fmap. eauto.
    + destruct (Aggregator.pods (aggregator state) !! (uid, "keck")) as [st'|]; [|done].
      case_decide as Hd; [done|]. intros [= <-] Hn. exfalso. apply Hd. left. done.
  - rewrite ingest_nodes_lookup by done. rewrite decide_True by done. done.
Qed.
End end_to_end.

#[local] Existing Instance hash_iter_list.

Definition demo_config : AgentConfig :=
  {| ac_node_name := "n1"; ac_interval_ns := 1000000000; ac_exact_labels := []; ac_prefix_labels := [];
     ac_operator_namespaces := ∅; ac_pid_pmc := false; ac_alpha := f_lit 3 10; ac_beta := f_lit 3 2 |}.
Definition demo_state : AgentState :=
  {| as_prev_readings := ∅; as_caches := demo_caches; as_tick_count := 0; as_pod_cache := ∅; as_owner_cache := ∅;
     as_last_pod_refresh := 0; as_counters := None; as_tuner := None; as_bpf := None; as_healthy := false |}.
Definition demo_env : TickEnv :=
  {| te_instant := 0; te_listing := None; te_get_owners := λ _ _ _, None; te_instant_after := 0;
     te_answers := [(demo_rapl "s0", Ok (demo_power "s0" 40000000))]; te_counters := λ _, (None, None, None); te_kernel := []; te_drain := quiet_drain;
     te_procs := Some demo_entries; te_proc_of := demo_proc_of; te_dcgm := None; te_cleanup_procs := None;
     te_alive := λ _, true; te_count_procs := Some ["7"; "8"; "self"]; te_proc_time := λ _, 5; te_core_time := λ _, 5; te_gpu_time := λ _, 5; te_time := 5; te_accepted := true |}.
Definition demo_server : ServerState :=
  {| aggregator := ClusterAggregator_new; api_key := Some "k"; agent_report_total := ∅ |}.

Lemma agent_report_arrives_witness :
  let r := (agent_tick demo_config demo_env demo_state).1 in
  let reply := handle_report 10 10 10 (Some "Bearer k") r demo_server in
  reply.1 = Accepted ∧
  ((λ p, (pr_pod_uid p, pr_cpu_uw p)) <$> ar_pods r = [(demo_uid, 30000000)]) ∧
  nodes (aggregator reply.2) !! ("n1", "keck") = Some {| ns_report := ar_node r; ns_received_at := 10 |}.
Proof.
  cbn zeta. split; [vm_compute; reflexivity|]. split; [vm_compute; reflexivity|].
  pose proof (agent_report_arrives demo_config demo_env demo_state 10 10 10 (Some "Bearer k") demo_server) as H.
  ospecialize (H _); [vm_compute; split; [discriminate|reflexivity]|]. cbn zeta in H.
  assert ((handle_report 10 10 10 (Some "Bearer k") (agent_tick demo_config demo_env demo_state).1 demo_server).1
          = Accepted) as Hacc by (vm_compute; reflexivity).
  destruct (handle_report _ _ _ _ _ demo_server) as [rep st]. cbn [fst snd] in *. subst rep.
  destruct H as (_ & _ & H). exact H.
Defined.
