(* ===== verification/Machine.v ===== *)
(** * Machine: the agent's shares in the arithmetic that runs

    [AgentProps] proves in exact arithmetic that pods share no more power than
    the node has.  Here the same is proved of the binary64 arithmetic of the
    agent, rounding included, with the error bounds of [F64Error]: every share is
    within the slack of its exact value, and the parts of a total below 2^48
    microwatts still add up to at most the total. *)

From S2P Require Import Prelude F64 F64Error Common Classify Text Workload Procfs Bpf Tuner Collector Aggregator Agent AgentProps Api EndToEnd.
From Stdlib Require Import QArith Qround Lqa SpecFloat.

Open Scope Z_scope.

(** The totals of a scan are integers the floats represent exactly. *)
Record scan_exact (obs : list Observation) : Prop := {
  ex_fits : scan_fits obs;
  ex_cpu : sum_Z (ob_cpu_delta <$> obs) <= 2 ^ 53;
  ex_pss : sum_Z (ob_pss <$> obs) <= 2 ^ 53;
  ex_io : sum_Z (ob_io_delta <$> obs) <= 2 ^ 53;
  ex_net : sum_Z (ob_net <$> obs) <= 2 ^ 53
}.
(** A power below 2^48 microwatts (281 megawatts). *)
Definition node_power (uw : Z) : Prop := 0 <= uw <= 2 ^ 48.

(** The machine's ratio against the exact one. *)
Lemma ratio_of_machine x t : 0 <= x <= t → t <= 2 ^ 53 →
  ratio_like (ratio_of (F:=f64) x t) (ratio_of (F:=Q) x t).
Proof.
  intros Hx Ht. unfold ratio_of. destruct (Z.ltb_spec 0 t); [apply ratio_like_div; lia|apply ratio_like_zero].
Qed.

(** The weights of resident and active memory. *)
Lemma below_lit n d q : f_lit (F:=f64) n d = q → finite_nn q →
  (f64_val q == 0 ∨ F64Error.two ^ (-2) <= f64_val q)%Q → below 2 (f_lit n d) (f64_val q).
Proof. intros -> Hf Hs. split; [done|apply Qle_refl|done]. Qed.
Lemma mem_weights llc : ∃ a b, below 2 (if 0 <? llc then f_lit 6 10 else fone) a ∧
  below 2 (if 0 <? llc then f_lit 4 10 else fzero) b ∧ (a + b == 1)%Q.
Proof.
  destruct (0 <? llc).
  - exists (f64_val (f_lit 6 10)), (f64_val (f_lit 4 10)). split; [|split].
    + eapply below_lit; [reflexivity|by vm_compute|right; by vm_compute].
    + eapply below_lit; [reflexivity|by vm_compute|right; by vm_compute].
    + by vm_compute.
  - exists 1%Q, 0%Q. split; [|split; [apply below_zero; [done|by left]|reflexivity]].
    split; [by vm_compute|by vm_compute|right; by vm_compute].
Qed.

Lemma sum_elem_le {A} (f : A → Z) t l : Forall (λ a, 0 <= f a) l → sum_Z (f <$> l) <= t → Forall (λ a, 0 <= f a <= t) l.
Proof.
  intros Hl Hle. rewrite Forall_forall in *. intros a Ha. split; [by apply Hl|].
  etrans; [|exact Hle]. apply sum_Z_le_elem; [|by apply list_elem_of_fmap_2]. apply Forall_fmap, Forall_forall. exact Hl.
Qed.

(** Shares in proportion to parts of a total. *)
Lemma proportional_le {A} E (f : A → Z) t l : node_power E → t <= 2 ^ 53 → Forall (λ a, 0 <= f a) l → sum_Z (f <$> l) <= t →
  sum_Z ((λ a, scale_u64 E (ratio_of (F:=f64) (f a) t)) <$> l) <= E.
Proof.
  intros HE Ht Hl Hle. apply (parts_machine_le _ (λ a, ratio_of (F:=Q) (f a) t)); [done| |by apply ratios_sum_le].
  eapply Forall_impl; [by eapply sum_elem_le|]. intros a Ha. cbn beta in *. unfold node_power in HE. apply share_machine; [lia|].
  apply ratio_of_machine; lia.
Qed.
(** Shares in proportion to a mix of two. *)
Lemma mixed_le {A} E (u v : f64) (a b : Q) (f g : A → Z) t s l : node_power E → below 2 u a → below 2 v b → (a + b == 1)%Q →
  t <= 2 ^ 53 → s <= 2 ^ 53 → Forall (λ x, 0 <= f x) l → sum_Z (f <$> l) <= t → Forall (λ x, 0 <= g x) l → sum_Z (g <$> l) <= s →
  sum_Z ((λ x, scale_u64 E (fadd (fmul u (ratio_of (f x) t)) (fmul v (ratio_of (g x) s)))) <$> l) <= E.
Proof.
  intros HE Hu Hv Hab Ht Hs Hf Hfle Hg Hgle.
  apply (parts_machine_le _ (λ x, a * ratio_of (F:=Q) (f x) t + b * ratio_of (F:=Q) (g x) s)%Q); [done| |].
  - rewrite Forall_forall. intros x Hx. pose proof (sum_elem_le f t l Hf Hfle) as Hf'. pose proof (sum_elem_le g s l Hg Hgle) as Hg'.
    rewrite Forall_forall in Hf', Hg'. specialize (Hf' x Hx). specialize (Hg' x Hx). cbn in Hf', Hg'.
    apply mix_machine; try done; [unfold node_power in HE; lia|apply ratio_of_machine; lia..].
  - rewrite Qsum_mix. pose proof (below_nonneg _ _ _ Hu). pose proof (below_nonneg _ _ _ Hv).
    pose proof (ratios_sum_le f t l Hf Hfle). pose proof (ratios_sum_le g s l Hg Hgle). nra.
Qed.

Section machine.
Context `{HI : HashIter}.

(** The totals of the scan, exactly. *)
Lemma scan_totals refresh net caches entries :
  let obs := observations refresh net caches entries in
  let sc := foldl (scan_process refresh net) (scan_start caches) entries in
  scan_exact obs →
  total_all_cpu_ticks sc <= 2 ^ 53 ∧ total_all_pss sc <= 2 ^ 53 ∧ total_all_io_bytes sc <= 2 ^ 53 ∧
  sum_u64 (pm_net_bytes <$> process_metrics sc) <= 2 ^ 53.
Proof.
  intros obs sc [Hfit Hc Hp Hi Hn]. pose proof (observations_nonneg refresh net caches entries) as Hnn. fold obs in Hnn.
  destruct (scan_spec refresh net (scan_start caches) entries) as (Hm & H1 & H2 & H3). fold sc in Hm, H1, H2, H3.
  cbn [scan_start process_metrics sc_caches total_all_cpu_ticks total_all_pss total_all_io_bytes app] in *.
  fold obs in Hm, H1, H2, H3. change (foldl u64_add 0 ?l) with (sum_u64 l) in H1, H2, H3.
  assert (∀ l, Forall (λ x, 0 <= x) l → sum_Z l <= 2 ^ 53 → sum_u64 l <= 2 ^ 53) as Hs.
  { intros l Hl Hle. rewrite sum_u64_exact; [done|]. pose proof (sum_Z_nonneg l Hl). unfold is_u64, u64_mod. lia. }
  rewrite H1, H2, H3. split; [|split; [|split]]; apply Hs; try done.
  - apply Forall_fmap. eapply Forall_impl; [exact Hnn|naive_solver].
  - apply Forall_fmap, (pss_nonneg _ Hfit).
  - apply Forall_fmap. eapply Forall_impl; [exact Hnn|naive_solver].
  - rewrite Hm. apply Forall_fmap. eapply (sum_metrics_le ob_net pm_net_bytes obs);
      [intros o m Ho; by apply metrics_of_fields in Ho as (_ & _ & _ & ?)|eapply Forall_impl; [exact Hnn|naive_solver]].
  - rewrite Hm. etrans; [|exact Hn]. eapply (sum_metrics_le ob_net pm_net_bytes obs);
      [intros o m Ho; by apply metrics_of_fields in Ho as (_ & _ & _ & ?)|eapply Forall_impl; [exact Hnn|naive_solver]].
Qed.

Lemma enumerate_pods_machine node now t llc cache caches net k procs :
  (∀ entries, procs = Some entries → scan_exact (observations (k mod 5 =? 0) net caches entries)) →
  node_power (nt_cpu_uw t) → node_power (nt_mem_uw t) → node_power (nt_storage_uw t) → node_power (nt_io_uw t) →
  let pods := (enumerate_pods (F:=f64) node now t llc cache caches net k procs).1 in
  sum_Z (pr_cpu_uw <$> pods) <= nt_cpu_uw t ∧ sum_Z (pr_memory_uw <$> pods) <= nt_mem_uw t ∧
  sum_Z (pr_storage_uw <$> pods) <= nt_storage_uw t ∧ sum_Z (pr_io_uw <$> pods) <= nt_io_uw t.
Proof.
  intros Hex Hc Hm Hs Hi. unfold enumerate_pods. destruct procs as [entries|]; [|cbn; unfold node_power in *; lia].
  cbn [fst]. specialize (Hex entries eq_refl).
  pose proof (scan_fields _ _ _ _ (ex_fits _ Hex)) as Hf. destruct (scan_totals _ _ _ _ Hex) as (T1 & T2 & T3 & T4).
  cbn zeta in Hf. set (sc := foldl _ _ entries) in *. destruct (process_metrics sc) as [|pm pms] eqn:Hpm.
  { cbn. unfold node_power in *. lia. }
  rewrite <-Hpm in *. clear Hpm Hex. set (l := hm_iter (pod_metrics sc)) in *. rewrite <-!list_fmap_compose.
  destruct (Hf _ _ ltac:(left)) as [Hc1 Hc2].
  destruct (Hf _ _ ltac:(right; left)) as [Hp1 Hp2].
  destruct (Hf _ _ ltac:(right; right; left)) as [Hi1 Hi2].
  destruct (Hf _ _ ltac:(right; right; right; left)) as [Hn1 Hn2].
  split; [|split; [|split]].
  - rewrite (list_fmap_ext _ (λ um, scale_u64 (nt_cpu_uw t) (ratio_of (F:=f64) (pod_cpu_ticks um.2) (total_all_cpu_ticks sc))))
      by (by intros ? []). by apply (proportional_le _ (λ um : string * PodMetrics, pod_cpu_ticks um.2)).
  - destruct (mem_weights llc) as (a & b & Ha & Hb & Hab).
    rewrite (list_fmap_ext _ (λ um, scale_u64 (nt_mem_uw t)
      (fadd (fmul (if 0 <? llc then f_lit 6 10 else fone) (ratio_of (F:=f64) (pod_pss_kb um.2) (total_all_pss sc)))
            (fmul (if 0 <? llc then f_lit 4 10 else fzero) (ratio_of (F:=f64) (pod_cpu_ticks um.2) (total_all_cpu_ticks sc))))))
      by (by intros ? []).
    by apply (mixed_le _ _ _ a b (λ um : string * PodMetrics, pod_pss_kb um.2) (λ um, pod_cpu_ticks um.2)).
  - rewrite (list_fmap_ext _ (λ um, scale_u64 (nt_storage_uw t) (ratio_of (F:=f64) (pod_io_bytes um.2) (total_all_io_bytes sc))))
      by (by intros ? []). by apply (proportional_le _ (λ um : string * PodMetrics, pod_io_bytes um.2)).
  - set (T := sum_u64 (pm_net_bytes <$> process_metrics sc)) in *. destruct (Z.ltb_spec 0 T) as [HT|HT].
    + rewrite (list_fmap_ext _ (λ um, scale_u64 (nt_io_uw t) (ratio_of (F:=f64) (pod_net_bytes um.2) T))).
      * by apply (proportional_le _ (λ um : string * PodMetrics, pod_net_bytes um.2)).
      * intros i [uid m] _. cbn. fold T. unfold ratio_of. by rewrite (proj2 (Z.ltb_lt 0 T) HT).
    + rewrite (list_fmap_ext _ (λ um, scale_u64 (nt_io_uw t) (ratio_of (F:=f64) (pod_cpu_ticks um.2) (total_all_cpu_ticks sc)))).
      * by apply (proportional_le _ (λ um : string * PodMetrics, pod_cpu_ticks um.2)).
      * intros i [uid m] _. cbn. fold T. by rewrite (proj2 (Z.ltb_ge 0 T) HT).
Qed.

(** ** A whole iteration *)

(** GPU power leaves the other components alone. *)
Lemma add_gpu_sum (g : PodPowerReport → Z) node now cache name ns gpu pods :
  (∀ gpu p, g (with_powers (pr_cpu_uw p) (pr_memory_uw p) gpu p) = g p) →
  (∀ uid name ns gpu i, g {| pr_node_name := node; pr_pod_uid := uid; pr_pod_name := name; pr_namespace := ns;
     pr_cpu_uw := 0; pr_memory_uw := 0; pr_gpu_uw := gpu; pr_storage_uw := 0; pr_io_uw := 0; pr_total_uw := gpu;
     pr_timestamp := now uid; pr_workload_uid := id_workload_uid i; pr_workload_name := id_workload_name i;
     pr_workload_kind := id_workload_kind i; pr_workload_category := category_str (id_workload_category i);
     pr_labels := id_labels i; pr_metering_method := EmptyString |} = 0) →
  sum_Z (g <$> add_gpu node now cache name ns gpu pods) = sum_Z (g <$> pods).
Proof.
  intros Hw Hz. unfold add_gpu. destruct (update_first _ _ pods) as [pods'|] eqn:Hu.
  - by erewrite (update_first_fmap _ _ g); [|intros; by apply Hw|exact Hu].
  - destruct (list_find_p _ _) as [[uid i]|]; [|done]. rewrite fmap_app, sum_Z_app. cbn. rewrite Hz. lia.
Qed.
Lemma gpu_power_sum (g : PodPowerReport → Z) node now cache body pods :
  g ∈ [pr_cpu_uw; pr_memory_uw; pr_storage_uw; pr_io_uw] →
  sum_Z (g <$> add_gpu_power_to_pods node now cache body pods) = sum_Z (g <$> pods).
Proof.
  intros Hg. unfold add_gpu_power_to_pods. destruct body as [b|]; [|done]. revert pods.
  induction (str_lines b) as [|line lines IH]; intros pods; [done|]. cbn [foldl]. rewrite IH. unfold gpu_line.
  destruct (negb _); [done|]. destruct (match extract_dcgm_label line "Hostname" with Some _ => _ | None => _ end); [done|].
  destruct (extract_dcgm_label line "pod") as [[|a name]|]; [done| |done]. destruct (fleb _ fzero); [done|].
  apply add_gpu_sum; rewrite !elem_of_cons, elem_of_nil in Hg; by destruct Hg as [->|[->|[->|[->|[]]]]].
Qed.

Variable cfg : AgentConfig.

(** What an iteration selects, drains and observes. *)
Definition tick_selection (e : TickEnv) (s : AgentState) : Selection :=
  (read_sources (ac_interval_ns cfg) (as_prev_readings s) (te_answers e)).2.
Definition tick_snapshot (e : TickEnv) (s : AgentState) : option EbpfSnapshot := (tick_drain cfg e s).1.
Definition tick_observations (e : TickEnv) (s : AgentState) (entries : list (string * ProcFiles)) : list Observation :=
  observations (as_tick_count s mod 5 =? 0) (from_option es_pid_net_bytes ∅ (tick_snapshot e s)) (as_caches s) entries.

Lemma agent_tick_pods e s : ∃ cache cc tuner,
  let sel := tick_selection e s in
  let pods := (tick_pods cfg e s cache sel cc (tick_snapshot e s) tuner).1 in
  (agent_tick cfg e s).1 = build_report cfg e sel (if 0 <? best_uw sel Gpu
    then add_gpu_power_to_pods (ac_node_name cfg) (te_gpu_time e) cache (te_dcgm e) pods else pods).
Proof.
  unfold agent_tick, tick_selection, tick_snapshot. destruct (tick_pod_cache cfg e s) as [[cache owners] lr].
  destruct (read_sources _ _ _) as [prev sel].
  destruct (match as_counters s with Some _ => _ | None => _ end) as [cc counters].
  exists cache, cc. destruct (tick_drain cfg e s) as [snap bpf].
  match goal with |- context [tick_pods cfg e s cache sel cc snap ?t] => exists t; cbn zeta; cbn [fst snd];
    by destruct (tick_pods cfg e s cache sel cc snap t) as [pods caches] end.
Qed.

(** C6: the node's power is shared, never multiplied, in the arithmetic that
    runs.  In every iteration whose CPU power is measured, or which has no kernel
    times to refine it with (no observer, a failed drain or an empty one), the CPU, memory, storage and network powers of the
    report's pods, computed with the machine's rounding, add up to at most what
    was selected for the node, whatever /proc, the caches, the kernel and the
    exporter contain, as long as the totals of the scan are integers that floats
    represent exactly and the node is below 2^48 microwatts. *)
Theorem report_conserves_power e s :
  let r := (agent_tick cfg e s).1 in
  let sel := tick_selection e s in
  (∀ entries, te_procs e = Some entries → scan_exact (tick_observations e s entries)) →
  (∀ c, node_power (best_uw sel c)) →
  nr_cpu_reading_type (ar_node r) ≠ "estimated" ∨ from_option es_pid_cpu_times [] (tick_snapshot e s) = [] →
  sum_Z (pr_cpu_uw <$> ar_pods r) <= nr_cpu_uw (ar_node r) ∧
  sum_Z (pr_memory_uw <$> ar_pods r) <= nr_memory_uw (ar_node r) ∧
  sum_Z (pr_storage_uw <$> ar_pods r) <= best_uw sel Storage ∧
  sum_Z (pr_io_uw <$> ar_pods r) <= best_uw sel Nic.
Proof.
  cbn zeta. intros Hex Hpow. destruct (agent_tick_pods e s) as (cache & cc & tuner & ->).
  cbn [build_report ar_node ar_pods nr_cpu_uw nr_memory_uw nr_cpu_reading_type]. intros Hty.
  set (sel := tick_selection e s) in *.
  assert (∀ g pods, g ∈ [pr_cpu_uw; pr_memory_uw; pr_storage_uw; pr_io_uw] →
    sum_Z (g <$> (if 0 <? best_uw sel Gpu then add_gpu_power_to_pods (ac_node_name cfg) (te_gpu_time e) cache (te_dcgm e) pods
                  else pods)) = sum_Z (g <$> pods)) as Hgpu.
  { intros g pods Hg. destruct (0 <? best_uw sel Gpu); [by apply gpu_power_sum|done]. }
  rewrite !Hgpu by set_solver. clear Hgpu. unfold tick_pods.
  match goal with |- context [enumerate_pods ?a ?b ?t ?l ?c ?cs ?n ?k ?p] =>
    pose proof (enumerate_pods_machine a b t l c cs n k p Hex (Hpow Cpu) (Hpow Memory) (Hpow Storage) (Hpow Nic)) as Hen;
    destruct (enumerate_pods a b t l c cs n k p) as [pods caches] end.
  cbn [fst nt_cpu_uw nt_mem_uw nt_storage_uw nt_io_uw] in *.
  destruct Hty as [Hty|Hbpf].
  - rewrite (proj2 (String.eqb_neq _ _) Hty). exact Hen.
  - destruct (negb _); [exact Hen|]. destruct (tick_snapshot e s) as [snap|]; [|exact Hen]. cbn in Hbpf. rewrite Hbpf. exact Hen.
Qed.
End machine.

(** ** Witness, and what mixing two measures does *)

#[local] Existing Instance hash_iter_list.

Lemma report_conserves_power_witness :
  let r := (agent_tick demo_config demo_env demo_state).1 in
  (pr_cpu_uw <$> ar_pods r = [30000000]) ∧ sum_Z (pr_cpu_uw <$> ar_pods r) <= 40000000.
Proof.
  cbn zeta. split; [vm_compute; reflexivity|].
  refine (Z.le_trans _ _ _ (proj1 (report_conserves_power demo_config demo_env demo_state _ _ _)) _).
  - intros entries [= <-]. split; [split|..]; vm_compute; try discriminate; try reflexivity. repeat constructor; discriminate.
  - intros []; vm_compute; split; discriminate.
  - by right.
  - vm_compute. discriminate.
Defined.

(** Two pods with as many ticks each; the kernel saw process 7 run nine tenths of
    the time, and process 9 has exited by the time its pod is looked up. *)
Definition two_pods_entries : list (string * ProcFiles) :=
  [("7", demo_files "7 (web) S 1 7 7 0 -1 4 100 5 3 1 100 30 0 0 20" "Pss: 300 kB" true);
   ("9", {| pf_status := None; pf_stat := Some "9 (job) S 1 9 9 0 -1 4 100 5 3 1 50 30 0 0 20"; pf_smaps_rollup := None;
            pf_statm := None; pf_io := None; pf_cgroup := Some (cgroup_file "/kubepods.slice/kubepods" "7c1d0a52-3b4e-4f6a-9d21-aabbccddeeff" "slice/crio-2.scope") |})].
Definition nine_tenths : BpfMaps :=
  {| PID_CPU_TIME := {[ {| key_cpu := 0; key_pid := 7 |} := {| time_ns := 9000000 |};
                       {| key_cpu := 0; key_pid := 9 |} := {| time_ns := 1000000 |} ]};
     CPU_SCHED_STATE := ∅; CPU_FREQ_TIME := ∅; CPU_FREQ_STATE := ∅; PID_CGROUP := ∅; PID_NET_BYTES := ∅;
     PID_HW_COUNTERS := ∅; PMC_ENABLED := 0 |}.
Definition two_pods_state : AgentState :=
  {| as_prev_readings := ∅; as_caches := {| prev_cpu_ticks := {[ 7 := 100; 9 := 50 ]}; prev_page_faults := ∅;
       prev_io_bytes := ∅; pss_cache := ∅ |};
     as_tick_count := 0; as_pod_cache := ∅; as_owner_cache := ∅; as_last_pod_refresh := 0; as_counters := None;
     as_tuner := None; as_bpf := Some nine_tenths; as_healthy := false |}.
Definition two_pods_env : TickEnv :=
  {| te_instant := 0; te_listing := None; te_get_owners := λ _ _ _, None; te_instant_after := 0;
     te_answers := te_answers demo_env; te_counters := λ _, (None, None, None); te_kernel := []; te_drain := quiet_drain;
     te_procs := Some two_pods_entries; te_proc_of := λ pid, if pid =? 7 then demo_proc_of 7 else
       {| pf_status := None; pf_stat := None; pf_smaps_rollup := None; pf_statm := None; pf_io := None; pf_cgroup := None |};
     te_dcgm := None; te_cleanup_procs := None; te_alive := λ _, true; te_count_procs := None; te_proc_time := λ _, 5; te_core_time := λ _, 5; te_gpu_time := λ _, 5; te_time := 5;
     te_accepted := true |}.
(** With estimated CPU power the figures from the kernel's times replace those of
    the pods they cover and the others keep their share of the ticks: together
    the pods get 56 of the node's 40 watts. *)
Example mixed_measures_exceed :
  let r := (agent_tick demo_config two_pods_env two_pods_state).1 in
  nr_cpu_uw (ar_node r) = 40000000 ∧ nr_cpu_reading_type (ar_node r) = "estimated" ∧
  sum_Z (pr_cpu_uw <$> ar_pods r) = 56000000.
Proof. vm_compute. split; [reflexivity|]. split; reflexivity. Qed.
