(* ===== verification/Accounting.v ===== *)
(** * Accounting: CPU time over successive iterations

    One iteration of the agent charges to each process the CPU ticks it gained
    since it was last seen.  This file follows a process through any number of
    iterations: what it is charged in all is exactly the sum of its counter's
    increments between sightings, so no time is charged twice, and none is lost
    while the process stays in the caches. *)

From S2P Require Import Prelude F64 Common Classify Text Workload Procfs Bpf Tuner Collector Aggregator Agent AgentProps Api EndToEnd.

Open Scope Z_scope.

(** The process a directory of /proc stands for and its counter: a leader whose
    stat file can be read. *)
Definition entry_ticks (entry : string * ProcFiles) : option (Z * Z) :=
  let '(pid_str, f) := entry in
  if negb (str_all is_ascii_digit pid_str) then None
  else if is_thread pid_str f then None
  else (λ st, (default 0 (parse_u32 pid_str), st_cpu_ticks st)) <$> read_proc_stat f.
(** The counter values of a process in a listing, in order. *)
Definition sightings (pid : Z) (entries : list (string * ProcFiles)) : list Z :=
  (filter (λ pt : Z * Z, pt.1 = pid) (omap entry_ticks entries)).*2.
(** What a scan charges to a process. *)
Fixpoint scan_charge (pid : Z) (refresh_pss : bool) (net : gmap Z (Z * Z)) (c : ProcCaches)
    (entries : list (string * ProcFiles)) : Z :=
  match entries with
  | [] => 0
  | e :: es =>
      match observe_process refresh_pss net c e with
      | None => scan_charge pid refresh_pss net c es
      | Some (o, c') =>
          (if decide (fst <$> entry_ticks e = Some pid) then ob_cpu_delta o else 0) + scan_charge pid refresh_pss net c' es
      end
  end.

(** The increments of a counter along a list of values, from a remembered one:
    the first value seen counts nothing, and a decrease counts nothing. *)
Fixpoint increments (remembered : option Z) (values : list Z) : Z :=
  match values with
  | [] => 0
  | v :: vs => sat_sub v (default v remembered) + increments (Some v) vs
  end.
Definition latest (remembered : option Z) (values : list Z) : option Z :=
  match last values with Some v => Some v | None => remembered end.

Lemma increments_app m l1 l2 : increments m (l1 ++ l2) = increments m l1 + increments (latest m l1) l2.
Proof.
  revert m. induction l1 as [|v l1 IH]; intros m; [done|]. cbn [app increments]. rewrite IH.
  assert (latest (Some v) l1 = latest m (v :: l1)) as ->; [|lia].
  unfold latest. rewrite last_cons. by destruct (last l1).
Qed.
Lemma latest_app m l1 l2 : latest m (l1 ++ l2) = latest (latest m l1) l2.
Proof. unfold latest. rewrite last_app. by destruct (last l2). Qed.
Lemma increments_nonneg m l : 0 <= increments m l.
Proof. revert m. induction l as [|v l IH]; intros m; cbn; [done|]. specialize (IH (Some v)). unfold sat_sub. lia. Qed.
(** Forgetting can only lose. *)
Lemma increments_forget m l : increments None l <= increments m l.
Proof. destruct l as [|v l]; [done|]. cbn. unfold sat_sub. lia. Qed.
(** A counter that does not decrease: the last value minus the first. *)
Lemma increments_sorted m l : StronglySorted Z.le (option_list m ++ l) → ∀ x, head (option_list m ++ l) = Some x →
  latest m l = Some (x + increments m l).
Proof.
  revert m. induction l as [|v l IH]; intros m Hs x Hx.
  - destruct m as [y|]; [|done]. cbn in *. unfold latest. cbn. f_equal. simplify_eq. lia.
  - destruct m as [y|]; cbn [option_list app] in Hs, Hx.
    + injection Hx as ->. inversion_clear Hs as [|? ? Hs' Hall]. inversion_clear Hall as [|? ? Hxv Hxl].
      rewrite (latest_app (Some x) [v] l : latest (Some x) (v :: l) = latest (Some v) l).
      rewrite (IH (Some v) Hs' v eq_refl). cbn. f_equal. unfold sat_sub. lia.
    + injection Hx as ->. rewrite (latest_app None [x] l : latest None (x :: l) = latest (Some x) l).
      rewrite (IH (Some x) Hs x eq_refl). cbn. f_equal. unfold sat_sub. lia.
Qed.

(** ** A scan *)

Lemma observe_process_ticks refresh net c e :
  match observe_process refresh net c e, entry_ticks e with
  | Some (o, c'), Some (pid, ticks) =>
      ob_cpu_delta o = delta_since (prev_cpu_ticks c) pid ticks ∧ prev_cpu_ticks c' = <[pid := ticks]> (prev_cpu_ticks c)
  | None, None => True
  | _, _ => False
  end.
Proof.
  unfold observe_process, entry_ticks. destruct e as [name f]. destruct (negb _); [done|]. destruct (is_thread name f); [done|].
  destruct (read_proc_stat f) as [st|]; [|done]. cbn. destruct (default _ _) as [pmin pmaj].
  by destruct (pss_of _ _ _ f) as [pss cache'].
Qed.
Lemma scan_charge_exact pid refresh net sc entries :
  scan_charge pid refresh net (sc_caches sc) entries = increments (prev_cpu_ticks (sc_caches sc) !! pid) (sightings pid entries) ∧
  prev_cpu_ticks (sc_caches (foldl (scan_process refresh net) sc entries)) !! pid =
    latest (prev_cpu_ticks (sc_caches sc) !! pid) (sightings pid entries).
Proof.
  revert sc. induction entries as [|e es IH]; intros sc; [done|]. cbn [foldl scan_charge].
  unfold scan_process at 2. pose proof (observe_process_ticks refresh net (sc_caches sc) e) as H.
  unfold sightings. cbn [omap list_omap]. destruct (observe_process refresh net (sc_caches sc) e) as [[o c']|];
    destruct (entry_ticks e) as [[p ticks]|] eqn:He; try done.
  destruct H as [Hd Hc]. match goal with |- context [foldl _ ?sc' es] => destruct (IH sc') as [IH1 IH2]; clear IH end.
  cbn [sc_caches] in IH1, IH2. rewrite Hc in IH1, IH2. rewrite IH1, IH2. unfold sightings.
  cbn [fmap option_fmap option_map fst]. rewrite filter_cons. cbn [fst].
  destruct (decide (p = pid)) as [->|Hne].
  - rewrite lookup_insert_eq, decide_True by done. rewrite fmap_cons. cbn [snd increments]. rewrite Hd.
    split; [done|]. unfold latest. rewrite last_cons. by destruct (last _).
  - rewrite lookup_insert_ne by done. rewrite decide_False by congruence. done.
Qed.

(** ** Any number of iterations *)

Section run.
Context `{HI : HashIter}.
Variable cfg : AgentConfig.
Variable pid : Z.

Definition tick_sightings (e : TickEnv) : list Z := sightings pid (default [] (te_procs e)).
Definition tick_charge (e : TickEnv) (s : AgentState) : Z :=
  scan_charge pid (as_tick_count s mod 5 =? 0)
    (from_option es_pid_net_bytes ∅ (tick_drain cfg e s).1) (as_caches s) (default [] (te_procs e)).
Definition remembered (s : AgentState) : option Z := prev_cpu_ticks (as_caches s) !! pid.
(** What a run charges to the process, and where it ends. *)
Fixpoint run_charge (es : list TickEnv) (s : AgentState) : Z * AgentState :=
  match es with
  | [] => (0, s)
  | e :: es => let '(total, s') := run_charge es (agent_tick cfg e s).2 in (tick_charge e s + total, s')
  end.
(** The process is in /proc whenever the caches are cleaned. *)
Definition kept (e : TickEnv) : Prop := ∃ names name, te_cleanup_procs e = Some names ∧ name ∈ names ∧ parse_u32 name = Some pid.

Lemma agent_tick_caches e s :
  let sc := foldl (scan_process (as_tick_count s mod 5 =? 0)
    (from_option es_pid_net_bytes ∅ (tick_drain cfg e s).1)) (scan_start (as_caches s)) (default [] (te_procs e)) in
  as_caches (agent_tick cfg e s).2 =
    if u64_add (as_tick_count s) 1 mod 30 =? 0 then cleanup_stale_pids (te_cleanup_procs e) (sc_caches sc) else sc_caches sc.
Proof.
  cbn zeta. unfold agent_tick. destruct (tick_pod_cache cfg e s) as [[cache owners] lr].
  destruct (read_sources _ _ _) as [prev sel].
  destruct (match as_counters s with Some _ => _ | None => _ end) as [cc counters].
  assert (∀ snap tuner, (tick_pods cfg e s cache sel cc snap tuner).2 =
    sc_caches (foldl (scan_process (as_tick_count s mod 5 =? 0) (from_option es_pid_net_bytes ∅ snap))
      (scan_start (as_caches s)) (default [] (te_procs e)))) as Ht.
  { intros snap tuner. unfold tick_pods, enumerate_pods. by destruct (te_procs e). }
  destruct (tick_drain cfg e s) as [snap bpf]. cbn [fst].
  match goal with |- context [tick_pods cfg e s cache sel cc snap ?t] => specialize (Ht snap t);
    destruct (tick_pods cfg e s cache sel cc snap t) as [pods caches] end. cbn in *. by rewrite Ht.
Qed.

Lemma cleanup_remembered names c : prev_cpu_ticks (cleanup_stale_pids names c) !! pid =
  if decide (pid ∈ omap parse_u32 (default [] names)) then prev_cpu_ticks c !! pid else None.
Proof.
  cbn. destruct (prev_cpu_ticks c !! pid) as [v|] eqn:Hv.
  - case_decide as Hd.
    + apply map_lookup_filter_Some. split; [done|]. cbn. by apply elem_of_list_to_set.
    + apply map_lookup_filter_None. right. intros v' _ Hin. cbn in Hin. by apply elem_of_list_to_set in Hin.
  - case_decide; apply map_lookup_filter_None; by left.
Qed.
Lemma tick_step e s : tick_charge e s = increments (remembered s) (tick_sightings e) ∧
  (remembered (agent_tick cfg e s).2 = latest (remembered s) (tick_sightings e) ∨
   ¬ kept e ∧ remembered (agent_tick cfg e s).2 = None).
Proof.
  unfold tick_charge, remembered, tick_sightings. rewrite agent_tick_caches.
  set (net := from_option es_pid_net_bytes ∅ _).
  destruct (scan_charge_exact pid (as_tick_count s mod 5 =? 0) net (scan_start (as_caches s)) (default [] (te_procs e))) as [Hc Hl].
  split; [exact Hc|]. destruct (u64_add _ 1 mod 30 =? 0); [|by left]. rewrite cleanup_remembered.
  case_decide as Hd; [by left|]. right. split; [|done]. intros (names & name & Hn & Hin & Hp). apply Hd. rewrite Hn. cbn.
  apply list_elem_of_omap. eauto.
Qed.

Lemma run_charge_le es s m : (remembered s = m ∨ remembered s = None) →
  0 <= (run_charge es s).1 <= increments m (es ≫= tick_sightings) ∧
  ((∀ e, e ∈ es → kept e) → remembered s = m →
   (run_charge es s).1 = increments m (es ≫= tick_sightings) ∧
   remembered (run_charge es s).2 = latest m (es ≫= tick_sightings)).
Proof.
  revert s m. induction es as [|e es IH]; intros s m Hm; [done|]. cbn [run_charge mbind list_bind].
  destruct (tick_step e s) as [Hc Hr]. rewrite increments_app, latest_app, Hc.
  pose proof (increments_nonneg (remembered s) (tick_sightings e)) as Hnn.
  assert (increments (remembered s) (tick_sightings e) <= increments m (tick_sightings e)) as Hle
    by (destruct Hm as [->| ->]; [done|apply increments_forget]).
  assert (remembered (agent_tick cfg e s).2 = latest m (tick_sightings e) ∨ remembered (agent_tick cfg e s).2 = None) as Hm'.
  { destruct Hr as [->|[_ ->]]; [|by right]. destruct Hm as [->| ->]; [by left|]. unfold latest.
    destruct (last (tick_sightings e)); [by left|by right]. }
  destruct (IH _ _ Hm') as [IH1 IH2]. destruct (run_charge es (agent_tick cfg e s).2) as [total s'].
  cbn [fst snd] in *. split; [lia|]. intros Hk Hrem. destruct Hr as [Hr|[Hnk _]]; [|destruct Hnk; apply Hk; left].
  destruct IH2 as [-> ->]; [intros; apply Hk; by right|by rewrite Hr, Hrem|]. by rewrite Hrem.
Qed.

(** C11: no CPU time is charged twice, and none is lost.  Follow a process
    through any number of iterations of the agent, with any listings of /proc,
    restarts of its counter and cleanings of the caches: what it is charged in
    all never exceeds the increments of its counter between the values seen.  If
    it is in /proc whenever the caches are cleaned and its counter does not
    decrease, then what it was first known with plus everything charged is exactly
    the value remembered at the end, which is the last one seen. *)
Theorem cpu_time_charged_once es s :
  let values := es ≫= tick_sightings in
  0 <= (run_charge es s).1 <= increments (remembered s) values ∧
  ((∀ e, e ∈ es → kept e) → StronglySorted Z.le (option_list (remembered s) ++ values) →
   ∀ first, head (option_list (remembered s) ++ values) = Some first →
     remembered (run_charge es s).2 = Some (first + (run_charge es s).1) ∧
     last (option_list (remembered s) ++ values) = Some (first + (run_charge es s).1)).
Proof.
  cbn zeta. destruct (run_charge_le es s (remembered s) (or_introl eq_refl)) as [H1 H2]. split; [exact H1|].
  intros Hk Hs first Hf. destruct (H2 Hk eq_refl) as [-> ->].
  pose proof (increments_sorted _ _ Hs first Hf) as Hl. split; [done|]. rewrite <-Hl. unfold latest.
  rewrite last_app. destruct (last (es ≫= tick_sightings)); [done|]. by destruct (remembered s).
Qed.
End run.

(** ** Witness *)

#[local] Existing Instance hash_iter_list.

(** Process 7 seen with 130 and then 175 ticks, and again with 175. *)
Definition demo_listing (stime : string) : list (string * ProcFiles) :=
  [("7", demo_files (String.append "7 (web) S 1 7 7 0 -1 4 100 5 3 1 100 " (String.append stime " 0 0 20")) "Pss: 300 kB" true)].
Definition listing_env (stime : string) : TickEnv :=
  {| te_instant := 0; te_listing := None; te_get_owners := λ _ _ _, None; te_instant_after := 0;
     te_answers := te_answers demo_env; te_counters := λ _, (None, None, None); te_kernel := []; te_drain := quiet_drain; te_procs := Some (demo_listing stime);
     te_proc_of := demo_proc_of; te_dcgm := None; te_cleanup_procs := Some ["7"]; te_alive := λ _, true;
     te_count_procs := None; te_proc_time := λ _, 5; te_core_time := λ _, 5; te_gpu_time := λ _, 5; te_time := 5; te_accepted := true |}.
Lemma cpu_time_charged_once_witness :
  let es := [listing_env "30"; listing_env "75"; listing_env "75"] in
  es ≫= tick_sightings 7 = [130; 175; 175] ∧ (run_charge demo_config 7 es demo_state).1 = 75.
Proof.
  cbn zeta. split; [vm_compute; reflexivity|].
  destruct (cpu_time_charged_once demo_config 7 [listing_env "30"; listing_env "75"; listing_env "75"] demo_state) as [_ H].
  assert ([listing_env "30"; listing_env "75"; listing_env "75"] ≫= tick_sightings 7 = [130; 175; 175]) as Hv
    by (vm_compute; reflexivity).
  assert (remembered 7 demo_state = Some 100) as Hr by (vm_compute; reflexivity).
  destruct (H ltac:(intros e He; exists ["7"], "7"; split; [|split; [left|reflexivity]];
    rewrite !elem_of_cons in He; destruct He as [->|[->|[->|He]]]; [reflexivity..|by apply elem_of_nil in He])
    ltac:(rewrite Hv, Hr; repeat constructor; lia) 100 ltac:(rewrite Hr; reflexivity)) as [_ Hl].
  rewrite Hv, Hr in Hl. revert Hl. generalize (run_charge demo_config 7 [listing_env "30"; listing_env "75"; listing_env "75"] demo_state).1.
  intros charged Hl. cbn in Hl. assert (175 = 100 + charged) by congruence. lia.
Defined.
