(* ===== verification/Sources.v ===== *)
(** * Sources: every meter of the machine, and the counters read from them

    [discover_sources] of keck-agent/src/hardware/mod.rs puts the drivers
    together; their readings go into the agent's source loop ([Agent]). *)

From S2P Require Import Prelude F64 Json Common Text Classify Collector Host Rapl Hwmon Gpu Redfish Agent.
From Stdlib Require Import Ascii.

Open Scope Z_scope.

Definition found_or_none {S} `{LawfulSource S} (r : result (list S) SourceError) : list DynSource :=
  match r with Ok l => boxed <$> l | Err _ => [] end.

(** Discover all available power sources: a driver that fails is left out. *)
Definition discover_sources (h : Host) : list DynSource :=
  let sys := sysfs_root h in
  found_or_none (rapl_discover h sys) ++
  found_or_none (rapl_discover_dram h sys) ++
  found_or_none (hwmon_discover h sys) ++
  found_or_none (gpu_discover h) ++
  found_or_none (redfish_discover h).

(** What the sources answer at one moment. *)
Definition answers (h : Host) (t : Z) (srcs : list DynSource) : list (PowerSource * result PowerReading SourceError) :=
  (λ d, (describe d, read h t d)) <$> srcs.

(** The power a source has of its own: its reading, or the difference of its
    counter since the first read. *)
Definition own_power (interval_ns : Z) (before now : result PowerReading SourceError) : Z :=
  match now with
  | Err _ => 0
  | Ok r =>
      match energy_uj r with
      | None => default 0 (power_uw r)
      | Some e =>
          let prev := match before with Ok r0 => default e (energy_uj r0) | Err _ => e end in
          main_energy_to_power (counter_delta e prev (max_energy_uj r)) interval_ns
      end
  end.

(** ** The agent's table of counters *)

Definition carries_energy (a : result PowerReading SourceError) : bool :=
  match a with Ok r => match energy_uj r with Some _ => true | None => false end | Err _ => false end.
(** No two counters under one id. *)
Definition counters_apart (srcs : list (PowerSource * result PowerReading SourceError)) : Prop :=
  ∀ i j a b, srcs !! i = Some a → srcs !! j = Some b → carries_energy a.2 = true → carries_energy b.2 = true →
    src_id a.1 = src_id b.1 → i = j.

Lemma initial_read_other prev a id : (carries_energy a.2 = true → src_id a.1 ≠ id) → initial_read prev a !! id = prev !! id.
Proof.
  unfold initial_read, carries_energy. destruct a as [src [r|e]]; cbn; [|done]. destruct (energy_uj r); [|done].
  intros Hne. apply lookup_insert_ne. by apply Hne.
Qed.
Lemma foldl_initial_other prev l id : (∀ a, a ∈ l → carries_energy a.2 = true → src_id a.1 ≠ id) →
  foldl initial_read prev l !! id = prev !! id.
Proof.
  revert prev. induction l as [|a l IH]; intros prev Hl; [done|]. cbn. rewrite IH by (intros b Hb; apply Hl; by right).
  apply initial_read_other, Hl. left.
Qed.
Lemma initial_read_own l i a : counters_apart l → l !! i = Some a → carries_energy a.2 = true →
  foldl initial_read ∅ l !! src_id a.1 = match a.2 with Ok r => energy_uj r | Err _ => None end.
Proof.
  intros Hap Hi Ha. rewrite <-(take_drop_middle l i a Hi), foldl_app. cbn.
  rewrite foldl_initial_other.
  - unfold carries_energy, initial_read in *. destruct a as [src [r|e]]; cbn in *; [|done].
    destruct (energy_uj r); [by rewrite lookup_insert_eq|done].
  - intros b (k & Hk)%list_elem_of_lookup Hb Heq. rewrite lookup_drop in Hk.
    assert (i = S i + k)%nat; [|lia]. by eapply Hap.
Qed.

Lemma read_one_prev interval prev sel sa :
  (read_one interval (prev, sel) sa).1 = initial_read prev sa.
Proof.
  unfold read_one, initial_read, reading_power. destruct sa as [src [r|e]]; [|done]. cbn [snd fst].
  destruct (energy_uj r); [done|]. by destruct (power_uw r).
Qed.
Definition listed_power (interval : Z) (prev : gmap string Z) (sa : PowerSource * result PowerReading SourceError) : Z :=
  match sa.2 with Ok r => (reading_power interval prev (src_id sa.1) r).1 | Err _ => 0 end.
Lemma read_one_listed interval prev sel sa :
  sr_power_uw <$> all_source_readings (read_one interval (prev, sel) sa).2 =
    (sr_power_uw <$> all_source_readings sel) ++ [listed_power interval prev sa].
Proof.
  unfold read_one, listed_power. destruct sa as [src [r|e]]; cbn [snd fst].
  - destruct (reading_power _ _ _ r) as [pw prev']. cbn. by rewrite fmap_app.
  - cbn. by rewrite fmap_app.
Qed.
Lemma listed_power_ext interval prev prev' sa : (carries_energy sa.2 = true → prev !! src_id sa.1 = prev' !! src_id sa.1) →
  listed_power interval prev sa = listed_power interval prev' sa.
Proof.
  unfold listed_power, reading_power, carries_energy. destruct sa as [src [r|e]]; cbn; [|done].
  destruct (energy_uj r); [|by destruct (power_uw r)]. cbn. intros H. by rewrite H.
Qed.
(** In one round over the sources each counter is compared with what was
    remembered under its id before the round. *)
Lemma read_sources_listed interval prev srcs : counters_apart srcs →
  sr_power_uw <$> all_source_readings (read_sources interval prev srcs).2 = listed_power interval prev <$> srcs.
Proof.
  intros Hap. unfold read_sources.
  assert (∀ l, (∃ l', srcs = l ++ l') →
    (foldl (read_one interval) (prev, {| all_source_readings := []; best := ∅ |}) l).1 = foldl initial_read prev l ∧
    sr_power_uw <$> all_source_readings (foldl (read_one interval) (prev, {| all_source_readings := []; best := ∅ |}) l).2
      = listed_power interval prev <$> l) as H; [|by destruct (H srcs (ex_intro _ [] (eq_sym (app_nil_r srcs))))].
  induction l as [|sa l IH] using rev_ind; [done|]. intros [l' Hl].
  destruct IH as [IH1 IH2]; [exists (sa :: l'); by rewrite Hl, <-app_assoc|]. rewrite !foldl_app. cbn [foldl].
  destruct (foldl (read_one interval) _ l) as [p sel]. cbn [fst snd] in *. subst p. rewrite read_one_prev, read_one_listed, IH2.
  split; [done|]. rewrite fmap_app. cbn. f_equal. f_equal. apply listed_power_ext. intros Hsa. apply foldl_initial_other.
  intros b (k & Hk)%list_elem_of_lookup Hb Heq. assert (k = length l) as ->.
  - eapply Hap; [| |exact Hb|exact Hsa|exact Heq]; rewrite Hl, <-app_assoc.
    + by apply lookup_app_l_Some.
    + by rewrite lookup_app_r, Nat.sub_diag by done.
  - apply lookup_lt_Some in Hk. lia.
Qed.

(** Distinct ids among the sources that count energy. *)
Definition energy_ids (srcs : list DynSource) : list string :=
  (λ d, src_id (describe d)) <$> filter (λ d, counts_energy d = true) srcs.
Lemma energy_ids_inj srcs i j d d' : NoDup (energy_ids srcs) → srcs !! i = Some d → srcs !! j = Some d' →
  counts_energy d = true → counts_energy d' = true → src_id (describe d) = src_id (describe d') → i = j.
Proof.
  intros Hnd Hi Hj Hd Hd' Heq. unfold energy_ids in Hnd. revert i j Hi Hj.
  assert (∀ (x : DynSource) (k : nat) (srcs : list DynSource), srcs !! k = Some x → counts_energy x = true →
    src_id (describe x) ∈ (λ d : DynSource, src_id (describe d)) <$> filter (λ d, counts_energy d = true) srcs) as Hin.
  { intros x k l Hk Hx. apply list_elem_of_fmap. exists x. split; [done|]. apply list_elem_of_filter. split; [done|].
    by eapply list_elem_of_lookup_2. }
  induction srcs as [|x srcs IH]; intros i j Hi Hj; [done|]. rewrite filter_cons in Hnd.
  destruct i as [|i], j as [|j]; cbn [lookup list_lookup] in Hi, Hj; [done|..].
  - injection Hi as ->. rewrite decide_True in Hnd by done. apply NoDup_cons in Hnd as [Hn _]. exfalso. apply Hn.
    rewrite Heq. by eapply Hin.
  - injection Hj as ->. rewrite decide_True in Hnd by done. apply NoDup_cons in Hnd as [Hn _]. exfalso. apply Hn.
    rewrite <-Heq. by eapply Hin.
  - f_equal. apply IH; try done. case_decide; [|done]. by apply NoDup_cons in Hnd as [_ ?].
Qed.
Lemma carries_counts h t (d : DynSource) : carries_energy (read h t d) = true → counts_energy d = true.
Proof.
  intros Hx. destruct (read h t d) as [r|] eqn:Hr; [|done]. apply read_lawful in Hr as [_ _ _ _ _ Hv]. cbn in Hx.
  destruct (counts_energy d); [done|]. destruct Hv as (p & _ & _ & He). by rewrite He in Hx.
Qed.
Lemma answers_lookup h t srcs i a : answers h t srcs !! i = Some a ↔ ∃ d, srcs !! i = Some d ∧ a = (describe d, read h t d).
Proof. unfold answers. rewrite list_lookup_fmap, fmap_Some. naive_solver. Qed.
Lemma answers_apart h t srcs : NoDup (energy_ids srcs) → counters_apart (answers h t srcs).
Proof.
  intros Hnd i j a b (d & Hi & ->)%answers_lookup (d' & Hj & ->)%answers_lookup. cbn [fst snd].
  intros Ha%carries_counts Hb%carries_counts Heq. by eapply (energy_ids_inj srcs i j d d').
Qed.

(** What the agent lists for each source after the initial read and one round
    is the source's own. *)
Lemma listed_own interval h0 t0 h1 t1 srcs :
  NoDup (energy_ids srcs) →
  let prev := foldl initial_read ∅ (answers h0 t0 srcs) in
  sr_power_uw <$> all_source_readings (read_sources interval prev (answers h1 t1 srcs)).2 =
    (λ d, own_power interval (read h0 t0 d) (read h1 t1 d)) <$> srcs.
Proof.
  intros Hnd. cbn zeta. rewrite read_sources_listed by (by apply answers_apart). unfold answers at 2.
  rewrite <-list_fmap_compose. apply list_fmap_ext. intros i d Hi. unfold compose, listed_power, own_power. cbn [fst snd].
  destruct (read h1 t1 d) as [r|e] eqn:Hr; [|done]. unfold reading_power.
  destruct (energy_uj r) as [e|] eqn:He; [|by destruct (power_uw r)]. cbn [fst]. do 2 f_equal.
  assert (counts_energy d = true) as Hd by (apply (carries_counts h1 t1); by rewrite Hr; cbn; rewrite He).
  assert (answers h0 t0 srcs !! i = Some (describe d, read h0 t0 d)) as Ha by (apply answers_lookup; eauto).
  destruct (carries_energy (read h0 t0 d)) eqn:Hc.
  - pose proof (initial_read_own _ i _ (answers_apart h0 t0 srcs Hnd) Ha Hc) as Hown. cbn [fst snd] in Hown. rewrite Hown.
    by destruct (read h0 t0 d).
  - rewrite foldl_initial_other, lookup_empty.
    + unfold carries_energy in Hc. destruct (read h0 t0 d) as [r0|]; [|done]. by destruct (energy_uj r0).
    + intros a (j & (d' & Hj & ->)%answers_lookup)%list_elem_of_lookup. cbn [fst snd]. intros Hcar Heq.
      assert (i = j) as <- by (eapply energy_ids_inj; eauto using carries_counts). congruence.
Qed.

(** ** Ids of the machine's counters *)

Lemma energy_ids_app l l' : energy_ids (l ++ l') = energy_ids l ++ energy_ids l'.
Proof. unfold energy_ids. by rewrite filter_app, fmap_app. Qed.
Lemma energy_ids_all {S} `{LawfulSource S} (l : list S) : (∀ s, s ∈ l → counts_energy s = true) →
  energy_ids (boxed <$> l) = (λ s, src_id (describe s)) <$> l.
Proof.
  unfold energy_ids. induction l as [|s l IH]; intros Hl; [done|]. rewrite fmap_cons, filter_cons_True.
  - rewrite !fmap_cons. f_equal. apply IH. intros x Hx. apply Hl. by right.
  - apply Hl. left.
Qed.
Lemma energy_ids_none {S} `{LawfulSource S} (l : list S) : (∀ s, counts_energy s = false) → energy_ids (boxed <$> l) = [].
Proof.
  unfold energy_ids. intros Hs. induction l as [|s l IH]; [done|]. rewrite fmap_cons, filter_cons_False; [done|].
  cbn. by rewrite Hs.
Qed.
Lemma energy_ids_sub {S} `{LawfulSource S} (l : list S) : energy_ids (boxed <$> l) `sublist_of` ((λ s, src_id (describe s)) <$> l).
Proof.
  unfold energy_ids. induction l as [|s l IH]; [done|]. rewrite fmap_cons, filter_cons. case_decide; cbn.
  - by apply sublist_skip.
  - by apply sublist_cons.
Qed.

(** The machine's energy counters, as the kernel lays them out: one package
    domain and at most one memory domain per socket, chips under distinct names. *)
Definition dram_zone (h : Host) (powercap : string) (z : Zone) : option Z :=
  match z with
  | Sub n _ => if bool_decide (read_trimmed h (join (join powercap (zone_dir z)) "name") = Some "dram") then Some n else None
  | _ => None
  end.
Record layout_ok (h : Host) (zones : list Zone) (chips : list string) : Prop := {
  lay_powercap : h_dir h (String.append (sysfs_root h) "/class/powercap") = Ok ((λ z, Ok (zone_dir z)) <$> zones);
  lay_zones : Forall zone_ok zones;
  lay_tops : NoDup (omap zone_top zones);
  lay_drams : NoDup (omap (dram_zone h (String.append (sysfs_root h) "/class/powercap")) zones);
  lay_hwmon : h_dir h (String.append (sysfs_root h) "/class/hwmon") = Ok (Ok <$> chips);
  lay_chips : NoDup chips;
  lay_names : Forall (λ n, free_of ":"%char n = true) chips
}.

Lemma show_ids_NoDup p l : Forall (λ n, 0 <= n) l → NoDup l → NoDup ((λ n, String.append p (show n)) <$> l).
Proof.
  intros Hpos Hl. apply NoDup_fmap_2_strong; [|done]. intros x y Hx Hy H%append_cancel_l.
  eapply Forall_forall in Hx, Hy; [|exact Hpos..]. by apply show_inj.
Qed.
Lemma package_ids h zones chips : layout_ok h zones chips →
  NoDup (energy_ids (found_or_none (rapl_discover h (sysfs_root h)))) ∧
  ∀ i, i ∈ energy_ids (found_or_none (rapl_discover h (sysfs_root h))) → String.prefix "rapl:package:" i = true.
Proof.
  intros [Hdir Hok Htops _ _ _ _]. set (powercap := String.append (sysfs_root h) "/class/powercap") in *.
  destruct (package_entries_spec h powercap zones Hok) as [Hs Hl].
  set (l := omap (package_entry h powercap) (zone_dir <$> zones)) in *.
  assert (∀ l', l' ≡ₚ l → NoDup (energy_ids (boxed <$> l')) ∧
    ∀ i, i ∈ energy_ids (boxed <$> l') → String.prefix "rapl:package:" i = true) as H.
  { intros l' Hp. rewrite energy_ids_all by done.
    assert ((λ s : RaplSource, src_id (describe s)) <$> l = (λ n, String.append "rapl:package:" (show n)) <$> (socket_of <$> l)) as Hids.
    { rewrite <-list_fmap_compose. apply list_fmap_ext. intros i s Hi%list_elem_of_lookup_2. by destruct (Hl s Hi) as (_ & Hid & _). }
    rewrite Hp, Hids. split.
    - rewrite Hs. apply show_ids_NoDup.
      + apply Forall_forall. intros n [_ (z & Hz & Hn)%list_elem_of_omap]%list_elem_of_filter.
        eapply Forall_forall in Hz; [|exact Hok]. destruct z; [|done..]. injection Hn as ->. cbn in Hz. lia.
      + by apply NoDup_filter.
    - intros i. rewrite Hp, Hids. intros (n & -> & _)%list_elem_of_fmap. apply prefix_append. }
  unfold rapl_discover. fold powercap. destruct (h_exists h powercap); cbn [negb]; [|split; [constructor|by intros i ?%not_elem_of_nil]].
  rewrite Hdir. change ((λ z, Ok (zone_dir z)) <$> zones) with ((Ok ∘ zone_dir : Zone → result string string) <$> zones).
  rewrite list_fmap_compose, scan_dir_all. fold l. destruct l as [|x l0]; [split; [constructor|by intros i ?%not_elem_of_nil]|].
  apply H. apply sort_by_perm.
Qed.
Lemma dram_entries h powercap zones : Forall zone_ok zones →
  let l := omap (dram_entry h powercap) (zone_dir <$> zones) in
  (socket_of <$> l) `sublist_of` omap (dram_zone h powercap) zones ∧
  ∀ s, s ∈ l → rapl_id s = String.append "rapl:dram:" (show (socket_of s)).
Proof.
  induction 1 as [|z zones Hz Hok [IH1 IH2]]; [split; [done|by intros s ?%not_elem_of_nil]|].
  rewrite fmap_cons, !omap_cons_match. destruct (dram_entry h powercap (zone_dir z)) as [s0|] eqn:He.
  - unfold dram_entry in He. destruct (domain_socket_zone z Hz) as [_ Hd]. rewrite Hd in He. clear Hd.
    destruct z as [n|n m|name]; try done. cbn [zone_sub mbind option_bind] in He.
    destruct (read_trimmed h _) as [nm|] eqn:Hnm; [|done]. cbn [mbind option_bind] in He.
    destruct (String.eqb_spec nm "dram") as [->|]; [|done]. cbn [negb] in He. destruct (h_exists h _); [|done].
    cbn [negb] in He. injection He as <-. unfold dram_zone at 1. rewrite bool_decide_true by exact Hnm.
    rewrite fmap_cons. split; [by apply sublist_skip|]. intros s [->|Hs]%elem_of_cons; [done|by apply IH2].
  - split; [|done]. destruct (dram_zone h powercap z); [by apply sublist_cons|done].
Qed.
Lemma dram_ids h zones chips : layout_ok h zones chips →
  NoDup (energy_ids (found_or_none (rapl_discover_dram h (sysfs_root h)))) ∧
  ∀ i, i ∈ energy_ids (found_or_none (rapl_discover_dram h (sysfs_root h))) → String.prefix "rapl:dram:" i = true.
Proof.
  intros [Hdir Hok _ Hdrams _ _ _]. set (powercap := String.append (sysfs_root h) "/class/powercap") in *.
  unfold rapl_discover_dram. fold powercap. destruct (h_exists h powercap); cbn [negb]; [|split; [constructor|by intros i ?%not_elem_of_nil]].
  rewrite Hdir. change ((λ z, Ok (zone_dir z)) <$> zones) with ((Ok ∘ zone_dir : Zone → result string string) <$> zones).
  rewrite list_fmap_compose, scan_dir_all. destruct (dram_entries h powercap zones Hok) as [Hsub Hid].
  set (l := omap (dram_entry h powercap) (zone_dir <$> zones)) in *.
  assert (energy_ids (boxed <$> l) = (λ n, String.append "rapl:dram:" (show n)) <$> (socket_of <$> l)) as Hids.
  { rewrite energy_ids_all, <-list_fmap_compose by done. apply list_fmap_ext. intros i s Hi%list_elem_of_lookup_2.
    exact (Hid s Hi). }
  assert (NoDup (energy_ids (boxed <$> l)) ∧ ∀ i, i ∈ energy_ids (boxed <$> l) → String.prefix "rapl:dram:" i = true) as H.
  { rewrite Hids. split; [|intros i (n & -> & _)%list_elem_of_fmap; apply prefix_append]. apply show_ids_NoDup.
    - apply Forall_forall. intros n Hn. assert (n ∈ omap (dram_zone h powercap) zones) as (z & Hz & E)%list_elem_of_omap
        by (by eapply elem_of_submseteq, sublist_submseteq).
      eapply Forall_forall in Hz; [|exact Hok]. unfold dram_zone in E. destruct z as [|a b|]; [done| |done].
      destruct (bool_decide _); [|done]. injection E as ->. cbn in Hz. lia.
    - by eapply sublist_NoDup. }
  destruct l; [split; [constructor|by intros i ?%not_elem_of_nil]|exact H].
Qed.
Lemma hwmon_ids h zones chips : layout_ok h zones chips →
  NoDup (energy_ids (found_or_none (hwmon_discover h (sysfs_root h)))) ∧
  ∀ i, i ∈ energy_ids (found_or_none (hwmon_discover h (sysfs_root h))) → String.prefix "hwmon:" i = true.
Proof.
  intros [_ _ _ _ Hdir Hnd Hcolon].
  destruct (h_exists h (String.append (sysfs_root h) "/class/hwmon")) eqn:Hex.
  - destruct (hwmon_discover_exact h (sysfs_root h) chips Hex Hdir Hnd Hcolon) as [Hids Hs].
    destruct (hwmon_discover h (sysfs_root h)) as [l|]; [|split; [constructor|by intros i ?%not_elem_of_nil]].
    cbn [found_or_none] in *. split; [by eapply sublist_NoDup, energy_ids_sub|]. intros i Hi.
    eapply elem_of_submseteq in Hi; [|apply sublist_submseteq, energy_ids_sub].
    apply list_elem_of_fmap in Hi as (s & -> & Hin). apply Hs in Hin as (name & kind & n & _ & _ & Hof).
    apply sensor_of_id in Hof as [Hid _]. change (src_id (describe s)) with (hw_id s). rewrite Hid. apply prefix_append.
  - unfold hwmon_discover. rewrite Hex. split; [constructor|by intros i ?%not_elem_of_nil].
Qed.
Lemma discovered_energy_ids h zones chips : layout_ok h zones chips → NoDup (energy_ids (discover_sources h)).
Proof.
  intros Hlay. unfold discover_sources. rewrite !energy_ids_app.
  destruct (package_ids h zones chips Hlay) as [Hp Hp'], (dram_ids h zones chips Hlay) as [Hd Hd'],
    (hwmon_ids h zones chips Hlay) as [Hh Hh'].
  assert (energy_ids (found_or_none (gpu_discover h)) = []) as -> by (destruct (gpu_discover h); [by apply energy_ids_none|done]).
  assert (energy_ids (found_or_none (redfish_discover h)) = []) as -> by (destruct (redfish_discover h); [by apply energy_ids_none|done]).
  rewrite ?app_nil_l, ?app_nil_r. apply NoDup_app. split; [done|]. split.
  - intros i (s & ->)%Hp'%prefix_Some Hi. apply elem_of_app in Hi as [Hi%Hd'|Hi%Hh']; by rewrite append_cons, prefix_cons in Hi.
  - apply NoDup_app. split; [done|]. split; [|done]. intros i (s & ->)%Hd'%prefix_Some Hi%Hh'.
    by rewrite append_cons, prefix_cons in Hi.
Qed.

(** C9: the agent never mixes up two meters.  On a machine with the kernel's
    layout of counters, after discovery, the initial read and one round of the
    loop, each at its own moment and with any of the reads failing, the power
    the agent lists for every source is that source's own: its measured power,
    or the difference of its own counter since the initial read over the
    interval. *)
Theorem sources_never_mix h zones chips h0 t0 h1 t1 interval : layout_ok h zones chips →
  let srcs := discover_sources h in
  let prev := foldl initial_read ∅ (answers h0 t0 srcs) in
  sr_power_uw <$> all_source_readings (read_sources interval prev (answers h1 t1 srcs)).2 =
    (λ d, own_power interval (read h0 t0 d) (read h1 t1 d)) <$> srcs.
Proof. intros Hlay. apply listed_own. by eapply discovered_energy_ids. Qed.

(** C23: every driver keeps the trait's contract, and the two places that take
    deltas agree on it.  Whatever the machine answers, a reading of a discovered
    source carries that source's id, component, granularity and type, and either
    an energy counter or a power, never both and never neither, within 64 bits;
    which of the two stays the same from reading to reading.  So the collector's
    delta of two readings is, for a counter, the very one the agent's loop
    computes, and for a power, that power over the time between them; the zero
    of its mismatch branch is never taken. *)
Theorem discovered_readings_typed h d h0 t0 h1 t1 r0 r1 : d ∈ discover_sources h →
  read h0 t0 d = Ok r0 → read h1 t1 d = Ok r1 →
  reading_ok (describe d) (counts_energy d) t1 r1 ∧
  if counts_energy d then
    ∃ e0 e1, energy_uj r0 = Some e0 ∧ energy_uj r1 = Some e1 ∧
      compute_energy_delta r1 r0 = counter_delta e1 e0 (max_energy_uj r1)
  else
    ∃ p0 p1, power_uw r0 = Some p0 ∧ power_uw r1 = Some p1 ∧
      compute_energy_delta r1 r0 = u64_wrap (u128_wrap (p1 * nanos_since t1 t0) / 1000000000).
Proof.
  intros _ H0%read_lawful H1%read_lawful. split; [done|].
  destruct H0 as [_ Ht0 _ _ _ H0], H1 as [_ Ht1 _ _ _ H1]. unfold compute_energy_delta, counter_delta.
  destruct (counts_energy d).
  - destruct H0 as (e0 & He0 & _), H1 as (e1 & He1 & _). exists e0, e1. by rewrite He0, He1.
  - destruct H0 as (p0 & Hp0 & _ & He0), H1 as (p1 & Hp1 & _ & He1). exists p0, p1.
    by rewrite Hp0, Hp1, He0, He1, Ht0, Ht1.
Qed.

(** A machine with two sockets and a memory domain, listed in odd order, and an
    energy chip. *)
Definition machine_zones : list Zone := [Top 1; Sub 0 2; Top 0; Sub 0 0].
Definition machine (e0 e1 dram chip : string) : Host :=
  file_host [("/sys/class/powercap/intel-rapl:0/energy_uj", line_of e0); ("/sys/class/powercap/intel-rapl:1/energy_uj", line_of e1);
             ("/sys/class/powercap/intel-rapl:0:2/energy_uj", line_of dram); ("/sys/class/powercap/intel-rapl:0:2/name", line_of "dram");
             ("/sys/class/powercap/intel-rapl:0:0/name", line_of "core"); ("/sys/class/hwmon/hwmon3/energy1_input", line_of chip);
             ("/sys/class/hwmon/hwmon3/name", line_of "ibmaem")]
            [("/sys/class/powercap", zone_dir <$> machine_zones); ("/sys/class/hwmon", ["hwmon3"])] [].
Definition machine_before : Host := machine "1000" "5000" "70" "9".
Definition machine_after : Host := machine "31000" "45000" "20070" "1009".

Lemma sources_never_mix_witness :
  let srcs := discover_sources machine_before in
  let prev := foldl initial_read ∅ (answers machine_before 0 srcs) in
  sr_power_uw <$> all_source_readings (read_sources 1000000000 prev (answers machine_after 5 srcs)).2 = [30000; 40000; 20000; 1000].
Proof.
  cbn zeta. rewrite (sources_never_mix machine_before machine_zones ["hwmon3"]); [vm_compute; reflexivity|].
  split; try (vm_compute; reflexivity).
  - repeat (apply Forall_cons; split; [by vm_compute|]). by apply Forall_nil.
  - apply (bool_decide_unpack _). vm_compute. exact I.
  - apply (bool_decide_unpack _). vm_compute. exact I.
  - apply (bool_decide_unpack _). vm_compute. exact I.
  - repeat (apply Forall_cons; split; [reflexivity|]). by apply Forall_nil.
Defined.

Definition demo_rapl_source : RaplSource :=
  {| rapl_id := "rapl:package:0"; rapl_name := "RAPL package (socket 0): package"; rapl_path := "/sys/class/powercap/intel-rapl:0";
     rapl_component := Cpu; rapl_granularity := Socket 0; rapl_max_energy_uj := 0 |}.
Lemma discovered_readings_typed_witness : ∃ r0 r1,
  read machine_before 0 (boxed demo_rapl_source) = Ok r0 ∧ read machine_after 5 (boxed demo_rapl_source) = Ok r1 ∧
  compute_energy_delta r1 r0 = 30000.
Proof.
  destruct (read machine_before 0 (boxed demo_rapl_source)) as [r0|] eqn:H0; [|by vm_compute in H0].
  destruct (read machine_after 5 (boxed demo_rapl_source)) as [r1|] eqn:H1; [|by vm_compute in H1].
  exists r0, r1. split; [reflexivity|]. split; [reflexivity|].
  edestruct (discovered_readings_typed machine_before (boxed demo_rapl_source) machine_before 0 machine_after 5 r0 r1) as
    [_ (e0 & e1 & He0 & He1 & ->)].
  - assert (head <$> match rapl_discover machine_before "/sys" with Ok l => Some l | Err _ => None end
            = Some (Some demo_rapl_source)) as Hh by (vm_compute; reflexivity).
    unfold discover_sources. change (sysfs_root machine_before) with "/sys". apply elem_of_app. left.
    destruct (rapl_discover machine_before "/sys") as [[|s l]|]; cbn in Hh; [done| |done]. injection Hh as ->. left.
  - exact H0.
  - exact H1.
  - vm_compute in H0, H1. injection H0 as <-. injection H1 as <-. vm_compute in He0, He1.
    injection He0 as <-. injection He1 as <-. vm_compute. reflexivity.
Defined.
