(* ===== verification/Wire.v ===== *)
(** * Wire: the report on its way from the agent to the controller

    What the [Serialize] structs of keck-agent/src/main.rs write and the
    [Deserialize] structs of keck-controller/src/aggregator/mod.rs read, field by
    field, with their [serde(default)] attributes; the two sides declare the
    structs separately.  The agent has no metering method: a report of [Agent]
    has the empty one, and the controller's default is the same. *)

From S2P Require Import Prelude F64 Json Common Classify Text Workload Procfs Bpf Tuner Collector Host.
From S2P Require Import Aggregator Agent AgentProps Api EndToEnd Rapl Sources.

Open Scope Z_scope.

Section wire.
Context `{HI : HashIter}.

(** ** The agent's side *)

Definition SourceStatus_ser (s : SourceStatus) : Value := Object [
  ("name", enc string_codec (ss_name s)); ("node_name", enc string_codec (ss_node_name s));
  ("component", enc string_codec (ss_component s)); ("reading_type", enc string_codec (ss_reading_type s));
  ("available", enc bool_codec (ss_available s)); ("selected", enc bool_codec (ss_selected s));
  ("power_uw", enc u64_codec (ss_power_uw s))].
Definition NodePowerReport_ser (n : NodePowerReport) : Value := Object [
  ("node_name", enc string_codec (nr_node_name n)); ("cpu_uw", enc u64_codec (nr_cpu_uw n));
  ("memory_uw", enc u64_codec (nr_memory_uw n)); ("gpu_uw", enc u64_codec (nr_gpu_uw n));
  ("platform_uw", enc (option_codec u64_codec) (nr_platform_uw n));
  ("psu_output_uw", enc (option_codec u64_codec) (nr_psu_output_uw n));
  ("idle_uw", enc u64_codec (nr_idle_uw n)); ("error_ratio", enc f64_codec (nr_error_ratio n));
  ("pod_count", enc u32_codec (nr_pod_count n)); ("process_count", enc u32_codec (nr_process_count n));
  ("timestamp", enc systime_codec (nr_timestamp n)); ("cpu_source", enc string_codec (nr_cpu_source n));
  ("memory_source", enc string_codec (nr_memory_source n)); ("cpu_reading_type", enc string_codec (nr_cpu_reading_type n));
  ("sources", Array (SourceStatus_ser <$> nr_sources n))].
Definition PodPowerReport_ser (p : PodPowerReport) : Value := Object [
  ("node_name", enc string_codec (pr_node_name p)); ("pod_uid", enc string_codec (pr_pod_uid p));
  ("pod_name", enc string_codec (pr_pod_name p)); ("namespace", enc string_codec (pr_namespace p));
  ("cpu_uw", enc u64_codec (pr_cpu_uw p)); ("memory_uw", enc u64_codec (pr_memory_uw p));
  ("gpu_uw", enc u64_codec (pr_gpu_uw p)); ("storage_uw", enc u64_codec (pr_storage_uw p));
  ("io_uw", enc u64_codec (pr_io_uw p)); ("total_uw", enc u64_codec (pr_total_uw p));
  ("timestamp", enc systime_codec (pr_timestamp p)); ("workload_uid", enc string_codec (pr_workload_uid p));
  ("workload_name", enc string_codec (pr_workload_name p)); ("workload_kind", enc string_codec (pr_workload_kind p));
  ("workload_category", enc string_codec (pr_workload_category p)); ("labels", enc map_codec (pr_labels p))].
Definition AgentReport_ser (r : AgentReport) : Value :=
  Object [("node", NodePowerReport_ser (ar_node r)); ("pods", Array (PodPowerReport_ser <$> ar_pods r))].

(** ** The controller's side *)

Definition SourceStatus_de (v : Value) : option SourceStatus :=
  name ← field string_codec "name" v;
  node_name ← field_or EmptyString string_codec "node_name" v;
  component ← field string_codec "component" v;
  reading_type ← field string_codec "reading_type" v;
  available ← field bool_codec "available" v;
  selected ← field bool_codec "selected" v;
  power_uw ← field u64_codec "power_uw" v;
  Some {| ss_name := name; ss_node_name := node_name; ss_component := component; ss_reading_type := reading_type;
          ss_available := available; ss_selected := selected; ss_power_uw := power_uw |}.
Definition SourceStatus_codec : Codec SourceStatus := {| enc := SourceStatus_ser; dec := SourceStatus_de |}.
Definition NodePowerReport_de (v : Value) : option NodePowerReport :=
  node_name ← field string_codec "node_name" v;
  cpu_uw ← field u64_codec "cpu_uw" v;
  memory_uw ← field u64_codec "memory_uw" v;
  gpu_uw ← field u64_codec "gpu_uw" v;
  platform_uw ← field_or None (option_codec u64_codec) "platform_uw" v;
  psu_output_uw ← field_or None (option_codec u64_codec) "psu_output_uw" v;
  idle_uw ← field u64_codec "idle_uw" v;
  error_ratio ← field f64_codec "error_ratio" v;
  pod_count ← field u32_codec "pod_count" v;
  process_count ← field u32_codec "process_count" v;
  timestamp ← field systime_codec "timestamp" v;
  cpu_source ← field_or EmptyString string_codec "cpu_source" v;
  memory_source ← field_or EmptyString string_codec "memory_source" v;
  cpu_reading_type ← field_or EmptyString string_codec "cpu_reading_type" v;
  sources ← field_or [] (list_codec SourceStatus_codec) "sources" v;
  metering_method ← field_or EmptyString string_codec "metering_method" v;
  Some {| nr_node_name := node_name; nr_cpu_uw := cpu_uw; nr_memory_uw := memory_uw; nr_gpu_uw := gpu_uw;
          nr_platform_uw := platform_uw; nr_psu_output_uw := psu_output_uw; nr_idle_uw := idle_uw;
          nr_error_ratio := error_ratio; nr_pod_count := pod_count; nr_process_count := process_count;
          nr_timestamp := timestamp; nr_cpu_source := cpu_source; nr_memory_source := memory_source;
          nr_cpu_reading_type := cpu_reading_type; nr_sources := sources; nr_metering_method := metering_method |}.
Definition PodPowerReport_de (v : Value) : option PodPowerReport :=
  node_name ← field string_codec "node_name" v;
  pod_uid ← field string_codec "pod_uid" v;
  pod_name ← field string_codec "pod_name" v;
  namespace ← field string_codec "namespace" v;
  cpu_uw ← field u64_codec "cpu_uw" v;
  memory_uw ← field u64_codec "memory_uw" v;
  gpu_uw ← field u64_codec "gpu_uw" v;
  storage_uw ← field_or 0 u64_codec "storage_uw" v;
  io_uw ← field_or 0 u64_codec "io_uw" v;
  total_uw ← field u64_codec "total_uw" v;
  timestamp ← field systime_codec "timestamp" v;
  workload_uid ← field_or EmptyString string_codec "workload_uid" v;
  workload_name ← field_or EmptyString string_codec "workload_name" v;
  workload_kind ← field_or EmptyString string_codec "workload_kind" v;
  workload_category ← field_or EmptyString string_codec "workload_category" v;
  labels ← field_or ∅ map_codec "labels" v;
  metering_method ← field_or EmptyString string_codec "metering_method" v;
  Some {| pr_node_name := node_name; pr_pod_uid := pod_uid; pr_pod_name := pod_name; pr_namespace := namespace;
          pr_cpu_uw := cpu_uw; pr_memory_uw := memory_uw; pr_gpu_uw := gpu_uw; pr_storage_uw := storage_uw;
          pr_io_uw := io_uw; pr_total_uw := total_uw; pr_timestamp := timestamp; pr_workload_uid := workload_uid;
          pr_workload_name := workload_name; pr_workload_kind := workload_kind;
          pr_workload_category := workload_category; pr_labels := labels; pr_metering_method := metering_method |}.
Definition NodePowerReport_codec : Codec NodePowerReport := {| enc := NodePowerReport_ser; dec := NodePowerReport_de |}.
Definition PodPowerReport_codec : Codec PodPowerReport := {| enc := PodPowerReport_ser; dec := PodPowerReport_de |}.
Definition AgentReport_de (v : Value) : option AgentReport :=
  node ← field NodePowerReport_codec "node" v;
  pods ← field (list_codec PodPowerReport_codec) "pods" v;
  Some {| ar_node := node; ar_pods := pods |}.
Definition AgentReport_codec : Codec AgentReport := {| enc := AgentReport_ser; dec := AgentReport_de |}.

(** ** What is written is read back *)

(** The values the agent's field types hold. *)
Definition source_typed (s : SourceStatus) : Prop := is_u64 (ss_power_uw s).
Record node_typed (n : NodePowerReport) : Prop := {
  nt_cpu : is_u64 (nr_cpu_uw n);
  nt_memory : is_u64 (nr_memory_uw n);
  nt_gpu : is_u64 (nr_gpu_uw n);
  nt_platform : from_option is_u64 True (nr_platform_uw n);
  nt_psu : from_option is_u64 True (nr_psu_output_uw n);
  nt_idle : is_u64 (nr_idle_uw n);
  nt_error : f64_finite (nr_error_ratio n) = true;
  nt_pods : is_u32 (nr_pod_count n);
  nt_procs : is_u32 (nr_process_count n);
  nt_time : is_systime (nr_timestamp n);
  nt_sources : Forall source_typed (nr_sources n);
  nt_method : nr_metering_method n = EmptyString
}.
Record pod_typed (p : PodPowerReport) : Prop := {
  pt_cpu : is_u64 (pr_cpu_uw p);
  pt_memory : is_u64 (pr_memory_uw p);
  pt_gpu : is_u64 (pr_gpu_uw p);
  pt_storage : is_u64 (pr_storage_uw p);
  pt_io : is_u64 (pr_io_uw p);
  pt_total : is_u64 (pr_total_uw p);
  pt_time : is_systime (pr_timestamp p);
  pt_method : pr_metering_method p = EmptyString
}.
Definition report_typed (r : AgentReport) : Prop := node_typed (ar_node r) ∧ Forall pod_typed (ar_pods r).

Lemma SourceStatus_lawful : lawful SourceStatus_codec source_typed.
Proof.
  intros s Hs. cbn [SourceStatus_codec enc dec]. unfold SourceStatus_ser, SourceStatus_de. read_fields.
  rewrite (u64_lawful _ Hs). by destruct s.
Qed.
Lemma option_u64_lawful : lawful (option_codec u64_codec) (from_option is_u64 True).
Proof. apply option_lawful; [apply u64_lawful|done]. Qed.
Lemma NodePowerReport_lawful : lawful NodePowerReport_codec node_typed.
Proof.
  intros n []. cbn [NodePowerReport_codec enc dec]. unfold NodePowerReport_ser, NodePowerReport_de. read_fields.
  rewrite !u64_lawful, !option_u64_lawful, f64_lawful, !u32_lawful, systime_lawful by done.
  change (Array (SourceStatus_ser <$> nr_sources n)) with (enc (list_codec SourceStatus_codec) (nr_sources n)).
  rewrite (list_lawful _ _ SourceStatus_lawful) by done. destruct n. cbn in *. by subst.
Qed.
Lemma PodPowerReport_lawful : lawful PodPowerReport_codec pod_typed.
Proof.
  intros p []. cbn [PodPowerReport_codec enc dec]. unfold PodPowerReport_ser, PodPowerReport_de. read_fields.
  rewrite !u64_lawful, systime_lawful, map_lawful by done. destruct p. cbn in *. by subst.
Qed.
Lemma AgentReport_lawful : lawful AgentReport_codec report_typed.
Proof.
  intros r [Hn Hp]. cbn [AgentReport_codec enc dec]. unfold AgentReport_ser, AgentReport_de. read_fields.
  change (NodePowerReport_ser (ar_node r)) with (enc NodePowerReport_codec (ar_node r)).
  change (Array (PodPowerReport_ser <$> ar_pods r)) with (enc (list_codec PodPowerReport_codec) (ar_pods r)).
  rewrite NodePowerReport_lawful, (list_lawful _ _ PodPowerReport_lawful) by done. by destruct r.
Qed.

(** ** The text in between

    What arrives is the report with the quality figure, its only float, as it is
    read back from its text. *)

Definition with_error_ratio (x : f64) (n : NodePowerReport) : NodePowerReport :=
  {| nr_node_name := nr_node_name n; nr_cpu_uw := nr_cpu_uw n; nr_memory_uw := nr_memory_uw n; nr_gpu_uw := nr_gpu_uw n;
     nr_platform_uw := nr_platform_uw n; nr_psu_output_uw := nr_psu_output_uw n; nr_idle_uw := nr_idle_uw n;
     nr_error_ratio := x; nr_pod_count := nr_pod_count n; nr_process_count := nr_process_count n;
     nr_timestamp := nr_timestamp n; nr_cpu_source := nr_cpu_source n; nr_memory_source := nr_memory_source n;
     nr_cpu_reading_type := nr_cpu_reading_type n; nr_sources := nr_sources n; nr_metering_method := nr_metering_method n |}.
Definition received (reparse : f64 → f64) (r : AgentReport) : AgentReport :=
  {| ar_node := with_error_ratio (reparse (nr_error_ratio (ar_node r))) (ar_node r); ar_pods := ar_pods r |}.

Section text.
Variable reparse : f64 → f64.
Hypothesis Hfin : reads_finite reparse.

Lemma reread_list {A} (ser : A → Value) l : (∀ a, reread reparse (ser a) = ser a) → map (reread reparse) (ser <$> l) = ser <$> l.
Proof. intros Hs. change (map (reread reparse)) with (fmap (M:=list) (reread reparse)). rewrite <-list_fmap_compose. apply list_fmap_ext. intros i a _. apply Hs. Qed.
Lemma reread_source s : reread reparse (SourceStatus_ser s) = SourceStatus_ser s.
Proof. done. Qed.
Lemma reread_option o : reread reparse (enc (option_codec u64_codec) o) = enc (option_codec u64_codec) o.
Proof. by destruct o. Qed.
Lemma reread_labels m : reread reparse (enc map_codec m) = enc map_codec m.
Proof. cbn. f_equal. generalize (hm_iter m). intros l. induction l as [|[k v] l IH]; [done|]. cbn. by rewrite IH. Qed.
Lemma reread_pod p : reread reparse (PodPowerReport_ser p) = PodPowerReport_ser p.
Proof. unfold PodPowerReport_ser. cbn [reread map fst snd]. by rewrite reread_labels. Qed.
Lemma reread_node n : f64_finite (nr_error_ratio n) = true →
  reread reparse (NodePowerReport_ser n) = NodePowerReport_ser (with_error_ratio (reparse (nr_error_ratio n)) n).
Proof.
  intros Hn. unfold NodePowerReport_ser. cbn [reread map fst snd]. rewrite !reread_option, (reread_list _ _ reread_source).
  cbn [with_error_ratio nr_node_name nr_cpu_uw nr_memory_uw nr_gpu_uw nr_platform_uw nr_psu_output_uw nr_idle_uw nr_error_ratio
       nr_pod_count nr_process_count nr_timestamp nr_cpu_source nr_memory_source nr_cpu_reading_type nr_sources].
  change (enc f64_codec ?x) with (json_f64 x). unfold json_f64. rewrite Hn, (Hfin _ Hn). done.
Qed.
Lemma reread_report r : report_typed r → reread reparse (AgentReport_ser r) = AgentReport_ser (received reparse r).
Proof.
  intros [Hn _]. unfold AgentReport_ser. cbn [reread map fst snd]. rewrite reread_node by (by destruct Hn).
  by rewrite (reread_list _ _ reread_pod).
Qed.
Lemma received_typed r : report_typed r → report_typed (received reparse r).
Proof. intros [[] Hp]. split; [|done]. split; try done. by apply Hfin. Qed.
(** What is read back from the text of a report. *)
Lemma AgentReport_received r : report_typed r → AgentReport_de (reread reparse (AgentReport_ser r)) = Some (received reparse r).
Proof. intros Hr. rewrite reread_report by done. by apply AgentReport_lawful, received_typed. Qed.
End text.

(** ** Every report of the agent is typed *)

Lemma is_u64_0 : is_u64 0.
Proof. done. Qed.
Definition answers_typed (srcs : list (PowerSource * result PowerReading SourceError)) : Prop :=
  Forall (λ sa, match sa.2 with Ok r => from_option is_u64 True (power_uw r) | Err _ => True end) srcs.
Record sel_typed (sel : Selection) : Prop := {
  st_readings : Forall (λ s, is_u64 (sr_power_uw s)) (all_source_readings sel);
  st_best : ∀ c r, best sel !! c = Some r → is_u64 (rd_power_uw r)
}.
Lemma reading_power_typed interval prev id r : from_option is_u64 True (power_uw r) →
  is_u64 (reading_power interval prev id r).1.
Proof.
  intros Hr. unfold reading_power. destruct (energy_uj r) as [e|]; [|by destruct (power_uw r)].
  cbn. unfold main_energy_to_power. destruct (_ =? 0); [done|apply u64_wrap_range].
Qed.
Lemma read_sources_typed interval prev srcs : answers_typed srcs → sel_typed (read_sources interval prev srcs).2.
Proof.
  unfold read_sources. assert (sel_typed {| all_source_readings := []; best := ∅ |}) as H0 by (by split).
  revert prev H0. generalize {| all_source_readings := []; best := ∅ |} as sel.
  induction srcs as [|[src [r|e]] srcs IH]; intros sel prev [Hs Hb] Ht; [done|..];
    apply Forall_cons in Ht as [Hr Ht]; cbn [foldl read_one].
  - pose proof (reading_power_typed interval prev (src_id src) r Hr) as Hp.
    destruct (reading_power interval prev (src_id src) r) as [pw prev']. cbn [fst] in Hp. apply IH; [|done]. split; cbn.
    + apply Forall_app. split; [done|by apply Forall_singleton].
    + intros c r'. destruct (pw =? 0); [apply Hb|]. unfold select_best. cbn [fst snd].
      destruct (replaces _ _ _); [|apply Hb]. intros [[<- <-]|[_ Hc]]%lookup_insert_Some; [done|by eapply Hb].
  - apply IH; [|done]. split; [|done]. apply Forall_app. split; [done|by apply Forall_singleton].
Qed.
Lemma best_uw_typed sel c : sel_typed sel → is_u64 (best_uw sel c).
Proof. intros [_ Hb]. unfold best_uw. destruct (best sel !! c) eqn:E; [by eapply Hb|done]. Qed.
Lemma psu_output_typed sel : sel_typed sel → from_option is_u64 True (psu_output_uw sel).
Proof. intros _. unfold psu_output_uw. destruct (0 <? _); [apply sum_u64_range|done]. Qed.
Lemma platform_typed sel : sel_typed sel → from_option is_u64 True (platform_uw sel).
Proof. intros [_ Hb]. unfold platform_uw. destruct (best sel !! Platform) eqn:E; [by eapply Hb|done]. Qed.
Lemma reference_typed sel : sel_typed sel → from_option is_u64 True (reference_power sel).
Proof.
  intros Hs. unfold reference_power. pose proof (psu_output_typed sel Hs). pose proof (platform_typed sel Hs).
  by destruct (psu_output_uw sel).
Qed.
Lemma i64_wrap_abs x : 0 <= unsigned_abs (i64_wrap x) <= 2 ^ 64.
Proof.
  unfold unsigned_abs, i64_wrap. pose proof (Z.mod_pos_bound (x + 2 ^ 63) u64_mod eq_refl). unfold u64_mod in *. lia.
Qed.
(** The quality figure is never NaN or infinite, which JSON cannot carry. *)
Lemma error_ratio_finite sel : sel_typed sel → f64_finite (node_error_ratio sel) = true.
Proof.
  intros Hs%reference_typed. unfold node_error_ratio. destruct (reference_power sel) as [p|]; [|done].
  destruct (Z.ltb_spec 0 p); [|done]. apply f64_ratio_finite; [apply i64_wrap_abs|].
  cbn in Hs. unfold is_u64, u64_mod in Hs. lia.
Qed.

Lemma pod_report_typed node now cache uid cpu mem gpu storage io total :
  is_u64 cpu → is_u64 mem → is_u64 gpu → is_u64 storage → is_u64 io → is_u64 total → is_systime (now uid) →
  pod_typed (pod_report node now cache uid cpu mem gpu storage io total).
Proof. by split. Qed.
Lemma components_total_range a b c d e : is_u64 (components_total a b c d e).
Proof. apply u64_add_range. Qed.
Lemma with_powers_typed cpu mem gpu p : is_u64 cpu → is_u64 mem → is_u64 gpu → pod_typed p → pod_typed (with_powers cpu mem gpu p).
Proof. intros ??? []. split; try done. apply components_total_range. Qed.
Lemma enumerate_pods_typed node now t llc cache caches net k procs : (∀ uid, is_systime (now uid)) →
  Forall pod_typed (enumerate_pods (F:=f64) node now t llc cache caches net k procs).1.
Proof.
  intros Hn. unfold enumerate_pods. destruct procs as [entries|]; [|constructor]. cbn [fst].
  set (sc := foldl _ _ entries). destruct (process_metrics sc); [constructor|].
  apply Forall_fmap, Forall_forall. intros [uid m] _. unfold attribute_pod.
  apply pod_report_typed; first [apply f_to_u64_range|apply u64_add_range|done].
Qed.
Lemma weighted_typed node now T M llc counters cache snap proc_of alpha beta : (∀ uid, is_systime (now uid)) →
  Forall pod_typed (enumerate_pods_ebpf_weighted (F:=f64) node now T M llc counters cache snap proc_of alpha beta).
Proof.
  intros Hn. unfold enumerate_pods_ebpf_weighted. destruct (weighted_pod_cpu _ _ _ _ _ _); [|constructor].
  apply Forall_fmap, Forall_forall. intros uid _. unfold weighted_report.
  apply pod_report_typed; first [apply f_to_u64_range|apply u64_add_range|done].
Qed.
Lemma override_typed ebpf_pods pods : Forall pod_typed ebpf_pods → Forall pod_typed pods →
  Forall pod_typed (override_pods ebpf_pods pods).
Proof.
  intros He Hp. unfold override_pods. set (m := foldl _ _ _).
  assert (map_Forall (λ (_ : string) (cm : Z * Z), is_u64 cm.1 ∧ is_u64 cm.2) m) as Hm.
  { unfold m. assert (map_Forall (λ (_ : string) (cm : Z * Z), is_u64 cm.1 ∧ is_u64 cm.2) (∅ : gmap string (Z * Z))) as H0
      by apply map_Forall_empty. revert H0. generalize (∅ : gmap string (Z * Z)).
    induction He as [|p l [] Hl IH]; intros m0 H0; [done|]. cbn. apply IH. by apply map_Forall_insert_2. }
  apply Forall_fmap. eapply Forall_impl; [exact Hp|]. intros p Ht. cbn.
  destruct (m !! pr_pod_uid p) as [[cpu mem]|] eqn:E; [|done]. destruct (Hm _ _ E) as [H1 H2].
  apply with_powers_typed; try done. by destruct Ht.
Qed.
Lemma gpu_power_typed node now cache body pods : (∀ uid, is_systime (now uid)) → Forall pod_typed pods →
  Forall pod_typed (add_gpu_power_to_pods node now cache body pods).
Proof.
  intros Hn. unfold add_gpu_power_to_pods. destruct body as [b|]; [|done]. revert pods.
  induction (str_lines b) as [|line lines IH]; intros pods Hp; [done|]. cbn. apply IH. unfold gpu_line.
  destruct (negb _); [done|]. destruct (match extract_dcgm_label line "Hostname" with Some _ => _ | None => _ end); [done|].
  destruct (extract_dcgm_label line "pod") as [[|a name]|]; [done| |done]. destruct (fleb _ fzero); [done|].
  unfold add_gpu. destruct (update_first _ _ pods) as [pods'|] eqn:Hu.
  - eapply update_first_Forall; [|exact Hp|exact Hu]. intros p Ht. apply with_powers_typed; try done; [by destruct Ht..|].
    apply u64_add_range.
  - destruct (list_find_p _ (hm_iter cache)) as [[uid i]|]; [|done].
    apply Forall_app. split; [done|]. constructor; [|done]. split; try done; first [apply f_to_u64_range|apply Hn].
Qed.

Variable cfg : AgentConfig.

(** The clock is in the range of [SystemTime] after the epoch whenever it is
    read. *)
Definition clock_typed (e : TickEnv) : Prop :=
  is_systime (te_time e) ∧
  ∀ uid, is_systime (te_proc_time e uid) ∧ is_systime (te_core_time e uid) ∧ is_systime (te_gpu_time e uid).

Lemma tick_pods_typed e s cache sel counters snap tuner : clock_typed e →
  Forall pod_typed (tick_pods cfg e s cache sel counters snap tuner).1.
Proof.
  intros [_ Ht]. unfold tick_pods.
  match goal with |- context [enumerate_pods ?a ?b ?t ?l ?c ?cs ?n ?k ?p] =>
    pose proof (enumerate_pods_typed a b t l c cs n k p (λ uid, proj1 (Ht uid))) as Hen;
    destruct (enumerate_pods a b t l c cs n k p) as [pods caches] end.
  cbn [fst] in *. destruct (negb _); [done|]. destruct snap as [snap|]; [|done].
  destruct (es_pid_cpu_times snap); [done|]. destruct (from_option current _ tuner) as [a b].
  match goal with |- context [enumerate_pods_ebpf_weighted ?n ?t ?T ?M ?l ?c ?ca ?sn ?p ?x ?y] =>
    pose proof (weighted_typed n t T M l c ca sn p x y (λ uid, proj1 (proj2 (Ht uid)))) as Hw;
    destruct (enumerate_pods_ebpf_weighted n t T M l c ca sn p x y) as [|q qs] end; [done|].
  by apply override_typed.
Qed.
Lemma build_report_typed e sel pods : is_systime (te_time e) → sel_typed sel → Forall pod_typed pods →
  report_typed (build_report cfg e sel pods).
Proof.
  intros Ht Hs Hp. split; [|done]. split; cbn; try done;
    [by apply best_uw_typed..|by apply platform_typed|by apply psu_output_typed| |by apply error_ratio_finite
    |apply u32_wrap_range|apply u32_wrap_range|].
  - apply reference_typed in Hs. unfold node_idle_uw. destruct (reference_power sel) as [p|]; [|done].
    apply sat_sub_range; [done|apply u64_add_range].
  - destruct Hs as [Hs _]. apply Forall_fmap. eapply Forall_impl; [exact Hs|]. done.
Qed.
Lemma agent_tick_typed e s : clock_typed e → answers_typed (te_answers e) → report_typed (agent_tick cfg e s).1.
Proof.
  intros Ht Ha. unfold agent_tick. destruct (tick_pod_cache cfg e s) as [[cache owners] lr].
  pose proof (read_sources_typed (ac_interval_ns cfg) (as_prev_readings s) _ Ha) as Hs.
  destruct (read_sources _ _ _) as [prev sel]. cbn [snd] in Hs.
  destruct (match as_counters s with Some _ => _ | None => _ end) as [cc counters].
  destruct (tick_drain cfg e s) as [snap bpf].
  match goal with |- context [tick_pods cfg e s cache sel cc snap ?t] =>
    pose proof (tick_pods_typed e s cache sel cc snap t Ht) as Hp;
    destruct (tick_pods cfg e s cache sel cc snap t) as [pods caches] end.
  cbn [fst] in *. apply build_report_typed; [by destruct Ht|done|].
  destruct (0 <? best_uw sel Gpu); [|done]. apply gpu_power_typed; [|done]. intros uid. apply Ht.
Qed.

(** ** From the drivers to the endpoint *)

(** The answers of an iteration are what the drivers of [ds] gave, each read on
    some machine state and at some time. *)
Definition drivers_answer (ds : list DynSource) (answers : list (PowerSource * result PowerReading SourceError)) : Prop :=
  Forall2 (λ d a, a.1 = describe d ∧ ∃ h t, a.2 = read h t d) ds answers.
Lemma drivers_answer_typed ds answers : drivers_answer ds answers → answers_typed answers.
Proof.
  induction 1 as [|d [src a] ds answers [_ (h & t & Ha)] Hd IH]; constructor; [|done]. cbn [snd] in *. subst a.
  destruct (read h t d) as [r|e] eqn:E; [|done]. apply read_lawful in E as [_ _ _ _ _ Hv].
  destruct (counts_energy d); [by destruct Hv as (_ & _ & _ & ->)|by destruct Hv as (p & -> & Hp & _)].
Qed.

(** The endpoint as the router calls it: a body that does not parse as a report
    is answered by the extractor ([None]), before the handler runs. *)
Definition post_report (now now_evict system_now : Z) (authorization : option string) (body : Value) (state : ServerState)
    : option ReportReply * ServerState :=
  match AgentReport_de body with
  | None => (None, state)
  | Some report =>
      let '(reply, state') := handle_report now now_evict system_now authorization report state in (Some reply, state')
  end.

(** C4: the agent and the controller speak the same language.  Whatever sources
    the agent has discovered, whatever they, /proc, the kernel and the exporter
    answer, the JSON the agent posts at the end of an iteration is a report the
    controller parses, whatever float the parser makes of the text of the quality
    figure (which is never the NaN or infinity that JSON turns into null): every
    other field, the pods, their powers and times included, is the very one the
    agent wrote, and the endpoint does what the handler does on that report. *)
Theorem tick_over_the_wire reparse ds e s now ne sn auth state :
  reads_finite reparse → drivers_answer ds (te_answers e) → clock_typed e →
  let r := (agent_tick cfg e s).1 in
  let r' := received reparse r in
  AgentReport_de (reread reparse (AgentReport_ser r)) = Some r' ∧
  post_report now ne sn auth (reread reparse (AgentReport_ser r)) state =
    (Some (handle_report now ne sn auth r' state).1, (handle_report now ne sn auth r' state).2).
Proof.
  intros Hfin Hd%drivers_answer_typed Ht r r'.
  assert (AgentReport_de (reread reparse (AgentReport_ser r)) = Some r') as Hr by (by apply AgentReport_received, agent_tick_typed).
  split; [done|]. unfold post_report. rewrite Hr. by destruct (handle_report _ _ _ _ _ _).
Qed.
End wire.

#[local] Existing Instance hash_iter_list.

Definition wire_source : DynSource := boxed demo_rapl_source.
Definition wire_env : TickEnv :=
  {| te_instant := 0; te_listing := None; te_get_owners := λ _ _ _, None; te_instant_after := 0;
     te_answers := [(describe wire_source, read machine_after 5 wire_source)]; te_counters := λ _, (None, None, None); te_kernel := []; te_drain := quiet_drain;
     te_procs := te_procs demo_env; te_proc_of := te_proc_of demo_env; te_dcgm := None; te_cleanup_procs := None;
     te_alive := λ _, true; te_count_procs := Some ["7"; "8"; "self"]; te_proc_time := λ _, 1700000000123456789; te_core_time := λ _, 1700000000123456789; te_gpu_time := λ _, 1700000000123456789; te_time := 1700000000123456789; te_accepted := true |}.
Definition wire_state : AgentState :=
  {| as_prev_readings := {[ "rapl:package:0" := 1000 ]}; as_caches := as_caches demo_state; as_tick_count := 0; as_pod_cache := ∅;
     as_owner_cache := ∅; as_last_pod_refresh := 0; as_counters := None; as_tuner := None; as_bpf := None; as_healthy := false |}.
Lemma wire_clock : clock_typed wire_env.
Proof. split; [split; discriminate|]. intros uid. repeat split; discriminate. Qed.
Lemma tick_over_the_wire_witness :
  let r := (agent_tick demo_config wire_env wire_state).1 in
  nr_cpu_uw (ar_node r) = 30000 ∧ length (ar_pods r) = 1%nat ∧
  (post_report 10 10 10 (Some "Bearer k") (reread id (AgentReport_ser r)) demo_server).1 = Some Accepted.
Proof.
  cbn zeta. split; [vm_compute; reflexivity|]. split; [vm_compute; reflexivity|].
  edestruct (tick_over_the_wire demo_config id [wire_source] wire_env wire_state 10 10 10 (Some "Bearer k") demo_server) as [_ ->].
  - intros x Hx. exact Hx.
  - constructor; [|constructor]. split; [reflexivity|]. exists machine_after, 5. reflexivity.
  - exact wire_clock.
  - vm_compute. reflexivity.
Defined.
