(* ===== verification/Server.v ===== *)
(** * Server: the controller's HTTP server and its main function

    [start_rest_server] of keck-controller/src/api/mod.rs, with its route table,
    and [main] of keck-controller/src/main.rs, which spawns the classification,
    Kepler and node watchers and serves until it fails.  A run is a list of turns
    of these tasks.  How axum matches a path, extracts a body and answers what it
    does not route is the library's: such a request is answered without running a
    handler.  Every turn is a step of [Controller]'s transition system, so what
    is proved of the states reachable there holds of the running program. *)

From S2P Require Import Prelude F64 Json Classify Aggregator Api Kepler Views Controller Wire.
From stdpp Require Import relations.

Open Scope Z_scope.

(** ** Requests *)

Inductive HttpMethod := GET | POST | OtherMethod.
#[global] Instance HttpMethod_dec : EqDecision HttpMethod.
Proof. solve_decision. Defined.

(** The body is the JSON value it parses as, if it does. *)
Record Request := {
  rq_method : HttpMethod;
  rq_path : string;
  rq_params : gmap string string;
  rq_authorization : option string;
  rq_content_length : Z;
  rq_body : option Value
}.

Inductive Endpoint :=
| EReport | ECluster | ENamespaces | ENamespacePods | ENodes | ENode | EPod | EApplications | EMetrics | EHealthz.

(** The route table. *)
Definition routes : list (string * (HttpMethod * Endpoint)) := [
  ("/api/v1/report", (POST, EReport));
  ("/api/v1/cluster", (GET, ECluster));
  ("/api/v1/namespaces", (GET, ENamespaces));
  ("/api/v1/pods-by-namespace", (GET, ENamespacePods));
  ("/api/v1/nodes", (GET, ENodes));
  ("/api/v1/pods-by-node", (GET, ENode));
  ("/api/v1/pods-by-uid", (GET, EPod));
  ("/api/v1/applications", (GET, EApplications));
  ("/metrics", (GET, EMetrics));
  ("/healthz", (GET, EHealthz))].
Definition BODY_LIMIT : Z := 1048576.

(** The handler the router calls, if any. *)
Definition route (rq : Request) : option Endpoint :=
  match list_find_p (λ r : string * (HttpMethod * Endpoint), String.eqb r.1 (rq_path rq)) routes with
  | Some (_, (m, e)) => if decide (m = rq_method rq) then Some e else None
  | None => None
  end.

Inductive Response :=
| JsonBody (v : Value)
| TextBody (s : string)
| MetricsPage (m : Metrics) (reports : gmap string Z)
| ReportAnswer (r : ReportReply)
| HandlerNotFound
| NotRouted
| BodyRefused.

(** The readings of the clocks while a request is served. *)
Record RequestClock := { rc_now : Z; rc_evict : Z; rc_system : Z }.

Section server.
Context `{HI : HashIter}.

Definition of_view (r : ViewReply) : Response := match r with ViewOk v => JsonBody v | NotFound => HandlerNotFound end.

(** The report endpoint: the extractor refuses a body that is too long, is not
    JSON or is not a report; otherwise the handler runs. *)
Definition serve_report (clk : RequestClock) (rq : Request) (c : Controller) : Response * Controller :=
  if BODY_LIMIT <? rq_content_length rq then (BodyRefused, c)
  else
    match rq_body rq with
    | None => (BodyRefused, c)
    | Some body =>
        let '(reply, server) :=
          post_report (rc_now clk) (rc_evict clk) (rc_system clk) (rq_authorization rq) body (c_server c) in
        (from_option ReportAnswer BodyRefused reply, {| c_server := server; c_cls := c_cls c; c_metrics := c_metrics c |})
    end.

Definition serve (clk : RequestClock) (rq : Request) (c : Controller) : Response * Controller :=
  let ag := aggregator (c_server c) in
  let now := rc_now clk in
  let params := rq_params rq in
  match route rq with
  | None => (NotRouted, c)
  | Some EReport => serve_report clk rq c
  | Some ECluster => (JsonBody (handle_cluster now (c_cls c) params ag), c)
  | Some ENamespaces => (JsonBody (handle_namespaces params ag), c)
  | Some ENamespacePods => (JsonBody (handle_namespace_pods params ag), c)
  | Some ENodes => (JsonBody (handle_nodes now params ag), c)
  | Some ENode => (of_view (handle_node now params ag), c)
  | Some EPod => (of_view (handle_pod params ag), c)
  | Some EApplications => (JsonBody (handle_applications (c_cls c) params ag), c)
  | Some EMetrics =>
      let m := handle_metrics now ag (c_metrics c) in
      (MetricsPage m (agent_report_total (c_server c)), {| c_server := c_server c; c_cls := c_cls c; c_metrics := m |})
  | Some EHealthz => (TextBody handle_healthz, c)
  end.

(** ** The program *)

(** What [main] finds: variables, whether a Kubernetes client can be made, and
    whether the port can be bound. *)
Record MainEnv := {
  env_api_key : option string;
  env_cors_origin : option string;
  env_kepler_enabled : option string;
  env_kepler_url : option string;
  has_k8s : bool;
  port_free : bool
}.
Inductive Started := Panicked | BindFailed | Listening (c : Controller).
(** [origin_ok]: the origin parses as a header value, which the code expects. *)
Definition start_rest_server (origin_ok : string → bool) (env : MainEnv) : Started :=
  if negb (from_option origin_ok true (env_cors_origin env)) then Panicked
  else if port_free env then Listening (Controller_new (env_api_key env))
  else BindFailed.

Inductive Turn :=
| HttpTurn (clk : RequestClock) (rq : Request)
| ClassificationTurn (operators : list ClusterOperator) (subs : list (option string))
| KeplerTurn (fetch : string → option string) (clk : string → ScrapeClock) (eps : option (option (list (option (list string)))))
| NodeWatchTurn (listing : option (list (option string))).

(** Turns of the two watchers, which have returned without a client. *)
Definition classification_turn (has_client : bool) (operators : list ClusterOperator) (subs : list (option string)) (c : Controller)
    : Controller :=
  if has_client then {| c_server := c_server c; c_cls := watch_classification operators subs; c_metrics := c_metrics c |} else c.
Definition node_watch_turn (has_client : bool) (listing : option (list (option string))) (c : Controller) : Controller :=
  if has_client then with_aggregator (watch_nodes_round listing (aggregator (c_server c))) c else c.
(** A turn of one task: what it answers, and the new state; a panic ends the
    Kepler task ([None]). *)
Definition turn (env : MainEnv) (t : Turn) (c : Controller) : option (option Response * Controller) :=
  match t with
  | HttpTurn clk rq => let '(r, c') := serve clk rq c in Some (Some r, c')
  | ClassificationTurn operators subs =>
      Some (None, classification_turn (has_k8s env) operators subs c)
  | KeplerTurn fetch clk eps =>
      ag ← run_kepler_turn (env_kepler_enabled env) (has_k8s env) fetch clk (env_kepler_url env) eps (aggregator (c_server c));
      Some (None, with_aggregator ag c)
  | NodeWatchTurn listing =>
      Some (None, node_watch_turn (has_k8s env) listing c)
  end.
Fixpoint run_turns (env : MainEnv) (turns : list Turn) (c : Controller) : option (list (option Response) * Controller) :=
  match turns with
  | [] => Some ([], c)
  | t :: turns' =>
      '(r, c1) ← turn env t c;
      '(rs, c2) ← run_turns env turns' c1;
      Some (r :: rs, c2)
  end.
(** [main]. *)
Definition controller_main (origin_ok : string → bool) (env : MainEnv) (turns : list Turn)
    : option (list (option Response) * Controller) :=
  match start_rest_server origin_ok env with
  | Listening c => run_turns env turns c
  | Panicked | BindFailed => None
  end.

(** ** Turns are steps *)

(** What a request can do to the state: nothing, a report, or a scrape. *)
Lemma serve_cases clk rq c : (serve clk rq c).2 = c ∨
  (rq_method rq = POST ∧ rq_path rq = "/api/v1/report" ∧ rq_content_length rq <= BODY_LIMIT ∧
   ∃ body report, rq_body rq = Some body ∧ AgentReport_de body = Some report ∧
   (serve clk rq c).2 = {| c_server := (handle_report (rc_now clk) (rc_evict clk) (rc_system clk) (rq_authorization rq) report
                                          (c_server c)).2; c_cls := c_cls c; c_metrics := c_metrics c |}) ∨
  (serve clk rq c).2 = {| c_server := c_server c; c_cls := c_cls c;
                          c_metrics := handle_metrics (rc_now clk) (aggregator (c_server c)) (c_metrics c) |}.
Proof.
  unfold serve. destruct (route rq) as [[]|] eqn:Hr; try (by left); [|by right; right].
  assert (rq_method rq = POST ∧ rq_path rq = "/api/v1/report") as [Hm Hp].
  { unfold route in Hr. destruct (list_find_p _ routes) as [[p [m e]]|] eqn:Hf; [|done]. case_decide; [|done]. injection Hr as ->.
    apply list_find_p_Some in Hf as [Hin Hp]. apply String.eqb_eq in Hp. cbn in Hp. unfold routes in Hin.
    rewrite !elem_of_cons in Hin. destruct_or! Hin; [by simplify_eq..|by apply elem_of_nil in Hin]. }
  unfold serve_report. case_match eqn:Hlen; [by left|]. apply Z.ltb_ge in Hlen.
  destruct (rq_body rq) as [body|] eqn:Hb; [|by left]. unfold post_report.
  destruct (AgentReport_de body) as [report|] eqn:Hde; [|left; by destruct c].
  right; left. do 3 (split; [done|]). exists body, report. do 2 (split; [done|]). by destruct (handle_report _ _ _ _ _ _).
Qed.
Lemma serve_steps clk rq c : rtc ctl_step c (serve clk rq c).2.
Proof.
  destruct (serve_cases clk rq c) as [->|[(_ & _ & _ & body & report & _ & _ & ->)| ->]]; [done|..]; apply rtc_once; constructor.
Qed.

Lemma scrape_runs fetch clk url ag : is_Some (scrape_and_ingest fetch clk url ag).
Proof.
  unfold scrape_and_ingest. destruct (fetch url) as [body|]; [|eauto].
  destruct (scrape_body_total body) as [st ->]. cbn. eauto.
Qed.
Lemma with_aggregator_id c : with_aggregator (aggregator (c_server c)) c = c.
Proof. by destruct c as [[] ? ?]. Qed.
Lemma scrape_step fetch clk url ag r ag' c :
  scrape_and_ingest fetch clk url ag = Some (r, ag') → ctl_step (with_aggregator ag c) (with_aggregator ag' c).
Proof. intros H. exact (StepKepler fetch clk url r ag' (with_aggregator ag c) H). Qed.

(** A scraper's turn completes, through scrapes alone, and does nothing unless
    enabled. *)
Lemma kepler_turn_steps enabled client fetch clk url eps c : ∃ ag,
  run_kepler_turn enabled client fetch clk url eps (aggregator (c_server c)) = Some ag ∧
  rtc ctl_step c (with_aggregator ag c) ∧ kepler_preserves (aggregator (c_server c)) ag.
Proof.
  unfold run_kepler_turn. destruct (String.eqb _ "true"); cbn [negb].
  2:{ exists (aggregator (c_server c)). split; [done|]. split; [by rewrite with_aggregator_id|done]. }
  destruct client.
  - unfold kepler_round. generalize (discover_kepler_pod_ips eps) as ips. intros ips.
    assert (∀ n ag, rtc ctl_step c (with_aggregator ag c) → kepler_preserves (aggregator (c_server c)) ag →
      ∃ n' ag', foldl (λ acc ip, '(total, agg) ← acc;
          '(r, agg') ← scrape_and_ingest fetch (clk ip) (kepler_url ip) agg;
          Some (match r with Ok count => (total + count)%nat | Err _ => total end, agg')) (Some (n, ag)) ips = Some (n', ag') ∧
        rtc ctl_step c (with_aggregator ag' c) ∧ kepler_preserves (aggregator (c_server c)) ag') as Hrun.
    { induction ips as [|ip ips IH]; intros n ag Hs Hp; [by exists n, ag|]. cbn [foldl].
      destruct (scrape_runs fetch (clk ip) (kepler_url ip) ag) as [[r ag'] Hsc]. cbn [mbind option_bind]. rewrite Hsc.
      apply IH; [by eapply rtc_r, scrape_step|]. etrans; [done|]. by eapply scrape_and_ingest_preserves. }
    destruct (Hrun 0%nat (aggregator (c_server c))) as (n' & ag' & -> & ? & ?); [by rewrite with_aggregator_id|done|].
    by exists ag'.
  - unfold single_url_round.
    destruct (scrape_runs fetch (clk EmptyString) (default "http://kepler.kepler.svc:28282/metrics" url) (aggregator (c_server c))) as [[r ag] Hsc].
    exists ag. rewrite Hsc. split; [done|]. split; [|by eapply scrape_and_ingest_preserves].
    apply rtc_once. rewrite <- (with_aggregator_id c) at 1. by eapply scrape_step.
Qed.

Lemma turn_steps env t c : ∃ r c', turn env t c = Some (r, c') ∧ rtc ctl_step c c'.
Proof.
  destruct t as [clk rq|operators subs|fetch clk eps|listing]; cbn [turn].
  - pose proof (serve_steps clk rq c) as Hs. destruct (serve clk rq c) as [r c']. by exists (Some r), c'.
  - eexists _, _. split; [done|]. unfold classification_turn. case_match; [|done]. apply rtc_once. constructor.
  - destruct (kepler_turn_steps (env_kepler_enabled env) (has_k8s env) fetch clk (env_kepler_url env) eps c) as (ag & -> & Hs & _).
    by eexists _, _.
  - eexists _, _. split; [done|]. unfold node_watch_turn. case_match; [|done]. apply rtc_once. constructor.
Qed.

Lemma run_turns_steps env turns c : ∃ rs c', run_turns env turns c = Some (rs, c') ∧ length rs = length turns ∧ rtc ctl_step c c'.
Proof.
  revert c. induction turns as [|t turns IH]; intros c; [by exists [], c|]. cbn [run_turns].
  destruct (turn_steps env t c) as (r & c1 & -> & H1). destruct (IH c1) as (rs & c2 & Hr & Hl & H2).
  exists (r :: rs), c2. cbn. rewrite Hr. cbn. rewrite Hl. split; [done|]. split; [done|]. by etrans.
Qed.

Lemma run_turns_answers env turns c rs c' i clk rq : run_turns env turns c = Some (rs, c') →
  turns !! i = Some (HttpTurn clk rq) → ∃ resp, rs !! i = Some (Some resp).
Proof.
  revert c rs i. induction turns as [|t turns IH]; intros c rs i; [done|]. cbn [run_turns].
  destruct (turn env t c) as [[r c1]|] eqn:Ht; [|done]. cbn. destruct (run_turns env turns c1) as [[rs' c2]|] eqn:Hr; [|done].
  intros [= <- <-] Hi. destruct i as [|i]; [|exact (IH c1 rs' i Hr Hi)]. injection Hi as ->. cbn in Ht.
  destruct (serve clk rq c) as [resp c3]. injection Ht as <- <-. by exists resp.
Qed.


(** ** Who can write *)

(** The tables hold nothing but Kepler's entries. *)
Definition only_kepler (ag : ClusterAggregator) : Prop :=
  (∀ n m st, nodes ag !! (n, m) = Some st → m = "kepler") ∧ (∀ u m st, pods ag !! (u, m) = Some st → m = "kepler").
Lemma kepler_keeps_only ag ag' : kepler_preserves ag ag' → only_kepler ag → only_kepler ag'.
Proof.
  intros (_ & Hn & Hp) [H1 H2]. split; intros k m st H; destruct (decide (m = "kepler")) as [->|Hne]; try done; eauto.
Qed.
Lemma evict_keeps_only listing ag : only_kepler ag → only_kepler (watch_nodes_round listing ag).
Proof.
  intros [H1 H2]. destruct listing as [items|]; [|done]. split; intros k m st [H _]%map_lookup_filter_Some; eauto.
Qed.
(** A request without the key's token changes no table and is not accepted. *)
Lemma serve_unauthorised clk rq c key : api_key (c_server c) = Some key →
  rq_authorization rq ≠ Some (String.append "Bearer " key) →
  c_server (serve clk rq c).2 = c_server c ∧ (serve clk rq c).1 ≠ ReportAnswer Accepted.
Proof.
  intros Hkey Hauth.
  assert (∀ now ne sn report, handle_report now ne sn (rq_authorization rq) report (c_server c) = (Unauthorized, c_server c)) as Hh.
  { intros. unfold handle_report. destruct (check_auth _ _) as [[]|] eqn:Hc; [|done]. by apply check_auth_spec with (key:=key) in Hc. }
  split.
  - destruct (serve_cases clk rq c) as [->|[(_ & _ & _ & body & report & _ & _ & ->)| ->]]; try done. cbn. by rewrite Hh.
  - unfold serve. destruct (route rq) as [[]|]; try done; try (by unfold of_view; case_match).
    unfold serve_report. case_match; [done|]. destruct (rq_body rq) as [body|]; [|done]. unfold post_report.
    destruct (AgentReport_de body) as [report|]; [|done]. by rewrite Hh.
Qed.

(** What one turn without the token leaves: the key, tables of Kepler's alone,
    and nothing at all while its scraper is off. *)
Record unwritten (env : MainEnv) (key : string) (c : Controller) : Prop := {
  uw_key : api_key (c_server c) = Some key;
  uw_only : only_kepler (aggregator (c_server c));
  uw_off : env_kepler_enabled env ≠ Some "true" → aggregator (c_server c) = ClusterAggregator_new
}.
Definition carries_token (key : string) (t : Turn) : Prop :=
  match t with HttpTurn _ rq => rq_authorization rq = Some (String.append "Bearer " key) | _ => False end.
Lemma turn_unwritten env key t c r c' : ¬ carries_token key t → unwritten env key c → turn env t c = Some (r, c') →
  unwritten env key c' ∧ r ≠ Some (ReportAnswer Accepted).
Proof.
  intros Ht [Hk Ho Hf]. destruct t as [clk rq|operators subs|fetch clk eps|listing]; cbn [turn].
  - destruct (serve_unauthorised clk rq c key Hk Ht) as [Hs Hr]. destruct (serve clk rq c) as [resp c1]. cbn in Hs, Hr.
    intros [= <- <-]. split; [split; by rewrite Hs|congruence].
  - intros [= <- <-]. split; [|done]. unfold classification_turn. by destruct (has_k8s env).
  - destruct (kepler_turn_steps (env_kepler_enabled env) (has_k8s env) fetch clk (env_kepler_url env) eps c) as (ag & Hrun & _ & Hp).
    rewrite Hrun. cbn. intros [= <- <-]. split; [|done]. split; cbn; [done|by eapply kepler_keeps_only|]. intros Hoff.
    revert Hrun. unfold run_kepler_turn. destruct (String.eqb_spec (default EmptyString (env_kepler_enabled env)) "true") as [He|_].
    { destruct (env_kepler_enabled env) as [e|]; [|done]. cbn in He. by subst. }
    cbn. intros [= <-]. by apply Hf.
  - intros [= <- <-]. split; [|done]. unfold node_watch_turn. destruct (has_k8s env); [|done]. split; cbn; [done|by apply evict_keeps_only|].
    intros Hoff. rewrite (Hf Hoff). destruct listing; [|done]. cbn. unfold evict_removed_nodes. cbn. by rewrite !map_filter_empty.
Qed.

(** C15: without the API key nothing can be written.  When [main] runs with a key
    configured and no request carries its bearer token, then after any
    interleaving of requests and watcher turns the tables hold nothing but what
    Kepler's own endpoints reported (nothing at all while that scraper is not
    enabled), and no report has been answered as accepted. *)
Theorem no_write_without_key origin_ok env key turns rs c :
  env_api_key env = Some key → controller_main origin_ok env turns = Some (rs, c) →
  (∀ clk rq, HttpTurn clk rq ∈ turns → rq_authorization rq ≠ Some (String.append "Bearer " key)) →
  only_kepler (aggregator (c_server c)) ∧
  (env_kepler_enabled env ≠ Some "true" → aggregator (c_server c) = ClusterAggregator_new) ∧
  Some (ReportAnswer Accepted) ∉ rs.
Proof.
  intros Hkey Hmain Hreq. assert (∀ t, t ∈ turns → ¬ carries_token key t) as Htok.
  { intros t Hin. destruct t as [clk rq| | | ]; cbn; try tauto. by apply Hreq with clk. }
  clear Hreq. assert (unwritten env key (Controller_new (env_api_key env))) as H0 by (by split).
  assert (run_turns env turns (Controller_new (env_api_key env)) = Some (rs, c)) as Hrun.
  { revert Hmain. unfold controller_main, start_rest_server. by destruct (negb _), (port_free env). }
  clear Hmain Hkey. revert rs H0 Hrun. generalize (Controller_new (env_api_key env)) as c0.
  induction turns as [|t turns IH]; intros c0 rs H0; cbn [run_turns].
  { intros [= <- <-]. destruct H0. split; [done|]. split; [done|]. apply not_elem_of_nil. }
  destruct (turn env t c0) as [[r c1]|] eqn:Ht; [|done]. cbn. destruct (run_turns env turns c1) as [[rs' c2]|] eqn:Hr; [|done].
  intros [= <- <-]. destruct (turn_unwritten env key t c0 r c1) as [H1 Hne]; [apply Htok; left|done|done|].
  destruct (IH (λ t' Hin, Htok t' (list_elem_of_further _ _ _ Hin)) c1 rs' H1 Hr) as (? & ? & ?). split; [done|]. split; [done|].
  rewrite elem_of_cons. by intros [?|?].
Qed.
End server.

#[local] Existing Instance hash_iter_list.

(** ** Witnesses and examples *)

Definition demo_main : MainEnv :=
  {| env_api_key := Some "k"; env_cors_origin := None; env_kepler_enabled := None; env_kepler_url := None; has_k8s := true;
     port_free := true |}.
Definition demo_request (auth : option string) : Request :=
  {| rq_method := POST; rq_path := "/api/v1/report"; rq_params := ∅; rq_authorization := auth; rq_content_length := 900;
     rq_body := Some (AgentReport_ser demo_report) |}.
Definition demo_request_clock : RequestClock := {| rc_now := 100 * sec; rc_evict := 100 * sec; rc_system := 100 * sec |}.
Definition demo_run (auth : option string) : list Turn :=
  [HttpTurn demo_request_clock (demo_request auth); ClassificationTurn [] [];
   NodeWatchTurn (Some [Some "n1"]);
   HttpTurn demo_request_clock {| rq_method := GET; rq_path := "/api/v1/nodes"; rq_params := ∅; rq_authorization := None;
                                  rq_content_length := 0; rq_body := None |}].
Lemma no_write_without_key_witness : ∃ rs c,
  controller_main (λ _, true) demo_main (demo_run (Some "Bearer x")) = Some (rs, c) ∧ aggregator (c_server c) = ClusterAggregator_new.
Proof.
  eexists _, _. split; [reflexivity|].
  refine (proj1 (proj2 (no_write_without_key (λ _, true) demo_main "k" (demo_run (Some "Bearer x")) _ _ _ _ _)) _);
    [reflexivity|reflexivity| |discriminate].
  intros clk rq Hin. unfold demo_run in Hin. rewrite !elem_of_cons in Hin.
  destruct Hin as [[= _ ->]|[Hin|[Hin|[[= _ ->]|Hin]]]]; [discriminate|discriminate Hin|discriminate Hin|discriminate|].
  by apply elem_of_nil in Hin.
Defined.
(** With the token the same run writes. *)
Example authorised_run_writes :
  match controller_main (λ _, true) demo_main (demo_run (Some "Bearer k")) with
  | Some (Some (ReportAnswer Accepted) :: _, c) => bool_decide (is_Some (nodes (aggregator (c_server c)) !! ("n1", "keck")))
  | _ => false
  end = true.
Proof. vm_compute. reflexivity. Qed.
