(* ===== verification/Pipeline.v ===== *)
(** * Pipeline: from the meters of a node to a page of the controller

    The agent's iteration ([Agent.agent_tick]), the request it posts its report
    with (keck-agent/src/main.rs), and the running controller ([Server]).  The
    theorem composes the two programs: what the agent measured is what a reader
    of the controller's pages is shown. *)

From S2P Require Import Prelude F64 Json Common Classify Text Workload Procfs Bpf Tuner Collector Aggregator Agent AgentProps Api EndToEnd Sources Kepler Views Controller Wire Server.
From stdpp Require Import relations.

Open Scope Z_scope.

(** The agent's request: the report as JSON, with its key as bearer token when it
    has one; [size] is the length of the text, and the body the value the
    controller's parser makes of it. *)
Definition report_request (reparse : f64 → f64) (key : option string) (size : Z) (r : AgentReport) `{HI : HashIter} : Request :=
  {| rq_method := POST; rq_path := "/api/v1/report"; rq_params := ∅; rq_authorization := String.append "Bearer " <$> key;
     rq_content_length := size; rq_body := Some (reread reparse (AgentReport_ser r)) |}.

(** Requests of a reader. *)
Definition get_request (path key value : string) : Request :=
  {| rq_method := GET; rq_path := path; rq_params := {[ key := value ]}; rq_authorization := None; rq_content_length := 0;
     rq_body := None |}.
Definition node_request (name : string) : Request := get_request "/api/v1/pods-by-node" "name" name.
Definition namespace_request (ns : string) : Request := get_request "/api/v1/pods-by-namespace" "ns" ns.

Section pipeline.
Context `{HI : HashIter}.

(** ** What no step of the controller changes *)

Definition settings (c : Controller) : option string * Z := (api_key (c_server c), staleness_threshold (aggregator (c_server c))).
Lemma ingest_threshold now ne sn report ag : staleness_threshold (ingest now ne sn report ag) = staleness_threshold ag.
Proof. by destruct (ingest_fields now ne sn report ag) as (_ & _ & _ & -> & _). Qed.
Lemma ingest_scrape_threshold clk st ag : staleness_threshold (ingest_scrape clk st ag) = staleness_threshold ag.
Proof.
  unfold ingest_scrape. generalize (hm_iter (pods_by_node clk st)) as l. intros l. revert ag.
  induction l as [|np l IH]; intros ag; [done|]. cbn. by rewrite IH, ingest_node_threshold.
Qed.
Lemma ctl_step_settings c c' : ctl_step c c' → settings c' = settings c.
Proof.
  intros Hs. destruct Hs as [now ne sn auth report c|listing c|fetch clk url r ag c Hk|cls c|now c]; unfold settings; try done.
  - cbn. unfold handle_report. destruct (check_auth _ _); [|done]. destruct (validate_report report); [|done].
    cbn. by rewrite ingest_threshold.
  - by destruct listing.
  - revert Hk. unfold scrape_and_ingest. destruct (fetch url) as [body|]; [|by intros [= _ <-]].
    destruct (scrape_body body) as [st|]; [|done]. intros [= _ <-]. cbn. by rewrite ingest_scrape_threshold.
Qed.
Lemma reachable_settings key c : reachable key c → settings c = (key, 60 * sec).
Proof.
  intros Hr. assert (settings (Controller_new key) = (key, 60 * sec)) as <- by done. unfold reachable in Hr.
  induction Hr as [|c1 c2 c3 Hs _ IH]; [done|]. by rewrite IH, (ctl_step_settings _ _ Hs).
Qed.

(** ** Turns *)

Lemma run_turns_app env ts1 ts2 c rs1 c1 rs2 c2 :
  run_turns env ts1 c = Some (rs1, c1) → run_turns env ts2 c1 = Some (rs2, c2) →
  run_turns env (ts1 ++ ts2) c = Some (rs1 ++ rs2, c2).
Proof.
  revert c rs1. induction ts1 as [|t ts1 IH]; intros c rs1; [by intros [= <- <-]|]. cbn [run_turns app].
  destruct (turn env t c) as [[r c3]|]; [|done]. cbn. destruct (run_turns env ts1 c3) as [[rs c4]|] eqn:Hr; [|done].
  intros [= <- <-] H2. by rewrite (IH c3 rs Hr H2).
Qed.

(** Turns that only read the tables: pages, probes, metrics and classification. *)
Definition read_only (t : Turn) : Prop :=
  match t with HttpTurn _ rq => rq_method rq = GET | ClassificationTurn _ _ => True | _ => False end.
Lemma reads_keep env turns c : Forall read_only turns →
  ∃ rs c', run_turns env turns c = Some (rs, c') ∧ length rs = length turns ∧ rtc ctl_step c c' ∧
    aggregator (c_server c') = aggregator (c_server c).
Proof.
  intros Hro. destruct (run_turns_steps env turns c) as (rs & c' & Hrun & Hlen & Hs). exists rs, c'. do 3 (split; [done|]).
  clear Hs Hlen. revert c rs Hrun. induction Hro as [|t turns Ht _ IH]; intros c rs; cbn [run_turns]; [by intros [= _ <-]|].
  destruct (turn env t c) as [[r c1]|] eqn:Htu; [|done]. cbn. destruct (run_turns env turns c1) as [[rs' c2]|] eqn:Hr; [|done].
  intros [= _ <-]. rewrite (IH c1 rs' Hr). destruct t as [clk rq|operators subs| |]; try done; cbn in Htu.
  - destruct (serve_cases clk rq c) as [Heq|[(Hm & _)|Heq]]; [..|]; try (cbn in Ht; congruence);
      destruct (serve clk rq c) as [resp c3]; injection Htu as _ <-; cbn in Heq; by subst.
  - injection Htu as _ <-. unfold classification_turn. by destruct (has_k8s env).
Qed.

(** A valid report under a fitting key is accepted and ingested. *)
Lemma serve_accepts reparse clk c key size r r' :
  AgentReport_de (reread reparse (AgentReport_ser r)) = Some r' → size <= BODY_LIMIT → validate_report r' = Ok tt →
  (∀ k, api_key (c_server c) = Some k → key = Some k) →
  ∃ c', serve clk (report_request reparse key size r) c = (ReportAnswer Accepted, c') ∧ ctl_step c c' ∧
    aggregator (c_server c') = ingest (rc_now clk) (rc_evict clk) (rc_system clk) r' (aggregator (c_server c)).
Proof.
  intros Hde Hsz Hval Hkey.
  assert (serve clk (report_request reparse key size r) c = serve_report clk (report_request reparse key size r) c) as -> by done.
  unfold serve_report. cbn [rq_content_length rq_body report_request]. rewrite (proj2 (Z.ltb_ge _ _) Hsz).
  unfold post_report. rewrite Hde. cbn [rq_authorization report_request].
  pose proof (StepReport (rc_now clk) (rc_evict clk) (rc_system clk) (String.append "Bearer " <$> key) r' c) as Hstep.
  unfold handle_report in *.
  assert (check_auth (String.append "Bearer " <$> key) (api_key (c_server c)) = Ok tt) as Hauth.
  { apply check_auth_spec. intros k Hk. by rewrite (Hkey k Hk). }
  rewrite Hauth, Hval in *. eexists. split; [reflexivity|]. split; [exact Hstep|done].
Qed.

Lemma start_listening origin_ok env c : start_rest_server origin_ok env = Listening c → c = Controller_new (env_api_key env).
Proof. unfold start_rest_server. destruct (negb _), (port_free env); by intros [=]. Qed.

(** ** The pages *)

Lemma node_page clk c name st : agg_ok (aggregator (c_server c)) →
  nodes (aggregator (c_server c)) !! (name, "keck") = Some st →
  ∃ v, (serve clk (node_request name) c).1 = JsonBody v ∧ let r := ns_report st in
    shows v [("cpu_watts", nr_cpu_uw r); ("memory_watts", nr_memory_uw r); ("gpu_watts", nr_gpu_uw r); ("idle_watts", nr_idle_uw r)] ∧
    get "node_name" v = Some (Str name) ∧ get "platform_watts" v = Some (json_opt json_watts (nr_platform_uw r)).
Proof.
  intros Hok Hn. assert ((serve clk (node_request name) c).1 =
    of_view (handle_node (rc_now clk) {[ "name" := name ]} (aggregator (c_server c)))) as -> by done.
  unfold handle_node, node_summary. assert (param_or_empty {[ "name" := name ]} "name" = name) as ->.
  { unfold param_or_empty. by rewrite lookup_singleton_eq. }
  destruct (list_find_p _ _) as [n|] eqn:E.
  - apply list_find_p_Some in E as [(st' & -> & Hin)%list_elem_of_fmap Heq%String.eqb_eq].
    pose proof (proj1 (keck_nodes _ name st' Hok) (conj Hin Heq)) as Hn'. rewrite Hn in Hn'. injection Hn' as <-.
    eexists. split; [reflexivity|]. cbn zeta. rewrite <- Heq. apply node_json_shows.
  - apply keck_nodes in Hn as [Hin <-]; [|done].
    apply (proj1 (list_find_p_None _ _)) with (x := node_summary_of (rc_now clk) st) in E; [|apply list_elem_of_fmap; eauto].
    cbn in E. by rewrite String.eqb_refl in E.
Qed.
Lemma namespace_page clk c p rcv : pr_metering_method p = EmptyString →
  pods (aggregator (c_server c)) !! (pr_pod_uid p, "keck") = Some {| ps_report := with_method "keck" p; ps_received_at := rcv |} →
  ∃ l, (serve clk (namespace_request (pr_namespace p)) c).1 = JsonBody (Array l) ∧ pod_json p ∈ l.
Proof.
  intros Hm Hp. assert (pr_namespace (with_method "keck" p) = pr_namespace p ∧ pod_json (with_method "keck" p) = pod_json p ∧
    pr_metering_method (with_method "keck" p) = "keck") as (Hns & Hjs & Hmt) by (unfold with_method; by rewrite Hm).
  eexists. split; [reflexivity|]. apply list_elem_of_fmap. exists (with_method "keck" p). split; [done|].
  unfold pods_in_namespace. apply list_elem_of_filter. unfold param_or_empty, param_method. cbn [rq_params namespace_request get_request].
  rewrite lookup_singleton_eq. split; [done|]. unfold all_pods_filtered. apply list_elem_of_fmap.
  exists {| ps_report := with_method "keck" p; ps_received_at := rcv |}. split; [done|]. apply list_elem_of_filter.
  rewrite lookup_singleton_ne by done. cbn. rewrite Hmt. split; [done|]. apply hm_values_elem. eauto.
Qed.

(** C5: what the agent measures is what the controller's readers see.  Let the
    controller be up and have gone through any turns, and let an agent with a
    fitting key post the report of any iteration that is within the limits and
    the size of a body.  Then the report is accepted, and after any number of
    turns that only read, the node's page shows exactly the powers selected in
    that iteration, and the page of each pod's namespace lists the pod with the
    powers attributed to it. *)
Theorem measured_power_served reparse origin_ok env c0 cfg ds e s key size clk before reads clk' :
  reads_finite reparse → start_rest_server origin_ok env = Listening c0 → drivers_answer ds (te_answers e) → clock_typed e →
  let r := (agent_tick cfg e s).1 in
  validate_report r = Ok tt → size <= BODY_LIMIT → (∀ k, env_api_key env = Some k → key = Some k) →
  rc_now clk <= rc_evict clk < rc_now clk + 60 * sec → Forall read_only reads →
  ∃ rs c, controller_main origin_ok env (before ++ HttpTurn clk (report_request reparse key size r) :: reads) = Some (rs, c) ∧
    rs !! length before = Some (Some (ReportAnswer Accepted)) ∧
    (∃ v, (serve clk' (node_request (ac_node_name cfg)) c).1 = JsonBody v ∧ let n := ar_node r in
       shows v [("cpu_watts", nr_cpu_uw n); ("memory_watts", nr_memory_uw n); ("gpu_watts", nr_gpu_uw n); ("idle_watts", nr_idle_uw n)] ∧
       get "node_name" v = Some (Str (ac_node_name cfg)) ∧ get "platform_watts" v = Some (json_opt json_watts (nr_platform_uw n))) ∧
    (∀ p, p ∈ ar_pods r → ∃ l, (serve clk' (namespace_request (pr_namespace p)) c).1 = JsonBody (Array l) ∧ pod_json p ∈ l).
Proof.
  intros Hfin Hst Hd%drivers_answer_typed Ht r Hval Hsz Hkey Hclk Hro. unfold controller_main. rewrite Hst.
  assert (c0 = Controller_new (env_api_key env)) as -> by (by apply start_listening in Hst).
  pose proof (agent_tick_typed cfg e s Ht Hd) as Htyped. fold r in Htyped.
  destruct (run_turns_steps env before (Controller_new (env_api_key env))) as (rs1 & c1 & Hrun1 & Hlen1 & Hs1).
  pose proof (reachable_settings _ _ Hs1) as [= Hk1 Ht1].
  destruct (serve_accepts reparse clk c1 key size r (received reparse r)) as (c2 & Hserve & Hstep & Hag);
    [by apply AgentReport_received|done|done|by rewrite Hk1|].
  destruct (reads_keep env reads c2 Hro) as (rs3 & c3 & Hrun3 & _ & Hs3 & Hag3).
  assert (reachable (env_api_key env) c3) as [Hok _]%reachable_ok.
  { unfold reachable. etrans; [exact Hs1|]. eapply rtc_l; [exact Hstep|exact Hs3]. }
  exists (rs1 ++ Some (ReportAnswer Accepted) :: rs3), c3. split.
  { eapply run_turns_app; [exact Hrun1|]. cbn [run_turns turn]. rewrite Hserve. cbn. by rewrite Hrun3. }
  split; [by rewrite lookup_app_r, Hlen1, Nat.sub_diag by lia|].
  destruct (agent_tick_report cfg e s) as (sel & ps & cache & Hr & _ & Hnd & _). fold r in Hr.
  assert (report_method (ar_node r) = "keck" ∧ nr_node_name (ar_node r) = ac_node_name cfg) as [Hm Hname] by (by rewrite Hr).
  split.
  - apply (node_page clk' c3 _ {| ns_report := ar_node (received reparse r); ns_received_at := rc_now clk |}); [done|].
    rewrite Hag3, Hag, ingest_nodes_lookup by (by rewrite Ht1). change (report_method (ar_node (received reparse r))) with (report_method (ar_node r)).
    change (nr_node_name (ar_node (received reparse r))) with (nr_node_name (ar_node r)). by rewrite Hm, Hname, decide_True.
  - intros p Hp. assert (pods (aggregator (c_server c3)) !! (pr_pod_uid p, "keck") =
      Some {| ps_report := with_method "keck" p; ps_received_at := rc_now clk |}) as Hent.
    { rewrite Hag3, Hag, ingest_pods_lookup by (by rewrite Ht1).
      change (report_method (ar_node (received reparse r))) with (report_method (ar_node r)).
      change (ar_pods (received reparse r)) with (ar_pods r). rewrite Hm, decide_True by done.
      rewrite last_report_NoDup; [done| |done]. by rewrite Hr. }
    eapply namespace_page; [|exact Hent]. destruct Htyped as [_ Hps]. rewrite Forall_forall in Hps. by apply (Hps p Hp).
Qed.
End pipeline.

(** ** Witness *)

#[local] Existing Instance hash_iter_list.

Definition pipeline_report : AgentReport := (agent_tick demo_config wire_env wire_state).1.
Definition pipeline_clock : RequestClock := {| rc_now := 100 * sec; rc_evict := 100 * sec; rc_system := 100 * sec |}.
Lemma measured_power_served_witness : ∃ rs c,
  controller_main (λ _, true) demo_main [HttpTurn pipeline_clock (report_request id (Some "k") 900 pipeline_report)] = Some (rs, c) ∧
  ∃ v, (serve pipeline_clock (node_request "n1") c).1 = JsonBody v ∧ get "cpu_watts" v = Some (json_watts 30000).
Proof.
  destruct (measured_power_served id (λ _, true) demo_main (Controller_new (Some "k")) demo_config [wire_source] wire_env wire_state
    (Some "k") 900 pipeline_clock [] [] pipeline_clock) as (rs & c & Hrun & _ & (v & Hv & Hshow & _) & _).
  - intros x Hx. exact Hx.
  - reflexivity.
  - constructor; [|constructor]. split; [reflexivity|]. exists machine_after, 5. reflexivity.
  - exact wire_clock.
  - vm_compute. reflexivity.
  - vm_compute. discriminate.
  - intros k Hk. exact Hk.
  - vm_compute. split; [discriminate|reflexivity].
  - constructor.
  - exists rs, c. split; [exact Hrun|]. exists v. split; [exact Hv|]. rewrite (Hshow "cpu_watts" _ (list_elem_of_here _ _)).
    vm_compute. reflexivity.
Defined.
