(* ===== verification/Perf.v ===== *)
(** * Perf: hardware counters and their file descriptors

    The descriptor handling of keck-agent/src/ebpf/mod.rs ([EbpfObserver::load],
    [attach_perf_to_bpf_maps], [Drop]) and of keck-agent/src/perf_counters.rs
    ([HwCounterReader::new], [Drop]), with the parser of the kernel's list of
    online CPUs both share.  The process's open descriptors are a set threaded
    through a state and error monad; what the kernel grants is a parameter. *)

From S2P Require Import Prelude F64 Json Text Host.
From Stdlib Require Import Ascii.

Open Scope Z_scope.

Definition FdTable := gset Z.

Inductive PerfError :=
| ReadFailed (path : string)
| BadCpuRange
| BadCpuFormat
| OpenFailed (cpu config : Z)
| MapNotFound (name : string)
| NoMapFd (name : string)
| UpdateFailed (name : string) (cpu : Z)
| ObjectFailed
| ProgramFailed (name : string).

(** ** The monad *)
Definition M (A : Type) : Type := FdTable → result A PerfError * FdTable.
Definition ret {A} (a : A) : M A := λ t, (Ok a, t).
Definition fail {A} (e : PerfError) : M A := λ t, (Err e, t).
Definition bind {A B} (m : M A) (f : A → M B) : M B :=
  λ t, match m t with (Ok a, t') => f a t' | (Err e, t') => (Err e, t') end.
(** [m.map_err(|e| { cleanup; e })?] *)
Definition on_err {A} (m : M A) (cleanup : M unit) : M A :=
  λ t, match m t with (Ok a, t') => (Ok a, t') | (Err e, t') => (Err e, (cleanup t').2) end.
Notation "x <- m ;; k" := (bind m (λ x, k)) (at level 100, m at next level, right associativity).
Notation "m ;;; k" := (bind m (λ _ : unit, k)) (at level 100, right associativity).

Definition close (fd : Z) : M unit := λ t, (Ok tt, t ∖ {[ fd ]}).
Fixpoint close_all (fds : list Z) : M unit :=
  match fds with [] => ret tt | fd :: fds' => close fd ;;; close_all fds' end.

(** What the kernel and the loaded object grant. *)
Record Kernel := {
  k_alloc : FdTable → Z;
  (** [perf_event_open] on a CPU for a counter *)
  k_perf : Z → Z → bool;
  (** the object has the map; pinning it and reopening the pin gives a
      descriptor; an element of it can be set *)
  k_has_map : string → bool;
  k_map_fd : string → bool;
  k_update : string → Z → bool;
  (** the object loads *)
  k_object : bool;
  (** the program is there, casts, loads and attaches *)
  k_program : string → bool
}.
(** A descriptor the kernel hands out is not one that is open. *)
Definition alloc_fresh (k : Kernel) : Prop := ∀ t, k_alloc k t ∉ t.

Definition PERF_COUNT_HW_INSTRUCTIONS : Z := 0.
Definition PERF_COUNT_HW_CPU_CYCLES : Z := 1.
Definition PERF_COUNT_HW_CACHE_MISSES : Z := 3.

(** ** Online CPUs *)

Definition usize_max : Z := u64_max.
Definition cpu_range (count : Z) (range : string) : result Z PerfError :=
  match str_split "-"%char range with
  | [_] => Ok (u64_add count 1)
  | [a; b] =>
      match parse_uint usize_max a, parse_uint usize_max b with
      | Some s, Some e => Ok (u64_add count (u64_add (u64_sub e s) 1))
      | _, _ => Err BadCpuRange
      end
  | _ => Err BadCpuFormat
  end.
Fixpoint cpu_ranges (count : Z) (ranges : list string) : result Z PerfError :=
  match ranges with
  | [] => Ok count
  | r :: rs => match cpu_range count r with Ok c => cpu_ranges c rs | Err e => Err e end
  end.
Definition num_online_cpus (h : Host) : result Z PerfError :=
  let path := if h_exists h "/host/sys/devices/system/cpu/online" then "/host/sys/devices/system/cpu/online"
              else "/sys/devices/system/cpu/online" in
  match h_read h path with
  | Err _ => Err (ReadFailed path)
  | Ok cpus => cpu_ranges 0 (str_split ","%char (trim cpus))
  end.
(** [cpu as i32] *)
Definition i32_wrap (x : Z) : Z := (x + 2 ^ 31) mod u32_mod - 2 ^ 31.
(** [0..num_cpus] *)
Definition cpu_numbers (n : Z) : list Z := Z.of_nat <$> seq 0 (Z.to_nat n).

(** ** Opening *)
Section perf.
Variable k : Kernel.

Definition open_fd : M Z := λ t, let fd := k_alloc k t in (Ok fd, {[ fd ]} ∪ t).
Definition perf_event_open (cpu config : Z) : M Z := if k_perf k cpu config then open_fd else fail (OpenFailed cpu config).
(** Pinning the map, reopening the pin and removing it: a new descriptor. *)
Definition get_map_fd (name : string) : M Z := if k_map_fd k name then open_fd else fail (NoMapFd name).
Definition map_fd_of (name : string) : M Z :=
  if negb (k_has_map k name) then fail (MapNotFound name) else get_map_fd name.
Definition bpf_map_update_raw (name : string) (cpu : Z) : M unit :=
  if k_update k name cpu then ret tt else fail (UpdateFailed name cpu).

(** The loop over the CPUs for one counter. *)
Fixpoint attach_cpus (name : string) (config : Z) (cpus fds : list Z) : M (list Z) :=
  match cpus with
  | [] => ret fds
  | cpu :: cpus' =>
      perf_fd <- on_err (perf_event_open (i32_wrap cpu) config) (close_all fds) ;;
      on_err (bpf_map_update_raw name (u32_wrap cpu)) (close perf_fd ;;; close_all fds) ;;;
      attach_cpus name config cpus' (fds ++ [perf_fd])
  end.
Fixpoint attach_maps (cpus : list Z) (maps : list (string * Z)) (fds : list Z) : M (list Z) :=
  match maps with
  | [] => ret fds
  | (name, config) :: maps' =>
      map_fd <- map_fd_of name ;;
      fds' <- attach_cpus name config cpus fds ;;
      close map_fd ;;;
      attach_maps cpus maps' fds'
  end.
Definition perf_maps : list (string * Z) :=
  [("PERF_INSTRUCTIONS", PERF_COUNT_HW_INSTRUCTIONS); ("PERF_CYCLES", PERF_COUNT_HW_CPU_CYCLES);
   ("PERF_CACHE_MISSES", PERF_COUNT_HW_CACHE_MISSES)].
(** Setting the flag: every failure is ignored. *)
Definition enable_pmc : M unit := λ t,
  match map_fd_of "PMC_ENABLED" t with
  | (Ok map_fd, t') => close map_fd t'
  | (Err _, t') => (Ok tt, t')
  end.
Definition attach_perf_to_bpf_maps (h : Host) : M (list Z) :=
  match num_online_cpus h with
  | Err e => fail e
  | Ok num_cpus =>
      fds <- attach_maps (cpu_numbers num_cpus) perf_maps [] ;;
      enable_pmc ;;;
      ret fds
  end.

Record EbpfObserver := { pid_pmc_active : bool; perf_fds : list Z }.
Definition require_program (name : string) : M unit := if k_program k name then ret tt else fail (ProgramFailed name).
(** The object must load and the two tracepoints attach; the kprobes (a failure
    of theirs is logged and nothing else) and the counters are optional. *)
Definition EbpfObserver_load (h : Host) : M EbpfObserver :=
  (if k_object k then ret tt else fail ObjectFailed) ;;;
  require_program "sched_switch" ;;;
  require_program "cpu_frequency" ;;;
  λ t, match attach_perf_to_bpf_maps h t with
       | (Ok fds, t') => (Ok {| pid_pmc_active := true; perf_fds := fds |}, t')
       | (Err _, t') => (Ok {| pid_pmc_active := false; perf_fds := [] |}, t')
       end.
Definition EbpfObserver_drop (o : EbpfObserver) : M unit := close_all (perf_fds o).

(** ** The standalone reader *)
Record CoreFds := { cf_core_id : Z; instructions_fd : Z; cycles_fd : Z; cache_misses_fd : Z }.
Definition core_fds (c : CoreFds) : list Z := [instructions_fd c; cycles_fd c; cache_misses_fd c].
Definition close_core_fds (c : CoreFds) : M unit := close_all (core_fds c).
Fixpoint close_cores (cs : list CoreFds) : M unit :=
  match cs with [] => ret tt | c :: cs' => close_core_fds c ;;; close_cores cs' end.
Fixpoint open_cores (cpus : list Z) (cores : list CoreFds) : M (list CoreFds) :=
  match cpus with
  | [] => ret cores
  | cpu :: cpus' =>
      i <- on_err (perf_event_open (i32_wrap cpu) PERF_COUNT_HW_INSTRUCTIONS) (close_cores cores) ;;
      c <- on_err (perf_event_open (i32_wrap cpu) PERF_COUNT_HW_CPU_CYCLES) (close i ;;; close_cores cores) ;;
      m <- on_err (perf_event_open (i32_wrap cpu) PERF_COUNT_HW_CACHE_MISSES) (close i ;;; close c ;;; close_cores cores) ;;
      open_cores cpus' (cores ++ [{| cf_core_id := u32_wrap cpu; instructions_fd := i; cycles_fd := c; cache_misses_fd := m |}])
  end.
Definition HwCounterReader_open (h : Host) : M (list CoreFds) :=
  match num_online_cpus h with
  | Err e => fail e
  | Ok num_cores => open_cores (cpu_numbers num_cores) []
  end.
Definition HwCounterReader_drop (cores : list CoreFds) : M unit := close_cores cores.
End perf.

(** ** Descriptors are balanced *)

Definition fd_set (fds : list Z) : FdTable := list_to_set fds.
(** The table is [t] and, beside it, exactly [fds]. *)
Record owns (t : FdTable) (fds : list Z) (s : FdTable) : Prop := {
  owns_table : s = fd_set fds ∪ t;
  owns_apart : fd_set fds ## t;
  owns_nodup : NoDup fds
}.
Lemma close_all_spec fds t : close_all fds t = (Ok tt, t ∖ fd_set fds).
Proof.
  revert t. induction fds as [|fd fds IH]; intros t; cbn; unfold ret, bind, close; cbn.
  - f_equal. unfold fd_set. set_solver.
  - rewrite IH. f_equal. unfold fd_set. set_solver.
Qed.
Lemma owns_close t fds s : owns t fds s → s ∖ fd_set fds = t.
Proof. intros [-> Hd _]. set_solver. Qed.
Lemma owns_nil t : owns t [] t.
Proof. split; [unfold fd_set; set_solver..|constructor]. Qed.
Lemma owns_snoc t fds s fd : owns t fds s → fd ∉ s → owns t (fds ++ [fd]) ({[ fd ]} ∪ s).
Proof.
  intros [-> Hd Hnd] Hfd. unfold fd_set in *. split; [set_solver..|].
  apply NoDup_app. split; [done|]. split; [|apply NoDup_singleton]. set_solver.
Qed.
Lemma owns_remove t fds s m : owns ({[ m ]} ∪ t) fds s → m ∉ t → owns t fds (s ∖ {[ m ]}).
Proof. intros [-> Hd Hnd] Hm. split; [set_solver..|done]. Qed.
Lemma owns_mid t m : m ∉ t → owns t [m] ({[ m ]} ∪ t).
Proof. intros Hm. split; [unfold fd_set; set_solver..|apply NoDup_singleton]. Qed.
Lemma owns_trans t leak t1 fds s : owns t leak t1 → owns t1 fds s → owns t (fds ++ leak) s.
Proof.
  unfold fd_set. intros [-> Hd Hn] [-> Hd' Hn']. unfold fd_set in *. split.
  - unfold fd_set. rewrite list_to_set_app_L. set_solver.
  - unfold fd_set. rewrite list_to_set_app_L. set_solver.
  - apply NoDup_app. split; [done|]. split; [set_solver|done].
Qed.

Definition all_fds (cores : list CoreFds) : list Z := cores ≫= core_fds.
Lemma close_cores_spec cores t : close_cores cores t = (Ok tt, t ∖ fd_set (all_fds cores)).
Proof.
  revert t. induction cores as [|c cores IH]; intros t; cbn [close_cores]; unfold ret, bind.
  - f_equal. unfold fd_set. set_solver.
  - unfold close_core_fds. rewrite close_all_spec, IH. f_equal. unfold all_fds. cbn [mbind list_bind]. unfold fd_set.
    rewrite list_to_set_app_L. set_solver.
Qed.

Lemma length_cpu_numbers n : length (cpu_numbers n) = Z.to_nat n.
Proof. unfold cpu_numbers. by rewrite length_fmap, length_seq. Qed.

Section balance.
Variable k : Kernel.
Hypothesis Hfresh : alloc_fresh k.

Lemma perf_event_open_owns cpu config t fds s : owns t fds s →
  match perf_event_open k cpu config s with
  | (Ok fd, s') => owns t (fds ++ [fd]) s'
  | (Err _, s') => s' = s
  end.
Proof.
  intros Ho. unfold perf_event_open. destruct (k_perf k cpu config); [|done]. cbn. apply owns_snoc; [done|apply Hfresh].
Qed.
Lemma attach_cpus_owns name config cpus t fds s : owns t fds s →
  match attach_cpus k name config cpus fds s with
  | (Ok fds', s') => owns t fds' s' ∧ length fds' = (length fds + length cpus)%nat
  | (Err _, s') => s' = t
  end.
Proof.
  revert fds s. induction cpus as [|cpu cpus IH]; intros fds s Ho; [split; [done|cbn; lia]|]. cbn [attach_cpus].
  unfold bind at 1, on_err at 1. pose proof (perf_event_open_owns (i32_wrap cpu) config t fds s Ho) as Hp.
  destruct (perf_event_open k (i32_wrap cpu) config s) as [[fd|e] s'].
  - unfold bind at 1, on_err at 1, bpf_map_update_raw. destruct (k_update k name (u32_wrap cpu)); cbn.
    + specialize (IH _ _ Hp). destruct (attach_cpus k name config cpus (fds ++ [fd]) s') as [[fds'|e] s'']; [|done].
      rewrite length_app in IH. cbn in IH. split; [by destruct IH|]. destruct IH as [_ ->]. cbn. lia.
    + rewrite close_all_spec. cbn. apply owns_close in Hp. rewrite <-Hp. unfold fd_set.
      rewrite list_to_set_app_L. cbn. set_solver.
  - rewrite close_all_spec. cbn. subst s'. by apply owns_close.
Qed.
Lemma map_fd_of_owns name t : match map_fd_of k name t with
  | (Ok m, s) => s = {[ m ]} ∪ t ∧ m ∉ t
  | (Err _, s) => s = t
  end.
Proof.
  unfold map_fd_of, get_map_fd. destruct (negb _); [done|]. destruct (k_map_fd k name); [|done]. cbn. split; [done|apply Hfresh].
Qed.
Lemma owns_base m t fds s : owns t fds s → m ∉ s → owns ({[ m ]} ∪ t) fds ({[ m ]} ∪ s).
Proof. intros [-> Hd Hnd] Hm. split; [set_solver..|done]. Qed.
Lemma attach_maps_owns cpus maps t fds s : owns t fds s →
  match attach_maps k cpus maps fds s with
  | (Ok fds', s') => owns t fds' s' ∧ length fds' = (length fds + length maps * length cpus)%nat
  | (Err _, s') => True
  end.
Proof.
  revert fds s. induction maps as [|[name config] maps IH]; intros fds s Ho; [split; [done|cbn; lia]|]. cbn [attach_maps].
  unfold bind at 1. pose proof (map_fd_of_owns name s) as Hm. destruct (map_fd_of k name s) as [[m|e] s']; [|done].
  destruct Hm as [-> Hm]. unfold bind at 1.
  pose proof (attach_cpus_owns name config cpus _ fds _ (owns_base m t fds s Ho Hm)) as Hc.
  destruct (attach_cpus k name config cpus fds ({[m]} ∪ s)) as [[fds'|e] s']; [|done]. destruct Hc as [Hc Hlen]. cbn.
  assert (owns t fds' (s' ∖ {[ m ]})) as Ho'.
  { apply owns_remove; [done|]. destruct Ho as [-> _ _]. set_solver. }
  specialize (IH _ _ Ho'). destruct (attach_maps k cpus maps fds' (s' ∖ {[m]})) as [[fds''|e] s'']; [|done].
  destruct IH as [? ->]. split; [done|]. cbn. lia.
Qed.
Lemma enable_pmc_id t : enable_pmc k t = (Ok tt, t).
Proof.
  unfold enable_pmc. pose proof (map_fd_of_owns "PMC_ENABLED" t) as Hm.
  destruct (map_fd_of k "PMC_ENABLED" t) as [[m|e] s]; [|by subst]. destruct Hm as [-> Hm]. unfold close. f_equal. set_solver.
Qed.
(** The observer's descriptors.  If loading succeeds with per-task counters
    active, it has opened exactly three descriptors per online CPU, all distinct
    and none of them open before, the descriptors used for the maps are closed
    again, and dropping the observer gives back the table it started from; if
    loading fails, nothing was opened. *)
Theorem observer_fds_balanced h t :
  match EbpfObserver_load k h t with
  | (Ok o, t') =>
      if pid_pmc_active o then
        ∃ n, num_online_cpus h = Ok n ∧ length (perf_fds o) = (3 * Z.to_nat n)%nat ∧ owns t (perf_fds o) t' ∧
          EbpfObserver_drop o t' = (Ok tt, t)
      else EbpfObserver_drop o t' = (Ok tt, t')
  | (Err _, t') => t' = t ∧ (k_object k = false ∨ k_program k "sched_switch" = false ∨ k_program k "cpu_frequency" = false)
  end.
Proof.
  unfold EbpfObserver_load, require_program, bind, ret, fail, EbpfObserver_drop.
  destruct (k_object k); [|auto]. destruct (k_program k "sched_switch"); [|auto]. destruct (k_program k "cpu_frequency"); [|auto].
  unfold attach_perf_to_bpf_maps. destruct (num_online_cpus h) as [n|e]; cbn [fail pid_pmc_active perf_fds]; [|done].
  unfold bind. pose proof (attach_maps_owns (cpu_numbers n) perf_maps t [] t (owns_nil t)) as Ha.
  destruct (attach_maps k (cpu_numbers n) perf_maps [] t) as [[fds|e] s]; cbn [pid_pmc_active perf_fds]; [|done].
  rewrite enable_pmc_id. cbn [ret pid_pmc_active perf_fds]. destruct Ha as [Ho Hlen]. exists n. split; [done|].
  split; [rewrite Hlen, length_cpu_numbers; cbn; lia|]. split; [done|]. rewrite close_all_spec. f_equal. by apply owns_close.
Qed.

(** *** What a failed attachment leaves open

    How many descriptors, by what the kernel refuses first: the counters of all
    earlier maps when a map is missing or has no descriptor, the map's own
    descriptor when a counter does not open or cannot be put in the map. *)
Definition cpu_granted (name : string) (config cpu : Z) : bool :=
  k_perf k (i32_wrap cpu) config && k_update k name (u32_wrap cpu).
Fixpoint leak_count (cpus : list Z) (attached : nat) (maps : list (string * Z)) : nat :=
  match maps with
  | [] => 0
  | (name, config) :: maps' =>
      if negb (k_has_map k name && k_map_fd k name) then (attached * length cpus)%nat
      else if forallb (cpu_granted name config) cpus then leak_count cpus (S attached) maps'
      else 1%nat
  end.
Definition attach_leak (h : Host) : nat :=
  if k_object k && k_program k "sched_switch" && k_program k "cpu_frequency" then
    match num_online_cpus h with
    | Ok n => leak_count (cpu_numbers n) 0 perf_maps
    | Err _ => 0%nat
    end
  else 0%nat.

Lemma attach_cpus_granted name config cpus fds s :
  match (attach_cpus k name config cpus fds s).1 with
  | Ok _ => forallb (cpu_granted name config) cpus = true
  | Err _ => forallb (cpu_granted name config) cpus = false
  end.
Proof.
  revert fds s. induction cpus as [|cpu cpus IH]; intros fds s; [done|]. cbn [attach_cpus forallb]. unfold cpu_granted at 1 3.
  unfold bind at 1, on_err at 1, perf_event_open. destruct (k_perf k (i32_wrap cpu) config); [|done]. cbn.
  unfold bind at 1, on_err at 1, bpf_map_update_raw. destruct (k_update k name (u32_wrap cpu)); [apply IH|done].
Qed.
Lemma attach_maps_leak cpus maps t fds s j : owns t fds s → length fds = (j * length cpus)%nat →
  match attach_maps k cpus maps fds s with
  | (Ok _, _) => leak_count cpus j maps = 0%nat
  | (Err _, s') => ∃ leak, owns t leak s' ∧ length leak = leak_count cpus j maps
  end.
Proof.
  revert j fds s. induction maps as [|[name config] maps IH]; intros j fds s Ho Hj; [done|]. cbn [attach_maps leak_count].
  unfold bind at 1, map_fd_of, get_map_fd.
  destruct (k_has_map k name); cbn [negb andb fail]; [|by exists fds].
  destruct (k_map_fd k name) eqn:Hmf; cbn [negb fail]; [|by exists fds]. unfold open_fd, bind at 1.
  set (m := k_alloc k s). assert (m ∉ s) as Hm by apply Hfresh.
  pose proof (attach_cpus_owns name config cpus _ fds _ (owns_base m t fds s Ho Hm)) as Hc.
  pose proof (attach_cpus_granted name config cpus fds ({[m]} ∪ s)) as Hg.
  destruct (attach_cpus k name config cpus fds ({[m]} ∪ s)) as [[fds'|e] s']; cbn [fst] in Hg; rewrite Hg.
  - destruct Hc as [Hc Hlen]. cbn [close bind].
    assert (owns t fds' (s' ∖ {[ m ]})) as Ho' by (apply owns_remove; [done|]; destruct Ho as [-> _ _]; set_solver).
    apply (IH (S j) fds' (s' ∖ {[m]}) Ho'). rewrite Hlen, Hj. lia.
  - subst s'. exists [m]. split; [|done]. apply owns_mid. destruct Ho as [-> _ _]. set_solver.
Qed.
(** Loading leaves exactly that many descriptors open beside those it keeps. *)
Lemma load_leak h t : match EbpfObserver_load k h t with
  | (Ok o, t') => if pid_pmc_active o then attach_leak h = 0%nat
                  else ∃ leak, owns t leak t' ∧ length leak = attach_leak h
  | (Err _, t') => t' = t ∧ attach_leak h = 0%nat
  end.
Proof.
  unfold EbpfObserver_load, attach_leak, require_program, bind, ret, fail.
  destruct (k_object k); [|done]. destruct (k_program k "sched_switch"); [|done].
  destruct (k_program k "cpu_frequency"); [|done]. cbn [andb].
  unfold attach_perf_to_bpf_maps. destruct (num_online_cpus h) as [n|e]; cbn [fail pid_pmc_active]; [|exists []; split; [apply owns_nil|done]].
  unfold bind. pose proof (attach_maps_leak (cpu_numbers n) perf_maps t [] t 0 (owns_nil t) eq_refl) as Ha.
  destruct (attach_maps k (cpu_numbers n) perf_maps [] t) as [[fds|e] s]; cbn [pid_pmc_active]; [|done].
  rewrite enable_pmc_id. done.
Qed.

Lemma open_cores_owns cpus cores t s : owns t (all_fds cores) s →
  match open_cores k cpus cores s with
  | (Ok cores', s') => owns t (all_fds cores') s' ∧ cf_core_id <$> cores' = (cf_core_id <$> cores) ++ (u32_wrap <$> cpus)
  | (Err _, s') => s' = t
  end.
Proof.
  revert cores s. induction cpus as [|cpu cpus IH]; intros cores s Ho; [split; [done|by rewrite app_nil_r]|]. cbn [open_cores].
  assert (∀ fds s', owns t (all_fds cores ++ fds) s' → s' ∖ fd_set fds ∖ fd_set (all_fds cores) = t) as Hclose.
  { intros fds s' H%owns_close. rewrite <-H. unfold fd_set. rewrite list_to_set_app_L. set_solver. }
  unfold bind at 1, on_err at 1. pose proof (perf_event_open_owns (i32_wrap cpu) PERF_COUNT_HW_INSTRUCTIONS t _ s Ho) as H1.
  destruct (perf_event_open k (i32_wrap cpu) _ s) as [[i|e] s1]; [|rewrite close_cores_spec; subst s1; by apply owns_close].
  unfold bind at 1, on_err at 1. pose proof (perf_event_open_owns (i32_wrap cpu) PERF_COUNT_HW_CPU_CYCLES t _ s1 H1) as H2.
  destruct (perf_event_open k (i32_wrap cpu) _ s1) as [[c|e] s2].
  2: { subst s2. unfold bind, close. rewrite close_cores_spec. cbn. apply Hclose in H1. unfold fd_set in *. cbn in H1. set_solver. }
  unfold bind at 1, on_err at 1. pose proof (perf_event_open_owns (i32_wrap cpu) PERF_COUNT_HW_CACHE_MISSES t _ s2 H2) as H3.
  rewrite <-app_assoc in H2, H3. destruct (perf_event_open k (i32_wrap cpu) _ s2) as [[m|e] s3].
  2: { subst s3. unfold bind, close. rewrite close_cores_spec. cbn. apply Hclose in H2. unfold fd_set in *. cbn in H2. set_solver. }
  rewrite <-app_assoc in H3.
  specialize (IH (cores ++ [{| cf_core_id := u32_wrap cpu; instructions_fd := i; cycles_fd := c; cache_misses_fd := m |}]) s3).
  unfold all_fds in IH at 1. rewrite bind_app in IH. cbn in IH. specialize (IH H3).
  destruct (open_cores k cpus _ s3) as [[cores'|e] s']; [|done]. destruct IH as [? ->]. split; [done|].
  by rewrite fmap_app, <-app_assoc.
Qed.

(** The standalone reader never leaks a descriptor: on success it holds three
    fresh ones per CPU and dropping it gives back the table; whichever of its
    openings fails, it has closed everything it had opened before. *)
Theorem reader_fds_balanced h t :
  match HwCounterReader_open k h t with
  | (Ok cores, t') =>
      ∃ n, num_online_cpus h = Ok n ∧ cf_core_id <$> cores = u32_wrap <$> cpu_numbers n ∧ owns t (all_fds cores) t' ∧
        HwCounterReader_drop cores t' = (Ok tt, t)
  | (Err _, t') => t' = t
  end.
Proof.
  unfold HwCounterReader_open, HwCounterReader_drop. destruct (num_online_cpus h) as [n|e]; [|done].
  pose proof (open_cores_owns (cpu_numbers n) [] t t (owns_nil t)) as H.
  destruct (open_cores k (cpu_numbers n) [] t) as [[cores|e] s]; [|done]. destruct H as [Ho Hids].
  exists n. split; [done|]. split; [done|]. split; [done|]. rewrite close_cores_spec. f_equal. by apply owns_close.
Qed.
End balance.

(** ** The list of online CPUs, as the kernel prints it *)

Inductive CpuItem :=
| OneCpu (c : Z)
| CpuRange (first last : Z).
Definition render_item (i : CpuItem) : string :=
  match i with
  | OneCpu c => show c
  | CpuRange a b => String.append (show a) (String "-"%char (show b))
  end.
Definition item_ok (i : CpuItem) : Prop :=
  match i with OneCpu c => 0 <= c | CpuRange a b => 0 <= a ∧ a <= b ∧ b <= usize_max end.
Definition item_count (i : CpuItem) : Z := match i with OneCpu _ => 1 | CpuRange a b => b - a + 1 end.
Fixpoint render_cpulist (l : list CpuItem) : string :=
  match l with
  | [] => EmptyString
  | i :: l' => String.append (render_item i) (match l' with [] => EmptyString | _ => String ","%char (render_cpulist l') end)
  end.

Definition cpulist_char (c : ascii) : bool := is_ascii_digit c || Ascii.eqb c "-"%char.
Lemma cpulist_char_not_comma c : cpulist_char c = true → negb (Ascii.eqb c ","%char) = true.
Proof. by destruct c as [[] [] [] [] [] [] [] []]. Qed.
Lemma digit_not_dash c : is_ascii_digit c = true → negb (Ascii.eqb c "-"%char) = true.
Proof. by destruct c as [[] [] [] [] [] [] [] []]. Qed.
Lemma digit_cpulist c : is_ascii_digit c = true → cpulist_char c = true.
Proof. unfold cpulist_char. by intros ->. Qed.
Lemma show_no_dash n : 0 <= n → free_of "-"%char (show n) = true.
Proof. intros Hn. destruct (show_spec n Hn) as (Hd & _). by eapply str_all_impl, Hd; apply digit_not_dash. Qed.
Lemma render_item_chars i : item_ok i → str_all cpulist_char (render_item i) = true.
Proof.
  destruct i as [c|a b]; cbn [item_ok render_item]; intros Hi.
  - destruct (show_spec c Hi) as (Hd & _). by eapply str_all_impl, Hd; apply digit_cpulist.
  - destruct (show_spec a) as (Ha & _); [lia|]. destruct (show_spec b) as (Hb & _); [lia|]. rewrite str_all_app. cbn [str_all].
    by rewrite (str_all_impl _ _ _ digit_cpulist Ha), (str_all_impl _ _ _ digit_cpulist Hb).
Qed.
Lemma cpu_range_item count i : item_ok i → 0 <= count → count + item_count i < u64_mod →
  cpu_range count (render_item i) = Ok (count + item_count i).
Proof.
  unfold cpu_range. destruct i as [c|a b]; cbn [item_ok render_item item_count]; intros Hi Hc Hlt.
  - rewrite str_split_none by (by apply show_no_dash). by rewrite u64_add_exact by lia.
  - rewrite str_split_app, !str_split_none by (apply show_no_dash; lia). cbn [app].
    unfold usize_max, u64_max in *. rewrite !parse_show by lia. unfold u64_sub. rewrite u64_wrap_id by (unfold is_u64; lia).
    rewrite (u64_add_exact (b - a)) by lia. by rewrite u64_add_exact by lia.
Qed.
Lemma split_cpulist i l : Forall item_ok (i :: l) → str_split ","%char (render_cpulist (i :: l)) = render_item <$> i :: l.
Proof.
  revert i. induction l as [|j l IH]; intros i Hl; apply Forall_cons in Hl as [Hi Hl];
    assert (free_of ","%char (render_item i) = true) as Hc
      by (eapply str_all_impl; [apply cpulist_char_not_comma|by apply render_item_chars]); cbn [render_cpulist].
  - rewrite append_nil_r. by rewrite str_split_none.
  - rewrite str_split_app, str_split_none by done. rewrite fmap_cons, <-IH by done. done.
Qed.
Lemma cpu_ranges_items count l : Forall item_ok l → 0 <= count → count + sum_Z (item_count <$> l) < u64_mod →
  cpu_ranges count (render_item <$> l) = Ok (count + sum_Z (item_count <$> l)).
Proof.
  intros Hl. revert count. induction Hl as [|i l Hi Hl IH]; intros count Hc Hlt; [cbn; f_equal; lia|].
  rewrite fmap_cons, sum_Z_cons in Hlt.
  assert (0 <= item_count i) by (destruct i; cbn in *; lia).
  assert (0 <= sum_Z (item_count <$> l)).
  { apply sum_Z_nonneg, Forall_fmap. eapply Forall_impl; [exact Hl|]. intros []; cbn; lia. }
  rewrite !fmap_cons, sum_Z_cons.
  cbn [cpu_ranges]. rewrite cpu_range_item by (done || lia). rewrite IH by lia. f_equal. lia.
Qed.
Lemma trim_newline (p : ascii → bool) s : (∀ c, p c = true → is_whitespace c = false) → str_all p s = true → trim (line_of s) = s.
Proof.
  intros Hw Hs. unfold trim, line_of.
  assert (trim_end (String.append s (String newline EmptyString)) = s) as He.
  { induction s as [|c s IH]; [done|]. cbn in Hs. apply andb_prop in Hs as [Hc Hs]. rewrite append_cons. cbn [trim_end].
    rewrite IH by done. destruct s; [|done]. by rewrite Hw. }
  destruct s as [|c s]; [done|]. rewrite append_cons in *. cbn in Hs. apply andb_prop in Hs as [Hc _].
  cbn [trim_start]. by rewrite Hw.
Qed.
Lemma list_char_visible c : cpulist_char c || Ascii.eqb c ","%char = true → is_whitespace c = false.
Proof. by destruct c as [[] [] [] [] [] [] [] []]. Qed.
Lemma render_cpulist_chars l : Forall item_ok l →
  str_all (λ c, cpulist_char c || Ascii.eqb c ","%char) (render_cpulist l) = true.
Proof.
  induction 1 as [|i l Hi Hl IH]; [done|]. cbn [render_cpulist]. rewrite str_all_app. apply andb_true_intro. split.
  - eapply str_all_impl, render_item_chars, Hi. intros c Hc. by rewrite Hc.
  - destruct l; [done|exact IH].
Qed.

(** C40: counting the online CPUs reads back the kernel's list: for every
    non-empty list of CPUs and ranges, printed as the kernel prints it, the
    count is the number of CPUs on it. *)
Theorem num_online_cpus_roundtrip h i l :
  h_read h (if h_exists h "/host/sys/devices/system/cpu/online" then "/host/sys/devices/system/cpu/online"
            else "/sys/devices/system/cpu/online") = Ok (line_of (render_cpulist (i :: l))) →
  Forall item_ok (i :: l) → sum_Z (item_count <$> i :: l) < u64_mod →
  num_online_cpus h = Ok (sum_Z (item_count <$> i :: l)).
Proof.
  intros Hread Hl Hlt. unfold num_online_cpus. rewrite Hread.
  rewrite (trim_newline _ _ list_char_visible (render_cpulist_chars _ Hl)).
  rewrite split_cpulist by done. apply (cpu_ranges_items 0); [done|lia|lia].
Qed.

(** ** Concrete machines *)

(** Descriptors are handed out in increasing order. *)
Definition next_fd (t : FdTable) : Z := foldr Z.max 2 (elements t) + 1.
Lemma max_fd_bound l x : x ∈ l → x <= foldr Z.max 2 l.
Proof.
  induction l as [|y l IH]; intros Hx; [by apply elem_of_nil in Hx|]. cbn.
  apply elem_of_cons in Hx as [->|Hx]; [lia|]. specialize (IH Hx). lia.
Qed.
Lemma next_fd_fresh t : next_fd t ∉ t.
Proof. unfold next_fd. rewrite <-elem_of_elements. intros Hin%max_fd_bound. lia. Qed.
Definition machine (perf : Z → Z → bool) (has_map : string → bool) : Kernel :=
  {| k_alloc := next_fd; k_perf := perf; k_has_map := has_map; k_map_fd := λ _, true; k_update := λ _ _, true;
     k_object := true; k_program := λ _, true |}.
Definition online (s : string) : Host := file_host [("/sys/devices/system/cpu/online", line_of s)] [] [].
Definition std_fds : FdTable := {[ 0; 1; 2 ]}.

Lemma observer_fds_balanced_witness :
  match EbpfObserver_load (machine (λ _ _, true) (λ _, true)) (online "0-1") std_fds with
  | (Ok o, t) => perf_fds o = [4; 5; 7; 8; 10; 11] ∧ EbpfObserver_drop o t = (Ok tt, std_fds)
  | (Err _, _) => False
  end.
Proof.
  pose proof (observer_fds_balanced (machine (λ _ _, true) (λ _, true)) next_fd_fresh (online "0-1") std_fds) as H.
  destruct (EbpfObserver_load _ _ _) as [[o|e] t] eqn:E; [|by vm_compute in E].
  assert (perf_fds o = [4; 5; 7; 8; 10; 11] ∧ pid_pmc_active o = true) as [Hp Ha] by (vm_compute in E; by injection E as <- _).
  rewrite Ha in H. destruct H as (n & _ & _ & _ & Hd). by split.
Defined.
Lemma reader_fds_balanced_witness :
  let k := machine (λ cpu _, cpu <? 2) (λ _, true) in
  (HwCounterReader_open k (online "0-3") std_fds).2 = std_fds.
Proof.
  pose proof (reader_fds_balanced (machine (λ cpu _, cpu <? 2) (λ _, true)) next_fd_fresh (online "0-3") std_fds) as H.
  cbv zeta. destruct (HwCounterReader_open _ _ _) as [[c|e] t] eqn:E; [by vm_compute in E|exact H].
Defined.
Lemma num_online_cpus_roundtrip_witness : num_online_cpus (online "0,2-3") = Ok 3.
Proof.
  apply (num_online_cpus_roundtrip (online "0,2-3") (OneCpu 0) [CpuRange 2 3]); [reflexivity| |reflexivity].
  repeat constructor; cbn; unfold usize_max, u64_max, u64_mod; lia.
Defined.

(** When the counters cannot be attached the observer is returned without them,
    but what it had opened is not always closed again: the map's descriptor
    stays open when a counter does not open, and with it all the counters when a
    later map is missing. *)
Example attach_leaks_map_fd :
  let k := machine (λ cpu _, cpu <? 1) (λ _, true) in
  let '(r, t) := EbpfObserver_load k (online "0-1") std_fds in
  r = Ok {| pid_pmc_active := false; perf_fds := [] |} ∧ t = {[ 3 ]} ∪ std_fds.
Proof. split; reflexivity. Qed.
Example attach_leaks_counters :
  let k := machine (λ _ _, true) (λ m, negb (String.eqb m "PERF_CYCLES")) in
  let '(r, t) := EbpfObserver_load k (online "0-1") std_fds in
  r = Ok {| pid_pmc_active := false; perf_fds := [] |} ∧ t = {[ 4; 5 ]} ∪ std_fds.
Proof. split; reflexivity. Qed.

(** The count is used as a range: with CPU 1 offline, counters are opened on
    CPUs 0, 1 and 2 rather than on the three that are online. *)
Example offline_cpu_opened :
  let k := machine (λ cpu _, negb (cpu =? 1)) (λ _, true) in
  (HwCounterReader_open k (online "0,2-3") std_fds).1 = Err (OpenFailed 1 PERF_COUNT_HW_INSTRUCTIONS).
Proof. reflexivity. Qed.
