(* ===== verification/Startup.v ===== *)
(** * Startup: how the agent comes up

    keck-agent/src/main.rs before its loop: settings from the environment,
    source discovery ([Sources]), the observer and the counters ([Perf]), the
    tuner, the Kubernetes client with its retries, the first readings and the
    first pod cache; and the health endpoint.  The result is the configuration
    and state [Agent]'s iterations start from. *)

From S2P Require Import Prelude F64 Json Common Text Classify Workload Procfs Bpf Tuner Collector Host Sources Perf.
From S2P Require Import Aggregator Agent.
From Stdlib Require Import Ascii.

Open Scope Z_scope.

(** ** Settings *)

Definition get_node_name (h : Host) : string :=
  match h_env h "NODE_NAME" with
  | Some n => n
  | None =>
      match h_env h "HOSTNAME" with
      | Some n => n
      | None => match h_read h "/etc/hostname" with Ok s => trim s | Err _ => "unknown" end
      end
  end.
Definition controller_url (h : Host) : string :=
  default "http://keck-controller.keck-system.svc:8080" (h_env h "KECK_CONTROLLER_URL").
Definition interval_secs (h : Host) : Z := default 10 (h_env h "KECK_INTERVAL_SECS" ≫= parse_u64).
Definition env_f64 (h : Host) (name : string) (d : f64) : f64 := default d (h_env h name ≫= parse_f64).
Definition init_alpha (h : Host) : f64 := env_f64 h "KECK_ALPHA" (f_lit 3 10).
Definition init_beta (h : Host) : f64 := env_f64 h "KECK_BETA" (f_lit 3 2).
Definition start_tuner (h : Host) : option CoefficientTuner :=
  if bool_decide (h_env h "KECK_AUTO_TUNE" = Some "true")
  then Some (CoefficientTuner_new (h_env h "KECK_TUNE_LEARNING_RATE" ≫= parse_f64) (init_alpha h) (init_beta h))
  else None.
Definition report_url (h : Host) : string := String.append (controller_url h) "/api/v1/report".

(** ** The health endpoint *)

Definition crlf : string := String "013"%char (String "010"%char EmptyString).
Definition healthz_response (healthy : bool) : string :=
  let '(status, body) := if healthy then ("200 OK", "ok") else ("503 Service Unavailable", "not ready") in
  String.append "HTTP/1.1 " (String.append status (String.append crlf
    (String.append "Content-Length: " (String.append (show (Z.of_nat (String.length body))) (String.append crlf
      (String.append "Connection: close" (String.append crlf (String.append crlf body)))))))).

(** ** The Kubernetes client *)

(** The loop: [try i] is what the [i]-th attempt gives; the result with the
    seconds slept before each retry, or [None] when [fuel] runs out. *)
Fixpoint connect {C E} (try : nat → result C E) (fuel i : nat) (attempts : Z) (slept : list Z)
    : option (result C (Z * E) * list Z) :=
  match fuel with
  | O => None
  | S fuel =>
      match try i with
      | Ok c => Some (Ok c, slept)
      | Err e =>
          let attempts := u32_add attempts 1 in
          if 10 <=? attempts then Some (Err (attempts, e), slept)
          else connect try fuel (S i) attempts (slept ++ [2 ^ Z.min attempts 5])
      end
  end.
(** Ten turns of the loop are enough, see [connect_from]. *)
Definition k8s_client {C E} (try : nat → result C E) : option (result C (Z * E) * list Z) := connect try 10 0 0 [].

(** ** The start *)

Record StartEnv := {
  se_host : Host;
  se_kernel : Kernel;
  se_maps : BpfMaps;
  se_client : nat → result unit string;
  se_subscriptions : option (list (option string));
  se_http : bool;
  se_instant : Z;
  se_read : Z;
  se_listing : option (list K8sPod);
  se_get_owners : string → string → string → option (list OwnerReference);
  (** the health listener could be bound to port 9100 *)
  se_healthz : bool
}.
(** What a probe of port 9100 gets: nothing when the task gave up at the bind. *)
Definition healthz_probe (env : StartEnv) (healthy : bool) : option string :=
  if se_healthz env then Some (healthz_response healthy) else None.
Inductive StartError :=
| NoClient (attempts : Z) (e : string)
| NoHttpClient.
Record Started := {
  sd_sources : list DynSource;
  sd_observer : option EbpfObserver;
  sd_cores : option (list CoreFds);
  sd_config : AgentConfig;
  sd_state : AgentState;
  sd_slept : list Z
}.

(** A failed load or open is logged and done without. *)
Definition optional {A} (m : M A) : M (option A) := λ t, match m t with (Ok a, t') => (Ok (Some a), t') | (Err _, t') => (Ok None, t') end.
Definition observer_pmc (o : option EbpfObserver) : bool := from_option pid_pmc_active false o.
Definition open_counters (k : Kernel) (h : Host) (has_pid_pmc : bool) : M (option (list CoreFds)) :=
  if has_pid_pmc then ret None else optional (HwCounterReader_open k h).
(** What the destructors close when [main] returns. *)
Definition drop_counters (o : option EbpfObserver) (cores : option (list CoreFds)) : M unit :=
  from_option HwCounterReader_drop (ret tt) cores ;;; from_option EbpfObserver_drop (ret tt) o.

Section start.
Context `{HI : HashIter}.

Definition start_config (env : StartEnv) (pid_pmc : bool) : AgentConfig :=
  let labels := label_settings (h_env (se_host env) "KECK_CAPTURED_LABELS") in
  {| ac_node_name := get_node_name (se_host env); ac_interval_ns := interval_secs (se_host env) * 1000000000;
     ac_exact_labels := labels.1; ac_prefix_labels := labels.2;
     ac_operator_namespaces := discover_operator_namespaces (se_subscriptions env); ac_pid_pmc := pid_pmc;
     ac_alpha := init_alpha (se_host env); ac_beta := init_beta (se_host env) |}.

Definition start_state (env : StartEnv) (cfg : AgentConfig) (sources : list DynSource) (observer : option EbpfObserver)
    (cores : option (list CoreFds)) : AgentState :=
  let '(cache, owners) := refresh_pod_cache (se_get_owners env) (se_listing env) (ac_exact_labels cfg) (ac_prefix_labels cfg)
                            (ac_operator_namespaces cfg) ∅ ∅ in
  {| as_prev_readings := foldl initial_read ∅ (answers (se_host env) (se_read env) sources);
     as_caches := {| prev_cpu_ticks := ∅; prev_page_faults := ∅; prev_io_bytes := ∅; pss_cache := ∅ |};
     as_tick_count := 0; as_pod_cache := cache; as_owner_cache := owners; as_last_pod_refresh := se_instant env;
     as_counters := (λ cs, HwCounterReader_new (length cs)) <$> cores; as_tuner := start_tuner (se_host env);
     as_bpf := (λ _, se_maps env) <$> observer; as_healthy := false |}.

(** [None] cannot happen, see [agent_start_total]. *)
Definition agent_start (env : StartEnv) : FdTable → option (result Started StartError * FdTable) := λ t,
  let h := se_host env in
  let sources := discover_sources h in
  let '(observer, t1) := match optional (EbpfObserver_load (se_kernel env) h) t with (Ok o, t1) => (o, t1) | (Err _, t1) => (None, t1) end in
  let '(cores, t2) := match open_counters (se_kernel env) h (observer_pmc observer) t1 with (Ok c, t2) => (c, t2) | (Err _, t2) => (None, t2) end in
  '(client, slept) ← k8s_client (se_client env);
  match client with
  | Err (attempts, e) => Some (Err (NoClient attempts e), (drop_counters observer cores t2).2)
  | Ok _ =>
      if negb (se_http env) then Some (Err NoHttpClient, (drop_counters observer cores t2).2)
      else
        let cfg := start_config env (observer_pmc observer) in
        Some (Ok {| sd_sources := sources; sd_observer := observer; sd_cores := cores; sd_config := cfg;
                    sd_state := start_state env cfg sources observer cores; sd_slept := slept |}, t2)
  end.

(** The loop, an iteration per element. *)
Definition run_agent (cfg : AgentConfig) (s : AgentState) (es : list TickEnv) : AgentState :=
  foldl (λ s e, (agent_tick cfg e s).2) s es.
End start.

(** ** Retries *)

Definition retry_delays : list Z := [2; 4; 8; 16; 32; 32; 32; 32; 32].
Definition all_fail {C E} (try : nat → result C E) (n : nat) : Prop := ∀ j, (j < n)%nat → ∃ e, try j = Err e.
(** How the loop ends: at the first attempt that succeeds, if one of ten does. *)
Definition connect_outcome {C E} (try : nat → result C E) (r : option (result C (Z * E) * list Z)) : Prop :=
  match r with
  | Some (Ok c, slept) => ∃ i, (i < 10)%nat ∧ all_fail try i ∧ try i = Ok c ∧ slept = take i retry_delays
  | Some (Err (n, e), slept) => n = 10 ∧ all_fail try 10 ∧ try 9%nat = Err e ∧ slept = retry_delays
  | None => False
  end.
Lemma retry_delay i : (i < 9)%nat → take i retry_delays ++ [2 ^ Z.min (Z.of_nat (S i)) 5] = take (S i) retry_delays.
Proof. intros Hi. do 9 (destruct i as [|i]; [reflexivity|]). lia. Qed.
Lemma connect_from {C E} (try : nat → result C E) fuel i : (i < 10)%nat → (10 <= fuel + i)%nat → all_fail try i →
  connect_outcome try (connect try fuel i (Z.of_nat i) (take i retry_delays)).
Proof.
  revert i. induction fuel as [|fuel IH]; intros i Hi Hf Hfail; [lia|]. cbn [connect].
  destruct (try i) as [c|e] eqn:Ht; [by exists i|].
  assert (u32_add (Z.of_nat i) 1 = Z.of_nat (S i)) as ->
    by (unfold u32_add; rewrite u32_wrap_id; unfold is_u32, u32_mod; lia).
  assert (all_fail try (S i)) as Hfail'.
  { intros j Hj. destruct (decide (j = i)) as [->|]; [eauto|]. apply Hfail. lia. }
  destruct (Z.leb_spec 10 (Z.of_nat (S i))).
  - assert (i = 9%nat) as -> by lia. done.
  - rewrite retry_delay by lia. apply IH; [lia|lia|done].
Qed.

(** C26: the agent does not wait for Kubernetes for ever.  Whatever the attempts
    give, the loop ends after at most ten of them, having slept at most 190
    seconds in all (2, 4, 8, 16, then 32 between attempts): with the client of
    the first attempt that succeeds, or with the tenth error when all ten fail;
    unrolling the loop further changes nothing. *)
Theorem k8s_client_bounded {C E} (try : nat → result C E) :
  connect_outcome try (k8s_client try) ∧
  (∀ r slept, k8s_client try = Some (r, slept) → 0 <= sum_Z slept <= 190) ∧
  ∀ fuel, (10 <= fuel)%nat → connect try fuel 0 0 [] = k8s_client try.
Proof.
  assert (∀ fuel, (10 <= fuel)%nat → connect_outcome try (connect try fuel 0 0 [])) as Hout.
  { intros fuel Hf. apply (connect_from try fuel 0); [lia|lia|]. intros j Hj. lia. }
  pose proof (Hout 10%nat (le_n _)) as H10. change (connect_outcome try (k8s_client try)) in H10. split; [exact H10|]. split.
  - intros r slept Hr. rewrite Hr in H10. destruct r as [c|[n e]]; cbn in H10.
    + destruct H10 as (i & Hi & _ & _ & ->). do 10 (destruct i as [|i]; [by vm_compute|]). lia.
    + destruct H10 as (_ & _ & _ & ->). by vm_compute.
  - intros fuel Hf. specialize (Hout fuel Hf). unfold k8s_client in *.
    destruct (connect try fuel 0 0 []) as [[[c|[n e]] sl]|], (connect try 10 0 0 []) as [[[c'|[n' e']] sl']|];
      cbn in Hout, H10; try done.
    + destruct Hout as (i & Hi & Hfi & Hti & ->), H10 as (j & Hj & Hfj & Htj & ->).
      assert (i = j) as ->; [|congruence]. destruct (Nat.lt_total i j) as [Hlt|[->|Hlt]]; [|done|].
      * destruct (Hfj i Hlt) as [? ?]. congruence.
      * destruct (Hfi j Hlt) as [? ?]. congruence.
    + destruct Hout as (i & Hi & _ & Hti & _), H10 as (_ & Hall & _). destruct (Hall i Hi). congruence.
    + destruct Hout as (_ & Hall & _), H10 as (i & Hi & _ & Hti & _). destruct (Hall i Hi). congruence.
    + destruct Hout as (-> & _ & Ht & ->), H10 as (-> & _ & Ht' & ->). congruence.
Qed.

Lemma k8s_client_some {C E} (try : nat → result C E) : ∃ r slept, k8s_client try = Some (r, slept).
Proof.
  pose proof (connect_from try 10 0 ltac:(lia) ltac:(lia) ltac:(intros j Hj; lia)) as H.
  change (connect_outcome try (k8s_client try)) in H. destruct (k8s_client try) as [[r slept]|]; [eauto|done].
Qed.

(** ** Descriptors *)

Section started.
Context `{HI : HashIter}.

Lemma agent_tick_healthy cfg e s : as_healthy (agent_tick cfg e s).2 = te_accepted e || as_healthy s.
Proof.
  unfold agent_tick. destruct (tick_pod_cache cfg e s) as [[cache owners] lr]. destruct (read_sources _ _ _) as [prev sel].
  destruct (match as_counters s with Some _ => _ | None => _ end) as [cc counters].
  destruct (tick_drain cfg e s) as [snap bpf].
  by destruct (tick_pods _ _ _ _ _ _ _ _) as [pods caches].
Qed.
Lemma list_exists_bool {A} (p : A → bool) l : existsb p l = true ↔ ∃ x, x ∈ l ∧ p x = true.
Proof. rewrite existsb_exists. by setoid_rewrite list_elem_of_In. Qed.

Definition held_fds (o : option EbpfObserver) (cores : option (list CoreFds)) : list Z :=
  from_option perf_fds [] o ++ from_option all_fds [] cores.

Lemma load_inactive k h t o t1 : EbpfObserver_load k h t = (Ok o, t1) → pid_pmc_active o = false → perf_fds o = [].
Proof.
  unfold EbpfObserver_load, bind, require_program, ret, fail. destruct (k_object k); [|done].
  destruct (k_program k "sched_switch"); [|done]. destruct (k_program k "cpu_frequency"); [|done].
  destruct (attach_perf_to_bpf_maps k h t) as [[fds|e] s]; intros [= <- _]; by cbn.
Qed.
Lemma all_fds_length cores : length (all_fds cores) = (3 * length cores)%nat.
Proof. induction cores as [|c cores IH]; [done|]. unfold all_fds in *. cbn. rewrite IH. lia. Qed.
(** The counters opened at the start, with the observer's or alone, and what a
    failed attachment has left beside them. *)
Lemma open_all_spec k h t : alloc_fresh k →
  let observer := match EbpfObserver_load k h t with (Ok o, _) => Some o | (Err _, _) => None end in
  let t1 := (EbpfObserver_load k h t).2 in
  ∃ cores t2 leak base, open_counters k h (observer_pmc observer) t1 = (Ok cores, t2) ∧
    owns t leak base ∧ length leak = attach_leak k h ∧ owns base (held_fds observer cores) t2 ∧
    (observer_pmc observer = true → cores = None) ∧
    (held_fds observer cores = [] ∨
     ∃ n, num_online_cpus h = Ok n ∧ length (held_fds observer cores) = (3 * Z.to_nat n)%nat).
Proof.
  intros Hk. cbn zeta. unfold open_counters. pose proof (observer_fds_balanced k Hk h t) as Ho. pose proof (load_leak k Hk h t) as Hl.
  assert (∀ o t1, from_option perf_fds [] o = [] → ∃ cores t2, optional (HwCounterReader_open k h) t1 = (Ok cores, t2) ∧
    owns t1 (held_fds o cores) t2 ∧ (held_fds o cores = [] ∨
      ∃ n, num_online_cpus h = Ok n ∧ length (held_fds o cores) = (3 * Z.to_nat n)%nat)) as Hread.
  { intros o t1 Hnil. unfold held_fds, optional. rewrite Hnil. pose proof (reader_fds_balanced k Hk h t1) as Hr.
    destruct (HwCounterReader_open k h t1) as [[cores|e] t2].
    - destruct Hr as (n & Hn & Hids & Hown & _). exists (Some cores), t2. split; [done|]. split; [done|]. right.
      exists n. split; [done|]. cbn. rewrite all_fds_length.
      apply (f_equal length) in Hids. rewrite !length_fmap, length_cpu_numbers in Hids. lia.
    - subst t2. exists None, t1. split; [done|]. split; [apply owns_nil|by left]. }
  destruct (EbpfObserver_load k h t) as [[o|e] t1] eqn:E; cbn [snd observer_pmc from_option].
  - destruct (pid_pmc_active o) eqn:Ha.
    + destruct Ho as (n & Hn & Hlen & Hown & _). exists None, t1, [], t. split; [done|]. unfold held_fds. cbn. rewrite app_nil_r.
      split; [apply owns_nil|]. split; [done|]. split; [done|]. split; [done|]. right. eauto.
    + destruct Hl as (leak & Hleak & Hlen).
      destruct (Hread (Some o) t1 (load_inactive _ _ _ _ _ E Ha)) as (cores & t2 & H1 & H2 & H3). exists cores, t2, leak, t1. done.
  - destruct Hl as [-> Hlen]. destruct (Hread None t eq_refl) as (cores & t2 & H1 & H2 & H3).
    exists cores, t2, [], t. split; [done|]. split; [apply owns_nil|]. done.
Qed.
Lemma drop_counters_spec o cores t s : owns t (held_fds o cores) s → (drop_counters o cores s).2 = t.
Proof.
  intros Hown. apply owns_close in Hown as <-. unfold drop_counters, held_fds, fd_set, bind. destruct cores as [cs|]; cbn.
  - unfold HwCounterReader_drop. rewrite close_cores_spec. destruct o as [o|]; cbn.
    + unfold EbpfObserver_drop. rewrite close_all_spec. cbn. unfold fd_set. rewrite list_to_set_app_L. set_solver.
    + done.
  - destruct o as [o|]; cbn; [unfold EbpfObserver_drop; rewrite close_all_spec; cbn; unfold fd_set; by rewrite app_nil_r|].
    set_solver.
Qed.

(** C22: starting up and descriptors.  Start-up always comes to an end.  When it
    succeeds the agent holds either no counters or exactly three descriptors per
    online CPU, all its own: the observer's when per-task counting is active, in
    which case no second set is opened and nothing is leaked, and otherwise the
    standalone reader's.  Dropping what is held, as a failed start does at once,
    gives back the table with exactly the descriptors the failed attachment of
    the observer's counters leaked: none unless a map or a counter was refused
    part-way, then the counters of the maps before the missing one, or the one
    descriptor of the map whose counter was refused ([attach_leak]). *)
Theorem startup_descriptors env t : alloc_fresh (se_kernel env) →
  ∃ res t' leak, agent_start env t = Some (res, t') ∧ length leak = attach_leak (se_kernel env) (se_host env) ∧
    NoDup leak ∧ fd_set leak ## t ∧
    match res with
    | Ok a =>
        let held := held_fds (sd_observer a) (sd_cores a) in
        owns t (held ++ leak) t' ∧ (drop_counters (sd_observer a) (sd_cores a) t').2 = fd_set leak ∪ t ∧
        (held = [] ∨ ∃ n, num_online_cpus (se_host env) = Ok n ∧ length held = (3 * Z.to_nat n)%nat) ∧
        (observer_pmc (sd_observer a) = true → sd_cores a = None ∧ leak = [])
    | Err _ => t' = fd_set leak ∪ t
    end.
Proof.
  intros Hk.
  destruct (open_all_spec (se_kernel env) (se_host env) t Hk) as (cores & t2 & leak & base & Hopen & Hleak & Hn & Hown & Hpmc & Hlen).
  pose proof (owns_trans _ _ _ _ _ Hleak Hown) as Hall. pose proof (drop_counters_spec _ _ _ _ Hown) as Hdrop.
  pose proof (load_leak (se_kernel env) Hk (se_host env) t) as Hl.
  destruct Hleak as [-> Hapart Hnd]. unfold agent_start, optional. destruct (k8s_client_some (se_client env)) as (client & slept & ->).
  destruct (EbpfObserver_load (se_kernel env) (se_host env) t) as [[o|e] t1]; cbn [snd] in *; rewrite Hopen; cbn [mbind option_bind].
  all: destruct client as [c|[n e']]; [destruct (se_http env); cbn [negb]|];
    (eexists _, _, leak; split; [reflexivity|]; split; [exact Hn|]; split; [exact Hnd|]; split; [exact Hapart|]; cbn [sd_observer sd_cores]).
  all: try exact Hdrop.
  all: split; [exact Hall|]; split; [exact Hdrop|]; split; [exact Hlen|]; intros Ha; split; [by apply Hpmc|].
  - cbn in Ha. rewrite Ha in Hl. rewrite Hl in Hn. by destruct leak.
  - done.
Qed.

(** C27: readiness.  From the moment the agent is up, its probe, if the port could
    be bound, answers 200 exactly when the controller has accepted at least one of
    its reports, and 503 until then; so one accepted report makes it ready for
    good. *)
Theorem readiness_exact env t a t' es : agent_start env t = Some (Ok a, t') →
  healthz_response (as_healthy (run_agent (sd_config a) (sd_state a) es)) =
    healthz_response (existsb te_accepted es) ∧
  (String.prefix "HTTP/1.1 200 OK" (healthz_response (as_healthy (run_agent (sd_config a) (sd_state a) es))) = true ↔
     ∃ e, e ∈ es ∧ te_accepted e = true) ∧
  healthz_probe env (as_healthy (run_agent (sd_config a) (sd_state a) es)) =
    (if se_healthz env then Some (healthz_response (existsb te_accepted es)) else None).
Proof.
  intros Hs. assert (as_healthy (sd_state a) = false) as H0.
  { unfold agent_start in Hs. destruct (match optional _ t with (Ok _, _) => _ | (Err _, _) => _ end) as [o t1].
    destruct (match open_counters _ _ _ t1 with (Ok _, _) => _ | (Err _, _) => _ end) as [cs t2].
    destruct (k8s_client (se_client env)) as [[[c|[n e]] slept]|]; cbn in Hs; [|done|done].
    destruct (se_http env); cbn in Hs; [|done]. injection Hs as <- _. cbn. unfold start_state.
    by destruct (refresh_pod_cache _ _ _ _ _ _ _). }
  assert (∀ s, as_healthy (run_agent (sd_config a) s es) = existsb te_accepted es || as_healthy s) as Hrun.
  { induction es as [|e es IH]; intros s; [done|]. cbn [run_agent foldl existsb]. unfold run_agent in IH. rewrite IH.
    rewrite agent_tick_healthy. by destruct (te_accepted e), (existsb te_accepted es). }
  rewrite Hrun, H0, orb_false_r. split; [done|]. split; [|done]. rewrite <-list_exists_bool.
  by destruct (existsb te_accepted es).
Qed.
End started.

(** ** Witnesses *)

#[local] Existing Instance hash_iter_list.

Definition empty_maps : BpfMaps :=
  {| PID_CPU_TIME := ∅; CPU_SCHED_STATE := ∅; CPU_FREQ_TIME := ∅; CPU_FREQ_STATE := ∅; PID_CGROUP := ∅; PID_NET_BYTES := ∅;
     PID_HW_COUNTERS := ∅; PMC_ENABLED := 0 |}.
(** A two-CPU machine whose Kubernetes API answers at the third attempt. *)
Definition demo_start (kernel : Kernel) : StartEnv :=
  {| se_host := online "0-1"; se_kernel := kernel; se_maps := empty_maps;
     se_client := λ i, if (i <? 2)%nat then Err "connection refused" else Ok tt; se_subscriptions := None; se_http := true;
     se_instant := 0; se_read := 0; se_listing := None; se_get_owners := λ _ _ _, None; se_healthz := true |}.
Definition full_kernel : Kernel := Perf.machine (λ _ _, true) (λ _, true).
Definition demo_tick (accepted : bool) : TickEnv :=
  {| te_instant := 0; te_listing := None; te_get_owners := λ _ _ _, None; te_instant_after := 0; te_answers := [];
     te_counters := λ _, (None, None, None); te_kernel := []; te_drain := quiet_drain; te_procs := None; te_proc_of := λ _, {| pf_status := None; pf_stat := None; pf_smaps_rollup := None;
       pf_statm := None; pf_io := None; pf_cgroup := None |}; te_dcgm := None; te_cleanup_procs := None;
     te_alive := λ _, true; te_count_procs := None; te_proc_time := λ _, 0; te_core_time := λ _, 0; te_gpu_time := λ _, 0; te_time := 0; te_accepted := accepted |}.

Lemma startup_descriptors_witness : ∃ a t', agent_start (demo_start full_kernel) std_fds = Some (Ok a, t') ∧
  length (held_fds (sd_observer a) (sd_cores a)) = 6%nat ∧ sd_slept a = [2; 4] ∧
  (drop_counters (sd_observer a) (sd_cores a) t').2 = std_fds.
Proof.
  destruct (startup_descriptors (demo_start full_kernel) std_fds) as (res & t' & leak & Hs & _ & H); [exact next_fd_fresh|].
  destruct H as (_ & _ & H). destruct res as [a|e]; [|by vm_compute in Hs]. exists a, t'. destruct H as (_ & Hd & _ & Hp).
  assert (length (held_fds (sd_observer a) (sd_cores a)) = 6%nat ∧ sd_slept a = [2; 4] ∧ observer_pmc (sd_observer a) = true)
    as (H1 & H2 & H3) by (vm_compute in Hs; injection Hs as <- _; done).
  destruct (Hp H3) as [_ ->]. split; [exact Hs|]. split; [exact H1|]. split; [exact H2|]. rewrite Hd. apply union_empty_l_L.
Defined.
Lemma readiness_exact_witness : ∃ a t', agent_start (demo_start full_kernel) std_fds = Some (Ok a, t') ∧
  String.prefix "HTTP/1.1 200 OK"
    (healthz_response (as_healthy (run_agent (sd_config a) (sd_state a) [demo_tick false; demo_tick true; demo_tick false]))) = true.
Proof.
  destruct (agent_start (demo_start full_kernel) std_fds) as [[[a|e] t']|] eqn:Hs; [|by vm_compute in Hs|by vm_compute in Hs].
  exists a, t'. split; [reflexivity|].
  apply (readiness_exact (demo_start full_kernel) std_fds a t' [demo_tick false; demo_tick true; demo_tick false] Hs).
  exists (demo_tick true). split; [right; left|reflexivity].
Defined.
