(* ===== verification/Registry.v ===== *)
(** * Registry: the fleet's clusters

    keck-fleet/src/registry/mod.rs.  Sorting and minimising with
    [partial_cmp(..).unwrap()] panics as soon as a NaN is compared, which with
    two elements or more is certain: such calls return an [option], [None] being
    the panic. *)

From S2P Require Import Prelude F64.
From Stdlib Require Import SpecFloat.

Open Scope Z_scope.

Record ClusterPowerSummary := {
  total_watts : f64;
  cpu_watts : f64;
  memory_watts : f64;
  gpu_watts : f64;
  idle_watts : f64;
  platform_watts : option f64
}.
Record NamespaceSummary := { nss_namespace : string; nss_total_watts : f64; nss_pod_count : Z }.
Record CarbonData := {
  intensity_grams_per_kwh : f64;
  emissions_grams_per_hour : f64;
  cost_per_kwh : f64;
  currency : string
}.
Record ClusterReport := {
  cluster_id : string;
  cluster_name : string;
  region : string;
  provider : string;
  power : ClusterPowerSummary;
  cr_namespaces : list NamespaceSummary;
  carbon : CarbonData;
  cr_node_count : Z;
  cr_pod_count : Z;
  avg_error_ratio : f64;
  cr_timestamp : Z
}.

Record ClusterState := {
  latest_report : ClusterReport;
  cs_received_at : Z;
  power_history : list (Z * f64);
  carbon_history : list (Z * f64)
}.

Record ClusterView := {
  cv_cluster_id : string;
  cv_cluster_name : string;
  cv_region : string;
  cv_total_watts : f64;
  cv_carbon_grams_per_hour : f64;
  cv_carbon_intensity : f64;
  cv_cost_per_hour : f64;
  cv_node_count : Z;
  cv_pod_count : Z;
  cv_error_ratio : f64;
  cv_last_seen_secs_ago : Z
}.
Record FleetSummary := {
  fs_total_watts : f64;
  fs_total_cpu_watts : f64;
  fs_total_memory_watts : f64;
  fs_total_gpu_watts : f64;
  fs_total_idle_watts : f64;
  fs_total_carbon_grams_per_hour : f64;
  fs_total_cost_per_hour : f64;
  fs_total_cost_currency : string;
  fs_cluster_count : nat;
  fs_total_nodes : Z;
  fs_total_pods : Z;
  fs_clusters : list ClusterView
}.
Record TeamClusterBreakdown := { tcb_cluster_name : string; tcb_namespace : string; tcb_watts : f64 }.
Record TeamPowerView := {
  tv_team : string;
  tv_total_watts : f64;
  tv_carbon_grams_per_hour : f64;
  tv_cost_per_hour : f64;
  tv_per_cluster : list TeamClusterBreakdown
}.

Record ClusterRegistry := {
  clusters : gmap string ClusterState;
  reg_staleness_threshold : Z;
  reg_history_retention : Z;
  namespace_owners : gmap string string
}.

Definition second : Z := 1000000000.
Definition ClusterRegistry_new : ClusterRegistry :=
  {| clusters := ∅; reg_staleness_threshold := 120 * second;
     reg_history_retention := 86400 * 30 * second; namespace_owners := ∅ |}.

(** ** Panicking comparisons *)

Definition comparable {A} (key : A → f64) (l : list A) : bool :=
  (length l <=? 1)%nat || forallb (λ x, negb (f64_is_nan (key x))) l.

(** [sort_by(|a, b| b.key.partial_cmp(&a.key).unwrap())]. *)
Definition fsort_desc {A} (key : A → f64) (l : list A) : option (list A) :=
  if comparable key l then Some (sort_by (λ a b, negb (fltb (key a) (key b))) l) else None.

(** [min_by(|a, b| a.key.partial_cmp(&b.key).unwrap())]: the first minimum. *)
Definition fmin_by {A} (key : A → f64) (l : list A) : option (option A) :=
  if comparable key l then
    Some (match l with
          | [] => None
          | x :: xs => Some (foldl (λ x y, if fltb (key y) (key x) then y else x) x xs)
          end)
  else None.

(** ** Operations *)

Section registry.
Context `{HI : HashIter}.

(** [ingest] received at [now], trimming against the wall clock [utc_now]. *)
Definition registry_ingest (now utc_now : Z) (report : ClusterReport) (reg : ClusterRegistry) : ClusterRegistry :=
  let ts := cr_timestamp report in
  let cutoff := utc_now - reg_history_retention reg in
  let upd state :=
    {| latest_report := report; cs_received_at := now;
       power_history := filter (λ tv : Z * f64, cutoff <= tv.1) (power_history state ++ [(ts, total_watts (power report))]);
       carbon_history := filter (λ tv : Z * f64, cutoff <= tv.1)
                           (carbon_history state ++ [(ts, emissions_grams_per_hour (carbon report))]) |} in
  let fresh := {| latest_report := report; cs_received_at := now; power_history := []; carbon_history := [] |} in
  {| clusters := hm_upd (cluster_id report) fresh upd (clusters reg);
     reg_staleness_threshold := reg_staleness_threshold reg; reg_history_retention := reg_history_retention reg;
     namespace_owners := namespace_owners reg |}.

Definition set_namespace_owner (namespace team : string) (reg : ClusterRegistry) : ClusterRegistry :=
  {| clusters := clusters reg; reg_staleness_threshold := reg_staleness_threshold reg;
     reg_history_retention := reg_history_retention reg;
     namespace_owners := <[namespace := team]> (namespace_owners reg) |}.

Definition kilo : f64 := f_of_Z 1000.
Definition cost_per_hour (r : ClusterReport) (watts : f64) : f64 := fmul (fdiv watts kilo) (cost_per_kwh (carbon r)).

Definition cluster_view (now : Z) (s : ClusterState) : ClusterView :=
  let r := latest_report s in
  {| cv_cluster_id := cluster_id r; cv_cluster_name := cluster_name r; cv_region := region r;
     cv_total_watts := total_watts (power r); cv_carbon_grams_per_hour := emissions_grams_per_hour (carbon r);
     cv_carbon_intensity := intensity_grams_per_kwh (carbon r);
     cv_cost_per_hour := cost_per_hour r (total_watts (power r)); cv_node_count := cr_node_count r;
     cv_pod_count := cr_pod_count r; cv_error_ratio := avg_error_ratio r;
     cv_last_seen_secs_ago := sat_sub now (cs_received_at s) / second |}.

Definition fleet_summary (now : Z) (reg : ClusterRegistry) : option FleetSummary :=
  let states := hm_values (clusters reg) in
  let rs := latest_report <$> states in
  match fsort_desc cv_total_watts (cluster_view now <$> states) with
  | None => None
  | Some views => Some {|
      fs_total_watts := fsum ((λ r, total_watts (power r)) <$> rs);
      fs_total_cpu_watts := fsum ((λ r, cpu_watts (power r)) <$> rs);
      fs_total_memory_watts := fsum ((λ r, memory_watts (power r)) <$> rs);
      fs_total_gpu_watts := fsum ((λ r, gpu_watts (power r)) <$> rs);
      fs_total_idle_watts := fsum ((λ r, idle_watts (power r)) <$> rs);
      fs_total_carbon_grams_per_hour := fsum ((λ r, emissions_grams_per_hour (carbon r)) <$> rs);
      fs_total_cost_per_hour := fsum ((λ r, cost_per_hour r (total_watts (power r))) <$> rs);
      fs_total_cost_currency := "USD";
      fs_cluster_count := size (clusters reg);
      fs_total_nodes := foldl u32_add 0 (cr_node_count <$> rs);
      fs_total_pods := foldl u32_add 0 (cr_pod_count <$> rs);
      fs_clusters := views |}
  end.

(** The namespaces of the fleet, each with its cluster's report. *)
Definition fleet_namespaces (reg : ClusterRegistry) : list (ClusterReport * NamespaceSummary) :=
  s ← hm_values (clusters reg); ns ← cr_namespaces (latest_report s); [(latest_report s, ns)].
Definition team_of (reg : ClusterRegistry) (rn : ClusterReport * NamespaceSummary) : string :=
  default "unassigned" (namespace_owners reg !! nss_namespace rn.2).
Definition breakdown (rn : ClusterReport * NamespaceSummary) : TeamClusterBreakdown :=
  {| tcb_cluster_name := cluster_name rn.1; tcb_namespace := nss_namespace rn.2; tcb_watts := nss_total_watts rn.2 |}.
Definition team_zero (team : string) : TeamPowerView :=
  {| tv_team := team; tv_total_watts := fzero; tv_carbon_grams_per_hour := fzero; tv_cost_per_hour := fzero;
     tv_per_cluster := [] |}.
Definition team_add (rn : ClusterReport * NamespaceSummary) (v : TeamPowerView) : TeamPowerView :=
  let watts := nss_total_watts rn.2 in
  {| tv_team := tv_team v; tv_total_watts := fadd (tv_total_watts v) watts;
     tv_carbon_grams_per_hour :=
       fadd (tv_carbon_grams_per_hour v) (fmul (fdiv watts kilo) (intensity_grams_per_kwh (carbon rn.1)));
     tv_cost_per_hour := fadd (tv_cost_per_hour v) (cost_per_hour rn.1 watts);
     tv_per_cluster := tv_per_cluster v ++ [breakdown rn] |}.

Definition team_power (reg : ClusterRegistry) : option (list TeamPowerView) :=
  fsort_desc tv_total_watts
    (hm_values (hm_group (team_of reg) (λ rn, team_zero (team_of reg rn)) team_add (fleet_namespaces reg))).

Definition cluster_power_history (id : string) (since : Z) (reg : ClusterRegistry) : list (Z * f64) :=
  match clusters reg !! id with
  | Some s => filter (λ tv : Z * f64, since <= tv.1) (power_history s)
  | None => []
  end.

Definition active (now : Z) (reg : ClusterRegistry) (s : ClusterState) : Prop :=
  sat_sub now (cs_received_at s) < reg_staleness_threshold reg.
#[global] Instance active_dec now reg s : Decision (active now reg s).
Proof. unfold active. apply _. Defined.

Definition active_clusters (now : Z) (reg : ClusterRegistry) : list ClusterReport :=
  latest_report <$> filter (active now reg) (hm_values (clusters reg)).

Definition lowest_carbon_cluster (now : Z) (reg : ClusterRegistry) : option (option ClusterReport) :=
  fmin_by (λ r, intensity_grams_per_kwh (carbon r)) (active_clusters now reg).

Definition registry_evict_stale (now : Z) (reg : ClusterRegistry) : ClusterRegistry :=
  {| clusters := filter (λ kv : string * ClusterState, active now reg kv.2) (clusters reg);
     reg_staleness_threshold := reg_staleness_threshold reg; reg_history_retention := reg_history_retention reg;
     namespace_owners := namespace_owners reg |}.

(** ** Sorting and minima *)

Lemma fsort_desc_spec {A} (key : A → f64) l r : fsort_desc key l = Some r →
  r ≡ₚ l ∧ Sorted (λ a b, fltb (key a) (key b) = false) r.
Proof.
  unfold fsort_desc. destruct (comparable key l); [|done]. intros [= Hr].
  assert (r ≡ₚ l) as Hp by (rewrite <-Hr; apply sort_by_perm). split; [done|].
  assert (Sorted (λ a b, Is_true (negb (fltb (key a) (key b)))) r) as Hs.
  { rewrite <-Hr. apply sort_by_sorted. intros x y Hxy. apply negb_false_iff in Hxy.
    apply negb_true_iff. by apply SFltb_asym. }
  clear Hr Hp. induction Hs as [|x r' Hr IH Hx]; constructor; [done|].
  destruct Hx as [|y r'' Hxy]; constructor. apply Is_true_eq_true in Hxy. by apply negb_true_iff.
Qed.

Lemma fmin_fold {A} (key : A → f64) xs x :
  (∀ y, y ∈ x :: xs → f64_is_nan (key y) = false) →
  let m := foldl (λ x y, if fltb (key y) (key x) then y else x) x xs in
  m ∈ x :: xs ∧ ∀ y, y ∈ x :: xs → fltb (key y) (key m) = false.
Proof.
  revert x. induction xs as [|z xs IH]; intros x Hnan; cbn [foldl].
  { split; [left|]. intros y [->|[]%not_elem_of_nil]%elem_of_cons.
    apply SFltb_irrefl. }
  set (x' := if fltb (key z) (key x) then z else x).
  assert (x' = x ∨ x' = z) as Hx' by (unfold x'; destruct (fltb _ _); auto).
  destruct (IH x') as [Hin Hmin].
  { intros y [->|Hy]%elem_of_cons; apply Hnan; [|right; by right].
    destruct Hx' as [->| ->]; [left|right; left]. }
  cbn zeta in *. split.
  - apply elem_of_cons in Hin as [->|Hin]; [|right; by right].
    destruct Hx' as [->| ->]; [left|right; left].
  - set (m := foldl _ x' xs) in *.
    assert (fltb (key x') (key m) = false) as Hm by (apply Hmin; left).
    assert (f64_is_nan (key x') = false) as Hn'.
    { apply Hnan. destruct Hx' as [->| ->]; [left|right; left]. }
    assert (fltb (key x) (key x') = false ∧ fltb (key z) (key x') = false) as [Hxx Hzx].
    { unfold x'. destruct (fltb (key z) (key x)) eqn:E; split; try done;
        [by apply SFltb_asym|apply SFltb_irrefl|apply SFltb_irrefl]. }
    intros y [->|[->|Hy]%elem_of_cons]%elem_of_cons.
    + by eapply SFltb_neg_trans.
    + by eapply SFltb_neg_trans.
    + apply Hmin. by right.
Qed.

Lemma comparable_spec {A} (key : A → f64) x y l : comparable key (x :: y :: l) = true →
  ∀ z, z ∈ x :: y :: l → f64_is_nan (key z) = false.
Proof.
  unfold comparable. change (length (x :: y :: l) <=? 1)%nat with false. cbn [orb].
  rewrite forallb_forall. intros Hf z Hz. apply negb_true_iff, Hf. by apply list_elem_of_In.
Qed.

(** The comparator meets a NaN, whatever the order of the comparisons. *)
Lemma comparable_false {A} (key : A → f64) l : comparable key l = false ↔
  (2 <= length l)%nat ∧ ∃ x, x ∈ l ∧ f64_is_nan (key x) = true.
Proof.
  unfold comparable. rewrite orb_false_iff, Nat.leb_gt. split; intros [Hlen Hf]; (split; [lia|]).
  - apply not_true_iff_false in Hf. rewrite forallb_forall in Hf.
    destruct (list_find (λ r, f64_is_nan (key r) = true) l) as [[i r]|] eqn:E.
    + apply list_find_Some in E as (Hl & Hn & _). exists r. split; [by eapply list_elem_of_lookup_2|done].
    + exfalso. apply Hf. intros r Hr%list_elem_of_In. apply list_find_None in E.
      rewrite Forall_forall in E. specialize (E r Hr). by destruct (f64_is_nan (key r)).
  - destruct Hf as (x & Hx & Hn). apply not_true_iff_false. rewrite forallb_forall. intros Hall.
    specialize (Hall x). rewrite Hn in Hall. by discriminate Hall; apply list_elem_of_In.
Qed.

(** Carbon-aware routing picks a minimum.  The call panics exactly when two
    or more clusters are fresh (reported within the staleness threshold) and
    one's intensity is NaN; otherwise it returns a fresh cluster such that no
    fresh cluster has a lower carbon intensity, or none when no cluster is
    fresh. *)
Theorem lowest_carbon_minimal now reg :
  (lowest_carbon_cluster now reg = None ↔
     (2 <= length (active_clusters now reg))%nat ∧
     ∃ r, r ∈ active_clusters now reg ∧ f64_is_nan (intensity_grams_per_kwh (carbon r)) = true) ∧
  match lowest_carbon_cluster now reg with
  | Some (Some r) => r ∈ active_clusters now reg ∧ ∀ r', r' ∈ active_clusters now reg →
      fltb (intensity_grams_per_kwh (carbon r')) (intensity_grams_per_kwh (carbon r)) = false
  | Some None => active_clusters now reg = []
  | None => True
  end.
Proof.
  unfold lowest_carbon_cluster, fmin_by. set (key := λ r, intensity_grams_per_kwh (carbon r)).
  split; [etrans; [|exact (comparable_false key _)]; by destruct (comparable key _)|].
  destruct (active_clusters now reg) as [|x [|y l]].
  - done.
  - cbn. split; [left|]. intros r' Hr'. apply list_elem_of_singleton in Hr' as ->.
    apply SFltb_irrefl.
  - destruct (comparable key (x :: y :: l)) eqn:Hc; [|done].
    apply (fmin_fold key (y :: l) x (comparable_spec key x y l Hc)).
Qed.

(** Registering a report sets that cluster's latest report and arrival time,
    appends to its history and trims it to the retention window, and touches no
    other cluster. *)
Theorem registry_ingest_exact now utc_now report reg id :
  clusters (registry_ingest now utc_now report reg) !! id =
    if decide (id = cluster_id report) then
      let old := clusters reg !! id in
      let in_window (tv : Z * f64) := utc_now - reg_history_retention reg <= tv.1 in
      Some {| latest_report := report; cs_received_at := now;
              power_history := filter in_window (from_option power_history [] old
                                 ++ [(cr_timestamp report, total_watts (power report))]);
              carbon_history := filter in_window (from_option carbon_history [] old
                                 ++ [(cr_timestamp report, emissions_grams_per_hour (carbon report))]) |}
    else clusters reg !! id.
Proof.
  unfold registry_ingest, hm_upd. cbn [clusters]. case_decide as Hid.
  - subst id. rewrite lookup_insert_eq. by destruct (clusters reg !! cluster_id report).
  - by rewrite lookup_insert_ne.
Qed.

(** The fleet summary panics exactly when two or more clusters are known and
    one's power is NaN; otherwise it lists every cluster once, largest power
    first, and its totals are the sums over the clusters. *)
Theorem fleet_summary_exact now reg :
  let rs := latest_report <$> hm_values (clusters reg) in
  (fleet_summary now reg = None ↔
     (2 <= size (clusters reg))%nat ∧ ∃ r, r ∈ rs ∧ f64_is_nan (total_watts (power r)) = true) ∧
  ∀ fs, fleet_summary now reg = Some fs →
    fs_clusters fs ≡ₚ cluster_view now <$> (map_to_list (clusters reg)).*2 ∧
    Sorted (λ a b, fltb (cv_total_watts a) (cv_total_watts b) = false) (fs_clusters fs) ∧
    fs_cluster_count fs = length (fs_clusters fs) ∧
    fs_total_watts fs = fsum ((λ r, total_watts (power r)) <$> rs).
Proof.
  intros rs. assert (length (hm_values (clusters reg)) = size (clusters reg)) as Hlen
    by (unfold hm_values; by rewrite length_fmap, length_hm_iter).
  unfold fleet_summary. destruct (fsort_desc _ _) as [views|] eqn:E; (split; [|intros fs; try done]).
  - split; [done|]. intros [Hsz (r & Hr & Hn)]. exfalso.
    apply list_elem_of_fmap in Hr as (st & -> & Hst).
    unfold fsort_desc in E. destruct (comparable _ _) eqn:Hc; [|done].
    apply not_false_iff_true in Hc. apply Hc, comparable_false.
    split; [by rewrite length_fmap, Hlen|]. exists (cluster_view now st).
    split; [apply list_elem_of_fmap; eauto|done].
  - intros Hfs. apply (inj Some) in Hfs as <-. apply fsort_desc_spec in E as [Hp Hs].
    cbn [fs_clusters fs_cluster_count fs_total_watts].
    split; [by rewrite Hp, hm_values_perm|]. split; [done|]. split; [|done].
    by rewrite Hp, length_fmap, Hlen.
  - split; [intros _|done]. unfold fsort_desc in E. destruct (comparable _ _) eqn:Hc; [done|].
    apply comparable_false in Hc as (Hl & v & Hv & Hn). rewrite length_fmap, Hlen in Hl. split; [done|].
    apply list_elem_of_fmap in Hv as (st & -> & Hst). exists (latest_report st).
    split; [apply list_elem_of_fmap; eauto|done].
Qed.

Lemma team_fold_breakdown l v :
  tv_per_cluster (foldl (λ v rn, team_add rn v) v l) = tv_per_cluster v ++ (breakdown <$> l).
Proof.
  revert v. induction l as [|rn l IH]; intros v; cbn; [by rewrite app_nil_r|].
  rewrite IH. cbn. by rewrite <-app_assoc.
Qed.

(** The namespaces a team owns across the fleet, and their power. *)
Definition owned_by (reg : ClusterRegistry) (team : string) : list (ClusterReport * NamespaceSummary) :=
  filter (λ rn, team_of reg rn = team) (fleet_namespaces reg).
Definition team_total (reg : ClusterRegistry) (team : string) : f64 :=
  fsum ((λ rn : ClusterReport * NamespaceSummary, nss_total_watts rn.2) <$> owned_by reg team).
Definition team_groups (reg : ClusterRegistry) : gmap string TeamPowerView :=
  hm_group (team_of reg) (λ rn, team_zero (team_of reg rn)) team_add (fleet_namespaces reg).

Lemma team_groups_elem reg k v : (k, v) ∈ hm_iter (team_groups reg) →
  tv_team v = k ∧ owned_by reg k ≠ [] ∧ tv_per_cluster v = breakdown <$> owned_by reg k ∧ tv_total_watts v = team_total reg k.
Proof.
  intros (x & xs & Hg & ->)%hm_group_elem. unfold team_total, owned_by. unfold group_of in Hg. rewrite Hg.
  assert (x ∈ filter (λ rn, team_of reg rn = k) (fleet_namespaces reg)) as [Hx _]%list_elem_of_filter by (rewrite Hg; left).
  rewrite (foldl_const _ tv_team) by done. rewrite team_fold_breakdown. cbn [tv_team team_zero tv_per_cluster app].
  split; [done|]. split; [done|]. split; [done|]. rewrite Hx. unfold fsum.
  change fzero with (tv_total_watts (team_zero k)) at 1. generalize (team_zero k) (x :: xs). clear.
  intros v l. revert v. induction l as [|rn l IH]; intros v; [done|]. cbn [foldl fmap list_fmap]. by rewrite IH.
Qed.
Lemma team_groups_keys reg : tv_team <$> hm_values (team_groups reg) = hm_keys (team_groups reg).
Proof. by apply hm_group_values_keys. Qed.
Lemma team_groups_has reg team : team ∈ hm_keys (team_groups reg) ↔ ∃ rn, rn ∈ fleet_namespaces reg ∧ team_of reg rn = team.
Proof. rewrite hm_keys_elem. apply hm_group_is_Some. Qed.

(** The team view.  Each team appears once, its breakdown lists exactly the
    namespaces it owns across all clusters (namespaces without an owner belong
    to "unassigned"), and its total is the sum of that breakdown. *)
Theorem team_power_exact reg views : team_power reg = Some views →
  NoDup (tv_team <$> views) ∧
  (∀ rn, rn ∈ fleet_namespaces reg → team_of reg rn ∈ tv_team <$> views) ∧
  ∀ v, v ∈ views →
    tv_per_cluster v = breakdown <$> filter (λ rn, team_of reg rn = tv_team v) (fleet_namespaces reg) ∧
    tv_per_cluster v ≠ [] ∧ tv_total_watts v = fsum (tcb_watts <$> tv_per_cluster v).
Proof.
  intros [Hp _]%fsort_desc_spec. fold (team_groups reg) in Hp.
  split; [rewrite Hp, team_groups_keys; apply hm_keys_NoDup|]. split.
  - intros rn Hrn. rewrite Hp, team_groups_keys. apply team_groups_has. eauto.
  - intros v Hv. rewrite Hp in Hv. unfold hm_values in Hv. apply list_elem_of_fmap in Hv as ([k v'] & -> & Hin). cbn [snd].
    apply team_groups_elem in Hin as (-> & Hne & -> & ->). split; [done|].
    split; [by intros Hnil%fmap_nil_inv|]. unfold team_total. by rewrite <-list_fmap_compose.
Qed.
End registry.

(** ** Witnesses *)

#[local] Existing Instance hash_iter_list.

Definition demo_cluster (id : string) (watts intensity : f64) (nss : list (string * Z)) : ClusterReport :=
  {| cluster_id := id; cluster_name := id; region := "r"; provider := "p";
     power := {| total_watts := watts; cpu_watts := watts; memory_watts := fzero; gpu_watts := fzero;
                 idle_watts := fzero; platform_watts := None |};
     cr_namespaces := (λ nw, {| nss_namespace := nw.1; nss_total_watts := f_of_Z nw.2; nss_pod_count := 1 |}) <$> nss;
     carbon := {| intensity_grams_per_kwh := intensity; emissions_grams_per_hour := fzero; cost_per_kwh := f_lit 1 10;
                  currency := "USD" |};
     cr_node_count := 1; cr_pod_count := 1; avg_error_ratio := fzero; cr_timestamp := 0 |}.
Definition demo_registry : ClusterRegistry :=
  set_namespace_owner "shop" "web"
    (registry_ingest 0 0 (demo_cluster "b" (f_of_Z 50) (f_of_Z 300) [("shop", 20); ("db", 30)])
      (registry_ingest 0 0 (demo_cluster "a" (f_of_Z 40) (f_of_Z 100) [("shop", 5)]) ClusterRegistry_new)).

Definition demo_teams : option (list TeamPowerView) := team_power demo_registry.
Lemma team_power_exact_witness :
  match demo_teams with
  | Some views => tv_team <$> views = ["unassigned"; "web"] ∧
      Forall (λ v, tv_total_watts v = fsum (tcb_watts <$> tv_per_cluster v)) views
  | None => False
  end.
Proof.
  assert (option_map (map tv_team) demo_teams = Some ["unassigned"; "web"]) as Hc by (vm_compute; reflexivity).
  destruct demo_teams as [views|] eqn:E; [|done]. injection Hc as Hc. split; [exact Hc|].
  apply Forall_forall. intros v Hv. apply (team_power_exact demo_registry views E) in Hv as (_ & _ & Hw). exact Hw.
Defined.
(** Two fresh clusters, one reporting NaN: routing panics. *)
Example lowest_carbon_panics :
  lowest_carbon_cluster 0
    (registry_ingest 0 0 (demo_cluster "c" fzero S754_nan []) demo_registry) = None ∧
  option_map (option_map cluster_id) (lowest_carbon_cluster 0 demo_registry) = Some (Some "a").
Proof. by vm_compute. Qed.
