(* ===== verification/Policy.v ===== *)
(** * Policy: checking the fleet against its policies

    keck-fleet/src/policy/mod.rs over the registry's interface.  A violation's
    message is kept as the name it is about (team, namespace in cluster, or
    cluster); the rest of the text is in the other fields. *)

From S2P Require Import Prelude F64 Registry.

Open Scope Z_scope.

Inductive PolicyKind :=
| TeamPowerBudget (team : string) (max_watts : f64)
| NamespaceCarbonBudget (namespace : string) (max_grams_per_month : f64)
| MeteringQuality (max_error_ratio : f64)
| CarbonIntensityPreference (max_grams_per_kwh : f64)
| ClusterStaleness (max_stale_secs : Z).
Inductive Severity := Info | Warning | Critical.
Record Policy := { policy_name : string; kind : PolicyKind; severity : Severity; enabled : bool }.

Inductive Subject :=
| AboutTeam (team : string)
| AboutNamespace (namespace cluster : string)
| AboutCluster (cluster : string).
Record PolicyViolation := {
  v_policy_name : string;
  v_severity : Severity;
  v_subject : Subject;
  current_value : f64;
  threshold : f64;
  v_timestamp : Z
}.

Section policy.
Context `{HI : HashIter}.

Definition mk_violation (utc_now : Z) (p : Policy) (subject : Subject) (current limit : f64) : PolicyViolation :=
  {| v_policy_name := policy_name p; v_severity := severity p; v_subject := subject; current_value := current;
     threshold := limit; v_timestamp := utc_now |}.

(** watts / 1000 * 24 * 30.44 * intensity. *)
Definition carbon_per_month (watts intensity : f64) : f64 :=
  fmul (fmul (fmul (fdiv watts (f_of_Z 1000)) (f_of_Z 24)) (f_lit 3044 100)) intensity.

(** One enabled policy; [None] is a panic of the registry's sorting. *)
Definition evaluate_kind (now utc_now : Z) (reg : ClusterRegistry) (p : Policy) : option (list PolicyViolation) :=
  match kind p with
  | TeamPowerBudget team max_watts =>
      match team_power reg with
      | None => None
      | Some views =>
          Some (match list_find_p (λ v, String.eqb (tv_team v) team) views with
                | Some view => if fltb max_watts (tv_total_watts view)
                               then [mk_violation utc_now p (AboutTeam team) (tv_total_watts view) max_watts] else []
                | None => []
                end)
      end
  | NamespaceCarbonBudget namespace max_grams =>
      Some (cluster ← active_clusters now reg;
            match list_find_p (λ n, String.eqb (nss_namespace n) namespace) (cr_namespaces cluster) with
            | Some ns =>
                let c := carbon_per_month (nss_total_watts ns) (intensity_grams_per_kwh (carbon cluster)) in
                if fltb max_grams c
                then [mk_violation utc_now p (AboutNamespace namespace (cluster_name cluster)) c max_grams] else []
            | None => []
            end)
  | MeteringQuality max_error =>
      Some (cluster ← active_clusters now reg;
            if fltb max_error (avg_error_ratio cluster)
            then [mk_violation utc_now p (AboutCluster (cluster_name cluster)) (avg_error_ratio cluster) max_error] else [])
  | CarbonIntensityPreference max_grams =>
      Some (cluster ← active_clusters now reg;
            if fltb max_grams (intensity_grams_per_kwh (carbon cluster))
            then [mk_violation utc_now p (AboutCluster (cluster_name cluster))
                    (intensity_grams_per_kwh (carbon cluster)) max_grams] else [])
  | ClusterStaleness max_secs =>
      match fleet_summary now reg with
      | None => None
      | Some fs =>
          Some (cluster ← fs_clusters fs;
                if max_secs <? cv_last_seen_secs_ago cluster
                then [mk_violation utc_now p (AboutCluster (cv_cluster_name cluster))
                        (f_of_Z (cv_last_seen_secs_ago cluster)) (f_of_Z max_secs)] else [])
      end
  end.

Fixpoint evaluate (now utc_now : Z) (reg : ClusterRegistry) (policies : list Policy) : option (list PolicyViolation) :=
  match policies with
  | [] => Some []
  | p :: ps =>
      if enabled p then
        match evaluate_kind now utc_now reg p with
        | None => None
        | Some vs => (λ rest, vs ++ rest) <$> evaluate now utc_now reg ps
        end
      else evaluate now utc_now reg ps
  end.

(** ** What a violation means *)

(** Policy [p] is broken, with the given subject and measured value. *)
Definition breaks (now : Z) (reg : ClusterRegistry) (p : Policy) (s : Subject) (value limit : f64) : Prop :=
  match kind p with
  | TeamPowerBudget team max_watts => limit = max_watts ∧ s = AboutTeam team ∧ fltb max_watts value = true ∧
      ∃ views v, team_power reg = Some views ∧ v ∈ views ∧ tv_team v = team ∧ value = tv_total_watts v
  | NamespaceCarbonBudget namespace max_grams => limit = max_grams ∧ fltb max_grams value = true ∧
      ∃ r ns, r ∈ active_clusters now reg ∧ s = AboutNamespace namespace (cluster_name r) ∧
        list_find_p (λ n, String.eqb (nss_namespace n) namespace) (cr_namespaces r) = Some ns ∧
        value = carbon_per_month (nss_total_watts ns) (intensity_grams_per_kwh (carbon r))
  | MeteringQuality max_error => limit = max_error ∧ fltb max_error value = true ∧
      ∃ r, r ∈ active_clusters now reg ∧ s = AboutCluster (cluster_name r) ∧ value = avg_error_ratio r
  | CarbonIntensityPreference max_grams => limit = max_grams ∧ fltb max_grams value = true ∧
      ∃ r, r ∈ active_clusters now reg ∧ s = AboutCluster (cluster_name r) ∧
        value = intensity_grams_per_kwh (carbon r)
  | ClusterStaleness max_secs => limit = f_of_Z max_secs ∧
      ∃ st, st ∈ hm_values (clusters reg) ∧ s = AboutCluster (cluster_name (latest_report st)) ∧
        let age := sat_sub now (cs_received_at st) / second in max_secs < age ∧ value = f_of_Z age
  end.

Lemma elem_of_bind_if {A B} (l : list A) (b : A → bool) (f : A → B) y :
  (y ∈ (x ← l; if b x then [f x] else [])) ↔ ∃ x, x ∈ l ∧ b x = true ∧ y = f x.
Proof.
  rewrite list_elem_of_bind. split.
  - intros (x & Hy & Hx). exists x. destruct (b x); [|by apply not_elem_of_nil in Hy].
    by apply list_elem_of_singleton in Hy.
  - intros (x & Hx & Hb & ->). exists x. rewrite Hb. split; [left|done].
Qed.

Lemma evaluate_kind_spec now utc_now reg p vs v : evaluate_kind now utc_now reg p = Some vs →
  (∀ views, team_power reg = Some views → NoDup (tv_team <$> views)) →
  v ∈ vs ↔ ∃ s x lim, v = mk_violation utc_now p s x lim ∧ breaks now reg p s x lim.
Proof.
  intros Hev Hnd. unfold evaluate_kind, breaks in *. destruct (kind p) as [team mw|ns mg|me|mg|ms].
  - destruct (team_power reg) as [views|]; [|done]. apply (inj Some) in Hev as <-.
    pose proof (list_find_p_key tv_team team views (Hnd views eq_refl)) as Hfind. split.
    + destruct (list_find_p _ views) as [view|] eqn:Hf; [|by intros ?%not_elem_of_nil].
      destruct (proj1 (Hfind view) eq_refl) as [Hin Ht].
      destruct (fltb mw (tv_total_watts view)) eqn:Hlt; [|by intros ?%not_elem_of_nil].
      intros Hv. apply list_elem_of_singleton in Hv as ->. do 3 eexists. repeat (split; [done|]). eauto 6.
    + intros (s & x & lim & -> & -> & -> & Hlt & views' & w & [= <-] & Hin & Ht & ->).
      rewrite (proj2 (Hfind w) (conj Hin Ht)), Hlt. left.
  - apply (inj Some) in Hev as <-. rewrite list_elem_of_bind. split.
    + intros (r & Hv & Hr). destruct (list_find_p _ (cr_namespaces r)) as [n|] eqn:Hf; [|by apply not_elem_of_nil in Hv].
      cbn zeta in Hv. destruct (fltb mg _) eqn:Hlt; [|by apply not_elem_of_nil in Hv].
      apply list_elem_of_singleton in Hv as ->. do 3 eexists. split; [done|]. split; [done|]. split; [exact Hlt|]. eauto 6.
    + intros (s & x & lim & -> & -> & Hlt & r & n & Hr & -> & Hf & ->). exists r. rewrite Hf. cbn zeta. rewrite Hlt. split; [left|done].
  - apply (inj Some) in Hev as <-. rewrite elem_of_bind_if. split.
    + intros (r & Hr & Hb & ->). do 3 eexists. split; [done|]. split; [done|]. split; [exact Hb|]. eauto.
    + intros (s & x & lim & -> & -> & Hlt & r & Hr & -> & ->). eauto.
  - apply (inj Some) in Hev as <-. rewrite elem_of_bind_if. split.
    + intros (r & Hr & Hb & ->). do 3 eexists. split; [done|]. split; [done|]. split; [exact Hb|]. eauto.
    + intros (s & x & lim & -> & -> & Hlt & r & Hr & -> & ->). eauto.
  - unfold fleet_summary in Hev. destruct (fsort_desc _ _) as [views|] eqn:Hs; [|done]. apply (inj Some) in Hev as <-.
    apply fsort_desc_spec in Hs as [Hp _]. cbn [fs_clusters]. rewrite elem_of_bind_if. split.
    + intros (c & Hc & Hb%Z.ltb_lt & ->). rewrite Hp in Hc. apply list_elem_of_fmap in Hc as (st & -> & Hst).
      do 3 eexists. split; [done|]. split; [done|]. exists st. done.
    + intros (s & x & lim & -> & -> & st & Hst & -> & Hlt & ->). exists (cluster_view now st). split.
      * rewrite Hp. apply list_elem_of_fmap. eauto.
      * split; [|done]. cbn. by apply Z.ltb_lt.
Qed.

Lemma team_views_NoDup reg views : team_power reg = Some views → NoDup (tv_team <$> views).
Proof.
  intros [Hp _]%fsort_desc_spec. set (m := hm_group _ _ _ _) in *.
  assert (tv_team <$> hm_values m = hm_keys m) as Hk by (by apply hm_group_values_keys).
  rewrite Hp, Hk. apply hm_keys_NoDup.
Qed.

(** The registry call an enabled policy makes panics. *)
Definition policy_panics (now : Z) (reg : ClusterRegistry) (p : Policy) : Prop :=
  match kind p with
  | TeamPowerBudget _ _ => team_power reg = None
  | ClusterStaleness _ => fleet_summary now reg = None
  | _ => False
  end.

Lemma evaluate_kind_None now utc_now reg p : evaluate_kind now utc_now reg p = None ↔ policy_panics now reg p.
Proof.
  unfold evaluate_kind, policy_panics. destruct (kind p); try done.
  - by destruct (team_power reg).
  - by destruct (fleet_summary now reg).
Qed.

Lemma evaluate_None now utc_now reg policies : evaluate now utc_now reg policies = None ↔
  ∃ p, p ∈ policies ∧ enabled p = true ∧ policy_panics now reg p.
Proof.
  induction policies as [|p ps IH]; cbn.
  { split; [done|]. by intros (p & ?%not_elem_of_nil & _). }
  assert (∀ P : Policy → Prop, (∃ q, q ∈ p :: ps ∧ P q) ↔ P p ∨ ∃ q, q ∈ ps ∧ P q) as Hcons.
  { intros P. setoid_rewrite elem_of_cons. naive_solver. }
  rewrite (Hcons (λ q, enabled q = true ∧ policy_panics now reg q)), <-IH, <-(evaluate_kind_None now utc_now).
  destruct (enabled p); [|naive_solver].
  destruct (evaluate_kind now utc_now reg p); [|naive_solver].
  rewrite fmap_None. naive_solver.
Qed.

Lemma evaluate_Some now utc_now reg policies vs : evaluate now utc_now reg policies = Some vs →
  ∀ v, v ∈ vs ↔ ∃ p s x lim, p ∈ policies ∧ enabled p = true ∧ breaks now reg p s x lim ∧
    v = mk_violation utc_now p s x lim.
Proof.
  revert vs. induction policies as [|p ps IH]; intros vs; cbn.
  { intros [= <-] v. split; [by intros ?%not_elem_of_nil|]. intros (p & _ & _ & _ & Hp & _). by apply not_elem_of_nil in Hp. }
  destruct (enabled p) eqn:He; cycle 1.
  { intros Hev v. rewrite (IH vs Hev). split; intros (q & s & x & lim & Hq & Hen & ?).
    - exists q, s, x, lim. split; [by right|done].
    - apply elem_of_cons in Hq as [->|Hq]; [congruence|]. by exists q, s, x, lim. }
  destruct (evaluate_kind now utc_now reg p) as [vp|] eqn:Hk; [|done].
  destruct (evaluate now utc_now reg ps) as [rest|] eqn:Hr; [|done]. intros [= <-] v.
  pose proof (evaluate_kind_spec now utc_now reg p vp v Hk (team_views_NoDup reg)) as Hspec.
  rewrite elem_of_app, Hspec, (IH rest eq_refl). split.
  - intros [(s & x & lim & -> & Hb)|(q & s & x & lim & Hq & ?)].
    + exists p, s, x, lim. split; [left|done].
    + exists q, s, x, lim. split; [by right|done].
  - intros (q & s & x & lim & Hq & Hen & Hb & ->). apply elem_of_cons in Hq as [->|Hq]; [left|right].
    + by exists s, x, lim.
    + by exists q, s, x, lim.
Qed.

(** C34: policy evaluation is sound and complete.  It panics exactly when an
    enabled team budget or staleness policy makes the registry sort a NaN;
    otherwise the violations reported are exactly those of the enabled policies,
    each with the subject, the measured value above the limit, and the policy's
    name and severity. *)
Theorem evaluate_exact now utc_now reg policies :
  (evaluate now utc_now reg policies = None ↔
     ∃ p, p ∈ policies ∧ enabled p = true ∧ policy_panics now reg p) ∧
  ∀ vs, evaluate now utc_now reg policies = Some vs →
    ∀ v, v ∈ vs ↔ ∃ p s x lim, p ∈ policies ∧ enabled p = true ∧ breaks now reg p s x lim ∧
      v = mk_violation utc_now p s x lim.
Proof. split; [apply evaluate_None|apply evaluate_Some]. Qed.
End policy.

#[local] Existing Instance hash_iter_list.
Definition demo_policies : list Policy :=
  [{| policy_name := "team"; kind := TeamPowerBudget "web" (f_of_Z 20); severity := Warning; enabled := true |};
   {| policy_name := "off"; kind := CarbonIntensityPreference fzero; severity := Info; enabled := false |};
   {| policy_name := "green"; kind := CarbonIntensityPreference (f_of_Z 200); severity := Critical; enabled := true |}].
Definition demo_violations : option (list PolicyViolation) := evaluate 0 0 demo_registry demo_policies.
Lemma evaluate_exact_witness :
  match demo_violations with
  | Some vs => v_policy_name <$> vs = ["team"; "green"] ∧
      ∀ v, v ∈ vs ↔ ∃ p s x lim, p ∈ demo_policies ∧ enabled p = true ∧ breaks 0 demo_registry p s x lim ∧
        v = mk_violation 0 p s x lim
  | None => False
  end.
Proof.
  assert (option_map (map v_policy_name) demo_violations = Some ["team"; "green"]) as Hc by (vm_compute; reflexivity).
  destruct demo_violations as [vs|] eqn:E; [|done]. injection Hc as Hc. split; [exact Hc|].
  exact (proj2 (evaluate_exact 0 0 demo_registry demo_policies) vs E).
Defined.
