(* ===== verification/Reporting.v ===== *)
(** * Reporting: the fleet's daily report

    keck-fleet/src/reporting/mod.rs.  The two clocks it reads and the rendering
    of the time in the report's id (chrono's) are arguments; [None] is the panic
    of the registry's sorting. *)

From S2P Require Import Prelude F64 Registry.
From Stdlib Require Import SpecFloat.

Open Scope Z_scope.

Inductive ReportType := DailySummary | MonthlyESG | OnDemandAudit.
Record FleetPeriodSummary := {
  fp_energy_kwh : f64;
  fp_carbon_kg : f64;
  fp_cost : f64;
  fp_cost_currency : string;
  fp_avg_power_watts : f64;
  fp_peak_power_watts : f64;
  fp_avg_carbon_intensity : f64
}.
Record ClusterPeriodSummary := {
  cp_cluster_name : string;
  cp_region : string;
  cp_energy_kwh : f64;
  cp_carbon_kg : f64;
  cp_cost : f64;
  cp_avg_power_watts : f64
}.
Record TeamPeriodSummary := {
  tp_team : string;
  tp_energy_kwh : f64;
  tp_carbon_kg : f64;
  tp_cost : f64;
  tp_namespace_count : nat
}.
Record ReportData := {
  rd_fleet : FleetPeriodSummary;
  rd_clusters : list ClusterPeriodSummary;
  rd_teams : list TeamPeriodSummary
}.
Record Report := {
  rp_id : string;
  rp_type : ReportType;
  rp_generated_at : Z;
  rp_period_start : Z;
  rp_period_end : Z;
  rp_data : ReportData
}.

(** ** Extrapolation from current power to a day *)

Definition hours : f64 := f_of_Z 24.
Definition day_energy (watts : f64) : f64 := fmul (fdiv watts kilo) hours.
Definition day_carbon (grams_per_hour : f64) : f64 := fdiv (fmul grams_per_hour hours) kilo.
Definition day_cost (per_hour : f64) : f64 := fmul per_hour hours.

Definition cluster_period (c : ClusterView) : ClusterPeriodSummary :=
  {| cp_cluster_name := cv_cluster_name c; cp_region := cv_region c; cp_energy_kwh := day_energy (cv_total_watts c);
     cp_carbon_kg := day_carbon (cv_carbon_grams_per_hour c); cp_cost := day_cost (cv_cost_per_hour c);
     cp_avg_power_watts := cv_total_watts c |}.
Definition team_period (t : TeamPowerView) : TeamPeriodSummary :=
  {| tp_team := tv_team t; tp_energy_kwh := day_energy (tv_total_watts t);
     tp_carbon_kg := day_carbon (tv_carbon_grams_per_hour t); tp_cost := day_cost (tv_cost_per_hour t);
     tp_namespace_count := length (tv_per_cluster t) |}.

Section reporting.
Context `{HI : HashIter}.
Variable format_time : Z → string.

Definition fleet_period (fleet : FleetSummary) : FleetPeriodSummary :=
  let energy := day_energy (fs_total_watts fleet) in
  let carbon := day_carbon (fs_total_carbon_grams_per_hour fleet) in
  {| fp_energy_kwh := energy; fp_carbon_kg := carbon; fp_cost := day_cost (fs_total_cost_per_hour fleet);
     fp_cost_currency := fs_total_cost_currency fleet; fp_avg_power_watts := fs_total_watts fleet;
     fp_peak_power_watts := fs_total_watts fleet;
     fp_avg_carbon_intensity := if fltb fzero energy then fdiv (fmul carbon kilo) energy else fzero |}.

Definition generate_daily_report (now instant : Z) (reg : ClusterRegistry) : option Report :=
  fleet ← fleet_summary instant reg;
  teams ← team_power reg;
  Some {| rp_id := String.append "daily-" (format_time now); rp_type := DailySummary; rp_generated_at := now;
          rp_period_start := now - 24 * 3600 * second; rp_period_end := now;
          rp_data := {| rd_fleet := fleet_period fleet; rd_clusters := cluster_period <$> fs_clusters fleet;
                        rd_teams := team_period <$> teams |} |}.

(** The generator's loop: the first report after a minute, then one a day; it
    ends only when a report panics.  [states] are the registry and the clocks at
    the successive turns. *)
Fixpoint run_report_generator (states : list (Z * Z * ClusterRegistry)) : list Report * bool :=
  match states with
  | [] => ([], true)
  | (now, instant, reg) :: states' =>
      match generate_daily_report now instant reg with
      | None => ([], false)
      | Some r => let '(rs, alive) := run_report_generator states' in (r :: rs, alive)
      end
  end.

(** ** What the report contains *)

Lemma fsort_desc_None {A} (key : A → f64) l : fsort_desc key l = None ↔
  (2 <= length l)%nat ∧ ∃ x, x ∈ l ∧ f64_is_nan (key x) = true.
Proof. rewrite <-comparable_false. unfold fsort_desc. by destruct (comparable key l). Qed.
(** No cluster's power and no team's total is NaN. *)
Definition figures_ok (reg : ClusterRegistry) : Prop :=
  (∀ id st, clusters reg !! id = Some st → f64_is_nan (total_watts (power (latest_report st))) = false) ∧
  ∀ rn, rn ∈ fleet_namespaces reg → f64_is_nan (team_total reg (team_of reg rn)) = false.

(** A figure of every cluster's latest report, added up. *)
Definition fleet_total (figure : ClusterReport → f64) (reg : ClusterRegistry) : f64 :=
  fsum (figure <$> (latest_report <$> hm_values (clusters reg))).
Lemma fleet_summary_produced instant reg : figures_ok reg → ∃ fs, fleet_summary instant reg = Some fs ∧
  fs_clusters fs ≡ₚ cluster_view instant <$> hm_values (clusters reg) ∧
  fs_total_watts fs = fleet_total (λ r, total_watts (power r)) reg ∧
  fs_total_carbon_grams_per_hour fs = fleet_total (λ r, emissions_grams_per_hour (carbon r)) reg ∧
  fs_total_cost_per_hour fs = fleet_total (λ r, cost_per_hour r (total_watts (power r))) reg.
Proof.
  intros [Hc _]. unfold fleet_summary. destruct (fsort_desc _ _) as [views|] eqn:E.
  - eexists. split; [done|]. split; [|done]. by apply fsort_desc_spec in E as [Hp _].
  - apply fsort_desc_None in E as (_ & v & (st & -> & [id Hid]%hm_values_elem)%list_elem_of_fmap & Hn).
    cbn in Hn. by rewrite (Hc id st Hid) in Hn.
Qed.
Lemma team_power_produced reg : figures_ok reg → ∃ ts, team_power reg = Some ts ∧ ts ≡ₚ hm_values (team_groups reg).
Proof.
  intros [_ Ht]. unfold team_power. fold (team_groups reg). destruct (fsort_desc _ _) as [ts|] eqn:E.
  - eexists. split; [done|]. by apply fsort_desc_spec in E as [Hp _].
  - apply fsort_desc_None in E as (_ & v & ([k v'] & -> & Hin)%list_elem_of_fmap & Hn).
    apply team_groups_elem in Hin as (_ & Hne & _ & Hw). cbn [snd] in Hn. rewrite Hw in Hn.
    destruct (owned_by reg k) as [|rn l] eqn:E; [done|].
    assert (rn ∈ owned_by reg k) as [Hk Hrn]%list_elem_of_filter by (rewrite E; left).
    specialize (Ht rn Hrn). rewrite Hk in Ht. congruence.
Qed.

(** C35: the daily report.  It covers the 24 hours up to its generation; it is
    produced whenever no cluster's power and no team's total is NaN; the fleet's
    energy, carbon and cost are the totals over the clusters' latest reports and
    24 hours; its clusters are the fleet's, each once, with the energy of its
    latest power over 24 hours; its teams are those of the owned namespaces, each
    once, with as many namespaces as the team owns on all clusters and the energy
    of its total over 24 hours. *)
Theorem daily_report_exact now instant reg : figures_ok reg →
  let over_a_day (x : f64) := fmul x (f_of_Z 24) in
  let thousandth (x : f64) := fdiv x (f_of_Z 1000) in
  ∃ r, generate_daily_report now instant reg = Some r ∧
    rp_period_end r = now ∧ rp_period_end r - rp_period_start r = 24 * 3600 * second ∧
    fp_energy_kwh (rd_fleet (rp_data r)) = over_a_day (thousandth (fleet_total (λ c, total_watts (power c)) reg)) ∧
    fp_carbon_kg (rd_fleet (rp_data r)) = thousandth (over_a_day (fleet_total (λ c, emissions_grams_per_hour (carbon c)) reg)) ∧
    fp_cost (rd_fleet (rp_data r)) = over_a_day (fleet_total (λ c, cost_per_hour c (total_watts (power c))) reg) ∧
    (λ c, (cp_cluster_name c, cp_region c, cp_energy_kwh c)) <$> rd_clusters (rp_data r) ≡ₚ
      (λ st, let c := latest_report st in (cluster_name c, region c, over_a_day (thousandth (total_watts (power c))))) <$>
        (map_to_list (clusters reg)).*2 ∧
    NoDup (tp_team <$> rd_teams (rp_data r)) ∧
    (∀ team, team ∈ tp_team <$> rd_teams (rp_data r) ↔ ∃ rn, rn ∈ fleet_namespaces reg ∧ team_of reg rn = team) ∧
    ∀ t, t ∈ rd_teams (rp_data r) → tp_namespace_count t = length (owned_by reg (tp_team t)) ∧
      tp_energy_kwh t = over_a_day (thousandth (team_total reg (tp_team t))).
Proof.
  intros Hok. cbn zeta. unfold generate_daily_report.
  destruct (fleet_summary_produced instant reg Hok) as (fs & -> & Hperm & Hw & Hc & Hp).
  destruct (team_power_produced reg Hok) as (ts & -> & Hts). eexists. split; [done|].
  cbn [rp_data rd_fleet rd_clusters rd_teams rp_period_end rp_period_start fleet_period fp_energy_kwh fp_carbon_kg fp_cost].
  rewrite Hw, Hc, Hp. split; [done|]. split; [lia|]. do 3 (split; [done|]).
  split; [by rewrite Hperm, hm_values_perm, <-!list_fmap_compose|]. clear Hw Hp.
  assert (tp_team <$> (team_period <$> ts) ≡ₚ hm_keys (team_groups reg)) as Hkeys.
  { rewrite <-list_fmap_compose. change (tp_team ∘ team_period) with tv_team. by rewrite Hts, team_groups_keys. }
  split; [rewrite Hkeys; apply hm_keys_NoDup|]. split; [intros team; rewrite Hkeys; apply team_groups_has|].
  intros t (v & -> & Hv)%list_elem_of_fmap. rewrite Hts in Hv. unfold hm_values in Hv.
  apply list_elem_of_fmap in Hv as ([k v'] & -> & Hin). apply team_groups_elem in Hin as (Hk & _ & Hb & Hw). cbn.
  by rewrite Hk, Hb, Hw, length_fmap.
Qed.
End reporting.

(** ** Witnesses *)

#[local] Existing Instance hash_iter_list.

Lemma daily_report_exact_witness :
  match generate_daily_report (λ _, "20240101-000000") (100000 * second) 0 demo_registry with
  | Some r => rp_period_start r = 13600 * second ∧
      ((λ t, (tp_team t, tp_namespace_count t)) <$> rd_teams (rp_data r) = [("unassigned", 1%nat); ("web", 2%nat)])
  | None => False
  end.
Proof.
  destruct (daily_report_exact (λ _, "20240101-000000") (100000 * second) 0 demo_registry) as (r & Hr & He & Hp & _).
  - split.
    + intros id st Hst%elem_of_map_to_list.
      assert (Forall (λ kv : string * ClusterState, f64_is_nan (total_watts (power (latest_report kv.2))) = false)
                (map_to_list (clusters demo_registry))) as Hall by (repeat constructor).
      rewrite Forall_forall in Hall. exact (Hall (id, st) Hst).
    + assert (Forall (λ rn, f64_is_nan (team_total demo_registry (team_of demo_registry rn)) = false)
                (fleet_namespaces demo_registry)) as Hall by (repeat constructor).
      rewrite Forall_forall in Hall. exact Hall.
  - rewrite Hr. split; [rewrite He in Hp; lia|]. vm_compute in Hr. injection Hr as <-. vm_compute. reflexivity.
Defined.
(** One cluster whose power is NaN stops the generator for good, once there are
    two of them. *)
Example nan_stops_reports :
  run_report_generator (λ _, "t")
    [(0, 0, demo_registry); (1, 1, registry_ingest 0 0 (demo_cluster "c" S754_nan fzero []) demo_registry); (2, 2, demo_registry)]
  = (option_list (generate_daily_report (λ _, "t") 0 0 demo_registry), false).
Proof. by vm_compute. Qed.
