(* ===== verification/Fleet.v ===== *)
(** * Fleet: the fleet manager as it runs

    keck-fleet/src/main.rs and the two loops it spawns: [run_policy_engine] of
    policy/mod.rs, which sleeps thirty seconds and then checks two built-in
    policies, over and over, and [run_report_generator] of reporting/mod.rs.  Each
    turn of a loop sees the registry as it is at that moment, so a run is a list
    of turns with registries.
    The two servers main.rs spawns are stubs that log and sleep.  When a turn
    panics its task ends, and with it the select of main: the manager exits. *)

From S2P Require Import Prelude F64 Registry Policy Reporting.

Open Scope Z_scope.

(** The policies the engine starts with. *)
Definition builtin_policies : list Policy :=
  [{| policy_name := "metering-quality"; kind := MeteringQuality (f_lit 20 100); severity := Warning; enabled := true |};
   {| policy_name := "cluster-staleness"; kind := ClusterStaleness 120; severity := Critical; enabled := true |}].

Section fleet.
Context `{HI : HashIter}.

Definition eval_interval : Z := 30 * second.
(** A round of the engine: how long after the end of the sleep the registry is
    read (waking up, the lock, and the work of the round before), the wall clock
    and the registry then. *)
Record PolicyRound := { pr_delay : Z; pr_utc : Z; pr_registry : ClusterRegistry }.
(** From time [t]: the violations logged, with the time of their round, and
    whether the loop is still running. *)
Fixpoint run_policy_engine (t : Z) (rounds : list PolicyRound) : list (Z * list PolicyViolation) * bool :=
  match rounds with
  | [] => ([], true)
  | r :: rounds' =>
      let now := t + eval_interval + pr_delay r in
      match evaluate now (pr_utc r) (pr_registry r) builtin_policies with
      | None => ([], false)
      | Some vs => let '(log, running) := run_policy_engine now rounds' in ((now, vs) :: log, running)
      end
  end.

(** The manager: policy and report turns interleaved. *)
Inductive FleetTurn := PolicyTurn (now utc_now : Z) | ReportTurn (now instant : Z).
Inductive FleetOutput := Violations (vs : list PolicyViolation) | Generated (r : Report).
Variable format_time : Z → string.
Definition fleet_turn (t : FleetTurn) (reg : ClusterRegistry) : option FleetOutput :=
  match t with
  | PolicyTurn now utc_now => Violations <$> evaluate now utc_now reg builtin_policies
  | ReportTurn now instant => Generated <$> generate_daily_report format_time now instant reg
  end.
Fixpoint run_fleet (turns : list (FleetTurn * ClusterRegistry)) : list FleetOutput * bool :=
  match turns with
  | [] => ([], true)
  | (t, reg) :: turns' =>
      match fleet_turn t reg with
      | None => ([], false)
      | Some o => let '(log, running) := run_fleet turns' in (o :: log, running)
      end
  end.
(** [main]: no task of it writes the registry it creates. *)
Definition fleet_main (turns : list FleetTurn) : list FleetOutput * bool :=
  run_fleet ((λ t, (t, ClusterRegistry_new)) <$> turns).

(** ** Staying up *)

Lemma evaluate_builtin now utc_now reg : figures_ok reg → is_Some (evaluate now utc_now reg builtin_policies).
Proof.
  intros Hok. apply not_eq_None_Some. intros (p & Hp & _ & Hpan)%evaluate_None.
  unfold builtin_policies in Hp. rewrite !elem_of_cons in Hp. destruct Hp as [->|[->|Hp]]; [done| |by apply elem_of_nil in Hp].
  cbn in Hpan. destruct (fleet_summary_produced now reg Hok) as (fs & Hfs & _). congruence.
Qed.
(** Without NaN figures the manager never exits, and every turn is answered. *)
Lemma fleet_stays_up turns : Forall (λ tr, figures_ok tr.2) turns →
  (run_fleet turns).2 = true ∧ length (run_fleet turns).1 = length turns.
Proof.
  induction 1 as [|[t reg] turns Hok _ [IH1 IH2]]; [done|]. cbn [run_fleet]. cbn in Hok.
  assert (is_Some (fleet_turn t reg)) as [o ->].
  { destruct t as [now utc|now instant]; cbn; apply fmap_is_Some; [by apply evaluate_builtin|].
    unfold generate_daily_report. destruct (fleet_summary_produced instant reg Hok) as (fs & -> & _).
    destruct (team_power_produced reg Hok) as (ts & -> & _). eauto. }
  destruct (run_fleet turns) as [log running]. cbn in *. auto.
Qed.

(** ** Silent clusters *)

(** Alert of the built-in staleness policy about a cluster. *)
Definition staleness_alert (utc_now age : Z) (name : string) : PolicyViolation :=
  {| v_policy_name := "cluster-staleness"; v_severity := Critical; v_subject := AboutCluster name;
     current_value := f_of_Z age; threshold := f_of_Z 120; v_timestamp := utc_now |}.

(** One turn alerts about exactly the clusters silent for more than 120 whole
    seconds. *)
Lemma staleness_turn now utc_now reg vs age name : evaluate now utc_now reg builtin_policies = Some vs →
  staleness_alert utc_now age name ∈ vs ↔ ∃ st, st ∈ hm_values (clusters reg) ∧ cluster_name (latest_report st) = name ∧
    120 < sat_sub now (cs_received_at st) / second ∧ f_of_Z (F:=f64) age = f_of_Z (sat_sub now (cs_received_at st) / second).
Proof.
  intros Hev. rewrite (evaluate_Some _ _ _ _ _ Hev). split.
  - intros (p & s & x & lim & Hp & _ & Hb & Heq). unfold builtin_policies in Hp. rewrite !elem_of_cons in Hp.
    destruct Hp as [->|[->|Hp]]; [by discriminate Heq| |by apply elem_of_nil in Hp].
    destruct Hb as (-> & st & Hst & -> & Hage & ->). injection Heq as Ha Hn. exists st. eauto.
  - intros (st & Hst & <- & Hage & Hf). exists {| policy_name := "cluster-staleness"; kind := ClusterStaleness 120; severity := Critical; enabled := true |},
      (AboutCluster (cluster_name (latest_report st))), (f_of_Z (sat_sub now (cs_received_at st) / second)), (f_of_Z 120).
    split; [right; left|]. split; [done|]. split; [|unfold staleness_alert; by rewrite Hf].
    split; [done|]. exists st. split; [done|]. split; [done|]. by split.
Qed.

(** A cluster that falls silent is reported: if the engine's rounds start at most
    [slack] late, it runs from before the cluster's 121st silent second until
    after it, and the cluster stays registered without a new report, then within
    thirty seconds and [slack] of that moment a round logs a critical alert that
    names it.  (The registry of [main] is never written, see
    [fleet_learns_nothing]: this is what the engine does once it is.) *)
Lemma silent_cluster_alerted slack t rounds log id name received :
  run_policy_engine t rounds = (log, true) → Forall (λ r, 0 <= pr_delay r <= slack) rounds →
  t <= received + 121 * second < t + Z.of_nat (length rounds) * eval_interval →
  (∀ r, r ∈ rounds →
     ∃ st, clusters (pr_registry r) !! id = Some st ∧ cs_received_at st = received ∧ cluster_name (latest_report st) = name) →
  ∃ now vs utc_now age, (now, vs) ∈ log ∧ staleness_alert utc_now age name ∈ vs ∧
    received + 121 * second <= now <= received + 121 * second + eval_interval + slack.
Proof.
  intros Hrun Hd. revert t log Hrun. induction Hd as [|r rounds Hr _ IH]; intros t log Hrun Ht Hreg; [cbn in Ht; lia|].
  cbn [run_policy_engine] in Hrun. set (now := t + eval_interval + pr_delay r) in *.
  destruct (evaluate now (pr_utc r) (pr_registry r) builtin_policies) as [vs|] eqn:Hev; [|by injection Hrun].
  destruct (run_policy_engine now rounds) as [log' running] eqn:Hrest. injection Hrun as <- ->.
  cbn [length] in Ht. unfold eval_interval in *.
  destruct (Z.le_gt_cases (received + 121 * second) now) as [Hle|Hlt].
  - destruct (Hreg r ltac:(left)) as (st & Hst & Hrc & Hn).
    exists now, vs, (pr_utc r), (sat_sub now (cs_received_at st) / second). split; [left|]. split; [|lia].
    apply (staleness_turn _ _ _ _ _ _ Hev). exists st. split; [apply hm_values_elem; eauto|]. split; [done|]. split; [|done].
    apply Z.lt_le_trans with 121; [lia|]. apply Z.div_le_lower_bound; [done|]. unfold sat_sub, second in *. lia.
  - destruct (IH now log' Hrest) as (now' & vs' & utc & age & Hin & Hal & Hb); [lia|intros r' ?; apply Hreg; by right|].
    exists now', vs', utc, age. split; [by right|done].
Qed.
End fleet.

(** ** Witness and examples *)

#[local] Existing Instance hash_iter_list.

(** Five rounds on two clusters last heard from at time 0, the first a second
    late: the alerts come with the fourth, at 121 s. *)
Example silent_clusters_demo :
  let round d := {| pr_delay := d; pr_utc := 0; pr_registry := demo_registry |} in
  let '(log, running) := run_policy_engine 0 [round second; round 0; round 0; round 0; round 0] in
  (λ tv, (tv.1 / second, length tv.2)) <$> log = [(31, 0%nat); (61, 0%nat); (91, 0%nat); (121, 2%nat); (151, 2%nat)] ∧ running = true.
Proof. vm_compute. by split. Qed.

(** As main is written the registry stays empty: the manager runs, raises no
    violation and reports a fleet without clusters, whatever the clusters send. *)
Lemma fleet_learns_nothing format_time turns o : o ∈ (fleet_main format_time turns).1 →
  o = Violations [] ∨ ∃ r, o = Generated r ∧ rd_clusters (rp_data r) = [] ∧ rd_teams (rp_data r) = [].
Proof.
  unfold fleet_main. induction turns as [|t turns IH]; [by intros ?%not_elem_of_nil|]. cbn [fmap list_fmap run_fleet].
  destruct (run_fleet format_time ((λ t, (t, ClusterRegistry_new)) <$> turns)) as [log running].
  destruct t as [now utc|now instant]; cbn; intros [->|Hin]%elem_of_cons; auto.
  right. eexists. split; [done|]. by split.
Qed.
