(* ===== verification/Carbon.v ===== *)
(** * Carbon: emissions and cost of a power reading

    keck-controller/src/carbon/mod.rs.  The environment variables are arguments;
    [refresh] does not contact any service yet, as in the source.  The formulas
    are generic in the arithmetic, so that what they mean can be stated exactly
    over the rationals. *)

From S2P Require Import Prelude F64.
From Stdlib Require Import QArith Lqa.

Open Scope Z_scope.

Section carbon.
Context `{FO : FloatOps F}.

Record CarbonIntensity := {
  grams_co2_per_kwh : F;
  ci_source : string;
  ci_region : string;
  ci_timestamp : Z;
  is_forecast : bool
}.
Record EnergyCost := { ec_currency : string; ec_cost_per_kwh : F; ec_region : string }.
Record CarbonReport := {
  power_watts : F;
  energy_wh : F;
  carbon_grams : F;
  carbon_kg_per_year : F;
  cost : F;
  cost_per_year : F;
  cr_intensity : CarbonIntensity;
  cr_energy_cost : EnergyCost
}.
Record CarbonTracker := {
  current_intensity : option CarbonIntensity;
  current_cost : EnergyCost;
  api_endpoint : option string;
  ct_region : string;
  refresh_interval : Z
}.

Definition CarbonTracker_new (env_endpoint env_region : option string) : CarbonTracker := {|
  current_intensity := None;
  current_cost := {| ec_currency := "USD"; ec_cost_per_kwh := f_lit 1 10; ec_region := "default" |};
  api_endpoint := env_endpoint;
  ct_region := default "unknown" env_region;
  refresh_interval := 300 * 1000000000
|}.

(** [Duration::as_secs_f64] of a duration in nanoseconds. *)
Definition as_secs_f64 (interval : Z) : F :=
  fadd (f_of_Z (interval / 1000000000)) (fdiv (f_of_Z (interval mod 1000000000)) (f_of_Z 1000000000)).

Definition calculate (t : CarbonTracker) (power_uw interval : Z) : option CarbonReport :=
  match current_intensity t with
  | None => None
  | Some intensity =>
      let watts := fdiv (f_of_Z power_uw) (f_of_Z 1000000) in
      let hours := fdiv (as_secs_f64 interval) (f_of_Z 3600) in
      let wh := fmul watts hours in
      let energy_kwh := fdiv wh (f_of_Z 1000) in
      let grams := fmul energy_kwh (grams_co2_per_kwh intensity) in
      let c := fmul energy_kwh (ec_cost_per_kwh (current_cost t)) in
      let intervals_per_year := fdiv (fmul (fmul (f_lit 36525 100) (f_of_Z 24)) (f_of_Z 3600)) (as_secs_f64 interval) in
      Some {| power_watts := watts; energy_wh := wh; carbon_grams := grams;
              carbon_kg_per_year := fdiv (fmul grams intervals_per_year) (f_of_Z 1000);
              cost := c; cost_per_year := fmul c intervals_per_year;
              cr_intensity := intensity; cr_energy_cost := current_cost t |}
  end.

Definition refresh (now : Z) (t : CarbonTracker) : CarbonTracker := {|
  current_intensity := Some {|
    grams_co2_per_kwh := f_of_Z 400;
    ci_source := match api_endpoint t with
                 | None => "static_default"
                 | Some ep => String.append "static (endpoint configured: " (String.append ep ")")
                 end;
    ci_region := ct_region t; ci_timestamp := now; is_forecast := false |};
  current_cost := current_cost t; api_endpoint := api_endpoint t; ct_region := ct_region t;
  refresh_interval := refresh_interval t
|}.
Definition carbon_current (t : CarbonTracker) : option CarbonIntensity := current_intensity t.

(** [run_updater]: a turn refreshes the tracker, logs the intensity it then has,
    and tells how long to sleep; the loop never ends, so a run is cut after the
    clock readings given to it. *)
Definition updater_turn (now : Z) (t : CarbonTracker) : CarbonTracker * option CarbonIntensity * Z :=
  let t := refresh now t in (t, carbon_current t, refresh_interval t).
Fixpoint run_updater (nows : list Z) (t : CarbonTracker) : CarbonTracker * list (option CarbonIntensity) * Z :=
  match nows with
  | [] => (t, [], 0)
  | now :: nows' =>
      let '(t, logged, slept) := updater_turn now t in
      let '(t, log, total) := run_updater nows' t in (t, logged :: log, slept + total)
  end.

(** After the first turn every power reading can be converted, the price, the
    region and the pace are those the tracker started with, and the intensity is
    as old as the last turn. *)
Lemma run_updater_answers nows now t power_uw interval : let '(t', log, slept) := run_updater (nows ++ [now]) t in
  is_Some (calculate t' power_uw interval) ∧ Forall is_Some log ∧ current_cost t' = current_cost t ∧
  (ci_timestamp <$> carbon_current t') = Some now ∧ slept = Z.of_nat (length (nows ++ [now])) * refresh_interval t.
Proof.
  revert t. induction nows as [|n nows IH]; intros t; cbn [app run_updater updater_turn].
  - split; [unfold calculate; cbn; eauto|]. split; [repeat constructor; eauto|]. cbn. split; [done|]. split; [done|lia].
  - specialize (IH (refresh n t)). destruct (run_updater (nows ++ [now]) (refresh n t)) as [[t' log] slept].
    destruct IH as (Hc & Hl & Hp & Ht & ->). split; [done|]. split; [constructor; [eauto|done]|]. split; [done|].
    split; [done|]. change (refresh_interval (refresh n t)) with (refresh_interval t). cbn [length]. lia.
Qed.
End carbon.
Arguments CarbonTracker F : clear implicits.
Arguments CarbonReport F : clear implicits.

Lemma as_secs_exact n : (as_secs_f64 (F:=Q) n == inject_Z n / inject_Z 1000000000)%Q.
Proof.
  unfold as_secs_f64. cbn. rewrite (Z.div_mod n 1000000000) at 3 by lia.
  rewrite inject_Z_plus, inject_Z_mult. field.
Qed.

(** In exact arithmetic, carbon and cost are energy times intensity and
    price, and the annual figures are those of drawing the power all year
    (8766 hours), whatever the length of the interval they were computed from. *)
Theorem calculate_exact (t : CarbonTracker Q) power_uw interval r : 0 < interval →
  calculate t power_uw interval = Some r →
  let kw := (inject_Z power_uw / inject_Z 1000000000)%Q in
  let hours := (inject_Z interval / inject_Z (3600 * 1000000000))%Q in
  let g := grams_co2_per_kwh (cr_intensity r) in
  let price := ec_cost_per_kwh (cr_energy_cost r) in
  (carbon_grams r == kw * hours * g)%Q ∧ (cost r == kw * hours * price)%Q ∧
  (carbon_kg_per_year r == kw * inject_Z 8766 * g / inject_Z 1000)%Q ∧
  (cost_per_year r == kw * inject_Z 8766 * price)%Q.
Proof.
  intros Hi. unfold calculate. destruct (current_intensity t) as [ci|]; [|done]. intros [= <-]. cbn zeta.
  assert (~ inject_Z interval == 0)%Q as Hne.
  { change 0%Q with (inject_Z 0). rewrite inject_Z_injective. lia. }
  pose proof (as_secs_exact interval) as Hs.
  cbn [carbon_grams cost carbon_kg_per_year cost_per_year cr_intensity cr_energy_cost fmul fdiv f_of_Z f_lit Q_ops].
  rewrite !Hs. unfold f_lit. cbn [fdiv f_of_Z Q_ops].
  generalize dependent (inject_Z interval). generalize (inject_Z power_uw), (grams_co2_per_kwh ci), (ec_cost_per_kwh (current_cost t)).
  intros p g price i Hne Hs. clear Hs. unfold inject_Z. change (3600 * 1000000000) with 3600000000000. repeat split; field; done.
Qed.

Definition demo_tracker : CarbonTracker Q := refresh 0 (CarbonTracker_new None None).
Definition demo_carbon : option (CarbonReport Q) := calculate demo_tracker 1000000000 3600000000000.
Lemma calculate_exact_witness :
  match demo_carbon with
  | Some r => (carbon_grams r == 400)%Q ∧ (carbon_kg_per_year r == inject_Z 8766 * 400 / inject_Z 1000)%Q
  | None => False
  end.
Proof.
  destruct demo_carbon as [r|] eqn:E; [|discriminate E].
  destruct (calculate_exact demo_tracker 1000000000 3600000000000 r) as (Hg & _ & Hy & _); [reflexivity|exact E|].
  unfold demo_carbon in E. injection E as <-.
  split; [rewrite Hg; reflexivity|rewrite Hy; reflexivity].
Defined.
