(* ===== verification/Testing.v ===== *)
(** * Testing: assertions for the unit tests of the source

    The [#[cfg(test)]] modules of the repository are translated as booleans, one
    definition per test, and evaluated on the model: a test that passes in the
    source is a conformance check of the definitions it calls.  This file has the
    assertion macros; clocks that a test reads are fixed readings, and hash maps
    iterate in key order. *)

From S2P Require Import Prelude F64.

Open Scope Z_scope.

(** [assert_eq!]. *)
Definition assert_eq `{EqDecision A} (x y : A) : bool := bool_decide (x = y).
(** [assert_eq!] on floats: [==], under which the zeros are equal and NaN is not. *)
Definition assert_feq (x y : f64) : bool := fleb x y && fleb y x.
(** [assert!((x - y).abs() < tol)]. *)
Definition assert_near (tol x y : f64) : bool := fltb (f64_abs (fsub x y)) tol.
(** [assert!(x.is_some())], [assert!(x.is_none())]. *)
Definition assert_some {A} (x : option A) : bool := match x with Some _ => true | None => false end.
Definition assert_none {A} (x : option A) : bool := negb (assert_some x).
(** [x.unwrap()] followed by assertions on the value: a [None] panics. *)
Definition on_some {A} (x : option A) (f : A → bool) : bool := match x with Some a => f a | None => false end.
(** [l[i]], which panics out of range. *)
Definition on_index {A} (l : list A) (i : nat) (f : A → bool) : bool := on_some (l !! i) f.
(** All the assertions of a test. *)
Definition all_of (bs : list bool) : bool := forallb id bs.

(** The tests of a module that fail, by name. *)
Definition failures (tests : list (string * bool)) : list string := (filter (λ t, t.2 = false) tests).*1.

(** Decimal literals of the tests: [1e-10], [1e-6]. *)
Definition f_1e_10 : f64 := f_lit 1 10000000000.
Definition f_1e_6 : f64 := f_lit 1 1000000.
