(* ===== verification/TestsAgent.v ===== *)
(** * TestsAgent: the unit tests of the agent and of keck-common, on the model

    The test modules of keck-agent/src/attribution (model.rs, engine.rs,
    types.rs, tuner.rs), keck-agent/src/k8s/workload.rs and
    keck-common/src/lib.rs (the sizes and offsets are those of [Layout]).  All
    tests pass but one of model.rs (below). *)

From S2P Require Import Prelude F64 Common Layout Model Engine Tuner Text Workload Testing.

Open Scope Z_scope.

#[local] Existing Instance hash_iter_list.

(** ** keck-agent/src/attribution/model.rs *)

Definition obs (pid time_ns instructions cycles cache_misses : Z) : PidCoreObservation :=
  {| obs_pid := pid; obs_time_ns := time_ns; obs_instructions := instructions; obs_cycles := cycles;
     obs_cache_misses := cache_misses |}.
Abbreviation f64_model := (AttributionModel f64).

Definition test_select_model_full : bool := assert_eq (method (select_model true true : f64_model)) FullModelMethod.
Definition test_select_model_freq_weighted : bool := assert_eq (method (select_model true false : f64_model)) FrequencyWeighted.
Definition test_select_model_cpu_time_ratio_no_data : bool := assert_eq (method (select_model false false : f64_model)) CpuTimeRatio.
Definition test_select_model_counters_without_freq_falls_back : bool :=
  assert_eq (method (select_model false true : f64_model)) FrequencyWeighted.

Definition weights_total (weights : list (PidCoreWeight f64)) : f64 := fsum (raw_weight <$> weights).

Definition test_cpu_time_ratio_proportional : bool :=
  let weights := compute_weights CpuTimeRatioModel [obs 100 1000 0 0 0; obs 200 3000 0 0 0] 2000000 in
  let total := weights_total weights in
  all_of [assert_eq (length weights) 2%nat;
          on_index weights 0 (λ w, assert_near f_1e_10 (fdiv (raw_weight w) total) (f_lit 25 100));
          on_index weights 1 (λ w, assert_near f_1e_10 (fdiv (raw_weight w) total) (f_lit 75 100))].

Definition test_cpu_time_ratio_ignores_frequency : bool :=
  let observations := [obs 100 1000 0 0 0] in
  let w1 := compute_weights CpuTimeRatioModel observations 1000000 in
  let w2 := compute_weights CpuTimeRatioModel observations 3000000 in
  on_index w1 0 (λ a, on_index w2 0 (λ b, assert_feq (raw_weight a) (raw_weight b))).

Definition test_cpu_time_ratio_empty : bool :=
  assert_eq (length (compute_weights (CpuTimeRatioModel : f64_model) [] 2000000)) 0%nat.

Definition test_freq_weighted_scales_with_frequency : bool :=
  let observations := [obs 100 1000 0 0 0] in
  let w_low := compute_weights FrequencyWeightedModel observations 1000000 in
  let w_high := compute_weights FrequencyWeightedModel observations 2000000 in
  on_index w_low 0 (λ l, on_index w_high 0 (λ h, assert_near f_1e_10 (fdiv (raw_weight h) (raw_weight l)) (f_of_Z 4))).

Definition test_freq_weighted_proportional_by_time : bool :=
  let weights := compute_weights FrequencyWeightedModel [obs 100 1000 0 0 0; obs 200 2000 0 0 0] 2000000 in
  on_index weights 0 (λ w, assert_near f_1e_10 (fdiv (raw_weight w) (weights_total weights)) (f_lit 1 3)).

(** [w[0].raw_weight] of a model on one observation. *)
Definition first_weight (m : f64_model) (o : PidCoreObservation) : option f64 :=
  raw_weight <$> head (compute_weights m [o] 2000000).

Definition test_full_model_ipc_effect : bool :=
  on_some (first_weight FullModel (obs 100 1000 2000 1000 0))
    (λ high, on_some (first_weight FullModel (obs 200 1000 500 1000 0)) (λ low, fltb low high)).

Definition test_full_model_cache_miss_effect : bool :=
  on_some (first_weight FullModel (obs 100 1000 10000 10000 5000))
    (λ missy, on_some (first_weight FullModel (obs 200 1000 10000 10000 0)) (λ clean, fltb clean missy)).

Definition test_full_model_zero_cycles : bool := on_some (first_weight FullModel (obs 100 1000 500 0 10)) (fltb fzero).
Definition test_full_model_zero_instructions : bool := on_some (first_weight FullModel (obs 100 1000 0 1000 10)) (fltb fzero).

Definition test_weights_sum_enables_conservation : bool :=
  let weights := compute_weights (select_model true true) 
    [obs 100 5000 10000 8000 200; obs 200 3000 6000 4000 100; obs 300 2000 3000 2000 50] 2500000 in
  let total := weights_total weights in
  let core_energy := 100000 in
  let pid_energy_sum := foldl (λ s w, u64_add s (scale_u64 core_energy (fdiv (raw_weight w) total))) 0 weights in
  all_of [fltb fzero total; forallb (λ w, fleb fzero (raw_weight w)) weights;
          unsigned_abs (i64_wrap pid_energy_sum - i64_wrap core_energy) <=? Z.of_nat (length weights)].

Definition model_tests : list (string * bool) :=
  [("select_model_full", test_select_model_full); ("select_model_freq_weighted", test_select_model_freq_weighted);
   ("select_model_cpu_time_ratio_no_data", test_select_model_cpu_time_ratio_no_data);
   ("select_model_counters_without_freq_falls_back", test_select_model_counters_without_freq_falls_back);
   ("cpu_time_ratio_proportional", test_cpu_time_ratio_proportional);
   ("cpu_time_ratio_ignores_frequency", test_cpu_time_ratio_ignores_frequency);
   ("cpu_time_ratio_empty", test_cpu_time_ratio_empty);
   ("freq_weighted_scales_with_frequency", test_freq_weighted_scales_with_frequency);
   ("freq_weighted_proportional_by_time", test_freq_weighted_proportional_by_time);
   ("full_model_ipc_effect", test_full_model_ipc_effect); ("full_model_cache_miss_effect", test_full_model_cache_miss_effect);
   ("full_model_zero_cycles", test_full_model_zero_cycles); ("full_model_zero_instructions", test_full_model_zero_instructions);
   ("weights_sum_enables_conservation", test_weights_sum_enables_conservation)].
(** The failing test contradicts its own comment: with counters and no
    frequencies the code, like the comment, falls back to the CPU time ratio. *)
Example model_tests_run : failures model_tests = ["select_model_counters_without_freq_falls_back"].
Proof. vm_compute. reflexivity. Qed.

(** ** keck-agent/src/attribution/engine.rs *)

Definition test_energy_to_power_basic : bool := energy_to_power 1000 1000000000 =? 1000.
Definition test_energy_to_power_half_second : bool := energy_to_power 1000 500000000 =? 2000.
Definition test_energy_to_power_zero_interval : bool := energy_to_power 1000 0 =? 0.
Definition test_energy_to_power_zero_energy : bool := energy_to_power 0 1000000000 =? 0.
Definition test_energy_to_power_large_values : bool := energy_to_power 1000000000 1000000000 =? 1000000000.
Definition test_energy_to_power_no_overflow_with_u128 : bool :=
  let large_energy := u64_max / 2 in energy_to_power large_energy 1000000000 =? large_energy.
Definition test_engine_new : bool :=
  let engine := AttributionEngine_new (F:=f64) 8 2 in all_of [num_cores engine =? 8; cores_per_socket engine =? 4].
Definition test_engine_new_single_socket : bool := cores_per_socket (AttributionEngine_new (F:=f64) 4 1) =? 4.
Definition test_engine_new_zero_sockets : bool := cores_per_socket (AttributionEngine_new (F:=f64) 4 0) =? 4.

Definition engine_tests : list (string * bool) :=
  [("energy_to_power_basic", test_energy_to_power_basic); ("energy_to_power_half_second", test_energy_to_power_half_second);
   ("energy_to_power_zero_interval", test_energy_to_power_zero_interval);
   ("energy_to_power_zero_energy", test_energy_to_power_zero_energy);
   ("energy_to_power_large_values", test_energy_to_power_large_values);
   ("energy_to_power_no_overflow_with_u128", test_energy_to_power_no_overflow_with_u128);
   ("engine_new", test_engine_new); ("engine_new_single_socket", test_engine_new_single_socket);
   ("engine_new_zero_sockets", test_engine_new_zero_sockets)].
Example engine_tests_run : failures engine_tests = [].
Proof. vm_compute. reflexivity. Qed.

(** ** keck-agent/src/attribution/types.rs *)

Definition test_power_breakdown_total : bool :=
  total_uw {| cpu_uw := 1000; memory_uw := 500; gpu_uw := 200; nic_uw := 50; storage_uw := 30 |} =? 1780.
Definition test_power_breakdown_default_is_zero : bool :=
  let breakdown := PowerBreakdown_default in
  all_of [total_uw breakdown =? 0; cpu_uw breakdown =? 0; memory_uw breakdown =? 0].
Definition test_reading_type_equality : bool :=
  all_of [assert_eq Measured Measured; negb (assert_eq Measured Estimated); negb (assert_eq Estimated Derived)].
Definition test_component_equality : bool := all_of [assert_eq Cpu Cpu; negb (assert_eq Cpu Memory)].
Definition test_attribution_method_equality : bool :=
  all_of [assert_eq FullModelMethod FullModelMethod; negb (assert_eq FullModelMethod CpuTimeRatio)].

Definition types_tests : list (string * bool) :=
  [("power_breakdown_total", test_power_breakdown_total);
   ("power_breakdown_default_is_zero", test_power_breakdown_default_is_zero);
   ("reading_type_equality", test_reading_type_equality); ("component_equality", test_component_equality);
   ("attribution_method_equality", test_attribution_method_equality)].
Example types_tests_run : failures types_tests = [].
Proof. vm_compute. reflexivity. Qed.

(** ** keck-agent/src/attribution/tuner.rs *)

Definition make_obs (time_ns : Z) (i m c : f64) : PidObs := {| po_time_ns := time_ns; ipc := i; miss_ratio := m; po_cycles := c |}.
Definition new_tuner : CoefficientTuner := CoefficientTuner_new None (f_lit 3 10) (f_lit 15 10).

Definition test_consistency_error_identical_pids : bool :=
  let pids := [make_obs 1000 (f_of_Z 2) (f_lit 1 100) (f_of_Z 2000); make_obs 1000 (f_of_Z 2) (f_lit 1 100) (f_of_Z 2000)] in
  fltb (consistency_error pids (f_lit 3 10) (f_lit 15 10)) f_1e_10.

Definition test_consistency_error_diverse_pids : bool :=
  let pids := [make_obs 1000 (f_of_Z 3) (f_lit 1 1000) (f_of_Z 3000); make_obs 1000 (f_lit 5 10) (f_lit 5 100) (f_of_Z 500)] in
  fltb fzero (consistency_error pids (f_lit 3 10) (f_lit 15 10)).

Definition test_tuner_no_update_without_signal : bool :=
  let tuner := update new_tuner (∅, []) in
  all_of [updates tuner =? 0; assert_feq (current tuner).1 (f_lit 3 10); assert_feq (current tuner).2 (f_lit 15 10)].

Definition test_tuner_no_update_single_pid_per_core : bool :=
  updates (update new_tuner ({[(0, 100) := (10000, 5000, 100)]}, [(0, 100, 1000)])) =? 0.

Definition test_tuner_updates_with_diverse_pids : bool :=
  0 <? updates (update new_tuner
    (<[(0, 200) := (5000, 10000, 500)]> {[(0, 100) := (30000, 10000, 30)]}, [(0, 100, 1000); (0, 200, 1000)])).

Definition test_tuner_clamps_bounds : bool :=
  all_of [assert_feq (f64_clamp (f_lit 4 100) (f_lit 5 100) (f_of_Z 2)) (f_lit 5 100);
          assert_feq (f64_clamp (f_lit 5 1000) (f_lit 1 100) (f_of_Z 10)) (f_lit 1 100)].

Definition tuner_tests : list (string * bool) :=
  [("consistency_error_identical_pids", test_consistency_error_identical_pids);
   ("consistency_error_diverse_pids", test_consistency_error_diverse_pids);
   ("tuner_no_update_without_signal", test_tuner_no_update_without_signal);
   ("tuner_no_update_single_pid_per_core", test_tuner_no_update_single_pid_per_core);
   ("tuner_updates_with_diverse_pids", test_tuner_updates_with_diverse_pids);
   ("tuner_clamps_bounds", test_tuner_clamps_bounds)].
Example tuner_tests_run : failures tuner_tests = [].
Proof. vm_compute. reflexivity. Qed.

(** ** keck-agent/src/k8s/workload.rs *)

Definition labels_of (l : list (string * string)) : gmap string string := list_to_map l.
Definition empty_op_ns : gset string := ∅.
Definition op_ns_with (ns : list string) : gset string := list_to_set ns.
(** [assert_eq!] on categories, which [as_str] tells apart. *)
Definition category_is (ns : string) (labels : list (string * string)) (op_ns : gset string) (c : WorkloadCategory) : bool :=
  assert_eq (category_str (classify_category ns (labels_of labels) op_ns)) (category_str c).

Definition test_parse_label_config_exact_and_prefix : bool :=
  let '(exact, prefixes) := parse_label_config "app.kubernetes.io/name, operators.coreos.com/*, custom/team" in
  all_of [assert_eq exact ["app.kubernetes.io/name"; "custom/team"]; assert_eq prefixes ["operators.coreos.com/"]].

Definition test_parse_label_config_empty : bool :=
  let '(exact, prefixes) := parse_label_config EmptyString in all_of [assert_eq exact []; assert_eq prefixes []].

Definition test_capture_labels_exact : bool :=
  let captured := capture_labels (labels_of [("app.kubernetes.io/name", "my-api"); ("unrelated", "ignored")])
    ["app.kubernetes.io/name"] [] in
  all_of [assert_eq (size captured) 1%nat; assert_eq (captured !! "app.kubernetes.io/name") (Some "my-api")].

Definition test_capture_labels_prefix : bool :=
  let captured := capture_labels (labels_of [("operators.coreos.com/elastic", EmptyString);
      ("operators.coreos.com/prometheus", EmptyString); ("other/label", "val")]) [] ["operators.coreos.com/"] in
  all_of [assert_eq (size captured) 2%nat; assert_some (captured !! "operators.coreos.com/elastic");
          assert_some (captured !! "operators.coreos.com/prometheus")].

Definition test_capture_labels_no_matches : bool :=
  assert_eq (size (capture_labels ∅ ["app.kubernetes.io/name"] [])) 0%nat.

Definition test_classify_platform_openshift_builtin : bool :=
  all_of [category_is "openshift-monitoring" [] empty_op_ns WPlatform; category_is "openshift-etcd" [] empty_op_ns WPlatform;
          category_is "openshift-apiserver" [] empty_op_ns WPlatform].

Definition test_classify_platform_kube_system : bool := category_is "kube-system" [] empty_op_ns WPlatform.

Definition test_classify_operator_by_subscription : bool :=
  let op_ns := op_ns_with ["openshift-cnv"; "openshift-gitops-operator"; "keck-system"] in
  all_of [category_is "openshift-cnv" [] op_ns WOperator; category_is "openshift-gitops-operator" [] op_ns WOperator;
          category_is "keck-system" [] op_ns WOperator].

Definition test_classify_openshift_ns_without_subscription_is_platform : bool :=
  let op_ns := op_ns_with ["openshift-cnv"] in
  all_of [category_is "openshift-monitoring" [] op_ns WPlatform; category_is "openshift-etcd" [] op_ns WPlatform].

Definition test_classify_operator_by_label : bool :=
  category_is "default" [("operators.coreos.com/elasticsearch-operator", EmptyString)] empty_op_ns WOperator.

Definition test_classify_olm_infra_namespaces : bool :=
  all_of [category_is "openshift-operator-lifecycle-manager" [] empty_op_ns WOperator;
          category_is "openshift-marketplace" [] empty_op_ns WOperator].

Definition test_classify_application : bool := category_is "my-app-ns" [] empty_op_ns WApplication.

Definition test_workload_category_as_str : bool :=
  all_of [assert_eq (category_str WPlatform) "platform"; assert_eq (category_str WOperator) "operator";
          assert_eq (category_str WApplication) "application"].

Definition workload_tests : list (string * bool) :=
  [("parse_label_config_exact_and_prefix", test_parse_label_config_exact_and_prefix);
   ("parse_label_config_empty", test_parse_label_config_empty); ("capture_labels_exact", test_capture_labels_exact);
   ("capture_labels_prefix", test_capture_labels_prefix); ("capture_labels_no_matches", test_capture_labels_no_matches);
   ("classify_platform_openshift_builtin", test_classify_platform_openshift_builtin);
   ("classify_platform_kube_system", test_classify_platform_kube_system);
   ("classify_operator_by_subscription", test_classify_operator_by_subscription);
   ("classify_openshift_ns_without_subscription_is_platform", test_classify_openshift_ns_without_subscription_is_platform);
   ("classify_operator_by_label", test_classify_operator_by_label);
   ("classify_olm_infra_namespaces", test_classify_olm_infra_namespaces); ("classify_application", test_classify_application);
   ("workload_category_as_str", test_workload_category_as_str)].
Example workload_tests_run : failures workload_tests = [].
Proof. vm_compute. reflexivity. Qed.

(** ** keck-common/src/lib.rs *)

Definition test_pid_cpu_key_size : bool := assert_eq (size_of PidCpuKey) 8%nat.
Definition test_pid_cpu_time_size : bool := assert_eq (size_of PidCpuTime) 8%nat.
Definition test_cpu_sched_state_size : bool := assert_eq (size_of CpuSchedState) 40%nat.
Definition test_cpu_freq_key_size : bool := assert_eq (size_of CpuFreqKey) 8%nat.
Definition test_cpu_freq_time_size : bool := assert_eq (size_of CpuFreqTime) 8%nat.
Definition test_cpu_freq_state_size : bool := assert_eq (size_of CpuFreqState) 16%nat.
Definition test_core_counters_size : bool := assert_eq (size_of CoreCounters) 32%nat.
Definition test_pid_cgroup_value_size : bool := assert_eq (size_of PidCgroupValue) 8%nat.
Definition test_pid_cpu_counter_key_size : bool := assert_eq (size_of PidCpuCounterKey) 8%nat.
Definition test_pid_cpu_counters_size : bool := assert_eq (size_of PidCpuCounters) 24%nat.
Definition test_constants : bool :=
  all_of [MAX_PID_CPU_ENTRIES =? 65536; MAX_CPUS =? 1024; MAX_CPU_FREQ_ENTRIES =? 32768; MAX_PID_CGROUP_ENTRIES =? 65536;
          MAX_PID_HW_COUNTER_ENTRIES =? 65536].
Definition test_pid_cpu_key_clone : bool :=
  let cloned := {| key_cpu := 3; key_pid := 42 |} in all_of [key_cpu cloned =? 3; key_pid cloned =? 42].
Definition test_core_counters_clone : bool :=
  let cloned := {| cc_instructions := 1000; cc_cycles := 2000; cc_cache_misses := 50; cc_cache_refs := 500 |} in
  all_of [cc_instructions cloned =? 1000; cc_cycles cloned =? 2000; cc_cache_misses cloned =? 50; cc_cache_refs cloned =? 500].
(** 0xAABBCCDD and 0x11223344, found at the byte offsets 0 and 4 of the key. *)
Definition test_repr_c_layout_pid_cpu_key : bool :=
  let key := {| key_cpu := 2864434397; key_pid := 287454020 |} in
  let fields := zip (field_offsets 0 (repr_fields PidCpuKey)) [key_cpu key; key_pid key] in
  all_of [bool_decide ((0%nat, 2864434397) ∈ fields); bool_decide ((4%nat, 287454020) ∈ fields)].

Definition common_tests : list (string * bool) :=
  [("pid_cpu_key_size", test_pid_cpu_key_size); ("pid_cpu_time_size", test_pid_cpu_time_size);
   ("cpu_sched_state_size", test_cpu_sched_state_size); ("cpu_freq_key_size", test_cpu_freq_key_size);
   ("cpu_freq_time_size", test_cpu_freq_time_size); ("cpu_freq_state_size", test_cpu_freq_state_size);
   ("core_counters_size", test_core_counters_size); ("pid_cgroup_value_size", test_pid_cgroup_value_size);
   ("pid_cpu_counter_key_size", test_pid_cpu_counter_key_size); ("pid_cpu_counters_size", test_pid_cpu_counters_size);
   ("constants", test_constants); ("pid_cpu_key_clone", test_pid_cpu_key_clone);
   ("core_counters_clone", test_core_counters_clone); ("repr_c_layout_pid_cpu_key", test_repr_c_layout_pid_cpu_key)].
Example common_tests_run : failures common_tests = [].
Proof. vm_compute. reflexivity. Qed.
