(* ===== verification/TestsAggregator.v ===== *)
(** * TestsAggregator: the unit tests of the aggregator, on the model

    The test module of keck-controller/src/aggregator/mod.rs.  All tests pass but
    one, which expects the category a pod reports to decide (below). *)

From S2P Require Import Prelude F64 Classify Aggregator Testing.

Open Scope Z_scope.

#[local] Existing Instance hash_iter_list.

(** Readings of [Instant::now] and [SystemTime::now]. *)
Definition t_now : Z := 1000000 * sec.
Definition t_system : Z := 2000000000 * sec.
Definition t_ingest (report : AgentReport) (agg : ClusterAggregator) : ClusterAggregator :=
  ingest t_now t_now t_system report agg.

(** ** Factories *)

Definition make_pod (node uid name ns : string) (cpu mem gpu : Z) : PodPowerReport := {|
  pr_node_name := node; pr_pod_uid := uid; pr_pod_name := name; pr_namespace := ns;
  pr_cpu_uw := cpu; pr_memory_uw := mem; pr_gpu_uw := gpu; pr_storage_uw := 0; pr_io_uw := 0;
  pr_total_uw := u64_add (u64_add cpu mem) gpu; pr_timestamp := t_system;
  pr_workload_uid := EmptyString; pr_workload_name := EmptyString; pr_workload_kind := EmptyString;
  pr_workload_category := "application"; pr_labels := ∅; pr_metering_method := EmptyString |}.
Definition make_node (name : string) (cpu mem gpu : Z) (platform : option Z) (idle : Z) : NodePowerReport := {|
  nr_node_name := name; nr_cpu_uw := cpu; nr_memory_uw := mem; nr_gpu_uw := gpu; nr_platform_uw := platform;
  nr_psu_output_uw := None; nr_idle_uw := idle; nr_error_ratio := f_lit 5 100; nr_pod_count := 0; nr_process_count := 0;
  nr_timestamp := t_system; nr_cpu_source := "rapl"; nr_memory_source := "estimated"; nr_cpu_reading_type := "estimated";
  nr_sources := []; nr_metering_method := EmptyString |}.
Definition make_report (node : NodePowerReport) (pods : list PodPowerReport) : AgentReport :=
  {| ar_node := node; ar_pods := pods |}.

(** The fields the tests assign. *)
Definition set_error_ratio (e : f64) (n : NodePowerReport) : NodePowerReport := {|
  nr_node_name := nr_node_name n; nr_cpu_uw := nr_cpu_uw n; nr_memory_uw := nr_memory_uw n; nr_gpu_uw := nr_gpu_uw n;
  nr_platform_uw := nr_platform_uw n; nr_psu_output_uw := nr_psu_output_uw n; nr_idle_uw := nr_idle_uw n;
  nr_error_ratio := e; nr_pod_count := nr_pod_count n; nr_process_count := nr_process_count n;
  nr_timestamp := nr_timestamp n; nr_cpu_source := nr_cpu_source n; nr_memory_source := nr_memory_source n;
  nr_cpu_reading_type := nr_cpu_reading_type n; nr_sources := nr_sources n; nr_metering_method := nr_metering_method n |}.
Definition set_cpu_source (source reading_type : string) (n : NodePowerReport) : NodePowerReport := {|
  nr_node_name := nr_node_name n; nr_cpu_uw := nr_cpu_uw n; nr_memory_uw := nr_memory_uw n; nr_gpu_uw := nr_gpu_uw n;
  nr_platform_uw := nr_platform_uw n; nr_psu_output_uw := nr_psu_output_uw n; nr_idle_uw := nr_idle_uw n;
  nr_error_ratio := nr_error_ratio n; nr_pod_count := nr_pod_count n; nr_process_count := nr_process_count n;
  nr_timestamp := nr_timestamp n; nr_cpu_source := source; nr_memory_source := nr_memory_source n;
  nr_cpu_reading_type := reading_type; nr_sources := nr_sources n; nr_metering_method := nr_metering_method n |}.
Definition set_sources (sources : list SourceStatus) (n : NodePowerReport) : NodePowerReport := {|
  nr_node_name := nr_node_name n; nr_cpu_uw := nr_cpu_uw n; nr_memory_uw := nr_memory_uw n; nr_gpu_uw := nr_gpu_uw n;
  nr_platform_uw := nr_platform_uw n; nr_psu_output_uw := nr_psu_output_uw n; nr_idle_uw := nr_idle_uw n;
  nr_error_ratio := nr_error_ratio n; nr_pod_count := nr_pod_count n; nr_process_count := nr_process_count n;
  nr_timestamp := nr_timestamp n; nr_cpu_source := nr_cpu_source n; nr_memory_source := nr_memory_source n;
  nr_cpu_reading_type := nr_cpu_reading_type n; nr_sources := sources; nr_metering_method := nr_metering_method n |}.
Definition set_workload (uid name kind category : string) (p : PodPowerReport) : PodPowerReport := {|
  pr_node_name := pr_node_name p; pr_pod_uid := pr_pod_uid p; pr_pod_name := pr_pod_name p; pr_namespace := pr_namespace p;
  pr_cpu_uw := pr_cpu_uw p; pr_memory_uw := pr_memory_uw p; pr_gpu_uw := pr_gpu_uw p; pr_storage_uw := pr_storage_uw p;
  pr_io_uw := pr_io_uw p; pr_total_uw := pr_total_uw p; pr_timestamp := pr_timestamp p;
  pr_workload_uid := uid; pr_workload_name := name; pr_workload_kind := kind; pr_workload_category := category;
  pr_labels := pr_labels p; pr_metering_method := pr_metering_method p |}.
Definition add_label (k v : string) (p : PodPowerReport) : PodPowerReport := {|
  pr_node_name := pr_node_name p; pr_pod_uid := pr_pod_uid p; pr_pod_name := pr_pod_name p; pr_namespace := pr_namespace p;
  pr_cpu_uw := pr_cpu_uw p; pr_memory_uw := pr_memory_uw p; pr_gpu_uw := pr_gpu_uw p; pr_storage_uw := pr_storage_uw p;
  pr_io_uw := pr_io_uw p; pr_total_uw := pr_total_uw p; pr_timestamp := pr_timestamp p;
  pr_workload_uid := pr_workload_uid p; pr_workload_name := pr_workload_name p; pr_workload_kind := pr_workload_kind p;
  pr_workload_category := pr_workload_category p; pr_labels := <[k := v]> (pr_labels p);
  pr_metering_method := pr_metering_method p |}.

(** ** Ingestion *)

Definition test_ingest_single_report : bool :=
  let pod := make_pod "node-1" "uid-a" "web-1" "default" 1000 500 0 in
  let node := make_node "node-1" 5000 2000 0 (Some 10000) 3000 in
  let agg := t_ingest (make_report node [pod]) ClusterAggregator_new in
  all_of [assert_eq (size (nodes agg)) 1%nat; assert_eq (size (pods agg)) 1%nat;
          assert_some (pod_power "uid-a" agg); on_some (pod_power "uid-a" agg) (λ p, pr_cpu_uw p =? 1000)].

Definition test_ingest_multiple_reports_same_node : bool :=
  let agg := t_ingest (make_report (make_node "node-1" 5000 2000 0 None 1000)
    [make_pod "node-1" "uid-a" "web-1" "default" 1000 500 0;
     make_pod "node-1" "uid-b" "web-2" "default" 2000 800 0]) ClusterAggregator_new in
  let agg' := t_ingest (make_report (make_node "node-1" 6000 2500 0 None 1200)
    [make_pod "node-1" "uid-a" "web-1" "default" 1500 600 0;
     make_pod "node-1" "uid-b" "web-2" "default" 2500 900 0]) agg in
  all_of [assert_eq (size (pods agg)) 2%nat; assert_eq (size (pods agg')) 2%nat;
          on_some (pod_power "uid-a" agg') (λ p, pr_cpu_uw p =? 1500)].

Definition test_ingest_multiple_nodes : bool :=
  let agg := t_ingest (make_report (make_node "node-1" 5000 2000 0 None 1000)
    [make_pod "node-1" "uid-a" "web-1" "ns-1" 1000 500 0]) ClusterAggregator_new in
  let agg := t_ingest (make_report (make_node "node-2" 3000 1000 0 None 800)
    [make_pod "node-2" "uid-b" "api-1" "ns-2" 800 300 0]) agg in
  all_of [assert_eq (size (nodes agg)) 2%nat; assert_eq (size (pods agg)) 2%nat].

Definition test_ingest_pod_eviction_when_no_longer_reported : bool :=
  let agg := t_ingest (make_report (make_node "node-1" 8000 3000 0 None 2000)
    [make_pod "node-1" "uid-a" "web-1" "default" 1000 500 0;
     make_pod "node-1" "uid-b" "web-2" "default" 2000 800 0;
     make_pod "node-1" "uid-c" "web-3" "default" 3000 1000 0]) ClusterAggregator_new in
  let agg' := t_ingest (make_report (make_node "node-1" 6000 2000 0 None 1500)
    [make_pod "node-1" "uid-a" "web-1" "default" 1000 500 0;
     make_pod "node-1" "uid-c" "web-3" "default" 3000 1000 0]) agg in
  all_of [assert_eq (size (pods agg)) 3%nat; assert_eq (size (pods agg')) 2%nat;
          assert_none (pod_power "uid-b" agg'); assert_some (pod_power "uid-a" agg'); assert_some (pod_power "uid-c" agg')].

Definition test_ingest_pod_eviction_does_not_affect_other_nodes : bool :=
  let agg := t_ingest (make_report (make_node "node-1" 5000 2000 0 None 1000)
    [make_pod "node-1" "uid-a" "web-1" "default" 1000 500 0]) ClusterAggregator_new in
  let agg := t_ingest (make_report (make_node "node-2" 3000 1000 0 None 800)
    [make_pod "node-2" "uid-b" "api-1" "default" 800 300 0]) agg in
  let agg' := t_ingest (make_report (make_node "node-1" 2000 500 0 None 1500) []) agg in
  all_of [assert_eq (size (pods agg)) 2%nat; assert_eq (size (pods agg')) 1%nat;
          assert_none (pod_power "uid-a" agg'); assert_some (pod_power "uid-b" agg')].

Definition test_ingest_records_history : bool :=
  let pod := make_pod "node-1" "uid-a" "web-1" "default" 1000 500 0 in
  let agg := t_ingest (make_report (make_node "node-1" 5000 2000 0 None 1000) [pod]) ClusterAggregator_new in
  let since := t_system - 10 * sec in
  let history := namespace_history "default" since agg in
  all_of [assert_eq (length history) 1%nat; on_index history 0 (λ h, h.2 =? 1500)].

(** ** Cluster power *)

Definition test_cluster_power_empty : bool :=
  let power := cluster_power None ClusterAggregator_new in
  all_of [cl_cpu_uw power =? 0; cl_memory_uw power =? 0; cl_gpu_uw power =? 0; cl_platform_uw power =? 0;
          cl_idle_uw power =? 0; assert_eq (cl_node_count power) 0%nat; assert_eq (cl_pod_count power) 0%nat;
          assert_feq (cl_avg_error_ratio power) fzero].

Definition test_cluster_power_single_node : bool :=
  let agg := t_ingest (make_report (make_node "node-1" 5000 2000 1000 (Some 15000) 3000)
    [make_pod "node-1" "uid-a" "web-1" "default" 1000 500 200]) ClusterAggregator_new in
  let power := cluster_power None agg in
  all_of [cl_cpu_uw power =? 5000; cl_memory_uw power =? 2000; cl_gpu_uw power =? 1000; cl_platform_uw power =? 15000;
          cl_idle_uw power =? 3000; cl_total_attributed_uw power =? 8000;
          assert_eq (cl_node_count power) 1%nat; assert_eq (cl_pod_count power) 1%nat].

Definition test_cluster_power_multi_node : bool :=
  let agg := t_ingest (make_report (make_node "node-1" 5000 2000 0 (Some 10000) 3000)
    [make_pod "node-1" "uid-a" "web-1" "default" 1000 500 0]) ClusterAggregator_new in
  let agg := t_ingest (make_report (make_node "node-2" 3000 1000 500 (Some 8000) 2000)
    [make_pod "node-2" "uid-b" "api-1" "prod" 800 300 100]) agg in
  let power := cluster_power None agg in
  all_of [cl_cpu_uw power =? 8000; cl_memory_uw power =? 3000; cl_gpu_uw power =? 500; cl_platform_uw power =? 18000;
          cl_idle_uw power =? 5000; assert_eq (cl_node_count power) 2%nat; assert_eq (cl_pod_count power) 2%nat].

Definition test_cluster_power_platform_uw_none_treated_as_zero : bool :=
  let agg := t_ingest (make_report (make_node "node-1" 5000 2000 0 None 3000) []) ClusterAggregator_new in
  cl_platform_uw (cluster_power None agg) =? 0.

Definition test_cluster_power_avg_error_ratio : bool :=
  let node1 := set_error_ratio (f_lit 10 100) (make_node "node-1" 5000 2000 0 None 3000) in
  let node2 := set_error_ratio (f_lit 20 100) (make_node "node-2" 3000 1000 0 None 2000) in
  let agg := t_ingest (make_report node2 []) (t_ingest (make_report node1 []) ClusterAggregator_new) in
  assert_near f_1e_10 (cl_avg_error_ratio (cluster_power None agg)) (f_lit 15 100).

(** ** Namespace power *)

Definition test_namespace_power_empty : bool := assert_eq (length (namespace_power None ClusterAggregator_new)) 0%nat.

Definition test_namespace_power_single_namespace : bool :=
  let agg := t_ingest (make_report (make_node "node-1" 5000 2000 0 None 1000)
    [make_pod "node-1" "uid-a" "web-1" "prod" 1000 500 0;
     make_pod "node-1" "uid-b" "web-2" "prod" 2000 800 0]) ClusterAggregator_new in
  let ns := namespace_power None agg in
  all_of [assert_eq (length ns) 1%nat;
          on_index ns 0 (λ n, all_of [assert_eq (nsp_namespace n) "prod"; nsp_cpu_uw n =? 3000; nsp_memory_uw n =? 1300;
                                      assert_eq (nsp_pod_count n) 2%nat])].

Definition test_namespace_power_multiple_namespaces_sorted : bool :=
  let agg := t_ingest (make_report (make_node "node-1" 10000 5000 0 None 2000)
    [make_pod "node-1" "uid-a" "web-1" "low-power" 100 50 0;
     make_pod "node-1" "uid-b" "api-1" "high-power" 5000 2000 0;
     make_pod "node-1" "uid-c" "ml-1" "medium-power" 1000 500 0]) ClusterAggregator_new in
  let ns := namespace_power None agg in
  all_of [assert_eq (length ns) 3%nat; on_index ns 0 (λ n, assert_eq (nsp_namespace n) "high-power");
          on_index ns 1 (λ n, assert_eq (nsp_namespace n) "medium-power");
          on_index ns 2 (λ n, assert_eq (nsp_namespace n) "low-power")].

Definition test_namespace_power_pods_across_nodes : bool :=
  let agg := t_ingest (make_report (make_node "node-1" 5000 2000 0 None 1000)
    [make_pod "node-1" "uid-a" "web-1" "prod" 1000 500 0]) ClusterAggregator_new in
  let agg := t_ingest (make_report (make_node "node-2" 3000 1000 0 None 800)
    [make_pod "node-2" "uid-b" "web-2" "prod" 2000 800 0]) agg in
  let ns := namespace_power None agg in
  all_of [assert_eq (length ns) 1%nat;
          on_index ns 0 (λ n, all_of [nsp_cpu_uw n =? 3000; assert_eq (nsp_pod_count n) 2%nat])].

(** ** Pods of a namespace *)

Definition test_pods_in_namespace_correct_filtering : bool :=
  let agg := t_ingest (make_report (make_node "node-1" 10000 5000 0 None 2000)
    [make_pod "node-1" "uid-a" "web-1" "prod" 1000 500 0;
     make_pod "node-1" "uid-b" "web-2" "staging" 2000 800 0;
     make_pod "node-1" "uid-c" "web-3" "prod" 3000 1000 0]) ClusterAggregator_new in
  let prod_pods := pods_in_namespace "prod" None agg in
  let uids := pr_pod_uid <$> prod_pods in
  all_of [assert_eq (length prod_pods) 2%nat; bool_decide ("uid-a" ∈ uids); bool_decide ("uid-c" ∈ uids)].

Definition test_pods_in_namespace_empty : bool :=
  let agg := t_ingest (make_report (make_node "node-1" 5000 2000 0 None 1000)
    [make_pod "node-1" "uid-a" "web-1" "prod" 1000 500 0]) ClusterAggregator_new in
  assert_eq (length (pods_in_namespace "nonexistent" None agg)) 0%nat.

(** ** Nodes *)

Definition test_node_summaries_headroom_with_platform : bool :=
  let agg := t_ingest (make_report (make_node "node-1" 5000 2000 1000 (Some 15000) 3000) []) ClusterAggregator_new in
  let summaries := node_summaries t_now None agg in
  all_of [assert_eq (length summaries) 1%nat; on_index summaries 0 (λ s, assert_eq (sum_headroom_uw s) (Some 7000))].

Definition test_node_summaries_headroom_without_platform : bool :=
  let agg := t_ingest (make_report (make_node "node-1" 5000 2000 0 None 3000) []) ClusterAggregator_new in
  on_index (node_summaries t_now None agg) 0 (λ s, assert_eq (sum_headroom_uw s) None).

Definition test_node_summaries_headroom_saturating_sub : bool :=
  let agg := t_ingest (make_report (make_node "node-1" 5000 2000 1000 (Some 5000) 0) []) ClusterAggregator_new in
  on_index (node_summaries t_now None agg) 0 (λ s, assert_eq (sum_headroom_uw s) (Some 0)).

Definition test_node_summaries_forwards_cpu_source : bool :=
  let node := set_cpu_source "rapl_msr" "measured" (make_node "node-1" 5000 2000 0 None 1000) in
  let agg := t_ingest (make_report node []) ClusterAggregator_new in
  on_index (node_summaries t_now None agg) 0
    (λ s, all_of [assert_eq (sum_cpu_source s) "rapl_msr"; assert_eq (sum_cpu_reading_type s) "measured"]).

Definition test_node_summary_found : bool :=
  let agg := t_ingest (make_report (make_node "node-1" 5000 2000 0 None 1000) []) ClusterAggregator_new in
  all_of [assert_some (node_summary t_now "node-1" agg);
          on_some (node_summary t_now "node-1" agg) (λ n, sum_cpu_uw n =? 5000)].

Definition test_node_summary_not_found : bool := assert_none (node_summary t_now "nonexistent" ClusterAggregator_new).

(** ** One pod *)

Definition test_pod_power_found : bool :=
  let agg := t_ingest (make_report (make_node "node-1" 5000 2000 0 None 1000)
    [make_pod "node-1" "uid-a" "web-1" "default" 1234 567 89]) ClusterAggregator_new in
  on_some (pod_power "uid-a" agg)
    (λ pod, all_of [pr_cpu_uw pod =? 1234; pr_memory_uw pod =? 567; pr_gpu_uw pod =? 89; pr_total_uw pod =? 1890]).

Definition test_pod_power_not_found : bool := assert_none (pod_power "nonexistent" ClusterAggregator_new).

(** ** History *)

Definition test_namespace_history_filtering : bool :=
  let agg := ClusterAggregator_new in
  let agg := {| pods := pods agg; nodes := nodes agg; staleness_threshold := staleness_threshold agg;
                history := <["prod" := [(t_system - 100 * sec, 5000); (t_system - 50 * sec, 6000);
                                        (t_system - 10 * sec, 7000)]]> (history agg);
                history_retention := history_retention agg |} in
  let history := namespace_history "prod" (t_system - 60 * sec) agg in
  all_of [assert_eq (length history) 2%nat; on_index history 0 (λ h, h.2 =? 6000); on_index history 1 (λ h, h.2 =? 7000)].

Definition test_namespace_history_nonexistent_namespace : bool :=
  assert_eq (length (namespace_history "nonexistent" (t_system - 3600 * sec) ClusterAggregator_new)) 0%nat.

(** ** Sources *)

Definition test_cpu_source_info_no_nodes : bool :=
  let '(source, reading_type) := cpu_source_info ClusterAggregator_new in
  all_of [assert_eq source "unknown"; assert_eq reading_type "none"].

Definition test_memory_source_info_no_nodes : bool := assert_eq (memory_source_info ClusterAggregator_new) "unknown".

Definition test_cpu_source_info_with_node : bool :=
  let node := set_cpu_source "rapl_sysfs" "estimated" (make_node "node-1" 5000 2000 0 None 1000) in
  let agg := t_ingest (make_report node []) ClusterAggregator_new in
  let '(source, reading_type) := cpu_source_info agg in
  all_of [assert_eq source "rapl_sysfs"; assert_eq reading_type "estimated"].

Definition test_all_sources_empty : bool := assert_eq (length (all_sources ClusterAggregator_new)) 0%nat.

Definition test_all_sources_merged_from_nodes : bool :=
  let node1 := set_sources [{| ss_name := "rapl"; ss_node_name := "node-1"; ss_component := "cpu";
    ss_reading_type := "estimated"; ss_available := true; ss_selected := true; ss_power_uw := 5000 |}]
    (make_node "node-1" 5000 2000 0 None 1000) in
  let node2 := set_sources [{| ss_name := "hwmon"; ss_node_name := "node-2"; ss_component := "cpu";
    ss_reading_type := "estimated"; ss_available := true; ss_selected := true; ss_power_uw := 3000 |}]
    (make_node "node-2" 3000 1000 0 None 800) in
  let agg := t_ingest (make_report node2 []) (t_ingest (make_report node1 []) ClusterAggregator_new) in
  assert_eq (length (all_sources agg)) 2%nat.

Definition test_node_count : bool :=
  let agg := t_ingest (make_report (make_node "node-1" 5000 2000 0 None 1000) []) ClusterAggregator_new in
  let agg' := t_ingest (make_report (make_node "node-2" 3000 1000 0 None 800) []) agg in
  all_of [assert_eq (node_count ClusterAggregator_new) 0%nat; assert_eq (node_count agg) 1%nat;
          assert_eq (node_count agg') 2%nat].

(** ** Edge cases *)

Definition test_ingest_empty_pods : bool :=
  let agg := t_ingest (make_report (make_node "node-1" 5000 2000 0 None 1000) []) ClusterAggregator_new in
  all_of [assert_eq (size (nodes agg)) 1%nat; assert_eq (size (pods agg)) 0%nat].

Definition test_large_power_values : bool :=
  let large := u64_max / 4 in
  let agg := t_ingest (make_report (make_node "node-1" large large 0 (Some (u64_max / 2)) large)
    [make_pod "node-1" "uid-a" "big" "default" large large 0]) ClusterAggregator_new in
  let power := cluster_power None agg in
  all_of [cl_cpu_uw power =? large; cl_memory_uw power =? large].

Definition test_zero_power_values : bool :=
  let agg := t_ingest (make_report (make_node "node-1" 0 0 0 (Some 0) 0)
    [make_pod "node-1" "uid-a" "idle" "default" 0 0 0]) ClusterAggregator_new in
  let power := cluster_power None agg in
  all_of [cl_total_attributed_uw power =? 0; assert_eq (cl_pod_count power) 1%nat].

Definition test_repeated_node_updates_replace_state : bool :=
  let agg := t_ingest (make_report (make_node "node-1" 5000 2000 0 None 1000) []) ClusterAggregator_new in
  let agg := t_ingest (make_report (make_node "node-1" 9000 4000 0 None 2000) []) agg in
  let power := cluster_power None agg in
  all_of [cl_cpu_uw power =? 9000; assert_eq (cl_node_count power) 1%nat].

(** ** Groups *)

Definition find_group (name : string) (groups : list GroupPower) : option GroupPower :=
  list_find_p (λ g, String.eqb (gp_group_name g) name) groups.

Definition test_group_power_by_workload : bool :=
  let pod_a := set_workload "deploy-uid-1" "web" "Deployment" "application"
    (make_pod "node-1" "uid-a" "web-1" "default" 1000 500 0) in
  let pod_b := set_workload "deploy-uid-1" "web" "Deployment" "application"
    (make_pod "node-1" "uid-b" "web-2" "default" 2000 800 0) in
  let pod_c := set_workload "deploy-uid-2" "api" "Deployment" "application"
    (make_pod "node-1" "uid-c" "api-1" "default" 3000 1000 0) in
  let agg := t_ingest (make_report (make_node "node-1" 10000 5000 0 None 1000) [pod_a; pod_b; pod_c]) ClusterAggregator_new in
  let groups := group_power GWorkload None ClassificationData_default agg in
  all_of [assert_eq (length groups) 2%nat;
          on_some (find_group "web" groups) (λ g, all_of [gp_cpu_uw g =? 3000; assert_eq (gp_pod_count g) 2%nat]);
          on_some (find_group "api" groups) (λ g, all_of [gp_cpu_uw g =? 3000; assert_eq (gp_pod_count g) 1%nat])].

Definition test_group_power_by_label : bool :=
  let pod_a := add_label "app.kubernetes.io/name" "frontend" (make_pod "node-1" "uid-a" "web-1" "default" 1000 500 0) in
  let pod_b := add_label "app.kubernetes.io/name" "frontend" (make_pod "node-1" "uid-b" "api-1" "default" 2000 800 0) in
  let pod_c := add_label "app.kubernetes.io/name" "backend" (make_pod "node-1" "uid-c" "db-1" "default" 3000 1000 0) in
  let agg := t_ingest (make_report (make_node "node-1" 10000 5000 0 None 1000) [pod_a; pod_b; pod_c]) ClusterAggregator_new in
  let groups := group_power (GLabel "app.kubernetes.io/name") None ClassificationData_default agg in
  all_of [assert_eq (length groups) 2%nat;
          on_some (find_group "frontend" groups) (λ g, all_of [gp_cpu_uw g =? 3000; assert_eq (gp_pod_count g) 2%nat])].

Definition test_group_power_category_filter : bool :=
  let pod_a := set_workload "d1" "web" "Deployment" "application"
    (make_pod "node-1" "uid-a" "web-1" "default" 1000 500 0) in
  let pod_b := set_workload "d2" "prometheus" "StatefulSet" "platform"
    (make_pod "node-1" "uid-b" "mon-1" "openshift-monitoring" 2000 800 0) in
  let agg := t_ingest (make_report (make_node "node-1" 10000 5000 0 None 1000) [pod_a; pod_b]) ClusterAggregator_new in
  let apps := group_power GWorkload (Some "application") ClassificationData_default agg in
  let platform := group_power GWorkload (Some "platform") ClassificationData_default agg in
  all_of [assert_eq (length apps) 1%nat; on_index apps 0 (λ g, assert_eq (gp_group_name g) "web");
          assert_eq (length platform) 1%nat; on_index platform 0 (λ g, assert_eq (gp_group_name g) "prometheus")].

(** ** Results *)

Definition aggregator_tests : list (string * bool) :=
  [("ingest_single_report", test_ingest_single_report);
   ("ingest_multiple_reports_same_node", test_ingest_multiple_reports_same_node);
   ("ingest_multiple_nodes", test_ingest_multiple_nodes);
   ("ingest_pod_eviction_when_no_longer_reported", test_ingest_pod_eviction_when_no_longer_reported);
   ("ingest_pod_eviction_does_not_affect_other_nodes", test_ingest_pod_eviction_does_not_affect_other_nodes);
   ("ingest_records_history", test_ingest_records_history);
   ("cluster_power_empty", test_cluster_power_empty);
   ("cluster_power_single_node", test_cluster_power_single_node);
   ("cluster_power_multi_node", test_cluster_power_multi_node);
   ("cluster_power_platform_uw_none_treated_as_zero", test_cluster_power_platform_uw_none_treated_as_zero);
   ("cluster_power_avg_error_ratio", test_cluster_power_avg_error_ratio);
   ("namespace_power_empty", test_namespace_power_empty);
   ("namespace_power_single_namespace", test_namespace_power_single_namespace);
   ("namespace_power_multiple_namespaces_sorted", test_namespace_power_multiple_namespaces_sorted);
   ("namespace_power_pods_across_nodes", test_namespace_power_pods_across_nodes);
   ("pods_in_namespace_correct_filtering", test_pods_in_namespace_correct_filtering);
   ("pods_in_namespace_empty", test_pods_in_namespace_empty);
   ("node_summaries_headroom_with_platform", test_node_summaries_headroom_with_platform);
   ("node_summaries_headroom_without_platform", test_node_summaries_headroom_without_platform);
   ("node_summaries_headroom_saturating_sub", test_node_summaries_headroom_saturating_sub);
   ("node_summaries_forwards_cpu_source", test_node_summaries_forwards_cpu_source);
   ("node_summary_found", test_node_summary_found);
   ("node_summary_not_found", test_node_summary_not_found);
   ("pod_power_found", test_pod_power_found);
   ("pod_power_not_found", test_pod_power_not_found);
   ("namespace_history_filtering", test_namespace_history_filtering);
   ("namespace_history_nonexistent_namespace", test_namespace_history_nonexistent_namespace);
   ("cpu_source_info_no_nodes", test_cpu_source_info_no_nodes);
   ("memory_source_info_no_nodes", test_memory_source_info_no_nodes);
   ("cpu_source_info_with_node", test_cpu_source_info_with_node);
   ("all_sources_empty", test_all_sources_empty);
   ("all_sources_merged_from_nodes", test_all_sources_merged_from_nodes);
   ("node_count", test_node_count);
   ("ingest_empty_pods", test_ingest_empty_pods);
   ("large_power_values", test_large_power_values);
   ("zero_power_values", test_zero_power_values);
   ("repeated_node_updates_replace_state", test_repeated_node_updates_replace_state);
   ("group_power_by_workload", test_group_power_by_workload);
   ("group_power_by_label", test_group_power_by_label);
   ("group_power_category_filter", test_group_power_category_filter)].
(** The failing test expects the [workload_category] a pod reports to select it;
    [group_power] documents that it ignores this field and asks the
    classification, which is empty there. *)
Example aggregator_tests_run : failures aggregator_tests = ["group_power_category_filter"].
Proof. vm_compute. reflexivity. Qed.
