(* ===== verification/TestsApi.v ===== *)
(** * TestsApi: the unit tests of the REST API, the scheduler and the scraper

    The test modules of keck-controller/src/api/mod.rs (requests go through the
    route table of [Server]), scheduler/mod.rs, carbon/mod.rs and
    kepler_scraper.rs.  All pass but one of the API's (below). *)

From S2P Require Import Prelude F64 Json Classify Aggregator Scheduler Api Kepler Views Controller Wire Server Carbon Testing TestsAggregator.

Open Scope Z_scope.

#[local] Existing Instance hash_iter_list.

(** ** keck-controller/src/api/mod.rs *)

Definition make_state : Controller := Controller_new None.
Definition make_agent_report : AgentReport := {|
  ar_node := {|
    nr_node_name := "test-node"; nr_cpu_uw := 5000000; nr_memory_uw := 2000000; nr_gpu_uw := 0;
    nr_platform_uw := Some 10000000; nr_psu_output_uw := None; nr_idle_uw := 3000000; nr_error_ratio := f_lit 5 100;
    nr_pod_count := 1; nr_process_count := 50; nr_timestamp := t_system; nr_cpu_source := "rapl";
    nr_memory_source := "estimated"; nr_cpu_reading_type := "estimated"; nr_sources := []; nr_metering_method := "keck" |};
  ar_pods := [{|
    pr_node_name := "test-node"; pr_pod_uid := "test-uid-123"; pr_pod_name := "web-app-1"; pr_namespace := "production";
    pr_cpu_uw := 1000000; pr_memory_uw := 500000; pr_gpu_uw := 0; pr_storage_uw := 0; pr_io_uw := 0; pr_total_uw := 1500000;
    pr_timestamp := t_system; pr_workload_uid := EmptyString; pr_workload_name := EmptyString;
    pr_workload_kind := EmptyString; pr_workload_category := "application"; pr_labels := ∅; pr_metering_method := "keck" |}] |}.

(** A request to the application, and its answer. *)
Definition test_clock : RequestClock := {| rc_now := t_now; rc_evict := t_now; rc_system := t_system |}.
Definition get_uri (path : string) (params : list (string * string)) : Request :=
  {| rq_method := GET; rq_path := path; rq_params := list_to_map params; rq_authorization := None; rq_content_length := 0;
     rq_body := None |}.
Definition oneshot (app : Controller) (rq : Request) : Response := (serve test_clock rq app).1.
Definition with_reports (reports : list AgentReport) (c : Controller) : Controller :=
  with_aggregator (foldl (λ agg r, t_ingest r agg) (aggregator (c_server c)) reports) c.

(** [json[key]] and comparisons of a JSON value. *)
Definition at_key (key : string) (v : Value) : Value := default Null (get key v).
Definition is_int (v : Value) (n : Z) : bool := match v with Number (PosInt m) => m =? n | _ => false end.
Definition is_float (v : Value) (x : f64) : bool := match v with Number (Float y) => assert_feq y x | _ => false end.
Definition is_str (v : Value) (s : string) : bool := match v with Str t => String.eqb t s | _ => false end.
Definition is_object (v : Value) : bool := match v with Object _ => true | _ => false end.
Definition ok_json (r : Response) (f : Value → bool) : bool := match r with JsonBody v => f v | _ => false end.
Definition ok_array (r : Response) (f : list Value → bool) : bool := ok_json r (λ v, on_some (as_array v) f).

Definition test_healthz : bool :=
  match oneshot make_state (get_uri "/healthz" []) with TextBody s => String.eqb s "ok" | _ => false end.

Definition test_post_report : bool :=
  let rq := {| rq_method := POST; rq_path := "/api/v1/report"; rq_params := ∅; rq_authorization := None;
               rq_content_length := 1000; rq_body := Some (AgentReport_ser make_agent_report) |} in
  let '(resp, state) := serve test_clock rq make_state in
  all_of [match resp with ReportAnswer Accepted => true | _ => false end;
          assert_eq (node_count (aggregator (c_server state))) 1%nat].

Definition test_get_cluster_empty : bool :=
  ok_json (oneshot make_state (get_uri "/api/v1/cluster" []))
    (λ json, all_of [is_int (at_key "node_count" json) 0; is_int (at_key "pod_count" json) 0;
                     is_float (at_key "cpu_watts" json) fzero]).

Definition test_get_cluster_with_data : bool :=
  ok_json (oneshot (with_reports [make_agent_report] make_state) (get_uri "/api/v1/cluster" []))
    (λ json, all_of [is_int (at_key "node_count" json) 1; is_int (at_key "pod_count" json) 1;
                     is_float (at_key "cpu_watts" json) (f_of_Z 5)]).

Definition test_get_namespaces : bool :=
  ok_array (oneshot (with_reports [make_agent_report] make_state) (get_uri "/api/v1/namespaces" []))
    (λ arr, all_of [assert_eq (length arr) 1%nat;
                    on_index arr 0 (λ v, is_str (at_key "namespace" v) "production" && is_int (at_key "pod_count" v) 1)]).

Definition test_get_namespace_pods : bool :=
  ok_array (oneshot (with_reports [make_agent_report] make_state) (get_uri "/api/v1/pods-by-namespace" [("ns", "production")]))
    (λ arr, all_of [assert_eq (length arr) 1%nat; on_index arr 0 (λ v, is_str (at_key "pod_name" v) "web-app-1")]).

Definition test_get_namespace_pods_empty_ns : bool :=
  ok_array (oneshot (with_reports [make_agent_report] make_state) (get_uri "/api/v1/pods-by-namespace" [("ns", "nonexistent")]))
    (λ arr, assert_eq (length arr) 0%nat).

Definition test_get_nodes : bool :=
  ok_array (oneshot (with_reports [make_agent_report] make_state) (get_uri "/api/v1/nodes" []))
    (λ arr, all_of [assert_eq (length arr) 1%nat; on_index arr 0 (λ v, is_str (at_key "node_name" v) "test-node")]).

Definition test_get_node_found : bool :=
  ok_json (oneshot (with_reports [make_agent_report] make_state) (get_uri "/api/v1/pods-by-node" [("name", "test-node")]))
    (λ json, all_of [is_str (at_key "node_name" json) "test-node"; is_float (at_key "cpu_watts" json) (f_of_Z 5)]).

Definition test_get_node_not_found : bool :=
  match oneshot make_state (get_uri "/api/v1/pods-by-node" [("name", "nonexistent")]) with
  | HandlerNotFound => true
  | _ => false
  end.

Definition test_get_pod_found : bool :=
  ok_json (oneshot (with_reports [make_agent_report] make_state) (get_uri "/api/v1/pods-by-uid" [("uid", "test-uid-123")]))
    (λ json, all_of [is_str (at_key "pod_uid" json) "test-uid-123"; is_str (at_key "pod_name" json) "web-app-1";
                     is_str (at_key "namespace" json) "production"; is_float (at_key "total_watts" json) (f_lit 15 10)]).

Definition test_get_pod_not_found : bool :=
  match oneshot make_state (get_uri "/api/v1/pods-by-uid" [("uid", "nonexistent")]) with
  | HandlerNotFound => true
  | _ => false
  end.

Definition test_cluster_json_has_data_quality : bool :=
  ok_json (oneshot (with_reports [make_agent_report] make_state) (get_uri "/api/v1/cluster" []))
    (λ json, let dq := at_key "data_quality" json in
       all_of [is_object dq; is_object (at_key "cpu" dq); is_object (at_key "memory" dq); is_object (at_key "gpu" dq);
               is_object (at_key "platform" dq)]).

Definition map_pods (f : PodPowerReport → PodPowerReport) (r : AgentReport) : AgentReport :=
  {| ar_node := ar_node r; ar_pods := f <$> ar_pods r |}.
Definition test_get_applications_by_workload : bool :=
  let report := map_pods (set_workload "deploy-1" "web" "Deployment" "application") make_agent_report in
  ok_array (oneshot (with_reports [report] make_state) (get_uri "/api/v1/applications" [("group_by", "workload")]))
    (λ arr, all_of [assert_eq (length arr) 1%nat;
       on_index arr 0 (λ v, all_of [is_str (at_key "group_name" v) "web"; is_str (at_key "group_kind" v) "Deployment";
                                    is_str (at_key "category" v) "application"])]).

(** The second report of the test: another node, with a pod of the platform. *)
Definition platform_report : AgentReport :=
  let n := ar_node make_agent_report in
  {| ar_node := {| nr_node_name := "node-2"; nr_cpu_uw := nr_cpu_uw n; nr_memory_uw := nr_memory_uw n; nr_gpu_uw := nr_gpu_uw n;
       nr_platform_uw := nr_platform_uw n; nr_psu_output_uw := nr_psu_output_uw n; nr_idle_uw := nr_idle_uw n;
       nr_error_ratio := nr_error_ratio n; nr_pod_count := nr_pod_count n; nr_process_count := nr_process_count n;
       nr_timestamp := nr_timestamp n; nr_cpu_source := nr_cpu_source n; nr_memory_source := nr_memory_source n;
       nr_cpu_reading_type := nr_cpu_reading_type n; nr_sources := nr_sources n; nr_metering_method := nr_metering_method n |};
     ar_pods := (λ p, {| pr_node_name := "node-2"; pr_pod_uid := "uid-platform"; pr_pod_name := pr_pod_name p;
       pr_namespace := "openshift-monitoring"; pr_cpu_uw := pr_cpu_uw p; pr_memory_uw := pr_memory_uw p; pr_gpu_uw := pr_gpu_uw p;
       pr_storage_uw := pr_storage_uw p; pr_io_uw := pr_io_uw p; pr_total_uw := pr_total_uw p; pr_timestamp := pr_timestamp p;
       pr_workload_uid := pr_workload_uid p; pr_workload_name := pr_workload_name p; pr_workload_kind := pr_workload_kind p;
       pr_workload_category := "platform"; pr_labels := pr_labels p; pr_metering_method := pr_metering_method p |})
       <$> ar_pods make_agent_report |}.
Definition test_get_applications_with_category_filter : bool :=
  ok_array (oneshot (with_reports [make_agent_report; platform_report] make_state)
              (get_uri "/api/v1/applications" [("category", "application")]))
    (λ arr, all_of [assert_eq (length arr) 1%nat; on_index arr 0 (λ v, is_str (at_key "category" v) "application")]).

Definition api_tests : list (string * bool) :=
  [("healthz", test_healthz); ("post_report", test_post_report); ("get_cluster_empty", test_get_cluster_empty);
   ("get_cluster_with_data", test_get_cluster_with_data); ("get_namespaces", test_get_namespaces);
   ("get_namespace_pods", test_get_namespace_pods); ("get_namespace_pods_empty_ns", test_get_namespace_pods_empty_ns);
   ("get_nodes", test_get_nodes); ("get_node_found", test_get_node_found); ("get_node_not_found", test_get_node_not_found);
   ("get_pod_found", test_get_pod_found); ("get_pod_not_found", test_get_pod_not_found);
   ("cluster_json_has_data_quality", test_cluster_json_has_data_quality);
   ("get_applications_by_workload", test_get_applications_by_workload);
   ("get_applications_with_category_filter", test_get_applications_with_category_filter)].
(** As in [TestsAggregator], the failing test expects the pod's own category to
    select it. *)
Example api_tests_run : failures api_tests = ["get_applications_with_category_filter"].
Proof. vm_compute. reflexivity. Qed.

(** ** keck-controller/src/scheduler/mod.rs

    The factories of the source leave [metering_method] out, so that the module
    does not compile; here it is empty, as in the aggregator's. *)

Definition sched_make_node (name : string) (cpu mem gpu : Z) (platform : option Z) (error_ratio : f64) : NodePowerReport := {|
  nr_node_name := name; nr_cpu_uw := cpu; nr_memory_uw := mem; nr_gpu_uw := gpu; nr_platform_uw := platform;
  nr_psu_output_uw := None; nr_idle_uw := 1000; nr_error_ratio := error_ratio; nr_pod_count := 5; nr_process_count := 50;
  nr_timestamp := t_system; nr_cpu_source := "rapl"; nr_memory_source := "estimated"; nr_cpu_reading_type := "estimated";
  nr_sources := []; nr_metering_method := EmptyString |}.
Definition sched_make_pod (node uid ns : string) (cpu : Z) : PodPowerReport := {|
  pr_node_name := node; pr_pod_uid := uid; pr_pod_name := String.append "pod-" uid; pr_namespace := ns;
  pr_cpu_uw := cpu; pr_memory_uw := 0; pr_gpu_uw := 0; pr_storage_uw := 0; pr_io_uw := 0; pr_total_uw := cpu;
  pr_timestamp := t_system; pr_workload_uid := EmptyString; pr_workload_name := EmptyString; pr_workload_kind := EmptyString;
  pr_workload_category := "application"; pr_labels := ∅; pr_metering_method := EmptyString |}.
Definition set_budget (ns : string) (budget : f64) (cfg : SchedulerConfig) : SchedulerConfig :=
  {| headroom_weight := headroom_weight cfg; accuracy_weight := accuracy_weight cfg; strategy := strategy cfg;
     namespace_budgets := <[ns := budget]> (namespace_budgets cfg) |}.

Definition test_filter_allows_unknown_nodes : bool :=
  let result := filter_nodes t_now SchedulerConfig_default ClusterAggregator_new ["unknown-node"] "default" in
  all_of [assert_eq (length (fr_nodes result)) 1%nat; assert_eq (size (fr_failed result)) 0%nat].

Definition test_filter_rejects_high_error_ratio : bool :=
  let agg := t_ingest (make_report (sched_make_node "bad-node" 5000 2000 0 None (f_lit 60 100)) []) ClusterAggregator_new in
  let result := filter_nodes t_now SchedulerConfig_default agg ["bad-node"] "default" in
  all_of [assert_eq (length (fr_nodes result)) 0%nat; assert_some (fr_failed result !! "bad-node")].

Definition test_filter_allows_low_error_ratio : bool :=
  let agg := t_ingest (make_report (sched_make_node "good-node" 5000 2000 0 None (f_lit 5 100)) []) ClusterAggregator_new in
  let result := filter_nodes t_now SchedulerConfig_default agg ["good-node"] "default" in
  assert_eq (length (fr_nodes result)) 1%nat.

Definition test_filter_rejects_over_namespace_budget : bool :=
  let agg := t_ingest (make_report (sched_make_node "node-1" 5000 2000 0 None (f_lit 5 100))
    [sched_make_pod "node-1" "uid-1" "prod" 5000000]) ClusterAggregator_new in
  let result := filter_nodes t_now (set_budget "prod" fone SchedulerConfig_default) agg ["node-1"] "prod" in
  all_of [assert_eq (length (fr_nodes result)) 0%nat; assert_some (fr_failed result !! "node-1")].

Definition test_prioritize_unknown_nodes_get_neutral_score : bool :=
  let scores := prioritize t_now SchedulerConfig_default ClusterAggregator_new ["unknown"] in
  all_of [assert_eq (length scores) 1%nat; on_index scores 0 (λ s, score s =? 50)].

Definition test_prioritize_scores_nodes : bool :=
  let agg := t_ingest (make_report (sched_make_node "busy-node" 8000 3000 0 (Some 15000) (f_lit 5 100)) []) ClusterAggregator_new in
  let agg := t_ingest (make_report (sched_make_node "idle-node" 1000 500 0 (Some 15000) (f_lit 5 100)) []) agg in
  let scores := prioritize t_now SchedulerConfig_default agg ["busy-node"; "idle-node"] in
  let score_of name := list_find_p (λ s, String.eqb (score_node s) name) scores in
  all_of [assert_eq (length scores) 2%nat;
          on_some (score_of "busy-node") (λ b, on_some (score_of "idle-node") (λ i, score i <? score b))].

Definition test_scheduler_config_defaults : bool :=
  let config := SchedulerConfig_default in
  all_of [assert_near f_1e_10 (headroom_weight config) (f_lit 7 10); assert_near f_1e_10 (accuracy_weight config) (f_lit 3 10);
          assert_eq (size (namespace_budgets config)) 0%nat].

Definition scheduler_tests : list (string * bool) :=
  [("filter_allows_unknown_nodes", test_filter_allows_unknown_nodes);
   ("filter_rejects_high_error_ratio", test_filter_rejects_high_error_ratio);
   ("filter_allows_low_error_ratio", test_filter_allows_low_error_ratio);
   ("filter_rejects_over_namespace_budget", test_filter_rejects_over_namespace_budget);
   ("prioritize_unknown_nodes_get_neutral_score", test_prioritize_unknown_nodes_get_neutral_score);
   ("prioritize_scores_nodes", test_prioritize_scores_nodes); ("scheduler_config_defaults", test_scheduler_config_defaults)].
Example scheduler_tests_run : failures scheduler_tests = [].
Proof. vm_compute. reflexivity. Qed.

(** ** keck-controller/src/carbon/mod.rs *)

Definition new_tracker : CarbonTracker f64 := CarbonTracker_new None None.
Definition make_tracker_with_intensity (grams : f64) : CarbonTracker f64 :=
  {| current_intensity := Some {| grams_co2_per_kwh := grams; ci_source := "test"; ci_region := "test-region";
                                  ci_timestamp := t_system; is_forecast := false |};
     current_cost := current_cost new_tracker; api_endpoint := api_endpoint new_tracker; ct_region := ct_region new_tracker;
     refresh_interval := refresh_interval new_tracker |}.
Definition hour : Z := 3600 * sec.

Definition test_new_tracker_no_intensity : bool := assert_none (carbon_current new_tracker).

Definition test_calculate_without_intensity_returns_none : bool := assert_none (calculate new_tracker 1000000 hour).

Definition test_calculate_basic : bool :=
  on_some (calculate (make_tracker_with_intensity (f_of_Z 400)) 1000000 hour)
    (λ report, all_of [assert_near f_1e_10 (power_watts report) fone; assert_near f_1e_10 (energy_wh report) fone;
                       assert_near f_1e_6 (carbon_grams report) (f_lit 4 10)]).

Definition test_calculate_cost : bool :=
  on_some (calculate (make_tracker_with_intensity (f_of_Z 400)) 1000000000 hour)
    (λ report, all_of [assert_near f_1e_6 (power_watts report) (f_of_Z 1000); assert_near f_1e_6 (energy_wh report) (f_of_Z 1000);
                       assert_near f_1e_6 (cost report) (f_lit 10 100)]).

Definition test_calculate_annualization : bool :=
  on_some (calculate (make_tracker_with_intensity (f_of_Z 400)) 1000000000 hour)
    (λ report, assert_near fone (cost_per_year report) (fmul (f_lit 10 100) (f_of_Z 8766))).

Definition test_calculate_zero_power : bool :=
  on_some (calculate (make_tracker_with_intensity (f_of_Z 400)) 0 hour)
    (λ report, all_of [assert_feq (power_watts report) fzero; assert_feq (carbon_grams report) fzero;
                       assert_feq (cost report) fzero]).

Definition carbon_tests : list (string * bool) :=
  [("new_tracker_no_intensity", test_new_tracker_no_intensity);
   ("calculate_without_intensity_returns_none", test_calculate_without_intensity_returns_none);
   ("calculate_basic", test_calculate_basic); ("calculate_cost", test_calculate_cost);
   ("calculate_annualization", test_calculate_annualization); ("calculate_zero_power", test_calculate_zero_power)].
Example carbon_tests_run : failures carbon_tests = [].
Proof. vm_compute. reflexivity. Qed.

(** ** keck-controller/src/kepler_scraper.rs

    The lines of the tests are printed from their labels; the outer [option] of a
    parser is a panic. *)

Definition on_parsed {A} (r : option (option A)) (f : A → bool) : bool := on_some r (λ o, on_some o f).
Definition f_milli : f64 := f_lit 1 1000.

Definition test_parse_pod_metric : bool :=
  let line := render_sample {| sa_name := "kepler_pod_cpu_watts"; sa_value := "2.5"; sa_timestamp := None;
    sa_labels := [("node_name", "node-1"); ("pod_id", "abc-123"); ("pod_name", "web-1"); ("pod_namespace", "default");
                  ("state", "running"); ("zone", "package")] |} in
  on_parsed (parse_pod_metric line)
    (λ kw, all_of [assert_eq (pk_pod_id kw.1) "abc-123"; assert_eq (pk_pod_name kw.1) "web-1";
                   assert_eq (pk_pod_namespace kw.1) "default"; assert_eq (pk_node_name kw.1) "node-1";
                   assert_eq (pk_state kw.1) "running"; assert_near f_milli kw.2 (f_lit 25 10)]).

Definition test_parse_node_metric : bool :=
  let line := render_sample {| sa_name := "kepler_node_cpu_watts"; sa_value := "105.3"; sa_timestamp := None;
    sa_labels := [("node_name", "node-1"); ("path", "/sys/class/powercap/intel-rapl:0"); ("zone", "package")] |} in
  on_parsed (parse_node_metric line)
    (λ nw, all_of [assert_eq nw.1 "node-1"; assert_near f_milli nw.2 (f_lit 1053 10)]).

Definition test_parse_labels : bool :=
  let labels := parse_labels (render_labels [("pod_id", "abc"); ("pod_name", "web"); ("state", "running")]) in
  all_of [assert_eq (labels !! "pod_id") (Some "abc"); assert_eq (labels !! "pod_name") (Some "web");
          assert_eq (labels !! "state") (Some "running")].

Definition test_parse_zero_value : bool :=
  let line := render_sample {| sa_name := "kepler_pod_cpu_watts"; sa_value := "0"; sa_timestamp := None;
    sa_labels := [("node_name", "n"); ("pod_id", "p"); ("pod_name", "x"); ("pod_namespace", "ns"); ("state", "running");
                  ("zone", "dram")] |} in
  on_parsed (parse_pod_metric line) (λ kw, all_of [assert_feq kw.2 fzero; assert_eq (pk_pod_namespace kw.1) "ns"]).

Definition kepler_tests : list (string * bool) :=
  [("parse_pod_metric", test_parse_pod_metric); ("parse_node_metric", test_parse_node_metric);
   ("parse_labels", test_parse_labels); ("parse_zero_value", test_parse_zero_value)].
Example kepler_tests_run : failures kepler_tests = [].
Proof. vm_compute. reflexivity. Qed.
