(* ===== verification/TestsFleet.v ===== *)
(** * TestsFleet: the unit tests of the fleet manager, on the model

    The test modules of keck-fleet/src/registry/mod.rs, policy/mod.rs and
    reporting/mod.rs.  Their factories differ in a few figures and keep the name
    of their module here; [unwrap] of a summary is [on_some], since a summary may
    panic.  All tests pass. *)

From S2P Require Import Prelude F64 Registry Policy Reporting Testing.

Open Scope Z_scope.

#[local] Existing Instance hash_iter_list.

(** Readings of [Instant::now] and [Utc::now]. *)
Definition f_now : Z := 1000000 * second.
Definition f_utc : Z := 1700000000 * second.
Definition f_ingest (report : ClusterReport) (reg : ClusterRegistry) : ClusterRegistry := registry_ingest f_now f_utc report reg.
Definition tenth (n : Z) (x : f64) : f64 := fmul x (f_lit n 10).

(** ** keck-fleet/src/registry/mod.rs *)

Definition make_cluster_report (id name rg : string) (total intensity : f64) : ClusterReport := {|
  cluster_id := id; cluster_name := name; region := rg; provider := "bare-metal";
  power := {| total_watts := total; cpu_watts := tenth 6 total; memory_watts := tenth 2 total; gpu_watts := tenth 1 total;
              idle_watts := tenth 1 total; platform_watts := Some (tenth 12 total) |};
  cr_namespaces := [{| nss_namespace := "prod"; nss_total_watts := tenth 7 total; nss_pod_count := 10 |};
                    {| nss_namespace := "staging"; nss_total_watts := tenth 3 total; nss_pod_count := 5 |}];
  carbon := {| intensity_grams_per_kwh := intensity; emissions_grams_per_hour := fmul (fdiv total (f_of_Z 1000)) intensity;
               cost_per_kwh := f_lit 10 100; currency := "USD" |};
  cr_node_count := 3; cr_pod_count := 15; avg_error_ratio := f_lit 5 100; cr_timestamp := f_utc |}.

Definition test_registry_new_empty : bool :=
  on_some (fleet_summary f_now ClusterRegistry_new)
    (λ s, all_of [assert_eq (fs_cluster_count s) 0%nat; assert_feq (fs_total_watts s) fzero]).

Definition test_ingest_single_cluster : bool :=
  let reg := f_ingest (make_cluster_report "c1" "prod-us" "us-east-1" (f_of_Z 1000) (f_of_Z 400)) ClusterRegistry_new in
  on_some (fleet_summary f_now reg)
    (λ s, all_of [assert_eq (fs_cluster_count s) 1%nat; assert_near f_1e_6 (fs_total_watts s) (f_of_Z 1000);
                  fs_total_nodes s =? 3; fs_total_pods s =? 15]).

Definition test_ingest_multiple_clusters : bool :=
  let reg := f_ingest (make_cluster_report "c1" "prod-us" "us-east-1" (f_of_Z 1000) (f_of_Z 400)) ClusterRegistry_new in
  let reg := f_ingest (make_cluster_report "c2" "prod-eu" "eu-west-1" (f_of_Z 500) (f_of_Z 200)) reg in
  on_some (fleet_summary f_now reg)
    (λ s, all_of [assert_eq (fs_cluster_count s) 2%nat; assert_near f_1e_6 (fs_total_watts s) (f_of_Z 1500);
                  fs_total_nodes s =? 6; fs_total_pods s =? 30]).

Definition test_ingest_updates_existing_cluster : bool :=
  let reg := f_ingest (make_cluster_report "c1" "prod-us" "us-east-1" (f_of_Z 1000) (f_of_Z 400)) ClusterRegistry_new in
  let reg := f_ingest (make_cluster_report "c1" "prod-us" "us-east-1" (f_of_Z 2000) (f_of_Z 400)) reg in
  on_some (fleet_summary f_now reg)
    (λ s, all_of [assert_eq (fs_cluster_count s) 1%nat; assert_near f_1e_6 (fs_total_watts s) (f_of_Z 2000)]).

Definition test_fleet_summary_sorted_by_power : bool :=
  let reg := f_ingest (make_cluster_report "c1" "low" "us-east-1" (f_of_Z 100) (f_of_Z 400)) ClusterRegistry_new in
  let reg := f_ingest (make_cluster_report "c2" "high" "eu-west-1" (f_of_Z 5000) (f_of_Z 200)) reg in
  let reg := f_ingest (make_cluster_report "c3" "mid" "ap-south-1" (f_of_Z 1000) (f_of_Z 600)) reg in
  on_some (fleet_summary f_now reg)
    (λ s, all_of [on_index (fs_clusters s) 0 (λ c, assert_eq (cv_cluster_name c) "high");
                  on_index (fs_clusters s) 1 (λ c, assert_eq (cv_cluster_name c) "mid");
                  on_index (fs_clusters s) 2 (λ c, assert_eq (cv_cluster_name c) "low")]).

Definition test_fleet_summary_cost_calculation : bool :=
  let reg := f_ingest (make_cluster_report "c1" "prod" "us-east-1" (f_of_Z 1000) (f_of_Z 400)) ClusterRegistry_new in
  on_some (fleet_summary f_now reg) (λ s, assert_near f_1e_6 (fs_total_cost_per_hour s) (f_lit 10 100)).

Definition find_team (team : string) (teams : list TeamPowerView) : option TeamPowerView :=
  list_find_p (λ t, String.eqb (tv_team t) team) teams.

Definition test_team_power_with_owners : bool :=
  let reg := set_namespace_owner "staging" "team-b" (set_namespace_owner "prod" "team-a" ClusterRegistry_new) in
  let reg := f_ingest (make_cluster_report "c1" "prod-us" "us-east-1" (f_of_Z 1000) (f_of_Z 400)) reg in
  on_some (team_power reg)
    (λ teams, all_of [assert_eq (length teams) 2%nat;
       on_some (find_team "team-a" teams) (λ a, on_some (find_team "team-b" teams) (λ b,
         fltb (tv_total_watts b) (tv_total_watts a)))]).

Definition test_team_power_unassigned : bool :=
  let reg := f_ingest (make_cluster_report "c1" "prod-us" "us-east-1" (f_of_Z 1000) (f_of_Z 400)) ClusterRegistry_new in
  on_some (team_power reg) (λ teams, forallb (λ t, String.eqb (tv_team t) "unassigned") teams).

Definition test_lowest_carbon_cluster : bool :=
  let reg := f_ingest (make_cluster_report "c1" "dirty" "us-east-1" (f_of_Z 1000) (f_of_Z 600)) ClusterRegistry_new in
  let reg := f_ingest (make_cluster_report "c2" "clean" "eu-west-1" (f_of_Z 1000) (f_of_Z 100)) reg in
  let reg := f_ingest (make_cluster_report "c3" "medium" "ap-south-1" (f_of_Z 1000) (f_of_Z 300)) reg in
  on_some (lowest_carbon_cluster f_now reg) (λ lowest, on_some lowest
    (λ c, all_of [assert_eq (cluster_name c) "clean"; assert_near f_1e_6 (intensity_grams_per_kwh (carbon c)) (f_of_Z 100)])).

Definition test_lowest_carbon_cluster_empty : bool := on_some (lowest_carbon_cluster f_now ClusterRegistry_new) assert_none.

Definition test_active_clusters : bool :=
  let reg := f_ingest (make_cluster_report "c1" "prod" "us-east-1" (f_of_Z 1000) (f_of_Z 400)) ClusterRegistry_new in
  assert_eq (length (active_clusters f_now reg)) 1%nat.

Definition test_cluster_power_history : bool :=
  let reg := f_ingest (make_cluster_report "c1" "prod" "us-east-1" (f_of_Z 1000) (f_of_Z 400)) ClusterRegistry_new in
  let reg := f_ingest (make_cluster_report "c1" "prod" "us-east-1" (f_of_Z 1500) (f_of_Z 400)) reg in
  assert_eq (length (cluster_power_history "c1" (f_utc - 60 * second) reg)) 2%nat.

Definition test_cluster_power_history_nonexistent : bool :=
  assert_eq (length (cluster_power_history "nonexistent" (f_utc - 60 * second) ClusterRegistry_new)) 0%nat.

Definition test_set_namespace_owner : bool :=
  let reg := set_namespace_owner "prod" "platform-team" ClusterRegistry_new in
  let reg := f_ingest (make_cluster_report "c1" "prod-us" "us-east-1" (f_of_Z 1000) (f_of_Z 400)) reg in
  on_some (team_power reg) (λ teams, assert_some (find_team "platform-team" teams)).

Definition registry_tests : list (string * bool) :=
  [("registry_new_empty", test_registry_new_empty); ("ingest_single_cluster", test_ingest_single_cluster);
   ("ingest_multiple_clusters", test_ingest_multiple_clusters);
   ("ingest_updates_existing_cluster", test_ingest_updates_existing_cluster);
   ("fleet_summary_sorted_by_power", test_fleet_summary_sorted_by_power);
   ("fleet_summary_cost_calculation", test_fleet_summary_cost_calculation);
   ("team_power_with_owners", test_team_power_with_owners); ("team_power_unassigned", test_team_power_unassigned);
   ("lowest_carbon_cluster", test_lowest_carbon_cluster); ("lowest_carbon_cluster_empty", test_lowest_carbon_cluster_empty);
   ("active_clusters", test_active_clusters); ("cluster_power_history", test_cluster_power_history);
   ("cluster_power_history_nonexistent", test_cluster_power_history_nonexistent);
   ("set_namespace_owner", test_set_namespace_owner)].
Example registry_tests_run : failures registry_tests = [].
Proof. vm_compute. reflexivity. Qed.

(** ** keck-fleet/src/policy/mod.rs *)

Definition policy_make_cluster_report (name : string) (total intensity error_ratio : f64) : ClusterReport := {|
  cluster_id := String.append "id-" name; cluster_name := name; region := "us-east-1"; provider := "bare-metal";
  power := {| total_watts := total; cpu_watts := tenth 6 total; memory_watts := tenth 2 total; gpu_watts := fzero;
              idle_watts := tenth 2 total; platform_watts := None |};
  cr_namespaces := [{| nss_namespace := "prod"; nss_total_watts := tenth 8 total; nss_pod_count := 10 |}];
  carbon := {| intensity_grams_per_kwh := intensity; emissions_grams_per_hour := fmul (fdiv total (f_of_Z 1000)) intensity;
               cost_per_kwh := f_lit 10 100; currency := "USD" |};
  cr_node_count := 3; cr_pod_count := 10; avg_error_ratio := error_ratio; cr_timestamp := f_utc |}.
Definition f_evaluate (reg : ClusterRegistry) (policies : list Policy) : option (list PolicyViolation) :=
  evaluate f_now f_utc reg policies.
(** [violations.is_empty()], [violations.len()]. *)
Definition violation_count (n : nat) (o : option (list PolicyViolation)) : bool := on_some o (λ vs, assert_eq (length vs) n).

Definition test_evaluate_empty_no_violations : bool := violation_count 0 (f_evaluate ClusterRegistry_new []).

Definition test_disabled_policy_skipped : bool :=
  let reg := f_ingest (policy_make_cluster_report "prod" (f_of_Z 1000) (f_of_Z 400) (f_lit 50 100)) ClusterRegistry_new in
  violation_count 0 (f_evaluate reg
    [{| policy_name := "quality"; kind := MeteringQuality (f_lit 20 100); severity := Warning; enabled := false |}]).

Definition test_metering_quality_violation : bool :=
  let reg := f_ingest (policy_make_cluster_report "prod" (f_of_Z 1000) (f_of_Z 400) (f_lit 30 100)) ClusterRegistry_new in
  on_some (f_evaluate reg
    [{| policy_name := "quality"; kind := MeteringQuality (f_lit 20 100); severity := Warning; enabled := true |}])
    (λ vs, all_of [assert_eq (length vs) 1%nat;
                   on_index vs 0 (λ v, assert_eq (v_policy_name v) "quality" && fltb (f_lit 20 100) (current_value v))]).

Definition test_metering_quality_pass : bool :=
  let reg := f_ingest (policy_make_cluster_report "prod" (f_of_Z 1000) (f_of_Z 400) (f_lit 5 100)) ClusterRegistry_new in
  violation_count 0 (f_evaluate reg
    [{| policy_name := "quality"; kind := MeteringQuality (f_lit 20 100); severity := Warning; enabled := true |}]).

Definition test_team_power_budget_violation : bool :=
  let reg := f_ingest (policy_make_cluster_report "prod-cluster" (f_of_Z 10000) (f_of_Z 400) (f_lit 5 100))
    (set_namespace_owner "prod" "team-x" ClusterRegistry_new) in
  on_some (f_evaluate reg
    [{| policy_name := "team-budget"; kind := TeamPowerBudget "team-x" (f_of_Z 5000); severity := Critical; enabled := true |}])
    (λ vs, all_of [assert_eq (length vs) 1%nat;
                   on_index vs 0 (λ v, match v_subject v with AboutTeam t => String.eqb t "team-x" | _ => false end)]).

Definition test_team_power_budget_pass : bool :=
  let reg := f_ingest (policy_make_cluster_report "prod-cluster" (f_of_Z 1000) (f_of_Z 400) (f_lit 5 100))
    (set_namespace_owner "prod" "team-x" ClusterRegistry_new) in
  violation_count 0 (f_evaluate reg
    [{| policy_name := "team-budget"; kind := TeamPowerBudget "team-x" (f_of_Z 50000); severity := Critical; enabled := true |}]).

Definition test_carbon_intensity_preference_violation : bool :=
  let reg := f_ingest (policy_make_cluster_report "dirty-cluster" (f_of_Z 1000) (f_of_Z 800) (f_lit 5 100)) ClusterRegistry_new in
  on_some (f_evaluate reg
    [{| policy_name := "carbon-pref"; kind := CarbonIntensityPreference (f_of_Z 300); severity := Info; enabled := true |}])
    (λ vs, all_of [assert_eq (length vs) 1%nat;
                   on_index vs 0 (λ v, match v_subject v with AboutCluster c => String.eqb c "dirty-cluster" | _ => false end)]).

Definition test_carbon_intensity_preference_pass : bool :=
  let reg := f_ingest (policy_make_cluster_report "clean-cluster" (f_of_Z 1000) (f_of_Z 100) (f_lit 5 100)) ClusterRegistry_new in
  violation_count 0 (f_evaluate reg
    [{| policy_name := "carbon-pref"; kind := CarbonIntensityPreference (f_of_Z 300); severity := Info; enabled := true |}]).

Definition test_namespace_carbon_budget_violation : bool :=
  let reg := f_ingest (policy_make_cluster_report "prod-cluster" (f_of_Z 1000) (f_of_Z 400) (f_lit 5 100)) ClusterRegistry_new in
  violation_count 1 (f_evaluate reg
    [{| policy_name := "ns-carbon"; kind := NamespaceCarbonBudget "prod" (f_of_Z 1000); severity := Warning; enabled := true |}]).

Definition test_multiple_policies_multiple_violations : bool :=
  let reg := f_ingest (policy_make_cluster_report "bad-cluster" (f_of_Z 1000) (f_of_Z 800) (f_lit 30 100)) ClusterRegistry_new in
  violation_count 2 (f_evaluate reg
    [{| policy_name := "quality"; kind := MeteringQuality (f_lit 20 100); severity := Warning; enabled := true |};
     {| policy_name := "carbon"; kind := CarbonIntensityPreference (f_of_Z 300); severity := Info; enabled := true |}]).

Definition policy_tests : list (string * bool) :=
  [("evaluate_empty_no_violations", test_evaluate_empty_no_violations);
   ("disabled_policy_skipped", test_disabled_policy_skipped);
   ("metering_quality_violation", test_metering_quality_violation); ("metering_quality_pass", test_metering_quality_pass);
   ("team_power_budget_violation", test_team_power_budget_violation);
   ("team_power_budget_pass", test_team_power_budget_pass);
   ("carbon_intensity_preference_violation", test_carbon_intensity_preference_violation);
   ("carbon_intensity_preference_pass", test_carbon_intensity_preference_pass);
   ("namespace_carbon_budget_violation", test_namespace_carbon_budget_violation);
   ("multiple_policies_multiple_violations", test_multiple_policies_multiple_violations)].
Example policy_tests_run : failures policy_tests = [].
Proof. vm_compute. reflexivity. Qed.

(** ** keck-fleet/src/reporting/mod.rs *)

Definition reporting_make_cluster_report (name : string) (total intensity : f64) : ClusterReport := {|
  cluster_id := String.append "id-" name; cluster_name := name; region := "us-east-1"; provider := "bare-metal";
  power := {| total_watts := total; cpu_watts := tenth 6 total; memory_watts := tenth 2 total; gpu_watts := fzero;
              idle_watts := tenth 2 total; platform_watts := None |};
  cr_namespaces := [{| nss_namespace := "prod"; nss_total_watts := tenth 7 total; nss_pod_count := 10 |}];
  carbon := {| intensity_grams_per_kwh := intensity; emissions_grams_per_hour := fmul (fdiv total (f_of_Z 1000)) intensity;
               cost_per_kwh := f_lit 10 100; currency := "USD" |};
  cr_node_count := 3; cr_pod_count := 10; avg_error_ratio := f_lit 5 100; cr_timestamp := f_utc |}.
(** The date in the report's id is formatted by chrono. *)
Definition f_report (reg : ClusterRegistry) : option Report := generate_daily_report (λ _, "2023-11-14") f_utc f_now reg.

Definition test_generate_daily_report_empty_registry : bool :=
  on_some (f_report ClusterRegistry_new)
    (λ r, all_of [String.prefix "daily-" (rp_id r); assert_feq (fp_energy_kwh (rd_fleet (rp_data r))) fzero;
                  assert_feq (fp_carbon_kg (rd_fleet (rp_data r))) fzero; assert_eq (length (rd_clusters (rp_data r))) 0%nat]).

Definition test_generate_daily_report_with_data : bool :=
  let reg := f_ingest (reporting_make_cluster_report "prod" (f_of_Z 1000) (f_of_Z 400)) ClusterRegistry_new in
  on_some (f_report reg)
    (λ r, let fleet := rd_fleet (rp_data r) in
       all_of [assert_near f_1e_6 (fp_energy_kwh fleet) (f_of_Z 24); assert_near (f_lit 1 10) (fp_carbon_kg fleet) (f_lit 96 10);
               assert_near (f_lit 1 10) (fp_cost fleet) (f_lit 24 10); assert_eq (length (rd_clusters (rp_data r))) 1%nat]).

Definition test_daily_report_multiple_clusters : bool :=
  let reg := f_ingest (reporting_make_cluster_report "us" (f_of_Z 1000) (f_of_Z 400)) ClusterRegistry_new in
  let reg := f_ingest (reporting_make_cluster_report "eu" (f_of_Z 500) (f_of_Z 200)) reg in
  on_some (f_report reg)
    (λ r, all_of [assert_eq (length (rd_clusters (rp_data r))) 2%nat;
                  assert_near f_1e_6 (fp_energy_kwh (rd_fleet (rp_data r))) (f_of_Z 36)]).

Definition test_daily_report_teams : bool :=
  let reg := set_namespace_owner "prod" "platform" ClusterRegistry_new in
  let reg := f_ingest (reporting_make_cluster_report "prod-cluster" (f_of_Z 1000) (f_of_Z 400)) reg in
  on_some (f_report reg)
    (λ r, let teams := rd_teams (rp_data r) in
       all_of [negb (assert_eq (length teams) 0%nat);
               assert_some (list_find_p (λ t, String.eqb (tp_team t) "platform") teams)]).

Definition test_daily_report_avg_carbon_intensity : bool :=
  let reg := f_ingest (reporting_make_cluster_report "prod" (f_of_Z 1000) (f_of_Z 400)) ClusterRegistry_new in
  on_some (f_report reg) (λ r, assert_near fone (fp_avg_carbon_intensity (rd_fleet (rp_data r))) (f_of_Z 400)).

Definition reporting_tests : list (string * bool) :=
  [("generate_daily_report_empty_registry", test_generate_daily_report_empty_registry);
   ("generate_daily_report_with_data", test_generate_daily_report_with_data);
   ("daily_report_multiple_clusters", test_daily_report_multiple_clusters); ("daily_report_teams", test_daily_report_teams);
   ("daily_report_avg_carbon_intensity", test_daily_report_avg_carbon_intensity)].
Example reporting_tests_run : failures reporting_tests = [].
Proof. vm_compute. reflexivity. Qed.
